(* ===== verification/_CoqProject ===== *)
-Q . S2P
Prelude.v
Effects.v
GoStr.v
Json.v
Url.v
Time.v
Types.v
DeepCopy.v
RuntimeApi.v
Webhook.v
CloudApi.v
Scenario.v
EriClient.v
Provision.v
NodeController.v
Watch.v
DeviceController.v
DevicePlugin.v
Host.v
PluginServer.v
Metadata.v
Config.v
Aes.v
Credential.v
Cert.v
PodConfig.v
RuntimeService.v
Startup.v
Expose.v
RdmaUtils.v
PreStart.v
SmcrInit.v
NetDev.v
Drivers.v
Stacks.v
Agent.v
System.v
