(* ===== verification/Prelude.v ===== *)
(** * A verification development for alibabacloud-erdma-controller

    The program gives Kubernetes pods eRDMA, the elastic RDMA of Alibaba Cloud.
    It is two processes and an init container.  The controller (cmd/controller) watches nodes and its
    own ERdmaDevice objects: for a node it selects or creates the elastic RDMA
    interfaces (ERIs) of the node's instance and writes an ERdmaDevice; for an
    ERdmaDevice it attaches the interfaces and converts the primary one, and
    records a status for each.  It also serves an admission webhook.  The agent
    (cmd/agent) runs on every node: it waits for the node's ERdmaDevice,
    installs the eRDMA driver, configures each network device, finds its RDMA
    device and serves a kubelet device plugin for them.  For a pod that wants
    SMC-R, the init container (cmd/smcr_init), or the plugin's pre-start hook,
    turns the kernel's settings on in the pod's network namespace.

    *** How code is modelled

    Every Go function is a definition of the same name.  A function that calls
    the outside (the ECS API, the Kubernetes API server, the kernel, files,
    commands, the metadata server, the kubelet) is a [prog] of file Effects: a
    finite tree of calls whose replies the environment chooses, ending in a
    value, an [error] or a panic.  [exec p tr o] relates a program to the calls
    and replies [tr] it can make and the outcome [o]; no reply is assumed to be
    sensible unless a theorem says so.  A function that makes no call is a plain
    function, or an [outcome] when it can fail or panic.

    - A Go pointer is an [option]; dereferencing nil, indexing out of range and
      closing a closed channel are [Panic].  A slice is a list; a map is a
      [gmap].  The order of a range over a map is an argument (a list of codes
      that [reorder] reads), so a theorem holds for every order.
    - [int] and [int32] arithmetic is wrapped ([int64], [int32]) where it can
      overflow; durations saturate as [time.Sub] does.
    - Log calls are left out, but an argument of one that can panic is kept.
      The functions of samber/lo are read by their documentation.
    - State that outlives a call (the metadata token, the ENIs tagged by this
      process, the server of the device plugin, the clients of the container
      runtime, the STS credentials) is passed and returned.
    - What the source uses of Go's standard library is written out: [strings]
      and [strconv] (GoStr), [encoding/json] (Json), [net/url] (Url), AES, CBC
      and [encoding/base64] (Aes), [time] (Time), [encoding/pem] and [filepath]
      (Cert).  The JSON parser has fuel for the length of the
      document, which [parse_fuel] proves enough, and the package's own limit on
      nesting; a document that is printed is parsed back ([parse_print]).
    - [log.Fatal], [os.Exit(1)] and [panic(err)] are panics.
    - Loops that never end are given a number of rounds: [watchKubeletRestart]
      ([n] ticks), [WaitEriInfo] ([polls] listings) and [Run] (both).  Their
      theorems hold for every number.  [getRounds] recurses on the one retry the
      source makes; the metadata loop makes the four attempts of its [Backoff].
    - Libraries outside the repository enter as arguments with named laws:
      [WaitLib] (polling with a timeout) and [BackoffLib] (exponential backoff)
      are classes with an instance each, the JSON codec of apimachinery is a
      pair of functions.  Replies of the SDKs have a body when there is no error.
    - IP addresses are IPv4, the family the code asks the kernel for.

    - The API server is not code of the repository: System states what the
      reconcilers rely on as a relation between its stores, of which a server
      that keeps its objects in memory is an instance that can be run.

    *** What the theorems show

    - The planner and the driver of the cloud (EriClient, Provision): what is
      selected, within which bounds, when it fails, and that every change of the
      cloud is called for by a device.
    - The reconcilers (NodeController, DeviceController, Watch): which nodes wake
      the controller, which are served, when an object is created, when its
      devices become ready, and when they do not.
    - All of it together (System): any number of passes of both reconcilers,
      interleaved call by call, killed at any point, with outsiders that delete
      objects.  Every object of every reachable store was written for its node
      from the selection made for the node's instance; interfaces are attached
      only for such a selection; an agent serves what was selected for its node.
    - The agent (Drivers, NetDev, RdmaUtils, Expose, Agent): what is installed
      and configured, which devices are found, and how it fails.
    - The kubelet's side (DevicePlugin, PluginServer, PreStart, SmcrInit,
      PodConfig, RuntimeService): who gets which device, how long the server
      lives, what is run in a pod's namespace, and that the container runtime is
      only asked, never told.
    - Start-up (Config, Credential, Cert, Startup, Webhook): documents and
      secrets are read back as written, replicas agree on certificates, the
      manager starts only when what it serves is in place.
    - Termination: programs are finite trees, so an execution always ends
      ([exec_total]); the loops that are not bounded by data are treated above,
      and [stackLoop], which doubles a buffer until the stacks fit, ends within
      49 rounds ([stackTriger_ends]).

    *** Files

    - Prelude: machine integers, iteration orders, lists.
    - Effects: errors, outcomes, programs, executions, and the rules to reason
      about them ([triple], [only], [after]).
    - GoStr: the functions of [strings] and [strconv] in use.  Time: instants,
      the calendar ([civil_round_trip]) and [time.Parse].
    - Types: internal/types and api/v1.  DeepCopy: the generated copies of
      api/v1 over a heap of arrays: a copy shares its devices and statuses.
    - Json, Url: documents and endpoints.  Aes: the cipher, with the vectors of
      its standard, and that each mode undoes the other.
    - CloudApi: the calls of the reconcilers.  RuntimeApi, Host: the calls of a
      process: files, commands, the kernel, the kubelet, the container runtime,
      keys, and the set-up of a process of the cluster.
    - Scenario: a concrete cloud and cluster for the witnesses.
    - EriClient: internal/controller/eri.go.  Its planner ([SelectEriFromExist])
      gives each network card at most one ENI, stays within the instance's queue
      pairs, takes over only what it may, and fails exactly when nothing can
      serve; the driver of an object's devices ([EnsureEriForInstance]) refines a
      per-device state machine ([device_step]), and every change it makes is
      justified by a device ([justified]).
    - Provision: theorems on [SelectERIs] and [CreateEriForInstance]: what is
      selected against a cloud that describes itself as documented, and what is
      changed against any; an ENI can be selected for two cards.
    - NodeController: internal/controller/node_controller.go.  Every pass is one
      of [node_pass]'s cases; only nodes that are ready (or past their grace
      period) and not deleted are served; tags are backfilled once.
    - Watch: the two SetupWithManager methods: the events that pass the filter
      and the requests they become; no node that becomes ready is missed.
    - DeviceController: internal/controller/erdmadevice_controller.go, on top of
      EriClient: settled objects are left alone, two passes suffice when the
      cloud does what it accepted, and a pass can stall while it is attaching.
    - Config: internal/config/config.go: which defaults are filled in and which
      field gets none, and that every field is read from its own name.
    - Credential: internal/controller/credential.go: sealed credentials are
      resolved to themselves, a refresh that fails changes nothing, and which
      secrets make the decryption panic.
    - Cert: internal/cert/webhook.go: what a replica installs, and that replicas
      agree ([history] is the API server's life of the secret, all replicas'
      calls interleaved); what is generated is valid for a century.
    - Startup: cmd/controller/main.go, [NewEriClient] and [getCredential]: what
      has happened when the manager starts.
    - DevicePlugin, PluginServer: internal/deviceplugin/deviceplugin.go and
      pod_resource.go: the ids advertised, who gets which device files, and the
      life cycle of the server with its stop channel.
    - PodConfig: internal/deviceplugin/pod_config.go: the choice of a container
      runtime, the methods of its client in both versions of the API, and what
      the runtime says of a pod.  RuntimeService: the same client as the interface
      the kubelet knows, with the methods that make no request.  PreStart: the
      hook of deviceplugin.go, on top of PluginServer, PodConfig and RdmaUtils.
    - Metadata: internal/utils/metadata.go: retries and the cached token.
    - Expose: [checkExpose] of internal/drivers/utils_linux.go; its regular
      expression is matched by derivatives, proved equivalent to the language.
    - RdmaUtils: the rest of utils_linux.go: RDMA devices, GUIDs, SMC-R ids.
    - NetDev: internal/drivers/netdev.go and mtu.go.  [kernel_run] is the routing
      table the kernel keeps; success of [ensureRoutes] settles it.
    - Drivers: [Install] and [ProbeDevice] of each driver and of the interface,
      [GetDriver].
    - SmcrInit: cmd/smcr_init/main.go; its network id is that of a device the
      plugin granted.
    - Agent: cmd/agent/main.go, internal/agent/agent.go and internal/k8s/k8s.go,
      tying the agent's components together.  Stacks: the agent's handler of
      SIGUSR1.
    - System: the reconcilers over a shared store, and the agents that read it
      ([world_step], [reachable], [world_ok]).
    - Webhook: internal/webhook/mutating.go.

    *** What is not modelled

    Scheme registration, the stubs for platforms other than Linux and the fake
    driver of the tests have no logic of the program or are not part of it.  Of
    the two main functions, the logging flags are left out.  The goroutines of
    one agent (the plugin's server, its handlers, the signal handler) are
    modelled one at a time; what they leave to each other is passed as state.
    Deadlines and pauses are not modelled: a call that runs out of time is a call
    that fails.  The entry of the token cache does not expire in the model: it is
    what the cache holds when it is asked.  File permissions are left out. *)

From stdpp Require Export base tactics list gmap strings pretty sorting.
From Stdlib Require Export Ascii ZArith Lia.

Open Scope Z_scope.

(** ** Machine integers

    Go's [int] is 64 bits on the platforms the images are built for; [int32]
    is used by the ECS SDK.  A value is its signed reading, and every
    arithmetic operation of the source that can overflow is wrapped. *)

Definition wrap (w z : Z) : Z := (z + 2 ^ (w - 1)) `mod` 2 ^ w - 2 ^ (w - 1).

Definition int32 (z : Z) : Z := wrap 32 z.

Definition int64 (z : Z) : Z := wrap 64 z.

Definition in_range (w z : Z) : Prop := - 2 ^ (w - 1) ≤ z < 2 ^ (w - 1).

(** The iteration order of a Go map is unspecified.  [reorder codes l] is the
    permutation of [l] selected by [codes]; the runtime chooses the codes. *)

Fixpoint insert_at {A} (n : nat) (x : A) (l : list A) : list A :=
  match n, l with
  | O, _ | _, [] => x :: l
  | S n, y :: l => y :: insert_at n x l
  end.

Fixpoint reorder {A} (codes : list nat) (l : list A) : list A :=
  match l with
  | [] => []
  | x :: l => insert_at (default 0%nat (head codes)) x (reorder (tail codes) l)
  end.

(** [find_first p l] is the first element of [l] that satisfies [p]. *)
Fixpoint find_first {A} (p : A → bool) (l : list A) : option A :=
  match l with
  | [] => None
  | x :: l => if p x then Some x else find_first p l
  end.

(** [index_of p l] is the position of the first such element. *)
Fixpoint index_of {A} (p : A → bool) (l : list A) : option nat :=
  match l with
  | [] => None
  | x :: l => if p x then Some O else S <$> index_of p l
  end.

Fixpoint sum_Z {A} (f : A → Z) (l : list A) : Z :=
  match l with
  | [] => 0
  | x :: l => f x + sum_Z f l
  end.

(** ** Automation *)

Create HintDb go discriminated.
Create Rewrite HintDb go.

(** Case analysis on every [match] and decision of the goal and hypotheses. *)
Ltac go_cases :=
  repeat (simplify_eq/=; try case_match; try case_decide; try case_bool_decide).

(** ** Integer lemmas *)

Lemma wrap_range w z : 0 < w → in_range w (wrap w z).
Proof.
  intros Hw. unfold in_range, wrap.
  assert (2 ^ w = 2 * 2 ^ (w - 1)) as E.
  { rewrite <- Z.pow_succ_r by lia. f_equal. lia. }
  pose proof (Z.mod_pos_bound (z + 2 ^ (w - 1)) (2 ^ w)) as Hb.
  assert (0 < 2 ^ (w - 1)) by (apply Z.pow_pos_nonneg; lia).
  lia.
Qed.

Lemma wrap_id w z : in_range w z → wrap w z = z.
Proof.
  unfold in_range, wrap. intros [Hl Hu].
  destruct (decide (0 < w)) as [Hw|Hw].
  - assert (2 ^ w = 2 * 2 ^ (w - 1)) as E.
    { rewrite <- Z.pow_succ_r by lia. f_equal. lia. }
    rewrite Z.mod_small by lia. lia.
  - assert (2 ^ (w - 1) = 0) as E by (apply Z.pow_neg_r; lia). lia.
Qed.

Lemma int32_id z : -2147483648 ≤ z < 2147483648 → int32 z = z.
Proof. intros H. apply wrap_id. exact H. Qed.

Lemma int64_id z : -9223372036854775808 ≤ z < 9223372036854775808 → int64 z = z.
Proof. intros H. apply wrap_id. exact H. Qed.

Lemma int32_range z : -2147483648 ≤ int32 z < 2147483648.
Proof. apply (wrap_range 32 z). lia. Qed.

Lemma int64_range z : -9223372036854775808 ≤ int64 z < 9223372036854775808.
Proof. apply (wrap_range 64 z). lia. Qed.

(** ** List lemmas *)

Lemma insert_at_perm {A} n (x : A) l : insert_at n x l ≡ₚ x :: l.
Proof.
  revert n; induction l as [|y l IH]; intros [|n]; simpl; try done.
  rewrite IH. apply Permutation_swap.
Qed.

Lemma reorder_perm {A} codes (l : list A) : reorder codes l ≡ₚ l.
Proof.
  revert codes; induction l as [|x l IH]; intros codes; simpl; [done|].
  by rewrite insert_at_perm, IH.
Qed.

Lemma elem_of_reorder {A} codes (l : list A) x : x ∈ reorder codes l ↔ x ∈ l.
Proof. by rewrite reorder_perm. Qed.

Lemma insert_at_middle {A} (l1 l2 : list A) x :
  insert_at (length l1) x (l1 ++ l2) = l1 ++ x :: l2.
Proof. induction l1 as [|y l1 IH]; simpl; [by destruct l2 | by rewrite IH]. Qed.

(** Every iteration order is one the runtime may choose. *)
Lemma reorder_complete {A} (l l' : list A) :
  l' ≡ₚ l → ∃ codes, reorder codes l = l'.
Proof.
  revert l'; induction l as [|x l IH]; intros l' Hp.
  - exists []. by apply Permutation_nil_r in Hp as ->.
  - assert (∃ l1 l2, l' = l1 ++ x :: l2) as (l1 & l2 & ->).
    { apply list_elem_of_split. rewrite Hp. set_solver. }
    rewrite <- Permutation_middle in Hp. apply Permutation_cons_inv in Hp.
    destruct (IH _ Hp) as [codes Hc]. exists (length l1 :: codes). simpl.
    by rewrite Hc, insert_at_middle.
Qed.

Lemma find_first_Some {A} (p : A → bool) l x :
  find_first p l = Some x →
  ∃ l1 l2, l = l1 ++ x :: l2 ∧ p x = true ∧ Forall (λ y, p y = false) l1.
Proof.
  induction l as [|y l IH]; simpl; [done|].
  destruct (p y) eqn:Hy; intros H; simplify_eq.
  - by exists [], l.
  - destruct (IH H) as (l1 & l2 & -> & Hx & Hf). exists (y :: l1), l2. eauto.
Qed.

Lemma find_first_None {A} (p : A → bool) l :
  find_first p l = None ↔ Forall (λ y, p y = false) l.
Proof.
  induction l as [|y l IH]; simpl; [done|].
  rewrite Forall_cons. destruct (p y) eqn:Hy; naive_solver.
Qed.

Lemma index_of_Some {A} (p : A → bool) l n :
  index_of p l = Some n →
  ∃ x, l !! n = Some x ∧ p x = true ∧ l = take n l ++ x :: drop (S n) l.
Proof.
  revert n; induction l as [|y l IH]; intros n; simpl; [done|].
  destruct (p y) eqn:Hy; intros H; simplify_eq; [by exists y|].
  destruct (index_of p l) as [m|]; simplify_eq/=.
  destruct (IH m eq_refl) as (x & Hm & Hx & El). exists x.
  split_and!; [done..|]. by rewrite El at 1.
Qed.

Lemma index_of_None {A} (p : A → bool) l :
  index_of p l = None ↔ Forall (λ y, p y = false) l.
Proof.
  induction l as [|y l IH]; simpl; [done|].
  rewrite Forall_cons, <- IH. destruct (p y), (index_of p l); naive_solver.
Qed.

(** A list holds the only element with a property at one place. *)
Lemma split_unique {A} (P : A → Prop) l1 x l2 l1' x' l2' :
  l1 ++ x :: l2 = l1' ++ x' :: l2' → P x → P x' →
  Forall (λ y, ¬ P y) l1' → Forall (λ y, ¬ P y) l2' → l1 = l1' ∧ x = x' ∧ l2 = l2'.
Proof.
  intros E Hx Hx' H1 H2. revert l1' H1 E. induction l1 as [|y l1 IH]; intros [|y' l1'] H1 E.
  - by injection E.
  - injection E as -> _. by apply Forall_cons in H1 as [? _].
  - injection E as -> <-. exfalso. rewrite Forall_forall in H2. apply (H2 x); [set_solver|done].
  - injection E as -> E. apply Forall_cons in H1 as [_ H1].
    by destruct (IH l1' H1 E) as (-> & -> & ->).
Qed.

Lemma sum_Z_app {A} (f : A → Z) l1 l2 : sum_Z f (l1 ++ l2) = sum_Z f l1 + sum_Z f l2.
Proof. induction l1 as [|x l1 IH]; simpl; [done | rewrite IH; lia]. Qed.

Lemma sum_Z_nonneg {A} (f : A → Z) l : Forall (λ x, 0 ≤ f x) l → 0 ≤ sum_Z f l.
Proof. induction 1; simpl; lia. Qed.

Lemma sum_Z_bound {A} (f : A → Z) (b : Z) l :
  Forall (λ x, f x ≤ b) l → sum_Z f l ≤ b * Z.of_nat (length l).
Proof. induction 1; simpl; lia. Qed.

Lemma sum_Z_sublist {A} (f : A → Z) l1 l2 :
  Forall (λ x, 0 ≤ f x) l2 → l1 `sublist_of` l2 → sum_Z f l1 ≤ sum_Z f l2.
Proof.
  intros Hf Hs. induction Hs; inversion Hf; simplify_eq/=; [done|..].
  - specialize (IHHs H2). lia.
  - specialize (IHHs H2). lia.
Qed.

Lemma sum_Z_fmap {A B} (f : B → Z) (g : A → B) l : sum_Z f (g <$> l) = sum_Z (λ x, f (g x)) l.
Proof. induction l as [|x l IH]; [done|]. rewrite fmap_cons. simpl. by rewrite IH. Qed.

Lemma sum_Z_ext {A} (f g : A → Z) l : Forall (λ x, f x = g x) l → sum_Z f l = sum_Z g l.
Proof. induction 1; simpl; congruence. Qed.

Lemma sum_Z_elem {A} (f : A → Z) l x : Forall (λ y, 0 ≤ f y) l → x ∈ l → f x ≤ sum_Z f l.
Proof.
  intros Hf Hx. apply list_elem_of_split in Hx as (l1 & l2 & ->).
  rewrite sum_Z_app. apply Forall_app in Hf as [H1 [Hx H2]%Forall_cons]. simpl.
  pose proof (sum_Z_nonneg _ _ H1). pose proof (sum_Z_nonneg _ _ H2). lia.
Qed.

Lemma sum_Z_partition {A} (f : A → Z) (p : A → bool) l :
  sum_Z f l = sum_Z f (List.filter p l) + sum_Z f (List.filter (λ x, negb (p x)) l).
Proof. induction l as [|x l IH]; simpl; [done|]. destruct (p x); simpl; lia. Qed.

Lemma elem_of_filter_bool {A} (p : A → bool) l x :
  x ∈ List.filter p l ↔ x ∈ l ∧ p x = true.
Proof. rewrite !list_elem_of_In. apply filter_In. Qed.

Lemma filter_all {A} (P : A → Prop) `{∀ x, Decision (P x)} l : Forall P l → filter P l = l.
Proof.
  induction 1 as [|x l Hx _ IH]; [done|]. by rewrite filter_cons_True, IH.
Qed.

Lemma sublist_filter_bool {A} (p : A → bool) (l1 l2 : list A) :
  l1 `sublist_of` l2 → Forall (λ x, p x = true) l1 → l1 `sublist_of` List.filter p l2.
Proof.
  induction 1 as [|x l1 l2 _ IH|x l1 l2 _ IH]; simpl; [done|..].
  - intros [Hx H]%Forall_cons. rewrite Hx. constructor. auto.
  - intros H. destruct (p x); [apply sublist_cons|]; auto.
Qed.

Lemma fmap_bind_list {A B C} (g : B → C) (f : A → list B) l :
  g <$> (l ≫= f) = l ≫= λ x, g <$> f x.
Proof. induction l as [|x l IH]; [done|]. by rewrite !bind_cons, fmap_app, IH. Qed.

#[export] Hint Rewrite @sum_Z_app @sum_Z_fmap @elem_of_filter_bool : go.
