(* ===== verification/Effects.v ===== *)
(** * Effects: Go functions as finite trees of external calls

    A function of the program is a [prog]: it either ends with an [outcome]
    (a value, an [error] or a panic) or makes one external call (a cloud API,
    the Kubernetes API server, the clock, the kernel) and continues with
    whatever reply comes back.  Nothing is assumed of a reply: it is chosen by
    the environment.  [exec p tr o] says that [p] can make the calls of the
    trace [tr], with the replies recorded there, and end with [o]; [run]
    executes [p] against a given environment.  A property of every execution
    is a [triple]. *)

From S2P Require Import Prelude.
From Stdlib Require Export Eqdep.

(** ** Errors and outcomes *)

(** The [reason] of a Kubernetes status error, the code of a gRPC status, or
    whether a system call failed because the file does not exist; [Other] for
    every other cause.  [MetaError]
    is the [Error] type of internal/utils/metadata.go. *)
Inductive StatusReason := NotFound | AlreadyExists | Unimplemented | Other.

Inductive error :=
  | ApiError (reason : StatusReason) (msg : string)
  | MetaError (code url : string) (inner : option error)
  | Errorf (format : string) (args : list string) (wrapped : option error).

(** [fmt]: each verb of the format takes the next argument, already rendered;
    [%w] takes the wrapped error's text. *)
Fixpoint render (format : string) (args : list string) (w : string) : string :=
  match format with
  | String "%"%char (String "w"%char rest) => w +:+ render rest args w
  | String "%"%char (String _ rest) =>
      match args with
      | a :: args => a +:+ render rest args w
      | [] => render rest [] w
      end
  | String c rest => String c (render rest args w)
  | EmptyString => EmptyString
  end.

(** The [Error] method. *)
Fixpoint error_string (e : error) : string :=
  match e with
  | ApiError _ msg => msg
  | MetaError code url inner =>
      render "get from metaserver failed code: %s, url: %s, err: %s"
        [code; url; match inner with Some e => error_string e | None => "%!s(<nil>)" end] EmptyString
  | Errorf format args wrapped =>
      render format args (match wrapped with Some w => error_string w | None => EmptyString end)
  end.

(** [errors.IsNotFound] of apimachinery looks through wrapped errors. *)
Fixpoint IsNotFound (e : error) : bool :=
  match e with
  | ApiError NotFound _ => true
  | ApiError _ _ | MetaError _ _ _ => false
  | Errorf _ _ wrapped => match wrapped with Some w => IsNotFound w | None => false end
  end.

(** Why a goroutine stops without returning. *)
Inductive fault :=
  | NilDeref
  | IndexOutOfRange
  | Panicked (msg : string)
  | Fatal (msg : string).

Inductive outcome (A : Type) :=
  | Ret (a : A)
  | Err (e : error)
  | Panic (f : fault).
Arguments Ret {A} a.
Arguments Err {A} e.
Arguments Panic {A} f.

(** The reply of an API call: a response or an error. *)
Definition result (A : Type) : Type := A + error.

Definition of_result {A} (r : result A) : outcome A :=
  match r with inl a => Ret a | inr e => Err e end.

Definition outcome_bind {A B} (f : A → outcome B) (o : outcome A) : outcome B :=
  match o with Ret a => f a | Err e => Err e | Panic p => Panic p end.

#[export] Instance outcome_ret : MRet outcome := λ A a, Ret a.
#[export] Instance outcome_mbind : MBind outcome := @outcome_bind.

(** ** Programs *)

Record Sig := { call : Type; reply : call → Type }.

Inductive event (S : Sig) := Event (c : call S) (r : reply S c).
Arguments Event {S} c r.

Definition trace (S : Sig) : Type := list (event S).

Inductive prog (S : Sig) (A : Type) :=
  | Done (o : outcome A)
  | Do (c : call S) (k : reply S c → prog S A).
Arguments Done {S A} o.
Arguments Do {S A} c k.

Fixpoint prog_bind {S A B} (f : A → prog S B) (p : prog S A) : prog S B :=
  match p with
  | Done (Ret a) => f a
  | Done (Err e) => Done (Err e)
  | Done (Panic x) => Done (Panic x)
  | Do c k => Do c (λ r, prog_bind f (k r))
  end.

#[export] Instance prog_ret S : MRet (prog S) := λ A a, Done (Ret a).
#[export] Instance prog_mbind S : MBind (prog S) := λ A B, prog_bind.
#[export] Instance prog_fmap S : FMap (prog S) := λ A B f p, prog_bind (λ a, Done (Ret (f a))) p.

(** [err] of a Go call, handled by the caller: panics are not caught. *)
Fixpoint try {S A} (p : prog S A) : prog S (result A) :=
  match p with
  | Done (Ret a) => Done (Ret (inl a))
  | Done (Err e) => Done (Ret (inr e))
  | Done (Panic x) => Done (Panic x)
  | Do c k => Do c (λ r, try (k r))
  end.

Definition perform {S : Sig} (c : call S) : prog S (reply S c) :=
  Do c (λ r, Done (Ret r)).

(** Both monads can stop with an outcome. *)
Class MOutcome (M : Type → Type) := moutcome : ∀ {A}, outcome A → M A.
#[export] Instance outcome_moutcome : MOutcome outcome := λ A o, o.
#[export] Instance prog_moutcome S : MOutcome (prog S) := λ A, Done.

Definition throw {M A} `{MOutcome M} (e : error) : M A := moutcome (Err e).

Definition panic {M A} `{MOutcome M} (x : fault) : M A := moutcome (Panic x).

Definition errorf {M A} `{MOutcome M} (format : string) (args : list string) : M A :=
  throw (Errorf format args None).

(** Pointer dereference and slice indexing. *)
Definition deref {M A} `{MOutcome M} (x : option A) : M A :=
  moutcome (match x with Some a => Ret a | None => Panic NilDeref end).

Definition index {M A} `{MOutcome M} (l : list A) (i : nat) : M A :=
  moutcome (match l !! i with Some a => Ret a | None => Panic IndexOutOfRange end).

(** A loop over a slice that updates local variables. *)
Fixpoint for_each {M A St} `{MBind M, MRet M} (l : list A) (s : St)
    (body : A → St → M St) : M St :=
  match l with
  | [] => mret s
  | x :: l => body x s ≫= λ s', for_each l s' body
  end.

(** ** Executions *)

Fixpoint exec {S A} (p : prog S A) (tr : trace S) (o : outcome A) : Prop :=
  match p with
  | Done o' => tr = [] ∧ o = o'
  | Do c k => ∃ r tr', tr = Event c r :: tr' ∧ exec (k r) tr' o
  end.

(** An environment answers a call given the calls made before it. *)
Definition Env (S : Sig) : Type := ∀ (h : trace S) (c : call S), reply S c.

Fixpoint run {S A} (env : Env S) (h : trace S) (p : prog S A) : outcome A * trace S :=
  match p with
  | Done o => (o, [])
  | Do c k =>
      let r := env h c in
      let '(o, tr) := run env (h ++ [Event c r]) (k r) in
      (o, Event c r :: tr)
  end.

Definition triple {S A} (p : prog S A) (Q : trace S → outcome A → Prop) : Prop :=
  ∀ tr o, exec p tr o → Q tr o.

(** Every call of every execution satisfies [P]. *)
Definition only {S A} (P : event S → Prop) (p : prog S A) : Prop :=
  triple p (λ tr _, Forall P tr).

(** Every panic of every execution satisfies [P]. *)
Definition panics {S A} (P : fault → Prop) (p : prog S A) : Prop :=
  triple p (λ _ o, match o with Panic f => P f | _ => True end).

(** What a program may still satisfy once its first part has run. *)
Definition after {S A B} (f : A → prog S B) (Q : trace S → outcome B → Prop)
    (tr : trace S) (o : outcome A) : Prop :=
  match o with
  | Ret a => triple (f a) (λ tr' o', Q (tr ++ tr') o')
  | Err e => Q tr (Err e)
  | Panic x => Q tr (Panic x)
  end.

(** ** Laws *)

Lemma Event_inj {S : Sig} (c : call S) (r r' : reply S c) : Event c r = Event c r' → r = r'.
Proof. intros H. injection H as H. exact (inj_pair2 _ _ _ _ _ H). Qed.

Section Laws.
Context {S : Sig}.
Implicit Types (tr : trace S).

Lemma run_exec {A} (env : Env S) h (p : prog S A) :
  exec p (run env h p).2 (run env h p).1.
Proof.
  revert h; induction p as [o|c k IH]; intros h; simpl; [done|].
  specialize (IH (env h c) (h ++ [Event c (env h c)])).
  destruct (run env _ (k (env h c))) as [o tr] eqn:E; simpl in *. eauto.
Qed.

Lemma triple_run {A} (env : Env S) h (p : prog S A) Q :
  triple p Q → Q (run env h p).2 (run env h p).1.
Proof. intros H. apply H, run_exec. Qed.

Lemma run_returns {A} (env : Env S) (p : prog S A) o :
  (run env [] p).1 = o → exec p (run env [] p).2 o.
Proof. intros <-. apply run_exec. Qed.

(** The replies of a run are the environment's. *)
Lemma run_replies {A} (env : Env S) h (p : prog S A) :
  Forall (λ ev, ∃ h' c, ev = Event c (env h' c)) (run env h p).2.
Proof.
  revert h; induction p as [o|c k IH]; intros h; simpl; [constructor|].
  specialize (IH (env h c) (h ++ [Event c (env h c)])).
  destruct (run env _ (k (env h c))) as [o tr]. constructor; [by exists h, c|exact IH].
Qed.

(** Every program ends: some execution exists, whatever the replies. *)
Lemma exec_total {A} (env : Env S) (p : prog S A) : ∃ tr o, exec p tr o.
Proof. eexists _, _. apply (run_exec env []). Qed.

Lemma exec_done {A} (o o' : outcome A) tr : exec (Done o) tr o' ↔ tr = [] ∧ o' = o.
Proof. done. Qed.

Lemma exec_bind {A B} (f : A → prog S B) (p : prog S A) tr o :
  exec (p ≫= f) tr o ↔
    ∃ tr1 o1, exec p tr1 o1 ∧
      match o1 with
      | Ret a => ∃ tr2, tr = tr1 ++ tr2 ∧ exec (f a) tr2 o
      | Err e => tr = tr1 ∧ o = Err e
      | Panic x => tr = tr1 ∧ o = Panic x
      end.
Proof.
  unfold mbind, prog_mbind. revert tr; induction p as [o'|c k IH]; intros tr; simpl.
  - split.
    + intros H. exists [], o'. split; [done|]. destruct o'; simpl in *; naive_solver.
    + intros (tr1 & o1 & [-> ->] & H). destruct o'; simpl in *; naive_solver.
  - setoid_rewrite IH. split.
    + intros (r & tr' & -> & tr1 & o1 & He & H).
      exists (Event c r :: tr1), o1. split; [by eauto|].
      destruct o1; simpl; naive_solver.
    + intros (tr1' & o1 & (r & tr1 & -> & He) & H). destruct o1 as [a|e|x].
      * destruct H as (tr2 & -> & He2).
        exists r, (tr1 ++ tr2). split; [done|]. exists tr1, (Ret a). eauto.
      * destruct H as [-> ->]. exists r, tr1. split; [done|]. by exists tr1, (Err e).
      * destruct H as [-> ->]. exists r, tr1. split; [done|]. by exists tr1, (Panic x).
Qed.

Lemma exec_try {A} (p : prog S A) tr o :
  exec (try p) tr o ↔
    ∃ o1, exec p tr o1 ∧
      o = match o1 with
          | Ret a => Ret (inl a)
          | Err e => Ret (inr e)
          | Panic x => Panic x
          end.
Proof.
  revert tr; induction p as [o'|c k IH]; intros tr; simpl.
  - destruct o'; simpl; naive_solver.
  - setoid_rewrite IH. naive_solver.
Qed.

Lemma triple_done {A} (o : outcome A) Q : Q [] o → triple (S:=S) (Done o) Q.
Proof. by intros H tr o' [-> ->]. Qed.

Lemma triple_ret {A} (a : A) Q : Q [] (Ret a) → triple (S:=S) (mret a) Q.
Proof. apply triple_done. Qed.

Lemma triple_perform (c : call S) Q :
  (∀ r, Q [Event c r] (Ret r)) → triple (perform c) Q.
Proof. intros H tr o (r & tr' & -> & -> & ->). apply H. Qed.

Lemma triple_bind {A B} (f : A → prog S B) (p : prog S A) Q :
  triple p (after f Q) → triple (p ≫= f) Q.
Proof.
  intros H tr o He. apply exec_bind in He as (tr1 & o1 & He & H1).
  specialize (H _ _ He). destruct o1; simpl in *.
  - destruct H1 as (tr2 & -> & H1). by apply H.
  - by destruct H1 as [-> ->].
  - by destruct H1 as [-> ->].
Qed.

Lemma triple_try {A} (p : prog S A) Q :
  triple p (λ tr o, Q tr match o with
                         | Ret a => Ret (inl a)
                         | Err e => Ret (inr e)
                         | Panic x => Panic x
                         end) → triple (try p) Q.
Proof. intros H tr o (o1 & He & ->)%exec_try. by apply H. Qed.

Lemma triple_mono {A} (p : prog S A) (P Q : trace S → outcome A → Prop) :
  triple p P → (∀ tr o, P tr o → Q tr o) → triple p Q.
Proof. intros H HPQ tr o He. by apply HPQ, H. Qed.

Lemma triple_and {A} (p : prog S A) P Q :
  triple p P → triple p Q → triple p (λ tr o, P tr o ∧ Q tr o).
Proof. intros HP HQ tr o He. split; [by apply HP | by apply HQ]. Qed.

(** The invariant rule for loops: [I] relates the elements done so far, the
    calls they made and the loop variables. *)
Lemma triple_for_each {A St} (l : list A) (s : St) body
    (I : list A → trace S → St → Prop) (Q : trace S → outcome St → Prop) :
  I [] [] s →
  (∀ l1 x l2 tr s', l = l1 ++ x :: l2 → I l1 tr s' →
     triple (body x s') (λ tr' o,
       match o with
       | Ret s'' => I (l1 ++ [x]) (tr ++ tr') s''
       | _ => Q (tr ++ tr') o
       end)) →
  (∀ tr s', I l tr s' → Q tr (Ret s')) →
  triple (for_each l s body) Q.
Proof.
  intros H0 Hstep Hend.
  enough (∀ l2 l1 tr s', l = l1 ++ l2 → I l1 tr s' →
    triple (for_each l2 s' body) (λ tr' o, Q (tr ++ tr') o)) as Hgen.
  { specialize (Hgen l [] [] s eq_refl H0). apply Hgen. }
  induction l2 as [|x l2 IH]; intros l1 tr s' -> HI; simpl.
  - apply triple_ret. rewrite !app_nil_r in *. by apply Hend.
  - apply triple_bind. eapply triple_mono; [by eapply Hstep|].
    intros tr' [s''|e|y] H; simpl; [|done..].
    eapply triple_mono; [apply (IH (l1 ++ [x]) (tr ++ tr'))|]; [|done|].
    + by rewrite <- app_assoc.
    + intros tr'' o H'. by rewrite (assoc_L (++)).
Qed.

(** ** Which calls a program makes *)

Lemma only_done (P : event S → Prop) {A} (o : outcome A) : only P (Done o).
Proof. by intros tr o' [-> ->]. Qed.

Lemma only_bind (P : event S → Prop) {A B} (f : A → prog S B) (p : prog S A) :
  only P p → (∀ a, only P (f a)) → only P (p ≫= f).
Proof.
  intros Hp Hf. apply triple_bind. eapply triple_mono; [apply Hp|].
  intros tr [a|e|x] Htr; simpl; [|done..].
  eapply triple_mono; [apply Hf|]. intros tr' o Htr'. by apply Forall_app.
Qed.

Lemma only_do (P : event S → Prop) {A} (c : call S) (k : reply S c → prog S A) :
  (∀ r, P (Event c r)) → (∀ r, only P (k r)) → only P (Do c k).
Proof. intros Hc Hk tr o (r & tr' & -> & H). constructor; [done|by eapply Hk]. Qed.

Lemma only_perform (P : event S → Prop) (c : call S) :
  (∀ r, P (Event c r)) → only P (perform c).
Proof. intros Hc. apply only_do; [done|]. intros r. apply only_done. Qed.

Lemma only_try (P : event S → Prop) {A} (p : prog S A) : only P p → only P (try p).
Proof. intros H. apply triple_try. eapply triple_mono; [apply H|]. done. Qed.

Lemma only_for_each (P : event S → Prop) {A St} (l : list A) (s : St) body :
  (∀ x s, only P (body x s)) → only P (for_each l s body).
Proof.
  intros H. revert s; induction l as [|x l IH]; intros s'; simpl; [apply only_done|].
  by apply only_bind.
Qed.

Lemma only_mono (P Q : event S → Prop) {A} (p : prog S A) :
  (∀ ev, P ev → Q ev) → only P p → only Q p.
Proof. intros HPQ H tr o He. eapply Forall_impl; [exact (H _ _ He)|done]. Qed.

(** ** How a program panics *)

Lemma panics_outcome (P : fault → Prop) {A} (o : outcome A) :
  match o with Panic f => P f | _ => True end → panics (S:=S) P (Done o).
Proof. intros H tr o' [_ ->]. done. Qed.

Lemma panics_bind (P : fault → Prop) {A B} (f : A → prog S B) (p : prog S A) :
  panics P p → (∀ a, panics P (f a)) → panics P (p ≫= f).
Proof.
  intros Hp Hf. apply triple_bind. eapply triple_mono; [apply Hp|].
  intros tr [a|e|x] H; simpl; [|done..]. apply Hf.
Qed.

Lemma panics_perform (P : fault → Prop) (c : call S) : panics P (perform c).
Proof. by apply triple_perform. Qed.

Lemma panics_try (P : fault → Prop) {A} (p : prog S A) : panics P p → panics P (try p).
Proof. intros H. apply triple_try. eapply triple_mono; [apply H|]. by intros tr []. Qed.

Lemma panics_for_each (P : fault → Prop) {A St} (l : list A) (s : St) body :
  (∀ x s, x ∈ l → panics (S:=S) P (body x s)) → panics P (for_each l s body).
Proof.
  revert s; induction l as [|x l IH]; intros s H; simpl; [by apply panics_outcome|].
  apply panics_bind; [apply H; by left|]. intros s'. apply IH. intros y s'' Hy. apply H. by right.
Qed.

(** A program whose outcome is known never to be a panic. *)
Lemma panics_never (P : fault → Prop) {A} (p : prog S A) (Q : trace S → outcome A → Prop) :
  triple p Q → (∀ tr f, ¬ Q tr (Panic f)) → panics P p.
Proof. intros H HQ tr [a|e|f] Hx; [done..|]. by destruct (HQ tr f (H _ _ Hx)). Qed.

End Laws.

(** ** Loops that neither fail nor call *)

Lemma for_each_inv {A St} (l : list A) (s : St) (body : A → St → outcome St)
    (I : list A → St → Prop) :
  I [] s →
  (∀ l1 x l2 s', l = l1 ++ x :: l2 → I l1 s' →
     ∃ s'', body x s' = Ret s'' ∧ I (l1 ++ [x]) s'') →
  ∃ s', for_each l s body = Ret s' ∧ I l s'.
Proof.
  intros H0 Hstep.
  enough (∀ l2 l1 s', l = l1 ++ l2 → I l1 s' →
    ∃ s'', for_each l2 s' body = Ret s'' ∧ I l s'') as Hgen by (by apply (Hgen l [])).
  induction l2 as [|x l2 IH]; intros l1 s' -> HI; simpl.
  - rewrite app_nil_r in *. eauto.
  - destruct (Hstep l1 x l2 s' eq_refl HI) as (s'' & Hb & HI'). rewrite Hb. simpl.
    apply (IH (l1 ++ [x])); [by rewrite <- (assoc_L (++))|done].
Qed.

(** The same when the state is a function of the elements seen. *)
Lemma for_each_eq {A St} (f : list A → St) (l : list A) (s : St)
    (body : A → St → outcome St) :
  s = f [] →
  (∀ l1 x l2, l = l1 ++ x :: l2 → body x (f l1) = Ret (f (l1 ++ [x]))) →
  for_each l s body = Ret (f l).
Proof.
  intros -> H. destruct (for_each_inv l (f []) body (λ l s, s = f l)) as (s' & E & ->); eauto.
  intros l1 x l2 s' -> ->. eauto.
Qed.

(** What a loop that returned has established. *)
Lemma for_each_ret {A St} (l : list A) (s s' : St) (body : A → St → outcome St)
    (I : list A → St → Prop) :
  for_each l s body = Ret s' → I [] s →
  (∀ l1 x l2 s1 s2, l = l1 ++ x :: l2 → I l1 s1 → body x s1 = Ret s2 → I (l1 ++ [x]) s2) →
  I l s'.
Proof.
  intros He H0 Hstep.
  enough (∀ l2 l1 s, l = l1 ++ l2 → I l1 s → for_each l2 s body = Ret s' → I l s') as Hgen
    by (by apply (Hgen l [] s)).
  clear s He H0. induction l2 as [|x l2 IH]; intros l1 s -> HI; simpl.
  - rewrite app_nil_r in *. by intros [= ->].
  - destruct (body x s) as [s1| |] eqn:Hb; simpl; [|done..]. intros He.
    apply (IH (l1 ++ [x]) s1); [by rewrite <- (assoc_L (++))|by eapply Hstep|done].
Qed.

Lemma for_each_app {A St} (l1 l2 : list A) (s : St) (body : A → St → outcome St) :
  for_each (l1 ++ l2) s body = (s' ← for_each l1 s body; for_each l2 s' body).
Proof.
  revert s; induction l1 as [|x l1 IH]; intros s; simpl; [done|].
  destruct (body x s); simpl; [apply IH|done..].
Qed.

(** Elements on which the body does nothing. *)
Lemma for_each_skip {A St} (l : list A) (s : St) (body : A → St → outcome St) :
  Forall (λ x, body x s = Ret s) l → for_each l s body = Ret s.
Proof. induction 1 as [|x l Hx _ IH]; simpl; [done|]. by rewrite Hx. Qed.

Lemma mapM_ret {A B} (f : A → outcome B) (g : A → B) l :
  Forall (λ x, f x = Ret (g x)) l → mapM f l = Ret (g <$> l).
Proof. induction 1 as [|x l Hx _ IH]; simpl; [done|]. by rewrite Hx; simpl; rewrite IH. Qed.

Lemma mapM_inv {A B} (f : A → outcome B) l k :
  mapM f l = Ret k → Forall2 (λ x y, f x = Ret y) l k.
Proof.
  revert k; induction l as [|x l IH]; intros k; simpl; [intros [= <-]; constructor|].
  destruct (f x) as [y| |] eqn:Hx; simpl; [|done..].
  destruct (mapM f l) as [k'| |]; simpl; [|done..]. intros [= <-]. constructor; auto.
Qed.

(** A step of symbolic execution of a [triple]. *)
Ltac prog_step :=
  match goal with
  | |- triple (Done _) _ => apply triple_done
  | |- triple (mret _) _ => apply triple_ret
  | |- triple (moutcome _) _ => apply triple_done
  | |- triple (throw _) _ => apply triple_done
  | |- triple (errorf _ _) _ => apply triple_done
  | |- triple (panic _) _ => apply triple_done
  | |- triple (perform _) _ => apply triple_perform; intros ?
  | |- triple (try _) _ => apply triple_try
  | |- triple (mbind _ _) _ => apply triple_bind
  | |- after _ _ _ _ => progress cbn [after]
  | |- triple (match ?x with _ => _ end) _ => destruct x eqn:?
  end.

(** Prove an [only] by following the program, with [tac] for each call. *)
Ltac only_with tac :=
  repeat first
    [ progress intros
    | solve [tac]
    | match goal with
      | |- only _ (Done _) => apply only_done
      | |- only _ (mret _) => apply only_done
      | |- only _ (moutcome _) => apply only_done
      | |- only _ (throw _) => apply only_done
      | |- only _ (errorf _ _) => apply only_done
      | |- only _ (panic _) => apply only_done
      | |- only _ (deref _) => apply only_done
      | |- only _ (index _ _) => apply only_done
      | |- only _ (perform _) => apply only_perform
      | |- only _ (try _) => apply only_try
      | |- only _ (mbind _ _) => apply only_bind
      | |- only _ (fmap _ _) => apply only_bind
      | |- only _ (for_each _ _ _) => apply only_for_each
      | |- only _ (match ?x with _ => _ end) => destruct x
      | |- only _ (let _ := _ in _) => cbv zeta
      end ].

(** Prove a [panics] by following the program, with [tac] where it may panic. *)
Ltac panics_with tac :=
  repeat first
    [ progress intros
    | solve [tac]
    | match goal with
      | |- panics _ (Done _) => apply panics_outcome; exact I
      | |- panics _ (mret _) => apply panics_outcome; exact I
      | |- panics _ (throw _) => apply panics_outcome; exact I
      | |- panics _ (errorf _ _) => apply panics_outcome; exact I
      | |- panics _ (perform _) => apply panics_perform
      | |- panics _ (try _) => apply panics_try
      | |- panics _ (mbind _ _) => apply panics_bind
      | |- panics _ (fmap _ _) => apply panics_bind
      | |- panics _ (for_each _ _ _) => apply panics_for_each
      | |- panics _ (match ?x with _ => _ end) => destruct x
      | |- panics _ (let _ := _ in _) => cbv zeta
      end ].

(** Unfold an execution hypothesis down to its calls. *)
Ltac exec_inv H :=
  repeat (progress (cbn in H) || match type of H with
  | exec (mbind _ _) _ _ => apply exec_bind in H
  | ∃ _, _ => destruct H as [? H]
  | _ ∧ _ => let H' := fresh H in destruct H as [H' H]; exec_inv H'
  | _ = _ => subst
  end).
