(* ===== verification/GoStr.v ===== *)
(** * GoStr: the functions of Go's [strings] and [strconv] the program uses

    A Go string is its bytes: a Stdlib [string].  Separators are single bytes
    everywhere in the source, so [Split] and [SplitN] take an [ascii]. *)

From S2P Require Import Prelude.

Notation "'ε'" := EmptyString (only parsing).

Definition newline_char : ascii := "010"%char.

(** The one-character string of a double quote *)
Definition dquote : string := String "034"%char ε.

(** ** Operations *)

Fixpoint chars (s : string) : list ascii :=
  match s with EmptyString => [] | String c s => c :: chars s end.

Fixpoint of_chars (l : list ascii) : string :=
  match l with [] => ε | c :: l => String c (of_chars l) end.

Definition has_char (c : ascii) (s : string) : bool := bool_decide (c ∈ chars s).

(** [strings.Split(s, sep)] *)
Fixpoint Split (sep : ascii) (s : string) : list string :=
  match s with
  | EmptyString => [ε]
  | String c s =>
      if decide (c = sep) then ε :: Split sep s
      else match Split sep s with
           | w :: ws => String c w :: ws
           | [] => [String c ε]
           end
  end.

(** [strings.SplitN(s, sep, 2)] *)
Fixpoint SplitN2 (sep : ascii) (s : string) : list string :=
  match s with
  | EmptyString => [ε]
  | String c s =>
      if decide (c = sep) then [ε; s]
      else match SplitN2 sep s with
           | w :: ws => String c w :: ws
           | [] => [String c ε]
           end
  end.

(** [strings.Join(l, sep)] *)
Fixpoint Join (l : list string) (sep : string) : string :=
  match l with
  | [] => ε
  | [w] => w
  | w :: ws => w +:+ sep +:+ Join ws sep
  end.

Fixpoint drop_while (p : ascii → bool) (l : list ascii) : list ascii :=
  match l with
  | [] => []
  | c :: l' => if p c then drop_while p l' else l
  end.

(** [strings.Trim(s, cutset)] for a set of bytes *)
Definition TrimChars (p : ascii → bool) (s : string) : string :=
  of_chars (reverse (drop_while p (reverse (drop_while p (chars s))))).

Definition Trim (c : ascii) (s : string) : string := TrimChars (λ x, bool_decide (x = c)) s.

(** The ASCII white space of [unicode.IsSpace] *)
Definition is_space (c : ascii) : bool :=
  let n := nat_of_ascii c in
  ((9 <=? n)%nat && (n <=? 13)%nat) || (n =? 32)%nat.

Definition TrimSpace (s : string) : string := TrimChars is_space s.

Definition upper (c : ascii) : ascii :=
  let n := nat_of_ascii c in
  if ((97 <=? n)%nat && (n <=? 122)%nat) then ascii_of_nat (n - 32) else c.

Definition lower (c : ascii) : ascii :=
  let n := nat_of_ascii c in
  if ((65 <=? n)%nat && (n <=? 90)%nat) then ascii_of_nat (n + 32) else c.

(** [strings.ToUpper] on ASCII strings *)
Definition ToUpper (s : string) : string := of_chars (upper <$> chars s).

(** [strings.ReplaceAll(s, c, "")] for a single byte *)
Definition RemoveAll (c : ascii) (s : string) : string :=
  of_chars (filter (λ x, x ≠ c) (chars s)).

Fixpoint is_prefix (p s : list ascii) : bool :=
  match p, s with
  | [], _ => true
  | _ :: _, [] => false
  | a :: p, b :: s => bool_decide (a = b) && is_prefix p s
  end.

Fixpoint is_infix (p s : list ascii) : bool :=
  is_prefix p s || match s with [] => false | _ :: s => is_infix p s end.

(** [strings.Contains] and [bytes.Contains] *)
Definition Contains (s sub : string) : bool := is_infix (chars sub) (chars s).

(** [strconv.Itoa] and the [%d] verb *)
Definition Itoa (z : Z) : string := pretty z.

(** ** Laws *)

Lemma of_chars_chars s : of_chars (chars s) = s.
Proof. induction s as [|c s IH]; simpl; [done | by rewrite IH]. Qed.

Lemma chars_of_chars l : chars (of_chars l) = l.
Proof. induction l as [|c l IH]; simpl; [done | by rewrite IH]. Qed.

Lemma chars_app s1 s2 : chars (s1 +:+ s2) = chars s1 ++ chars s2.
Proof. induction s1 as [|c s1 IH]; simpl; [done|]. rewrite <- IH. done. Qed.

#[export] Instance chars_inj : Inj (=) (=) chars.
Proof. intros s1 s2 H. by rewrite <- (of_chars_chars s1), H, of_chars_chars. Qed.

Lemma str_app_nil_r s : s +:+ ε = s.
Proof. induction s as [|c s IH]; [done|]. change (String c (s +:+ ε) = String c s). by rewrite IH. Qed.

Lemma str_app_assoc s1 s2 s3 : (s1 +:+ s2) +:+ s3 = s1 +:+ (s2 +:+ s3).
Proof.
  apply (inj chars). by rewrite !chars_app, (assoc_L (++)).
Qed.

Lemma has_char_false c s : has_char c s = false → c ∉ chars s.
Proof. apply bool_decide_eq_false. Qed.

Lemma has_char_true c s : has_char c s = true → c ∈ chars s.
Proof. apply bool_decide_eq_true. Qed.

Lemma Split_not_nil sep s : Split sep s ≠ [].
Proof. destruct s as [|c s]; simpl; [done|]. go_cases; done. Qed.

(** A string without the separator is a single field. *)
Lemma Split_no_sep sep s : sep ∉ chars s → Split sep s = [s].
Proof.
  induction s as [|c s IH]; simpl; [done|].
  intros [Hne Hs]%not_elem_of_cons. rewrite decide_False by done. by rewrite IH.
Qed.

(** The first field ends at the first separator. *)
Lemma Split_app sep s1 s2 :
  sep ∉ chars s1 → Split sep (s1 +:+ String sep s2) = s1 :: Split sep s2.
Proof.
  induction s1 as [|c s1 IH]; simpl.
  - intros _. by rewrite decide_True.
  - intros [Hne Hs]%not_elem_of_cons. change (String.app ?x ?y) with (x +:+ y).
    rewrite decide_False by done. by rewrite IH.
Qed.

(** Splitting a joined list of separator-free fields gives the fields back. *)
Lemma Split_Join sep ws :
  ws ≠ [] → Forall (λ w, sep ∉ chars w) ws → Split sep (Join ws (String sep ε)) = ws.
Proof.
  induction ws as [|w ws IH]; [done|]. intros _ [Hw Hws]%Forall_cons.
  destruct ws as [|w' ws]; [by apply Split_no_sep|].
  change (Join (w :: w' :: ws) (String sep ε)) with
    (w +:+ String sep (Join (w' :: ws) (String sep ε))).
  rewrite Split_app by done. by rewrite IH.
Qed.

(** Joining the fields gives the string back. *)
Lemma Join_Split sep s : Join (Split sep s) (String sep ε) = s.
Proof.
  induction s as [|c s IH]; [done|]. simpl. pose proof (Split_not_nil sep s) as Hn.
  destruct (Split sep s) as [|w ws]; [done|]. case_decide as Hc.
  - rewrite <- IH, Hc. by destruct ws.
  - rewrite <- IH. by destruct ws.
Qed.

(** ** Decimal numerals *)

Definition is_digit (c : ascii) : bool :=
  let n := nat_of_ascii c in (48 <=? n)%nat && (n <=? 57)%nat.

Lemma pretty_N_char_digit x : is_digit (pretty_N_char x) = true.
Proof. unfold pretty_N_char. by repeat case_match. Qed.

Lemma pretty_N_go_digits x s :
  Forall (λ c, is_digit c = true) (chars s) →
  Forall (λ c, is_digit c = true) (chars (pretty_N_go x s)).
Proof.
  revert s; induction (N.lt_wf_0 x) as [x _ IH]; intros s Hs.
  assert (x = 0 ∨ 0 < x)%N as [->|?] by lia; [by rewrite pretty_N_go_0|].
  rewrite pretty_N_go_step by done. apply IH; [by apply N.div_lt|].
  constructor; [apply pretty_N_char_digit|done].
Qed.

(** A natural number is printed as digits, a negative one behind a dash. *)
Lemma Itoa_chars z : Forall (λ c, is_digit c = true ∨ c = "-"%char) (chars (Itoa z)).
Proof.
  assert (∀ n, Forall (λ c, is_digit c = true) (chars (@pretty N pretty_N n))) as HN.
  { intros n. unfold pretty, pretty_N. case_decide; [by repeat constructor|].
    apply pretty_N_go_digits. constructor. }
  assert (∀ n, Forall (λ c, is_digit c = true ∨ c = "-"%char) (chars (@pretty N pretty_N n))) as HN'.
  { intros n. eapply Forall_impl; [apply HN|]. auto. }
  unfold Itoa. destruct z as [|p|p].
  - repeat constructor.
  - apply (HN' (Npos p)).
  - change (pretty (Zneg p)) with ("-" +:+ @pretty N pretty_N (Npos p)).
    rewrite chars_app. apply Forall_app. split; [repeat constructor; by right|apply HN'].
Qed.

Lemma Itoa_no_char c z : is_digit c = false → c ≠ "-"%char → c ∉ chars (Itoa z).
Proof.
  intros Hd Hn Hin. pose proof (Itoa_chars z) as H. rewrite Forall_forall in H.
  destruct (H c Hin); congruence.
Qed.

#[export] Instance Itoa_inj : Inj (=) (=) Itoa.
Proof. unfold Itoa. apply _. Qed.

(** ** Trimming and cutting *)

Lemma drop_while_none p l : Forall (λ c, p c = false) l → drop_while p l = l.
Proof. destruct 1 as [|c l Hc _]; simpl; [done|]. by rewrite Hc. Qed.

(** Nothing is trimmed from a string without the characters to trim. *)
Lemma TrimChars_none p s : Forall (λ c, p c = false) (chars s) → TrimChars p s = s.
Proof.
  intros H. unfold TrimChars. rewrite (drop_while_none p (chars s)) by done.
  rewrite drop_while_none by by apply Forall_reverse. by rewrite reverse_involutive, of_chars_chars.
Qed.

(** The cut at the first separator. *)
Lemma SplitN2_app sep s1 s2 :
  sep ∉ chars s1 → SplitN2 sep (s1 +:+ String sep s2) = [s1; s2].
Proof.
  induction s1 as [|c s1 IH]; simpl.
  - intros _. by rewrite decide_True.
  - intros [Hne Hs]%not_elem_of_cons. change (String.app ?x ?y) with (x +:+ y).
    rewrite decide_False by done. by rewrite IH.
Qed.

(** ** Parsing numbers *)

Definition digit_of (c : ascii) : option Z :=
  if is_digit c then Some (Z.of_nat (nat_of_ascii c) - 48) else None.

Definition hex_digit_of (c : ascii) : option Z :=
  let n := Z.of_nat (nat_of_ascii c) in
  if is_digit c then Some (n - 48)
  else if (97 <=? n) && (n <=? 102) then Some (n - 87)
  else if (65 <=? n) && (n <=? 70) then Some (n - 55)
  else None.

(** The value of a string of digits, none if it is empty or has another byte *)
Fixpoint digits_value (base : Z) (digit : ascii → option Z) (acc : Z) (s : list ascii) : option Z :=
  match s with
  | [] => Some acc
  | c :: s => d ← digit c; digits_value base digit (base * acc + d) s
  end.

Definition parse_digits (base : Z) (digit : ascii → option Z) (s : list ascii) : option Z :=
  match s with [] => None | _ => digits_value base digit 0 s end.

(** [strconv.ParseUint(s, 16, 8)] *)
Definition ParseUint16_8 (s : string) : option Z :=
  v ← parse_digits 16 hex_digit_of (chars s); if v <=? 255 then Some v else None.

(** [strconv.Atoi]: an optional sign, decimal digits, within 64 bits *)
Definition Atoi (s : string) : option Z :=
  v ← (match chars s with
       | "-"%char :: ds => Z.opp <$> parse_digits 10 digit_of ds
       | "+"%char :: ds => parse_digits 10 digit_of ds
       | ds => parse_digits 10 digit_of ds
       end);
  if (-9223372036854775808 <=? v) && (v <=? 9223372036854775807) then Some v else None.

Lemma digits_value_go x s acc0 :
  digits_value 10 digit_of acc0 (chars (pretty_N_go x s)) =
  digits_value 10 digit_of acc0 (chars (pretty_N_go x ε) ++ chars s).
Proof.
  assert (∀ x s, pretty_N_go x s = pretty_N_go x ε +:+ s) as ->; [|by rewrite chars_app].
  clear. intros x; induction (N.lt_wf_0 x) as [x _ IH]; intros s.
  assert (x = 0 ∨ 0 < x)%N as [->|?] by lia; [by rewrite pretty_N_go_0|].
  rewrite (pretty_N_go_step x s), (pretty_N_go_step x ε) by done.
  assert (x `div` 10 < x)%N as Hlt by by apply N.div_lt.
  set (c := pretty_N_char _).
  rewrite (IH _ Hlt (String c s)), (IH _ Hlt (String c ε)), str_app_assoc. done.
Qed.

Lemma digit_of_pretty m : (m < 10)%N → digit_of (pretty_N_char m) = Some (Z.of_N m).
Proof.
  intros Hm. assert (m = 0 ∨ m = 1 ∨ m = 2 ∨ m = 3 ∨ m = 4 ∨ m = 5 ∨ m = 6 ∨ m = 7 ∨ m = 8 ∨ m = 9)%N
    as Hc by lia.
  by destruct Hc as [->|[->|[->|[->|[->|[->|[->|[->|[->| ->]]]]]]]]].
Qed.

Lemma digits_value_pretty x s :
  digits_value 10 digit_of 0 (chars (pretty_N_go x s)) =
  digits_value 10 digit_of (Z.of_N x) (chars s).
Proof.
  revert s; induction (N.lt_wf_0 x) as [x _ IH]; intros s.
  assert (x = 0 ∨ 0 < x)%N as [->|?] by lia; [by rewrite pretty_N_go_0|].
  rewrite pretty_N_go_step by done. rewrite IH by by apply N.div_lt. cbn [chars digits_value].
  assert (digit_of (pretty_N_char (x `mod` 10)) = Some (Z.of_N (x `mod` 10))) as ->.
  { apply digit_of_pretty. by apply N.mod_lt. }
  simpl. f_equal. pose proof (N.div_mod x 10 ltac:(done)). lia.
Qed.

Lemma pretty_N_digits n :
  parse_digits 10 digit_of (chars (@pretty N pretty_N n)) = Some (Z.of_N n).
Proof.
  unfold pretty, pretty_N. case_decide as Hn; [by subst|].
  assert (parse_digits 10 digit_of (chars (pretty_N_go n ε)) =
    digits_value 10 digit_of 0 (chars (pretty_N_go n ε))) as ->.
  { assert (chars (pretty_N_go n ε) ≠ []) as Hne.
    { intros E. pose proof (digits_value_pretty n ε) as Hv. rewrite E in Hv. simpl in Hv.
      injection Hv as Hv. lia. }
    by destruct (chars _). }
  apply digits_value_pretty.
Qed.

(** What [Itoa] prints, [Atoi] reads. *)
Lemma Atoi_Itoa z : -9223372036854775808 ≤ z ≤ 9223372036854775807 → Atoi (Itoa z) = Some z.
Proof.
  intros Hz. unfold Atoi, Itoa.
  assert ((match chars (pretty z) with
       | "-"%char :: ds => Z.opp <$> parse_digits 10 digit_of ds
       | "+"%char :: ds => parse_digits 10 digit_of ds
       | ds => parse_digits 10 digit_of ds
       end) = Some z) as ->.
  { destruct z as [|p|p]; [done| |].
    - change (pretty (Zpos p)) with (@pretty N pretty_N (Npos p)).
      pose proof (pretty_N_digits (Npos p)) as Hp.
      assert (Forall (λ c, is_digit c = true) (chars (@pretty N pretty_N (Npos p)))) as Hd.
      { unfold pretty, pretty_N. rewrite decide_False by done. apply pretty_N_go_digits. constructor. }
      destruct Hd as [|c l Hc _]; [done|].
      destruct c as [[] [] [] [] [] [] [] []]; try done; exact Hp.
    - change (pretty (Zneg p)) with ("-" +:+ @pretty N pretty_N (Npos p)).
      rewrite chars_app. simpl. by rewrite pretty_N_digits. }
  simpl. rewrite (proj2 (Z.leb_le _ _)), (proj2 (Z.leb_le _ _)); [done|lia..].
Qed.

(** What is read fits in 64 bits. *)
Lemma Atoi_range s z : Atoi s = Some z → -9223372036854775808 ≤ z ≤ 9223372036854775807.
Proof.
  unfold Atoi. set (r := match chars s with [] => _ | _ => _ end). destruct r as [v|]; [|done]. simpl.
  destruct (Z.leb_spec (-9223372036854775808) v), (Z.leb_spec v 9223372036854775807); simpl; try done.
  by intros [= <-].
Qed.
