(* ===== verification/Json.v ===== *)
(** * Json: the part of [encoding/json] the program reads documents with

    [Unmarshal] checks the syntax of the whole document and then decodes it
    over a Go value.  A document is parsed to a [json] tree; a type that can be
    decoded is an instance of [FromJson], and a struct is decoded by the list
    of its fields.  Strings are bytes: escapes are read as UTF-8 and invalid
    UTF-8 is replaced, as the package does; field names are matched exactly,
    then up to the case of ASCII letters.  The texts of the errors leave out the
    position and the name of the field. *)

From S2P Require Import Prelude Effects GoStr.

(** ** Bytes *)

Definition code (c : ascii) : Z := Z.of_nat (nat_of_ascii c).

Definition byte (z : Z) : ascii := ascii_of_nat (Z.to_nat z).

(** [[]byte(s)] and [string(bs)] *)
Definition bytes_of (s : string) : list Z := code <$> chars s.

Definition string_of (bs : list Z) : string := of_chars (byte <$> bs).

(** [utf8.AppendRune] for a rune that is not a surrogate *)
Definition utf8_encode (r : Z) : list ascii :=
  byte <$>
  if r <? 128 then [r]
  else if r <? 2048 then [192 + r / 64; 128 + r `mod` 64]
  else if r <? 65536 then [224 + r / 4096; 128 + r / 64 `mod` 64; 128 + r `mod` 64]
  else [240 + r / 262144; 128 + r / 4096 `mod` 64; 128 + r / 64 `mod` 64; 128 + r `mod` 64].

Definition replacement : list ascii := utf8_encode 65533.

(** Whether a lead byte and its first continuation start a well-formed
    sequence, and of how many bytes. *)
Definition cont (c : ascii) : bool := (128 <=? code c) && (code c <=? 191).

Definition utf8_lead (c c1 : ascii) : nat :=
  let x := code c in
  let y := code c1 in
  if negb (cont c1) then 0
  else if (194 <=? x) && (x <=? 223) then 2
  else if (224 <=? x) && (x <=? 239) then
    if (x =? 224) && (y <? 160) then 0 else if (x =? 237) && (159 <? y) then 0 else 3
  else if (240 <=? x) && (x <=? 244) then
    if (x =? 240) && (y <? 144) then 0 else if (x =? 244) && (143 <? y) then 0 else 4
  else 0.

(** Four hexadecimal digits *)
Definition hex4 (a b c d : ascii) : option Z := digits_value 16 hex_digit_of 0 [a; b; c; d].

Definition surrogate (r : Z) : bool := (55296 <=? r) && (r <? 57344).

(** [utf16.DecodeRune] of a valid pair *)
Definition surrogate_pair (hi lo : Z) : option Z :=
  if ((55296 <=? hi) && (hi <? 56320)) && ((56320 <=? lo) && (lo <? 57344))
  then Some ((hi - 55296) * 1024 + (lo - 56320) + 65536)
  else None.

(** The escapes of one letter *)
Definition unescape (c : ascii) : option ascii :=
  match c with
  | "034"%char => Some "034"%char
  | "\"%char => Some "\"%char
  | "/"%char => Some "/"%char
  | "b"%char => Some "008"%char
  | "f"%char => Some "012"%char
  | "n"%char => Some "010"%char
  | "r"%char => Some "013"%char
  | "t"%char => Some "009"%char
  | _ => None
  end.

(** ** Documents *)

Inductive json :=
  | JNull
  | JBool (b : bool)
  | JNum (lit : string)
  | JStr (s : string)
  | JArr (l : list json)
  | JObj (m : list (string * json)).

Definition emit (bytes : list ascii) (r : option (list ascii * list ascii)) :
    option (list ascii * list ascii) :=
  match r with Some (s, rest) => Some (bytes ++ s, rest) | None => None end.

(** The rest of a string literal, after its opening quote *)
Fixpoint lex_string (s : list ascii) : option (list ascii * list ascii) :=
  match s with
  | [] => None
  | "034"%char :: rest => Some ([], rest)
  | "\"%char :: "u"%char :: a :: b :: c :: d :: rest =>
      match hex4 a b c d with
      | None => None
      | Some r =>
          if surrogate r then
            match rest with
            | "\"%char :: "u"%char :: a' :: b' :: c' :: d' :: rest' =>
                match hex4 a' b' c' d' ≫= surrogate_pair r with
                | Some r => emit (utf8_encode r) (lex_string rest')
                | None => emit replacement (lex_string rest)
                end
            | _ => emit replacement (lex_string rest)
            end
          else emit (utf8_encode r) (lex_string rest)
      end
  | "\"%char :: c :: rest =>
      match unescape c with Some c => emit [c] (lex_string rest) | None => None end
  | c :: rest =>
      if code c <? 32 then None
      else if code c <? 128 then
        if decide (c = "\"%char) then None else emit [c] (lex_string rest)
      else
        match rest with
        | c1 :: rest1 =>
            match utf8_lead c c1, rest1 with
            | 2%nat, _ => emit [c; c1] (lex_string rest1)
            | 3%nat, c2 :: rest2 =>
                if cont c2 then emit [c; c1; c2] (lex_string rest2)
                else emit replacement (lex_string rest)
            | 4%nat, c2 :: c3 :: rest3 =>
                if cont c2 && cont c3 then emit [c; c1; c2; c3] (lex_string rest3)
                else emit replacement (lex_string rest)
            | _, _ => emit replacement (lex_string rest)
            end
        | [] => None
        end
  end.

Fixpoint span_digits (s : list ascii) : list ascii * list ascii :=
  match s with
  | c :: rest =>
      if is_digit c then let '(ds, rest) := span_digits rest in (c :: ds, rest) else ([], s)
  | [] => ([], [])
  end.

(** At least one digit *)
Definition lex_digits (s : list ascii) : option (list ascii * list ascii) :=
  match span_digits s with ([], _) => None | p => Some p end.

(** The integer part: a zero, or digits that start with another one *)
Definition lex_int (s : list ascii) : option (list ascii * list ascii) :=
  match s with
  | "0"%char :: rest => Some (["0"%char], rest)
  | _ => lex_digits s
  end.

Definition lex_frac (s : list ascii) : option (list ascii * list ascii) :=
  match s with
  | "."%char :: rest => emit ["."%char] (lex_digits rest)
  | _ => Some ([], s)
  end.

Definition lex_exp (s : list ascii) : option (list ascii * list ascii) :=
  match s with
  | e :: rest =>
      if bool_decide (e = "e"%char) || bool_decide (e = "E"%char) then
        match rest with
        | sg :: rest' =>
            if bool_decide (sg = "+"%char) || bool_decide (sg = "-"%char)
            then emit [e; sg] (lex_digits rest')
            else emit [e] (lex_digits rest)
        | [] => None
        end
      else Some ([], s)
  | [] => Some ([], s)
  end.

Definition lex_number (s : list ascii) : option (list ascii * list ascii) :=
  let '(sign, s) := match s with "-"%char :: s => (["-"%char], s) | _ => ([], s) end in
  '(ip, s) ← lex_int s;
  '(fp, s) ← lex_frac s;
  '(ep, s) ← lex_exp s;
  Some (sign ++ ip ++ fp ++ ep, s).

Definition json_space (c : ascii) : bool :=
  (code c =? 32) || (code c =? 9) || (code c =? 10) || (code c =? 13).

Definition skip_ws (s : list ascii) : list ascii := drop_while json_space s.

(** The literals [true], [false] and [null] *)
Definition lex_word (w : string) (v : json) (s : list ascii) : option (json * list ascii) :=
  if is_prefix (chars w) s then Some (v, drop (String.length w) s) else None.

(** The next byte that is not white space, if it is [c] *)
Definition closes (c : ascii) (s : list ascii) : option (list ascii) :=
  match skip_ws s with
  | x :: s => if decide (x = c) then Some s else None
  | [] => None
  end.

Definition lex_key (s : list ascii) : option (string * list ascii) :=
  s ← closes "034" s;
  '(k, s) ← lex_string s;
  s ← closes ":" s;
  Some (of_chars k, s).

(** A value; [depth] more arrays and objects may be opened. *)
Fixpoint p_value (fuel : nat) (depth : Z) (s : list ascii) : option (json * list ascii) :=
  match fuel with
  | O => None
  | S fuel =>
      match skip_ws s with
      | [] => None
      | c :: s' =>
          if decide (c = "034"%char) then '(v, s) ← lex_string s'; Some (JStr (of_chars v), s)
          else if decide (c = "["%char) then
            if depth <=? 0 then None
            else match closes "]" s' with
                 | Some s => Some (JArr [], s)
                 | None => '(l, s) ← p_elements fuel (depth - 1) s'; Some (JArr l, s)
                 end
          else if decide (c = "{"%char) then
            if depth <=? 0 then None
            else match closes "}" s' with
                 | Some s => Some (JObj [], s)
                 | None => '(m, s) ← p_members fuel (depth - 1) s'; Some (JObj m, s)
                 end
          else if decide (c = "t"%char) then lex_word "true" (JBool true) (c :: s')
          else if decide (c = "f"%char) then lex_word "false" (JBool false) (c :: s')
          else if decide (c = "n"%char) then lex_word "null" JNull (c :: s')
          else '(lit, s) ← lex_number (c :: s'); Some (JNum (of_chars lit), s)
      end
  end
with p_elements (fuel : nat) (depth : Z) (s : list ascii) : option (list json * list ascii) :=
  match fuel with
  | O => None
  | S fuel =>
      '(v, s) ← p_value fuel depth s;
      match closes "," s with
      | Some s => '(l, s) ← p_elements fuel depth s; Some (v :: l, s)
      | None => s ← closes "]" s; Some ([v], s)
      end
  end
with p_members (fuel : nat) (depth : Z) (s : list ascii) :
    option (list (string * json) * list ascii) :=
  match fuel with
  | O => None
  | S fuel =>
      '(k, s) ← lex_key s;
      '(v, s) ← p_value fuel depth s;
      match closes "," s with
      | Some s => '(m, s) ← p_members fuel depth s; Some ((k, v) :: m, s)
      | None => s ← closes "}" s; Some ([(k, v)], s)
      end
  end.

(** [maxNestingDepth] *)
Definition max_depth : Z := 10000.

(** Twice the length is enough fuel: a nested value is shorter. *)
Definition parse_json (data : string) : option json :=
  let s := chars data in
  '(v, rest) ← p_value (2 * length s + 2) max_depth s;
  match skip_ws rest with [] => Some v | _ => None end.

(** ** Decoding *)

(** The error [Unmarshal] remembers while it goes on decoding: the first one *)
Definition saved := option error.

Definition first_saved (a b : saved) : saved := match a with Some _ => a | None => b end.

Definition kind_of (j : json) : string :=
  match j with
  | JNull => "null" | JBool _ => "bool" | JNum _ => "number" | JStr _ => "string"
  | JArr _ => "array" | JObj _ => "object"
  end.

Definition mismatch (value ty : string) : saved :=
  Some (Errorf "json: cannot unmarshal %s into Go value of type %s" [value; ty] None).

(** [decode j a] decodes over the value [a]; null changes nothing but a pointer,
    a map or a slice. *)
Class FromJson (A : Type) := { go_zero : A; decode : json → A → A * saved }.

#[export] Instance string_FromJson : FromJson string := {|
  go_zero := ε;
  decode j a := match j with
                | JNull => (a, None)
                | JStr s => (s, None)
                | _ => (a, mismatch (kind_of j) "string")
                end
|}.

#[export] Instance bool_FromJson : FromJson bool := {|
  go_zero := false;
  decode j a := match j with
                | JNull => (a, None)
                | JBool b => (b, None)
                | _ => (a, mismatch (kind_of j) "bool")
                end
|}.

(** [int]: the literal must be that of an integer of 64 bits *)
#[export] Instance int_FromJson : FromJson Z := {|
  go_zero := 0;
  decode j a := match j with
                | JNull => (a, None)
                | JNum lit =>
                    match Atoi lit with
                    | Some z => (z, None)
                    | None => (a, mismatch ("number " +:+ lit) "int")
                    end
                | _ => (a, mismatch (kind_of j) "int")
                end
|}.

#[export] Instance pointer_FromJson A `{FromJson A} : FromJson (option A) := {|
  go_zero := None;
  decode j a := match j with
                | JNull => (None, None)
                | _ => let '(x, e) := decode j (default go_zero a) in (Some x, e)
                end
|}.

(** One entry of a map, one element of a slice *)
Definition decode_entry {A} `{FromJson A} (s : gmap string A * saved) (kv : string * json) :
    gmap string A * saved :=
  let '(x, e) := decode kv.2 go_zero in (<[kv.1 := x]> s.1, first_saved s.2 e).

Definition decode_element {A} `{FromJson A} (s : list A * saved) (v : json) : list A * saved :=
  let '(x, e) := decode v go_zero in (s.1 ++ [x], first_saved s.2 e).

(** A map keeps the entries it has; a nil map and an empty one are the same. *)
#[export] Instance map_FromJson A `{FromJson A} : FromJson (gmap string A) := {|
  go_zero := ∅;
  decode j a := match j with
                | JNull => (∅, None)
                | JObj m => fold_left decode_entry m (a, None)
                | _ => (a, mismatch (kind_of j) "map[string]")
                end
|}.

#[export] Instance slice_FromJson A `{FromJson A} : FromJson (list A) := {|
  go_zero := [];
  decode j a := match j with
                | JNull => ([], None)
                | JArr l => fold_left decode_element l ([], None)
                | _ => (a, mismatch (kind_of j) "[]")
                end
|}.

(** A field of a struct: its name in the document and how it is decoded *)
Definition field (A : Type) : Type := string * (json → A → A * saved).

Definition mkField {A B} `{FromJson B} (name : string) (get : A → B) (set : B → A → A) : field A :=
  (name, λ j a, let '(x, e) := decode j (get a) in (set x a, e)).

Definition fold_name (s : string) : string := of_chars (lower <$> chars s).

Definition find_field {A} (fields : list (field A)) (key : string) : option (field A) :=
  match find_first (λ f, bool_decide (f.1 = key)) fields with
  | Some f => Some f
  | None => find_first (λ f, bool_decide (fold_name f.1 = fold_name key)) fields
  end.

(** The members are decoded in the order of the document; unknown ones are
    skipped and a repeated one is decoded over the earlier value. *)
Definition decode_struct {A} (ty : string) (fields : list (field A)) (j : json) (a : A) : A * saved :=
  match j with
  | JNull => (a, None)
  | JObj m =>
      fold_left (λ '(a, e) '(k, v),
        match find_field fields k with
        | Some f => let '(a, e') := f.2 v a in (a, first_saved e e')
        | None => (a, e)
        end) m (a, None)
  | _ => (a, mismatch (kind_of j) ty)
  end.

(** [json.Unmarshal] into a zero value *)
Definition Unmarshal {A} `{FromJson A} (data : string) : result A :=
  match parse_json data with
  | None => inr (Errorf "invalid JSON input" [] None)
  | Some j => match decode j go_zero with
              | (a, None) => inl a
              | (_, Some err) => inr err
              end
  end.

(** ** Printing

    A compact printer for the documents of the specification: ASCII strings
    and integer numbers. *)

Definition hex_char (d : Z) : ascii := byte (if d <? 10 then 48 + d else 87 + d).

Definition quote_char (c : ascii) : list ascii :=
  if decide (c = "034"%char ∨ c = "\"%char) then ["\"%char; c]
  else if code c <? 32 then
    ["\"%char; "u"%char; "0"%char; "0"%char; hex_char (code c / 16); hex_char (code c `mod` 16)]
  else [c].

Definition quote (s : string) : list ascii :=
  "034"%char :: (chars s ≫= quote_char) ++ ["034"%char].

Fixpoint commas (l : list (list ascii)) : list ascii :=
  match l with
  | [] => []
  | [x] => x
  | x :: l => x ++ ","%char :: commas l
  end.

Fixpoint print_json (j : json) : list ascii :=
  match j with
  | JNull => chars "null"
  | JBool true => chars "true"
  | JBool false => chars "false"
  | JNum lit => chars lit
  | JStr s => quote s
  | JArr l => "["%char :: commas (map print_json l) ++ ["]"%char]
  | JObj m => "{"%char :: commas (map (λ '(k, v), quote k ++ ":"%char :: print_json v) m) ++ ["}"%char]
  end.

Definition ascii_string (s : string) : Prop := Forall (λ c, code c < 128) (chars s).

#[export] Instance ascii_string_dec s : Decision (ascii_string s).
Proof. unfold ascii_string. apply _. Defined.

Fixpoint json_depth (j : json) : nat :=
  match j with
  | JArr l => S (foldr (λ x n, Nat.max (json_depth x) n) 0%nat l)
  | JObj m => S (foldr (λ '(_, x) n, Nat.max (json_depth x) n) 0%nat m)
  | _ => 0%nat
  end.

Fixpoint printable (j : json) : Prop :=
  match j with
  | JNull | JBool _ => True
  | JNum lit => ∃ z, lit = Itoa z
  | JStr s => ascii_string s
  | JArr l => foldr (λ x P, printable x ∧ P) True l
  | JObj m => foldr (λ '(k, x) P, ascii_string k ∧ printable x ∧ P) True m
  end.

(** Induction over documents *)
Section Induction.
Variable P : json → Prop.
Hypothesis Hnull : P JNull.
Hypothesis Hbool : ∀ b, P (JBool b).
Hypothesis Hnum : ∀ lit, P (JNum lit).
Hypothesis Hstr : ∀ s, P (JStr s).
Hypothesis Harr : ∀ l, Forall P l → P (JArr l).
Hypothesis Hobj : ∀ m, Forall (λ kv, P kv.2) m → P (JObj m).

Fixpoint json_induction (j : json) : P j :=
  match j with
  | JNull => Hnull
  | JBool b => Hbool b
  | JNum lit => Hnum lit
  | JStr s => Hstr s
  | JArr l =>
      Harr l ((fix go (l : list json) : Forall P l :=
        match l with
        | [] => Forall_nil_2 _
        | x :: l => Forall_cons_2 _ _ _ (json_induction x) (go l)
        end) l)
  | JObj m =>
      Hobj m ((fix go (m : list (string * json)) : Forall (λ kv, P kv.2) m :=
        match m with
        | [] => Forall_nil_2 _
        | x :: m => Forall_cons_2 _ _ _ (json_induction x.2) (go m)
        end) m)
  end.
End Induction.

(** ** Reading what is printed *)

Lemma lex_quote_char c s :
  code c < 128 → lex_string (quote_char c ++ s) = emit [c] (lex_string s).
Proof.
  intros H. destruct c as [[] [] [] [] [] [] [] []]; first [reflexivity | exfalso; vm_compute in H; discriminate].
Qed.

Lemma lex_quote s rest : ascii_string s →
  lex_string ((chars s ≫= quote_char) ++ "034"%char :: rest) = Some (chars s, rest).
Proof.
  unfold ascii_string. generalize (chars s). intros l Hl. induction Hl as [|c l Hc _ IH]; [done|].
  rewrite bind_cons, <- (assoc_L (++)), lex_quote_char by done. by rewrite IH.
Qed.

(** What may follow a number: a delimiter *)
Definition ends_number (rest : list ascii) : Prop :=
  match rest with
  | [] => True
  | c :: _ => is_digit c = false ∧ c ≠ "."%char ∧ c ≠ "e"%char ∧ c ≠ "E"%char
  end.

Lemma span_digits_app ds rest : Forall (λ c, is_digit c = true) ds →
  match rest with [] => True | c :: _ => is_digit c = false end →
  span_digits (ds ++ rest) = (ds, rest).
Proof.
  intros Hd Hr. induction Hd as [|c ds Hc _ IH]; simpl.
  - destruct rest as [|c rest]; [done|]. simpl. by rewrite Hr.
  - by rewrite Hc, IH.
Qed.

Lemma lex_end rest : ends_number rest → lex_frac rest = Some ([], rest) ∧ lex_exp rest = Some ([], rest).
Proof.
  destruct rest as [|c rest]; [done|]. intros (_ & Hd & He & HE). split.
  - destruct c as [[] [] [] [] [] [] [] []]; done.
  - simpl. by rewrite !bool_decide_false.
Qed.

(** Digits without a leading zero, or a zero *)
Definition natural (ds : list ascii) : Prop :=
  Forall (λ c, is_digit c = true) ds ∧ ds ≠ [] ∧ (head ds = Some "0"%char → ds = ["0"%char]).

Lemma lex_int_natural ds rest : natural ds → ends_number rest → lex_int (ds ++ rest) = Some (ds, rest).
Proof.
  intros (Hd & Hne & H0) Hr.
  assert (match rest with [] => True | c :: _ => is_digit c = false end) as Hr'
    by (destruct rest; [done|by destruct Hr]).
  pose proof (span_digits_app ds rest Hd Hr') as Hs. destruct ds as [|c ds]; [done|].
  destruct (decide (c = "0"%char)) as [->|Hc].
  - by injection (H0 eq_refl) as ->.
  - assert (lex_int ((c :: ds) ++ rest) = lex_digits ((c :: ds) ++ rest)) as ->
      by (destruct c as [[] [] [] [] [] [] [] []]; done).
    unfold lex_digits. by rewrite Hs.
Qed.

Lemma pretty_N_natural n : natural (chars (@pretty N pretty_N n)).
Proof.
  assert (Forall (λ c, is_digit c = true) (chars (@pretty N pretty_N n))) as Hd.
  { unfold pretty, pretty_N. case_decide; [by repeat constructor|]. apply pretty_N_go_digits. constructor. }
  pose proof (pretty_N_digits n) as Hp. split_and!; [done| |].
  - by destruct (chars _).
  - intros Hz.
    destruct (decide (n = 0%N)) as [->|Hn]; [done|]. exfalso.
    assert (∀ m s, (0 < m)%N → head (chars (pretty_N_go m s)) ≠ Some "0"%char) as Hgo.
    { clear. intros m. induction (N.lt_wf_0 m) as [m _ IH]; intros s Hm.
      rewrite pretty_N_go_step by done.
      destruct (decide (m `div` 10 = 0)%N) as [E|E].
      - rewrite E, pretty_N_go_0. simpl. intros [= Hc].
        assert (m < 10)%N as Hlt by (apply N.div_small_iff in E; done).
        rewrite N.mod_small in Hc by done.
        assert (m = 1 ∨ m = 2 ∨ m = 3 ∨ m = 4 ∨ m = 5 ∨ m = 6 ∨ m = 7 ∨ m = 8 ∨ m = 9)%N as Hd by lia.
        destruct Hd as [->|[->|[->|[->|[->|[->|[->|[->| ->]]]]]]]]; done.
      - apply IH; [by apply N.div_lt|by apply N.neq_0_lt_0]. }
    unfold pretty, pretty_N in Hz. rewrite decide_False in Hz by done.
    apply (Hgo n ε); [lia|done].
Qed.

Lemma lex_number_Itoa z rest : ends_number rest →
  lex_number (chars (Itoa z) ++ rest) = Some (chars (Itoa z), rest).
Proof.
  intros Hr. destruct (lex_end rest Hr) as [Ef Ee].
  assert (∀ n sign, (if decide (sign = []) then True else sign = ["-"%char]) →
    lex_number (sign ++ chars (@pretty N pretty_N n) ++ rest) =
    Some (sign ++ chars (@pretty N pretty_N n), rest)) as Hgo.
  { intros n sign Hs. pose proof (pretty_N_natural n) as Hn.
    pose proof (lex_int_natural _ _ Hn Hr) as Hi. unfold lex_number.
    destruct (decide (sign = [])) as [->|_]; [|rewrite Hs]; simpl.
    - destruct Hn as (Hd & Hne & _). destruct (chars (@pretty N pretty_N n)) as [|c ds]; [done|].
      assert (c ≠ "-"%char) as Hc by (apply Forall_cons in Hd as [Hc _]; by intros ->).
      cbn [app] in *.
      replace (match c :: ds ++ rest with "-"%char :: s => (["-"%char], s) | _ => ([], c :: ds ++ rest) end)
        with (@nil ascii, c :: ds ++ rest) by (destruct c as [[] [] [] [] [] [] [] []]; done).
      rewrite Hi. simpl. rewrite Ef. simpl. rewrite Ee. simpl. by rewrite app_nil_r.
    - rewrite Hi. simpl. rewrite Ef. simpl. rewrite Ee. simpl. by rewrite app_nil_r. }
  unfold Itoa. destruct z as [|p|p].
  - apply (Hgo 0%N []). done.
  - apply (Hgo (Npos p) []). done.
  - change (pretty (Zneg p)) with ("-" +:+ @pretty N pretty_N (Npos p)). rewrite chars_app.
    apply (Hgo (Npos p) ["-"%char]). done.
Qed.

(** The first byte of a printed value *)
Definition starts_value (s : list ascii) : Prop :=
  match s with
  | [] => False
  | c :: _ => json_space c = false ∧ c ≠ "]"%char ∧ c ≠ "}"%char
  end.

Lemma print_starts j rest : printable j → starts_value (print_json j ++ rest).
Proof.
  destruct j as [|[]|lit|s|l|m]; try done. intros [z ->].
  pose proof (Itoa_chars z) as Hc. simpl.
  assert (chars (Itoa z) ≠ []) as Hne.
  { unfold Itoa. destruct z as [|p|p]; [done| |done]. 
    change (pretty (Zpos p)) with (@pretty N pretty_N (Npos p)). by destruct (pretty_N_natural (Npos p)) as (_ & ? & _). }
  destruct Hc as [|c s Hc _]; [done|]. simpl.
  destruct Hc as [Hc| ->]; [|done].
  destruct c as [[] [] [] [] [] [] [] []]; try done; discriminate Hc.
Qed.

Lemma skip_starts s : starts_value s → skip_ws s = s.
Proof. destruct s as [|c s]; [done|]. intros [Hc _]. unfold skip_ws. simpl. by rewrite Hc. Qed.

(** What fuel reads a document: one unit a nesting, one a list element *)
Fixpoint needs (j : json) : nat :=
  match j with
  | JArr l => S (foldr (λ x n, S (Nat.max (needs x) n)) 0%nat l)
  | JObj m => S (foldr (λ '(_, x) n, S (Nat.max (needs x) n)) 0%nat m)
  | _ => 1%nat
  end.

Definition reads (j : json) : Prop :=
  ∀ fuel depth rest, (needs j ≤ fuel)%nat → Z.of_nat (json_depth j) ≤ depth → printable j →
    ends_number rest → p_value fuel depth (print_json j ++ rest) = Some (j, rest).

Lemma lex_key_quote k rest : ascii_string k →
  lex_key (quote k ++ ":"%char :: rest) = Some (k, rest).
Proof.
  intros Hk. unfold lex_key, quote. change (closes "034" ("034"%char :: ?s)) with (Some s). simpl.
  rewrite <- app_assoc. cbn [app]. rewrite lex_quote by done. simpl. by rewrite of_chars_chars.
Qed.

Lemma p_value_word f d w v rest : (w, v) ∈ [("null", JNull); ("true", JBool true); ("false", JBool false)] →
  p_value (S f) d (chars w ++ rest) = Some (v, rest).
Proof. intros H. repeat (apply elem_of_cons in H as [[= -> ->]|H]; [reflexivity|]). by apply not_elem_of_nil in H. Qed.

Lemma ends_comma c rest : (c = ","%char ∨ c = "]"%char ∨ c = "}"%char) → ends_number (c :: rest).
Proof. by intros [->|[->| ->]]. Qed.

Lemma p_elements_commas l : Forall reads l → l ≠ [] → ∀ fuel depth rest,
  (foldr (λ x n, S (Nat.max (needs x) n)) 0 l ≤ fuel)%nat →
  Z.of_nat (foldr (λ x n, Nat.max (json_depth x) n) 0%nat l) ≤ depth →
  foldr (λ x P, printable x ∧ P) True l →
  p_elements fuel depth (commas (map print_json l) ++ "]"%char :: rest) = Some (l, rest).
Proof.
  induction 1 as [|x l Hx _ IH]; [done|]. intros _ fuel depth rest Hf Hd [Hp Hps].
  destruct fuel as [|fuel]; [simpl in Hf; lia|]. cbn [foldr] in Hf, Hd.
  destruct l as [|y l].
  - simpl. rewrite Hx; [reflexivity|simpl in *; lia..|done|by apply ends_comma; auto].
  - change (commas (map print_json (x :: y :: l))) with
      (print_json x ++ ","%char :: commas (map print_json (y :: l))).
    rewrite <- (assoc_L (++)). cbn [p_elements app].
    rewrite Hx; [|cbn in *; lia..|done|by apply ends_comma; auto]. simpl mbind.
    change (closes "," (","%char :: ?s)) with (Some s). cbv iota.
    rewrite IH; [reflexivity|done|cbn in *; lia..|done].
Qed.

Lemma p_members_commas m : Forall (λ kv, reads kv.2) m → m ≠ [] → ∀ fuel depth rest,
  (foldr (λ '(_, x) n, S (Nat.max (needs x) n)) 0 m ≤ fuel)%nat →
  Z.of_nat (foldr (λ '(_, x) n, Nat.max (json_depth x) n) 0%nat m) ≤ depth →
  foldr (λ '(k, x) P, ascii_string k ∧ printable x ∧ P) True m →
  p_members fuel depth (commas (map (λ '(k, v), quote k ++ ":"%char :: print_json v) m) ++ "}"%char :: rest)
  = Some (m, rest).
Proof.
  induction 1 as [|[k x] m Hx _ IH]; [done|]. intros _ fuel depth rest Hf Hd (Hk & Hp & Hps).
  destruct fuel as [|fuel]; [simpl in Hf; lia|]. cbn [foldr] in Hf, Hd. cbn [snd] in Hx.
  destruct m as [|y m].
  - cbn [map commas p_members]. rewrite <- (assoc_L (++)). cbn [app].
    rewrite lex_key_quote by done. simpl mbind.
    rewrite Hx; [reflexivity|simpl in *; lia..|done|by apply ends_comma; auto].
  - set (pr := λ '(k, v), quote k ++ ":"%char :: print_json v) in *.
    change (commas (map pr ((k, x) :: y :: m))) with
      ((quote k ++ ":"%char :: print_json x) ++ ","%char :: commas (map pr (y :: m))).
    rewrite <- !app_assoc. cbn [p_members app]. rewrite lex_key_quote by done. simpl mbind.
    rewrite Hx; [|cbn in *; lia..|done|by apply ends_comma; auto]. simpl mbind.
    change (closes "," (","%char :: ?s)) with (Some s). cbv iota.
    rewrite IH; [reflexivity|done|cbn in *; lia..|done].
Qed.

Lemma starts_not_closed s : starts_value s → closes "]" s = None ∧ closes "}" s = None.
Proof.
  intros Hs. unfold closes. rewrite (skip_starts s) by done. destruct s as [|c s]; [done|].
  destruct Hs as (_ & H1 & H2). by rewrite !decide_False.
Qed.

Lemma p_value_arr fuel depth s : 0 < depth → starts_value s →
  p_value (S fuel) depth ("["%char :: s) = '(l, s) ← p_elements fuel (depth - 1) s; Some (JArr l, s).
Proof.
  intros Hd [Hs _]%starts_not_closed. cbn [p_value]. change (skip_ws ("["%char :: s)) with ("["%char :: s).
  cbv iota. rewrite decide_False, decide_True by done. by rewrite (proj2 (Z.leb_gt _ _)), Hs.
Qed.

Lemma p_value_obj fuel depth s : 0 < depth → starts_value s →
  p_value (S fuel) depth ("{"%char :: s) = '(m, s) ← p_members fuel (depth - 1) s; Some (JObj m, s).
Proof.
  intros Hd [_ Hs]%starts_not_closed. cbn [p_value]. change (skip_ws ("{"%char :: s)) with ("{"%char :: s).
  cbv iota. rewrite !decide_False, decide_True by done. by rewrite (proj2 (Z.leb_gt _ _)), Hs.
Qed.

(** Every printed document is read back, with the fuel it needs. *)
Lemma p_value_print j : reads j.
Proof.
  induction j as [|[]|lit|s|l IH|m IH] using json_induction; intros [|fuel] depth rest Hf Hd Hp Hr;
    try (simpl in Hf; lia).
  - reflexivity.
  - reflexivity.
  - reflexivity.
  - pose proof (print_starts (JNum lit) rest Hp) as Hs. destruct Hp as [z ->]. cbn [print_json p_value] in *.
    rewrite (skip_starts _ Hs).
    pose proof (lex_number_Itoa z rest Hr) as Hl. destruct (chars (Itoa z) ++ rest) as [|c s] eqn:E; [done|].
    assert (is_digit c = true ∨ c = "-"%char) as Hc.
    { pose proof (Itoa_chars z) as Hc. destruct (chars (Itoa z)) as [|c' s'] eqn:E'.
      - exfalso. destruct (Itoa z) eqn:Ez; [|done].
        pose proof (lex_number_Itoa z [] I) as Hl0. rewrite Ez in Hl0. done.
      - injection E as -> _. by apply Forall_cons in Hc as [? _]. }
    rewrite !decide_False by (destruct Hc as [Hc| ->]; [by intros ->|done]).
    rewrite Hl. simpl. by rewrite of_chars_chars.
  - cbn [print_json]. unfold quote. cbn [app p_value]. unfold skip_ws at 1. cbn [drop_while].
    change (json_space "034"%char) with false. cbv iota. rewrite decide_True by done.
    rewrite <- app_assoc. cbn [app]. rewrite lex_quote by done. simpl. by rewrite of_chars_chars.
  - destruct l as [|x l]; [cbn in Hd; simpl; rewrite (proj2 (Z.leb_gt depth 0)) by lia; reflexivity|].
    cbn [print_json]. rewrite <- app_comm_cons, <- app_assoc. cbn [app].
    rewrite p_value_arr; [|cbn in Hd; lia|].
    + rewrite p_elements_commas; [reflexivity|done..|simpl in *; lia|cbn in *; lia|done].
    + destruct Hp as [Hp _]. destruct l as [|y l]; [by apply print_starts|].
      cbn [map commas]. rewrite <- app_assoc. by apply print_starts.
  - destruct m as [|[k x] m]; [cbn in Hd; simpl; rewrite (proj2 (Z.leb_gt depth 0)) by lia; reflexivity|].
    cbn [print_json]. rewrite <- app_comm_cons, <- app_assoc. cbn [app].
    rewrite p_value_obj; [|cbn in Hd; lia|].
    + rewrite p_members_commas; [reflexivity|done..|simpl in *; lia|cbn in *; lia|done].
    + by destruct m.
Qed.

Lemma needs_list {A} (f : A → json) (pr : A → list ascii) (l : list A) :
  Forall (λ x, needs (f x) ≤ length (pr x))%nat l →
  (foldr (λ x n, S (Nat.max (needs (f x)) n)) 0 l ≤ S (length (commas (map pr l))))%nat.
Proof.
  induction 1 as [|x l Hx _ IH]; [simpl; lia|]. destruct l as [|y l]; [simpl in *; lia|].
  change (commas (map pr (x :: y :: l))) with (pr x ++ ","%char :: commas (map pr (y :: l))).
  rewrite length_app. cbn [foldr length] in *. lia.
Qed.

Lemma needs_length j : printable j → (needs j ≤ length (print_json j))%nat.
Proof.
  induction j as [|[]|lit|s|l IH|m IH] using json_induction; intros Hp; try (simpl; lia).
  - pose proof (print_starts (JNum lit) [] Hp) as Hs. rewrite app_nil_r in Hs.
    simpl in *. destruct (chars lit); [done|simpl; lia].
  - cbn [print_json]. rewrite length_cons, length_app. cbn [length].
    assert (Forall (λ x, needs x ≤ length (print_json x))%nat l) as Hl.
    { clear -IH Hp. induction IH as [|x l Hx _ IH]; [done|]. destruct Hp. constructor; auto. }
    pose proof (needs_list id print_json l Hl). cbn [needs]. unfold id in *. lia.
  - cbn [print_json]. rewrite length_cons, length_app. cbn [length].
    set (pr := λ '(k, v), quote k ++ ":"%char :: print_json v).
    assert (Forall (λ kv, needs kv.2 ≤ length (pr kv))%nat m) as Hl.
    { clear -IH Hp. induction IH as [|[k x] m Hx _ IH]; [done|]. destruct Hp as (_ & Hp & Hps).
      constructor; [|auto]. unfold pr. rewrite length_app. simpl in *. specialize (Hx Hp). lia. }
    pose proof (needs_list snd pr m Hl) as Hn. cbn [needs].
    replace (foldr (λ '(_, x) n, S (Nat.max (needs x) n)) 0%nat m)
      with (foldr (λ (kv : string * json) n, S (Nat.max (needs kv.2) n)) 0%nat m); [lia|].
    clear. induction m as [|[k x] m IH]; [done|]. simpl. by rewrite IH.
Qed.

Definition json_text (j : json) : string := of_chars (print_json j).

(** What is printed is parsed back. *)
Lemma parse_print j :
  printable j → Z.of_nat (json_depth j) ≤ max_depth → parse_json (json_text j) = Some j.
Proof.
  intros Hp Hd. unfold parse_json, json_text. rewrite chars_of_chars.
  pose proof (needs_length j Hp) as Hn. pose proof (p_value_print j) as H.
  rewrite <- (app_nil_r (print_json j)) at 2. rewrite H; [reflexivity|lia|done..].
Qed.

(** ** Decoding member by member *)

(** One known member, decoded without an error *)
Lemma decode_member {A} ty (fields : list (field A)) k v m a a' f :
  find_field fields k = Some f → f.2 v a = (a', None) →
  decode_struct ty fields (JObj ((k, v) :: m)) a = decode_struct ty fields (JObj m) a'.
Proof. intros Hf Hd. cbn [decode_struct fold_left]. by rewrite Hf, Hd. Qed.

Tactic Notation "decode_member" "by" tactic3(tac) :=
  erewrite decode_member; [|reflexivity|cbn; tac].

(** ** The fuel is enough for every text *)

Lemma emit_rest bytes r s rest : emit bytes r = Some (s, rest) → ∃ s', r = Some (s', rest).
Proof. destruct r as [[s' r]|]; [|done]. simpl. intros [= <- <-]. eauto. Qed.

Lemma lex_string_rest s v rest : lex_string s = Some (v, rest) → (length rest ≤ length s)%nat.
Proof.
  revert v rest. induction s as [s IH] using (induction_ltof1 _ (@length ascii)). unfold ltof in IH.
  intros v rest H.
  assert (∀ bytes s', (length s' < length s)%nat → emit bytes (lex_string s') = Some (v, rest) →
    (length rest ≤ length s)%nat) as Hrec.
  { intros bytes s' Hl (v' & Hv)%emit_rest. specialize (IH s' Hl _ _ Hv). lia. }
  clear IH. destruct s as [|c s]; [done|]. cbn [lex_string] in H.
  repeat (case_match; simplify_eq; try (eapply Hrec; [|exact H]; simpl; lia); try (simpl; lia)).
Qed.

Lemma skip_ws_rest s : (length (skip_ws s) ≤ length s)%nat.
Proof. unfold skip_ws. induction s as [|c s IH]; simpl; [done|]. destruct (json_space c); simpl; lia. Qed.

Lemma span_digits_rest s ds rest : span_digits s = (ds, rest) → (length rest ≤ length s)%nat.
Proof.
  revert ds rest. induction s as [|c s IH]; intros ds rest; simpl; [by intros [= <- <-]|].
  destruct (is_digit c); [|by intros [= <- <-]]. destruct (span_digits s) as [ds' r] eqn:E.
  intros [= <- <-]. specialize (IH _ _ eq_refl). lia.
Qed.

Lemma lex_digits_rest s ds rest : lex_digits s = Some (ds, rest) → (length rest ≤ length s)%nat.
Proof.
  unfold lex_digits. destruct (span_digits s) as [[|d ds'] r] eqn:E; [done|]. intros [= <- <-].
  by eapply span_digits_rest.
Qed.

Lemma lex_int_rest s ds rest : lex_int s = Some (ds, rest) → (length rest ≤ length s)%nat.
Proof.
  intros H. destruct s as [|c s]; [done|]. cbn [lex_int] in H.
  repeat case_match; simplify_eq; try (by eapply lex_digits_rest); simpl; lia.
Qed.

Lemma lex_frac_rest s ds rest : lex_frac s = Some (ds, rest) → (length rest ≤ length s)%nat.
Proof.
  intros H. destruct s as [|c s]; [by simplify_eq/=|]. cbn [lex_frac] in H.
  repeat case_match; simplify_eq; try done.
  apply emit_rest in H as (s' & H%lex_digits_rest). simpl. lia.
Qed.

Lemma lex_exp_rest s ds rest : lex_exp s = Some (ds, rest) → (length rest ≤ length s)%nat.
Proof.
  intros H. destruct s as [|c s]; [by simplify_eq/=|]. cbn [lex_exp] in H.
  repeat case_match; simplify_eq; try done;
    apply emit_rest in H as (s' & H%lex_digits_rest); simpl in *; lia.
Qed.

Lemma lex_number_rest s lit rest : lex_number s = Some (lit, rest) → (length rest ≤ length s)%nat.
Proof.
  intros H. unfold lex_number in H.
  assert (∃ sign s1, (match s with "-"%char :: s => (["-"%char], s) | _ => ([], s) end) = (sign, s1) ∧
    (length s1 ≤ length s)%nat) as (sign & s1 & E & Hl).
  { destruct s as [|c s]; [by exists [], []|].
    destruct (decide (c = "-"%char)) as [->|Hc]; [by exists ["-"%char], s; simpl; eauto|].
    exists [], (c :: s). split; [|done]. destruct c as [[] [] [] [] [] [] [] []]; done. }
  rewrite E in H. destruct (lex_int s1) as [[ip s2]|] eqn:E1; [|done]. simpl in H.
  destruct (lex_frac s2) as [[fp s3]|] eqn:E2; [|done]. simpl in H.
  destruct (lex_exp s3) as [[ep s4]|] eqn:E3; [|done]. simpl in H. injection H as <- <-.
  apply lex_int_rest in E1. apply lex_frac_rest in E2. apply lex_exp_rest in E3. lia.
Qed.

Lemma closes_rest c s rest : closes c s = Some rest → (length rest < length s)%nat.
Proof.
  unfold closes. pose proof (skip_ws_rest s). destruct (skip_ws s) as [|x s1]; [done|].
  case_decide; [|done]. intros [= <-]. simpl in *. lia.
Qed.

Lemma lex_key_rest s k rest : lex_key s = Some (k, rest) → (length rest < length s)%nat.
Proof.
  unfold lex_key. intros H. destruct (closes "034" s) as [s1|] eqn:E1; [|done]. simpl in H.
  destruct (lex_string s1) as [[k' s2]|] eqn:E2; [|done]. simpl in H.
  destruct (closes ":" s2) as [s3|] eqn:E3; [|done]. injection H as <- <-.
  apply closes_rest in E1, E3. apply lex_string_rest in E2. lia.
Qed.

Lemma lex_word_rest w v s v' rest : lex_word w v s = Some (v', rest) → (length rest ≤ length s)%nat.
Proof. unfold lex_word. case_match; [|done]. intros [= <- <-]. rewrite length_drop. lia. Qed.

(** A value is at least one byte. *)
Definition shrinks {A} (p : Z → list ascii → option (A * list ascii)) : Prop :=
  ∀ depth s v rest, p depth s = Some (v, rest) → (length rest ≤ length s)%nat.

Lemma bind_rest {A B} (r : option (A * list ascii)) (f : A → B) (n : nat) v rest :
  ('(x, s) ← r; Some (f x, s)) = Some (v, rest) →
  (∀ x s, r = Some (x, s) → (length s ≤ n)%nat) → (length rest ≤ n)%nat.
Proof. destruct r as [[x s]|]; [|done]. simpl. intros [= <- <-] H. by eapply H. Qed.

Lemma p_rest fuel :
  shrinks (p_value fuel) ∧ shrinks (p_elements fuel) ∧ shrinks (p_members fuel).
Proof.
  induction fuel as [|fuel (IHv & IHe & IHm)]; [done|].
  split_and!; intros depth s v rest H.
  - cbn [p_value] in H. pose proof (skip_ws_rest s) as Hs. destruct (skip_ws s) as [|c s']; [done|].
    cbn [length] in Hs. repeat case_decide.
    + eapply bind_rest; [exact H|]. intros x r Hr%lex_string_rest. lia.
    + destruct (depth <=? 0); [done|]. destruct (closes "]" s') as [r|] eqn:E.
      * injection H as <- <-. apply closes_rest in E. lia.
      * eapply bind_rest; [exact H|]. intros x r Hr%IHe. lia.
    + destruct (depth <=? 0); [done|]. destruct (closes "}" s') as [r|] eqn:E.
      * injection H as <- <-. apply closes_rest in E. lia.
      * eapply bind_rest; [exact H|]. intros x r Hr%IHm. lia.
    + apply lex_word_rest in H. simpl in H. lia.
    + apply lex_word_rest in H. simpl in H. lia.
    + apply lex_word_rest in H. simpl in H. lia.
    + eapply bind_rest; [exact H|]. intros x r Hr%lex_number_rest. simpl in Hr. lia.
  - cbn [p_elements] in H. destruct (p_value fuel depth s) as [[x s1]|] eqn:E1; [|done].
    apply IHv in E1. simpl in H. destruct (closes "," s1) as [s2|] eqn:E2.
    + apply closes_rest in E2. eapply bind_rest; [exact H|]. intros y r Hr%IHe. lia.
    + destruct (closes "]" s1) as [s2|] eqn:E3; [|done]. injection H as <- <-. apply closes_rest in E3. lia.
  - cbn [p_members] in H. destruct (lex_key s) as [[k s1]|] eqn:E1; [|done]. simpl in H.
    apply lex_key_rest in E1. destruct (p_value fuel depth s1) as [[x s2]|] eqn:E2; [|done].
    apply IHv in E2. simpl in H. destruct (closes "," s2) as [s3|] eqn:E3.
    + apply closes_rest in E3. eapply bind_rest; [exact H|]. intros y r Hr%IHm. lia.
    + destruct (closes "}" s2) as [s3|] eqn:E4; [|done]. injection H as <- <-. apply closes_rest in E4. lia.
Qed.

(** Beyond twice the length, more fuel changes nothing. *)
Lemma p_fuel n s : (length s ≤ n)%nat → ∀ f g depth, 
  ((2 * n < f)%nat → (2 * n < g)%nat → p_value f depth s = p_value g depth s) ∧
  ((2 * n + 1 < f)%nat → (2 * n + 1 < g)%nat → p_elements f depth s = p_elements g depth s) ∧
  ((2 * n < f)%nat → (2 * n < g)%nat → p_members f depth s = p_members g depth s).
Proof.
  revert s. induction n as [n IH] using lt_wf_ind. intros s Hn.
  assert (∀ f g depth, (2 * n < f)%nat → (2 * n < g)%nat → p_value f depth s = p_value g depth s) as Hv.
  { intros [|f] [|g] depth Hf Hg; [lia..|]. cbn [p_value].
    pose proof (skip_ws_rest s) as Hs. destruct (skip_ws s) as [|c s']; [done|]. cbn [length] in Hs.
    destruct (IH (n - 1)%nat ltac:(lia) s' ltac:(lia) f g (depth - 1)) as (_ & He & Hm).
    rewrite He, Hm by lia. done. }
  intros f g depth. split_and!; [by apply Hv| |].
  - intros Hf Hg. destruct f as [|f], g as [|g]; [lia..|]. cbn [p_elements].
    rewrite (Hv f g) by lia. destruct (p_value g depth s) as [[x s1]|] eqn:E1; [|done]. simpl.
    apply (p_rest g) in E1. destruct (closes "," s1) as [s2|] eqn:E2; [|done]. apply closes_rest in E2.
    destruct (IH (n - 1)%nat ltac:(lia) s2 ltac:(lia) f g depth) as (_ & -> & _); [done|lia..].
  - intros Hf Hg. destruct f as [|f], g as [|g]; [lia..|]. cbn [p_members].
    destruct (lex_key s) as [[k s1]|] eqn:E1; [|done]. simpl. apply lex_key_rest in E1.
    destruct (IH (n - 1)%nat ltac:(lia) s1 ltac:(lia) f g depth) as (-> & _ & _); [|lia..].
    destruct (p_value g depth s1) as [[x s2]|] eqn:E2; [|done]. simpl. apply (p_rest g) in E2.
    destruct (closes "," s2) as [s3|] eqn:E3; [|done]. apply closes_rest in E3.
    destruct (IH (n - 1)%nat ltac:(lia) s3 ltac:(lia) f g depth) as (_ & _ & ->); [done|lia..].
Qed.

(** The parser never gives up for lack of fuel. *)
Lemma parse_fuel data fuel : (2 * String.length data + 2 ≤ fuel)%nat →
  parse_json data =
    '(v, rest) ← p_value fuel max_depth (chars data);
    match skip_ws rest with [] => Some v | _ => None end.
Proof.
  intros Hf. assert (length (chars data) = String.length data) as El.
  { clear. induction data as [|c s IH]; simpl; [done|]. by rewrite IH. }
  unfold parse_json. 
  destruct (p_fuel (length (chars data)) (chars data) ltac:(lia) (2 * length (chars data) + 2) fuel max_depth)
    as (-> & _ & _); [done|lia..].
Qed.
