(* ===== verification/Url.v ===== *)
(** * Url: [net/url.Parse], for the endpoints of container runtimes

    The parts of a parsed URL the program reads: scheme, host and path.  An
    input that does not parse has no value; the texts of the errors are left
    out. *)

From S2P Require Import Prelude Effects GoStr Json.

Record URL := mkURL { url_Scheme : string; url_Host : string; url_Path : string }.

(** ** Cutting strings *)

(** [strings.Cut] at a byte: what is before it and, if it occurs, after it *)
Fixpoint cut (sep : ascii) (s : list ascii) : list ascii * option (list ascii) :=
  match s with
  | [] => ([], None)
  | c :: s => if decide (c = sep) then ([], Some s)
              else let '(a, b) := cut sep s in (c :: a, b)
  end.

(** The same at its last occurrence *)
Definition cut_last (sep : ascii) (s : list ascii) : option (list ascii * list ascii) :=
  match cut sep (rev s) with
  | (_, None) => None
  | (b, Some a) => Some (rev a, rev b)
  end.

(** ** Characters *)

Definition is_letter (c : ascii) : bool :=
  ((65 <=? code c) && (code c <=? 90)) || ((97 <=? code c) && (code c <=? 122)).

Definition one_of (cs : string) (c : ascii) : bool := has_char c cs.

Definition is_ctl (c : ascii) : bool := (code c <? 32) || (code c =? 127).

(** What [shouldEscape] leaves alone in a host *)
Definition host_char (c : ascii) : bool :=
  is_letter c || is_digit c || one_of "!$&'()*+,;=:[]<>-_.~" c || bool_decide (c = "034"%char).

Definition userinfo_char (c : ascii) : bool :=
  is_letter c || is_digit c || one_of "-._:~!$&'()*+,;=%@" c.

(** ** Unescaping *)

Inductive encoding := encodePath | encodeUserPassword | encodeHost | encodeZone | encodeFragment.

(** Whether an escaped byte is admitted *)
Definition escape_ok (mode : encoding) (v : Z) : bool :=
  match mode with
  | encodeHost => (128 <=? v) || (v =? 37)
  | encodeZone => (v =? 37) || (v =? 32) || ((128 <=? v) || host_char (byte v))
  | _ => true
  end.

Definition literal_ok (mode : encoding) (c : ascii) : bool :=
  match mode with
  | encodeHost | encodeZone => (128 <=? code c) || host_char c
  | _ => true
  end.

Fixpoint unescape_url (mode : encoding) (s : list ascii) : option (list ascii) :=
  match s with
  | [] => Some []
  | "%"%char :: a :: b :: s =>
      x ← hex_digit_of a;
      y ← hex_digit_of b;
      if escape_ok mode (16 * x + y) then cons (byte (16 * x + y)) <$> unescape_url mode s else None
  | c :: s =>
      if decide (c = "%"%char) then None
      else if literal_ok mode c then cons c <$> unescape_url mode s else None
  end.

(** ** Parsing *)

(** [getScheme]: the scheme before the first colon, if what is there may be one *)
Fixpoint scheme_from (first : bool) (s : list ascii) : option (option (list ascii * list ascii)) :=
  match s with
  | [] => Some None
  | c :: s =>
      if is_letter c || (negb first && (is_digit c || one_of "+-." c)) then
        match scheme_from false s with
        | Some (Some (sch, rest)) => Some (Some (c :: sch, rest))
        | r => r
        end
      else if bool_decide (c = ":"%char) then if first then None else Some (Some ([], s))
      else Some None
  end.

(** [None] is the missing scheme of an input that starts with a colon. *)
Definition getScheme (s : list ascii) : option (list ascii * list ascii) :=
  match scheme_from true s with
  | None => None
  | Some None => Some ([], s)
  | Some (Some p) => Some p
  end.

Definition validOptionalPort (s : list ascii) : bool :=
  match s with
  | [] => true
  | ":"%char :: ds => forallb is_digit ds
  | _ => false
  end.

(** The position of [%25] in a host splits off its zone. *)
Fixpoint split_zone (s : list ascii) : option (list ascii * list ascii) :=
  if is_prefix (chars "%25") s then Some ([], s)
  else match s with
       | [] => None
       | c :: s => match split_zone s with Some (a, b) => Some (c :: a, b) | None => None end
       end.

Definition parseHost (host : list ascii) : option (list ascii) :=
  match host with
  | "["%char :: _ =>
      '(before, colonPort) ← cut_last "]" host;
      if negb (validOptionalPort colonPort) then None
      else
        match split_zone before with
        | Some (h, zone) =>
            h1 ← unescape_url encodeHost h;
            h2 ← unescape_url encodeZone zone;
            h3 ← unescape_url encodeHost ("]"%char :: colonPort);
            Some (h1 ++ h2 ++ h3)
        | None => unescape_url encodeHost host
        end
  | _ =>
      match cut_last ":" host with
      | Some (_, port) =>
          if forallb is_digit port then unescape_url encodeHost host else None
      | None => unescape_url encodeHost host
      end
  end.

Definition parseAuthority (authority : list ascii) : option (list ascii) :=
  match cut_last "@" authority with
  | None => parseHost authority
  | Some (userinfo, host) =>
      host ← parseHost host;
      if negb (forallb userinfo_char userinfo) then None
      else
        let '(username, password) := cut ":" userinfo in
        _ ← unescape_url encodeUserPassword username;
        _ ← unescape_url encodeUserPassword (default [] password);
        Some host
  end.

(** What is left of the path once a query is cut off *)
Definition cut_query (rest : list ascii) : list ascii := (cut "?" rest).1.

Definition parse_rest (scheme rest : list ascii) : option URL :=
  let sch := of_chars (lower <$> scheme) in
  let rest := cut_query rest in
  match rest with
  | "/"%char :: tail1 =>
      let authority :=
        match tail1 with
        | "/"%char :: a =>
            if negb (bool_decide (scheme = [])) || negb (is_prefix ["/"%char] a) then Some a else None
        | _ => None
        end in
      match authority with
      | Some a =>
          let '(auth, path) := cut "/" a in
          host ← parseAuthority auth;
          p ← unescape_url encodePath (match path with Some p => "/"%char :: p | None => [] end);
          Some (mkURL sch (of_chars host) (of_chars p))
      | None => p ← unescape_url encodePath rest; Some (mkURL sch ε (of_chars p))
      end
  | _ =>
      if negb (bool_decide (scheme = [])) then Some (mkURL sch ε ε)
      else if existsb (λ c, bool_decide (c = ":"%char)) (cut "/" rest).1 then None
      else p ← unescape_url encodePath rest; Some (mkURL sch ε (of_chars p))
  end.

Definition url_Parse (rawURL : string) : option URL :=
  let '(u, frag) := cut "#" (chars rawURL) in
  if existsb is_ctl u then None
  else
    url ← (if bool_decide (u = ["*"%char]) then Some (mkURL ε ε "*")
           else '(scheme, rest) ← getScheme u; parse_rest scheme rest);
    _ ← unescape_url encodeFragment (default [] frag);
    Some url.

Example url_unix : url_Parse "unix:///run/containerd/containerd.sock" =
  Some (mkURL "unix" ε "/run/containerd/containerd.sock").
Proof. vm_compute. reflexivity. Qed.

Example url_path : url_Parse "/var/run/dockershim.sock" = Some (mkURL ε ε "/var/run/dockershim.sock").
Proof. vm_compute. reflexivity. Qed.

Example url_tcp : url_Parse "TCP://u:p@[fe80::1%25en0]:10250/a%2fb?q#f" = Some (mkURL "tcp" "[fe80::1%en0]:10250" "/a/b").
Proof. vm_compute. reflexivity. Qed.

Example url_port : url_Parse "tcp://host:80a/" = None.
Proof. vm_compute. reflexivity. Qed.

(** ** Plain paths *)

Definition path_char (c : ascii) : bool :=
  negb (is_ctl c) && negb (bool_decide (c = "#"%char)) && negb (bool_decide (c = "?"%char)) &&
  negb (bool_decide (c = "%"%char)).

(** An absolute path without escapes *)
Definition plain_path (p : string) : Prop :=
  Forall (λ c, path_char c = true) (chars p) ∧ head (chars p) = Some "/"%char.

#[export] Instance plain_path_dec p : Decision (plain_path p).
Proof. unfold plain_path. apply _. Defined.

Lemma cut_none sep s : Forall (λ c, c ≠ sep) s → cut sep s = (s, None).
Proof. induction 1 as [|c s Hc _ IH]; [done|]. cbn [cut]. by rewrite decide_False, IH. Qed.

Lemma path_char_not c : path_char c = true →
  is_ctl c = false ∧ c ≠ "#"%char ∧ c ≠ "?"%char ∧ c ≠ "%"%char.
Proof.
  unfold path_char. rewrite !andb_true_iff, !negb_true_iff, !bool_decide_eq_false. naive_solver.
Qed.

Lemma unescape_plain s : Forall (λ c, path_char c = true) s → unescape_url encodePath s = Some s.
Proof.
  induction 1 as [|c s Hc _ IH]; [done|]. apply path_char_not in Hc as (_ & _ & _ & Hc).
  assert (unescape_url encodePath (c :: s) = cons c <$> unescape_url encodePath s) as ->.
  { destruct c as [[] [] [] [] [] [] [] []]; first [done | by destruct s as [|? [|? ?]]]. }
  by rewrite IH.
Qed.

Lemma parse_rest_scheme scheme rest u : parse_rest scheme rest = Some u → url_Scheme u = of_chars (lower <$> scheme).
Proof.
  unfold parse_rest. intros H.
  repeat first [progress simplify_eq/= | case_match | 
    match type of H with mbind _ ?o = _ => destruct o as [?|]; [|done] end]; done.
Qed.

(** A bare path has no scheme, if it parses at all. *)
Lemma url_bare p u : head (chars p) = Some "/"%char → url_Parse p = Some u → url_Scheme u = ε.
Proof.
  intros Hp. unfold url_Parse. destruct (chars p) as [|c s]; [done|]. injection Hp as ->.
  assert (∃ s', (cut "#" ("/"%char :: s)).1 = "/"%char :: s') as [s' E].
  { cbn [cut]. rewrite decide_False by done. destruct (cut "#" s). by eexists. }
  destruct (cut "#" ("/"%char :: s)) as [v frag]. simpl in E. subst v.
  destruct (existsb _ _); [done|]. rewrite bool_decide_false by done.
  change (getScheme ("/"%char :: s')) with (Some (@nil ascii, "/"%char :: s')). cbn [mbind option_bind].
  destruct (parse_rest [] ("/"%char :: s')) as [u'|] eqn:Er; [|done]. cbn [mbind option_bind].
  destruct (unescape_url _ _); [|done]. intros [= <-]. by apply parse_rest_scheme in Er.
Qed.

(** A path after [unix://] is the path of the URL. *)
Lemma url_unix_path p : plain_path p → url_Parse ("unix://" +:+ p) = Some (mkURL "unix" ε p).
Proof.
  intros [Hp Hh]. unfold url_Parse. rewrite chars_app. cbn [chars app].
  assert (Forall (λ c, path_char c = true) (chars "unix://" ++ chars p)) as Hall.
  { apply Forall_app_2; [|done]. by apply (bool_decide_unpack _); vm_compute. }
  cbn [chars app] in Hall.
  rewrite cut_none by (eapply Forall_impl; [exact Hall|]; by intros c (_ & ? & _)%path_char_not).
  assert (existsb is_ctl ("u"%char :: "n"%char :: "i"%char :: "x"%char :: ":"%char :: "/"%char :: "/"%char :: chars p) = false) as ->.
  { apply not_true_is_false. intros (c & Hin & Hc)%existsb_exists. rewrite Forall_forall in Hall.
    apply list_elem_of_In in Hin. apply Hall in Hin as (Hn & _)%path_char_not. congruence. }
  rewrite bool_decide_false by done.
  change (getScheme ("u"%char :: "n"%char :: "i"%char :: "x"%char :: ":"%char :: "/"%char :: "/"%char :: chars p))
    with (Some (["u"; "n"; "i"; "x"]%char, "/"%char :: "/"%char :: chars p)).
  cbn [mbind option_bind]. unfold parse_rest, cut_query.
  rewrite cut_none by (do 5 apply Forall_inv_tail in Hall; eapply Forall_impl; [exact Hall|];
    by intros c (_ & _ & ? & _)%path_char_not).
  cbn [fst]. rewrite bool_decide_false by done. cbn [negb orb].
  rewrite <- (of_chars_chars p) at 2. destruct (chars p) as [|c s] eqn:E; [done|]. injection Hh as ->.
  cbn [cut]. rewrite decide_True by done. cbn [mbind option_bind].
  change (parseAuthority []) with (Some (@nil ascii)). cbn [mbind option_bind].
  by rewrite unescape_plain.
Qed.
