(* ===== verification/Time.v ===== *)
(** * Time: what the source uses of Go's package time

    A [time.Time] is its nanoseconds since the Unix epoch, in UTC, the time zone
    of the images; a duration is nanoseconds too. *)

From S2P Require Import Prelude Effects GoStr Json.

(** ** Durations and instants *)

Definition Millisecond : Z := 1000000.
Definition Second : Z := 1000000000.
Definition Minute : Z := 60 * Second.
Definition Hour : Z := 60 * Minute.
Definition Day : Z := 24 * Hour.

(** The zero [time.Time]: January 1 of the year 1 *)
Definition zeroTime : Z := -62135596800 * Second.

Definition time_IsZero (t : option Z) : bool :=
  match t with None => true | Some t => t =? zeroTime end.

(** [time.Time.Sub] saturates. *)
Definition time_Sub (t u : Z) : Z :=
  Z.min (2 ^ 63 - 1) (Z.max (- 2 ^ 63) (t - u)).

(** ** The calendar *)

Definition is_leap (y : Z) : bool :=
  (y `mod` 4 =? 0) && (negb (y `mod` 100 =? 0) || (y `mod` 400 =? 0)).

Definition daysIn (y m : Z) : Z :=
  if m =? 2 then (if is_leap y then 29 else 28)
  else if (m =? 4) || (m =? 6) || (m =? 9) || (m =? 11) then 30 else 31.

(** Days from the epoch to a date of the Gregorian calendar *)
Definition days_from_civil (y m d : Z) : Z :=
  let y' := if m <=? 2 then y - 1 else y in
  let m' := if m <=? 2 then m + 9 else m - 3 in
  365 * y' + y' / 4 - y' / 100 + y' / 400 + (153 * m' + 2) / 5 + d - 1 - 719468.

(** The date of a day: years begin in March, so that the leap day ends them;
    400 years are [146097] days, a century [36524], or one more if it is the
    fourth, and four years [1461], or one less. *)
Definition civil_from_days (n : Z) : Z * Z * Z :=
  let z := n + 719468 in
  let era := z / 146097 in
  let doe := z mod 146097 in
  let century := Z.min 3 (doe / 36524) in
  let doc := doe - 36524 * century in
  let quad := doc / 1461 in
  let doq := doc mod 1461 in
  let year := Z.min 3 (doq / 365) in
  let doy := doq - 365 * year in
  let y := 400 * era + 100 * century + 4 * quad + year in
  let m := (5 * doy + 2) / 153 in
  let d := doy - (153 * m + 2) / 5 + 1 in
  if m <? 10 then (y, m + 3, d) else (y + 1, m - 9, d).

(** [t.AddDate(years, 0, 0)]: the same date and clock in another year; February
    29 becomes March 1 in a year that has none. *)
Definition AddDate (t years : Z) : Z :=
  let '(y, m, d) := civil_from_days (t / Day) in
  days_from_civil (y + years) m d * Day + t mod Day.

(** ** Parsing *)

(** One or two digits; two when [fixed] *)
Definition getnum (fixed : bool) (s : list ascii) : option (Z * list ascii) :=
  match s with
  | a :: s' =>
      x ← digit_of a;
      match s' with
      | b :: s'' =>
          match digit_of b with
          | Some y => Some (10 * x + y, s'')
          | None => if fixed then None else Some (x, s')
          end
      | [] => if fixed then None else Some (x, s')
      end
  | [] => None
  end.

Definition getyear (s : list ascii) : option (Z * list ascii) :=
  match s with
  | a :: b :: c :: d :: s' => y ← digits_value 10 digit_of 0 [a; b; c; d]; Some (y, s')
  | _ => None
  end.

Definition literal (c : ascii) (s : list ascii) : option (list ascii) :=
  match s with x :: s' => if decide (x = c) then Some s' else None | [] => None end.

(** A fraction of a second after a dot or a comma, in nanoseconds: the digits
    after the ninth are ignored. *)
Definition getfrac (s : list ascii) : option (Z * list ascii) :=
  match s with
  | p :: d :: _ =>
      if (bool_decide (p = "."%char) || bool_decide (p = ","%char)) && is_digit d then
        let '(ds, rest) := span_digits (tail s) in
        let ds := take 9 ds in
        n ← digits_value 10 digit_of 0 ds;
        Some (n * 10 ^ (9 - Z.of_nat (length ds)), rest)
      else Some (0, s)
  | _ => Some (0, s)
  end.

(** [time.Parse] with the layout [2006-01-02T15:04:05Z]: month, day, minute and
    second have two digits, the hour may have one, and a fraction of a second is
    admitted. *)
Definition time_Parse (value : string) : option Z :=
  '(year, s) ← getyear (chars value);
  s ← literal "-" s;
  '(month, s) ← getnum true s;
  s ← (if (month <=? 0) || (12 <? month) then None else literal "-" s);
  '(day, s) ← getnum true s;
  s ← literal "T" s;
  '(hour, s) ← getnum false s;
  s ← (if 24 <=? hour then None else literal ":" s);
  '(minute, s) ← getnum true s;
  s ← (if 60 <=? minute then None else literal ":" s);
  '(sec, s) ← getnum true s;
  if 60 <=? sec then None else
  '(nsec, s) ← getfrac s;
  s ← literal "Z" s;
  if decide (s = []) then
    if (day <? 1) || (daysIn year month <? day) then None
    else Some ((days_from_civil year month day * 86400 + hour * 3600 + minute * 60 + sec) * 1000000000 + nsec)
  else None.

Example time_Parse_epoch : time_Parse "1970-01-01T00:00:00Z" = Some 0.
Proof. reflexivity. Qed.

Example time_Parse_leap : time_Parse "2024-02-29T23:59:59.5Z" = Some 1709251199500000000.
Proof. reflexivity. Qed.

Example time_Parse_not_leap : time_Parse "2023-02-29T23:59:59Z" = None.
Proof. reflexivity. Qed.

(** ** Properties *)

#[local] Ltac euclid := Z.to_euclidean_division_equations; lia.

(** Every day of a year that begins in March is a date: of the last, only a leap
    year has one. *)
Definition march_date (doy : Z) : bool :=
  let m := (5 * doy + 2) / 153 in
  let d := doy - (153 * m + 2) / 5 + 1 in
  (0 <=? m) && (m <=? 11) && (1 <=? d) &&
  ((d <=? daysIn 1 (if m <? 10 then m + 3 else m - 9)) || ((doy =? 365) && (m =? 11) && (d =? 29))).

Lemma march_dates doy : 0 ≤ doy ≤ 365 → march_date doy = true.
Proof.
  intros H. assert (forallb march_date (seqZ 0 366) = true) as Hall by (vm_compute; reflexivity).
  rewrite forallb_forall in Hall. apply Hall. rewrite <- list_elem_of_In. apply elem_of_seqZ. lia.
Qed.

(** The last day of a year is reached in leap years only. *)
Lemma leap_year era century quad :
  0 ≤ century ≤ 3 → 0 ≤ quad ≤ 24 → (quad = 24 → century = 3) →
  is_leap (400 * era + 100 * century + 4 * quad + 3 + 1) = true.
Proof.
  intros Hc Hq H. unfold is_leap.
  destruct (Z.eq_dec quad 24) as [->|].
  - rewrite H by done. rewrite andb_true_iff, orb_true_iff, !Z.eqb_eq. split; [euclid|]. right. euclid.
  - rewrite andb_true_iff, orb_true_iff, negb_true_iff, !Z.eqb_eq, Z.eqb_neq. split; [euclid|]. left.
    replace (400 * era + 100 * century + 4 * quad + 3 + 1) with (4 * (quad + 1) + (4 * era + century) * 100) by lia.
    rewrite Z.mod_add, Z.mod_small by lia. lia.
Qed.

Lemma daysIn_leap y m : daysIn 1 m ≤ daysIn y m.
Proof. unfold daysIn. change (is_leap 1) with false. repeat case_match; lia. Qed.

Lemma civil_parts doe (century := Z.min 3 (doe / 36524)) (doc := doe - 36524 * century)
    (quad := doc / 1461) (doq := doc mod 1461) (year := Z.min 3 (doq / 365)) (doy := doq - 365 * year) :
  0 ≤ doe < 146097 →
  0 ≤ century ≤ 3 ∧ 0 ≤ quad ≤ 24 ∧ 0 ≤ year ≤ 3 ∧ 0 ≤ doy ≤ 365 ∧
  (doy = 365 → year = 3 ∧ (quad = 24 → century = 3)).
Proof.
  intros H. assert (0 ≤ century ≤ 3 ∧ 0 ≤ doc ≤ 36524 ∧ (doc = 36524 → century = 3)) as (Hc & Hd & Hd3)
    by (subst doc century; euclid).
  assert (0 ≤ quad ≤ 24 ∧ 0 ≤ doq ≤ 1460 ∧ doc = 1461 * quad + doq) as (Hq & Hdq & Edoc)
    by (subst doq quad; clear - Hd; euclid).
  assert (0 ≤ year ≤ 3 ∧ 0 ≤ doy ≤ 365 ∧ (doy = 365 → year = 3)) as (Hy & Hdy & Hdy3)
    by (subst doy year; clear - Hdq; euclid).
  split_and!; [lia..|]. intros Hdy365. split; [by apply Hdy3|]. intros Hq24.
  destruct (Z.eq_dec century 3); [done|]. exfalso. specialize (Hdy3 Hdy365). subst doy. lia.
Qed.

(** A day is found again from its date, which is a date of the calendar. *)
Lemma civil_round_trip n :
  let '(y, m, d) := civil_from_days n in days_from_civil y m d = n ∧ 1 ≤ m ≤ 12 ∧ 1 ≤ d ≤ daysIn y m.
Proof.
  unfold civil_from_days. cbv zeta.
  pose proof (Z.mod_pos_bound (n + 719468) 146097 ltac:(lia)) as Hdoe.
  pose proof (Z.div_mod (n + 719468) 146097 ltac:(lia)) as En.
  pose proof (civil_parts _ Hdoe) as Hp. cbv zeta in Hp.
  set (era := (n + 719468) / 146097) in *. set (doe := (n + 719468) mod 146097) in *.
  set (century := Z.min 3 (doe / 36524)) in *. set (doc := doe - 36524 * century) in *.
  set (quad := doc / 1461) in *. set (doq := doc mod 1461) in *. set (year := Z.min 3 (doq / 365)) in *.
  assert (doe = 36524 * century + 1461 * quad + doq) as Edoe
    by (pose proof (Z.div_mod doc 1461 ltac:(lia)); subst quad doq doc; lia).
  clearbody era doe century doc quad doq year.
  destruct Hp as (Hc & Hq & Hy & Hdy & Hlast). set (doy := doq - 365 * year) in *.
  assert (doe = 36524 * century + 1461 * quad + 365 * year + doy) as Edoe' by (subst doy; lia).
  clearbody doy. pose proof (march_dates doy Hdy) as Hm. unfold march_date in Hm.
  set (m := (5 * doy + 2) / 153) in *. clearbody m.
  assert (0 ≤ m ≤ 11 ∧ 1 ≤ doy - (153 * m + 2) / 5 + 1) as [Hm11 Hd1] by lia.
  set (y := 400 * era + 100 * century + 4 * quad + year) in *.
  assert (y / 4 = 100 * era + 25 * century + quad ∧ y / 100 = 4 * era + century ∧ y / 400 = era) as (E4 & E100 & E400)
    by (subst y; split_and!; euclid).
  assert (365 * y + y / 4 - y / 100 + y / 400 + doy = n + 719468) as Edays by (subst y; lia).
  revert Hm. destruct (Z.ltb_spec m 10) as [Hlt|Hge]; intros Hm; unfold days_from_civil.
  - rewrite (proj2 (Z.leb_gt (m + 3) 2)) by lia. replace (m + 3 - 3) with m by lia.
    split; [lia|]. split; [lia|]. split; [lia|]. pose proof (daysIn_leap y (m + 3)). lia.
  - rewrite (proj2 (Z.leb_le (m - 9) 2)) by lia. replace (m - 9 + 9) with m by lia.
    replace (y + 1 - 1) with y by lia. split; [lia|]. split; [lia|]. split; [lia|].
    pose proof (daysIn_leap (y + 1) (m - 9)).
    destruct (Z.leb_spec (doy - (153 * m + 2) / 5 + 1) (daysIn 1 (m - 9))); [lia|].
    assert (doy = 365 ∧ m = 11 ∧ doy - (153 * m + 2) / 5 + 1 = 29) as (E1 & -> & ->) by lia.
    destruct (Hlast E1) as [-> Hq24]. cbn [daysIn]. unfold daysIn. simpl. subst y.
    rewrite leap_year by done. lia.
Qed.

(** A hundred years are [36524] days, or one more. *)
Lemma AddDate_century t : 36524 * Day ≤ AddDate t 100 - t ≤ 36525 * Day.
Proof.
  unfold AddDate. change Day with 86400000000000. pose proof (civil_round_trip (t / 86400000000000)) as Hr.
  destruct (civil_from_days (t / 86400000000000)) as [[y m] d]. destruct Hr as (Hr & _ & _).
  pose proof (Z.div_mod t 86400000000000 ltac:(done)) as Et.
  enough (36524 ≤ days_from_civil (y + 100) m d - days_from_civil y m d ≤ 36525) by lia.
  clear. unfold days_from_civil. destruct (m <=? 2); euclid.
Qed.

Example AddDate_leap :
  AddDate 951782400000000000 100 = 4107542400000000000 ∧ civil_from_days 11016 = (2000, 2, 29) ∧
  civil_from_days (4107542400 / 86400) = (2100, 3, 1).
Proof. vm_compute. repeat split. Qed.
