(* ===== verification/Types.v ===== *)
(** * Types: the data the components share

    [internal/types] (ERI, capability masks, device info, configuration,
    credentials) and
    the ERdmaDevice custom resource of [api/v1].  A Go pointer is an
    [option]; a struct field keeps its name behind a prefix that tells the
    struct. *)

From S2P Require Import Prelude Effects GoStr.

(** ** internal/types/eri.go *)

Record ERI := mkERI {
  eri_ID : string;
  eri_IsPrimaryENI : bool;
  eri_MAC : string;
  eri_InstanceID : string;
  eri_CardIndex : Z;
  eri_QueuePair : Z;
  eri_JumboFrame : bool;
  eri_JumboFrameMTU : Z
}.

(** [ERdmaCAP] is a [uint32] mask; the constants are [1 << iota]. *)
Definition ERDMA_CAP_RDMA_CM : Z := Z.shiftl 1 0.
Definition ERDMA_CAP_SMC_R : Z := Z.shiftl 1 1.
Definition ERDMA_CAP_VERBS : Z := Z.shiftl 1 2.
Definition ERDMA_CAP_GDR : Z := Z.shiftl 1 3.
Definition ERDMA_CAP_OOB : Z := Z.shiftl 1 4.

Definition cap_has (cap flag : Z) : bool := negb (Z.land cap flag =? 0).

(** The method [String] of [ERdmaCAP] *)
Definition ERdmaCAP_String (cap : Z) : string :=
  let capSlice := [] in
  let capSlice := if cap_has cap ERDMA_CAP_RDMA_CM then capSlice ++ ["RDMA_CM"] else capSlice in
  let capSlice := if cap_has cap ERDMA_CAP_SMC_R then capSlice ++ ["SMC_R"] else capSlice in
  let capSlice := if cap_has cap ERDMA_CAP_VERBS then capSlice ++ ["VERBS"] else capSlice in
  let capSlice := if cap_has cap ERDMA_CAP_GDR then capSlice ++ ["GDR"] else capSlice in
  let capSlice := if cap_has cap ERDMA_CAP_OOB then capSlice ++ ["OOB"] else capSlice in
  Join capSlice ",".

Record ERdmaDeviceInfo := mkERdmaDeviceInfo {
  info_Name : string;
  info_MAC : string;
  info_DevPaths : list string;
  info_NUMA : Z;
  info_Capabilities : Z
}.

Definition ResourceName : string := "aliyun/erdma".

Definition ENIStatusInUse : string := "InUse".
Definition ENIStatusAvailable : string := "Available".

(** ** internal/types/config.go *)

Record Config := mkConfig {
  cfg_Region : string;
  cfg_ManageNonOwnedERIs : bool;
  cfg_ControllerNamespace : string;
  cfg_ControllerName : string;
  cfg_ClusterDomain : string;
  cfg_CertDir : string;
  cfg_EnableDevicePlugin : option bool;
  cfg_EnableWebhook : option bool;
  cfg_SMCInitImage : string;
  cfg_EnableInitContainerInject : option bool;
  cfg_NodeSelector : gmap string string;
  cfg_WaitNodeReadyTimeoutSeconds : Z
}.

(** [Sensitive] is a string that prints as stars. *)
Definition Sensitive : Type := string.

Definition Sensitive_String (c : Sensitive) : string := "*******".

Record Credentials := mkCredentials {
  cred_Type : string;
  cred_AccessKeyID : Sensitive;
  cred_AccessKeySecret : Sensitive;
  cred_StsSecretNS : string;
  cred_StsSecretName : string
}.

(** ** api/v1/erdmadevice_types.go *)

Record DeviceInfo := mkDeviceInfo {
  dev_InstanceID : string;
  dev_MAC : string;
  dev_IsPrimaryENI : bool;
  dev_ID : string;
  dev_NetworkCardIndex : Z;
  dev_QueuePair : Z
}.

Record ERdmaDeviceSpec := mkERdmaDeviceSpec {
  spec_Devices : list DeviceInfo;
  spec_JumboFrame : bool
}.

Definition DeviceStatusPending : string := "Pending".
Definition DeviceStatusReady : string := "Ready".
Definition DeviceStatusFailed : string := "Failed".

Record DeviceStatus := mkDeviceStatus {
  st_ID : string;
  st_Status : string;
  st_Message : string
}.

Record ERdmaDeviceStatus := mkERdmaDeviceStatus {
  status_Devices : list DeviceStatus
}.

(** The part of [metav1.ObjectMeta] the program reads or writes. *)
Record OwnerReference := mkOwnerReference {
  owner_APIVersion : string;
  owner_Kind : string;
  owner_Name : string;
  owner_UID : string
}.

Record ObjectMeta := mkObjectMeta {
  meta_Name : string;
  meta_Labels : gmap string string;
  meta_OwnerReferences : list OwnerReference;
  meta_Finalizers : list string;
  meta_DeletionTimestamp : option Z
}.

Record ERdmaDevice := mkERdmaDevice {
  device_ObjectMeta : ObjectMeta;
  device_Spec : ERdmaDeviceSpec;
  device_Status : ERdmaDeviceStatus
}.

#[export] Instance ERI_eq_dec : EqDecision ERI.
Proof. solve_decision. Defined.
#[export] Instance DeviceInfo_eq_dec : EqDecision DeviceInfo.
Proof. solve_decision. Defined.
#[export] Instance DeviceStatus_eq_dec : EqDecision DeviceStatus.
Proof. solve_decision. Defined.

#[export] Instance OwnerReference_eq_dec : EqDecision OwnerReference.
Proof. solve_decision. Defined.
#[export] Instance ObjectMeta_eq_dec : EqDecision ObjectMeta.
Proof. solve_decision. Defined.
#[export] Instance ERdmaDeviceSpec_eq_dec : EqDecision ERdmaDeviceSpec.
Proof. solve_decision. Defined.
#[export] Instance ERdmaDeviceStatus_eq_dec : EqDecision ERdmaDeviceStatus.
Proof. solve_decision. Defined.
#[export] Instance ERdmaDevice_eq_dec : EqDecision ERdmaDevice.
Proof. solve_decision. Defined.

(** ** Capability masks *)

(** The flags with the name [String] gives each. *)
Definition cap_names : list (Z * string) :=
  [(ERDMA_CAP_RDMA_CM, "RDMA_CM"); (ERDMA_CAP_SMC_R, "SMC_R");
   (ERDMA_CAP_VERBS, "VERBS"); (ERDMA_CAP_GDR, "GDR"); (ERDMA_CAP_OOB, "OOB")].

Lemma ERdmaCAP_String_names cap :
  ERdmaCAP_String cap = Join (snd <$> List.filter (λ p, cap_has cap p.1) cap_names) ",".
Proof.
  unfold ERdmaCAP_String, cap_names. simpl.
  destruct (cap_has cap ERDMA_CAP_RDMA_CM), (cap_has cap ERDMA_CAP_SMC_R),
    (cap_has cap ERDMA_CAP_VERBS), (cap_has cap ERDMA_CAP_GDR),
    (cap_has cap ERDMA_CAP_OOB); reflexivity.
Qed.

(** A combination of flags has each of its flags. *)
Lemma cap_has_lor a b flag : cap_has (Z.lor a b) flag = cap_has a flag || cap_has b flag.
Proof.
  unfold cap_has. rewrite Z.land_lor_distr_l.
  destruct (Z.land a flag =? 0) eqn:Ea, (Z.land b flag =? 0) eqn:Eb; simpl;
    rewrite ?Z.eqb_eq, ?Z.eqb_neq in *; rewrite ?negb_true_iff, ?negb_false_iff,
    ?Z.eqb_eq, ?Z.eqb_neq, ?Z.lor_eq_0_iff; naive_solver.
Qed.
