(* ===== verification/DeepCopy.v ===== *)
(** * DeepCopy: api/v1/zz_generated.deepcopy.go

    The generated copies of the custom resource, over a heap of arrays: a slice
    is a reference to its array, so copying a struct copies the reference.  The
    caches of the Kubernetes client hand out such copies, and take it that
    writing to one does not change the original. *)

From S2P Require Import Prelude Effects GoStr Types.

(** ** Slices and the heap *)

(** A slice from the start of an array; nil refers to none. *)
Record Slice := mkSlice { sl_array : option nat; sl_len : nat }.

Definition slice_nil : Slice := mkSlice None 0.

(** The elements of a slice, given the arrays of the heap *)
Definition slice_read {A} (arrays : list (list A)) (s : Slice) : list A :=
  match sl_array s with
  | None => []
  | Some a => take (sl_len s) (default [] (arrays !! a))
  end.

(** [s[i] = x] *)
Definition slice_write {A} (arrays : list (list A)) (s : Slice) (i : nat) (x : A) :
    outcome (list (list A)) :=
  match sl_array s with
  | Some a => if (i <? sl_len s)%nat then Ret (alter (<[i := x]>) a arrays) else Panic IndexOutOfRange
  | None => Panic IndexOutOfRange
  end.

(** The structs of api/v1 as the program holds them *)
Record GoSpec := mkGoSpec { gs_Devices : Slice; gs_JumboFrame : bool }.
Record GoStatus := mkGoStatus { gst_Devices : Slice }.
Record GoDevice := mkGoDevice { gd_ObjectMeta : ObjectMeta; gd_Spec : GoSpec; gd_Status : GoStatus }.
Record GoDeviceList := mkGoDeviceList { gl_Items : Slice }.

(** The arrays of each element type *)
Record Heap := mkHeap {
  h_infos : list (list DeviceInfo);
  h_statuses : list (list DeviceStatus);
  h_items : list (list GoDevice)
}.

(** What an object says *)
Definition device_value (h : Heap) (d : GoDevice) : ERdmaDevice :=
  mkERdmaDevice (gd_ObjectMeta d)
    (mkERdmaDeviceSpec (slice_read (h_infos h) (gs_Devices (gd_Spec d))) (gs_JumboFrame (gd_Spec d)))
    (mkERdmaDeviceStatus (slice_read (h_statuses h) (gst_Devices (gd_Status d)))).

Definition list_value (h : Heap) (l : GoDeviceList) : list ERdmaDevice :=
  device_value h <$> slice_read (h_items h) (gl_Items l).

(** ** The generated functions

    [DeepCopyInto] returns what it writes to [out].  [ObjectMeta] is a value
    here: its own deep copy, a library's, gives an equal one. *)

Definition ERdmaDeviceSpec_DeepCopyInto (in_ : GoSpec) : GoSpec := in_.

Definition ERdmaDeviceSpec_DeepCopy (in_ : option GoSpec) : option GoSpec :=
  match in_ with None => None | Some in_ => Some (ERdmaDeviceSpec_DeepCopyInto in_) end.

Definition ERdmaDeviceStatus_DeepCopyInto (in_ : GoStatus) : GoStatus := in_.

Definition ERdmaDeviceStatus_DeepCopy (in_ : option GoStatus) : option GoStatus :=
  match in_ with None => None | Some in_ => Some (ERdmaDeviceStatus_DeepCopyInto in_) end.

Definition ERdmaDevice_DeepCopyInto (in_ : GoDevice) : GoDevice := {|
  gd_ObjectMeta := gd_ObjectMeta in_;
  gd_Spec := gd_Spec in_;
  gd_Status := gd_Status in_
|}.

Definition ERdmaDevice_DeepCopy (in_ : option GoDevice) : option GoDevice :=
  match in_ with None => None | Some in_ => Some (ERdmaDevice_DeepCopyInto in_) end.

Definition ERdmaDevice_DeepCopyObject (in_ : option GoDevice) : option GoDevice :=
  match ERdmaDevice_DeepCopy in_ with Some c => Some c | None => None end.

Definition zeroDevice : GoDevice :=
  mkGoDevice (mkObjectMeta ε ∅ [] [] None) (mkGoSpec slice_nil false) (mkGoStatus slice_nil).

(** [make([]ERdmaDevice, n)] *)
Definition make_items (h : Heap) (n : nat) : Heap * Slice :=
  (mkHeap (h_infos h) (h_statuses h) (h_items h ++ [replicate n zeroDevice]),
   mkSlice (Some (length (h_items h))) n).

(** One step of the loop over the items *)
Definition copyItem (in_ out : Slice) (i : nat) (h : Heap) : outcome Heap :=
  item ← index (slice_read (h_items h) in_) i;
  items ← slice_write (h_items h) out i (ERdmaDevice_DeepCopyInto item);
  Ret (mkHeap (h_infos h) (h_statuses h) items).

Definition ERdmaDeviceList_DeepCopyInto (in_ : GoDeviceList) (h : Heap) : outcome (Heap * GoDeviceList) :=
  match sl_array (gl_Items in_) with
  | None => Ret (h, in_)
  | Some _ =>
      let '(h, out) := make_items h (sl_len (gl_Items in_)) in
      h ← for_each (seq 0 (sl_len (gl_Items in_))) h (copyItem (gl_Items in_) out);
      Ret (h, mkGoDeviceList out)
  end.

Definition ERdmaDeviceList_DeepCopy (in_ : option GoDeviceList) (h : Heap) :
    outcome (Heap * option GoDeviceList) :=
  match in_ with
  | None => Ret (h, None)
  | Some in_ => '(h, out) ← ERdmaDeviceList_DeepCopyInto in_ h; Ret (h, Some out)
  end.

Definition ERdmaDeviceList_DeepCopyObject (in_ : option GoDeviceList) (h : Heap) :
    outcome (Heap * option GoDeviceList) :=
  '(h, c) ← ERdmaDeviceList_DeepCopy in_ h;
  Ret (h, match c with Some c => Some c | None => None end).

(** ** Copies say the same *)

Lemma ERdmaDevice_DeepCopyInto_id d : ERdmaDevice_DeepCopyInto d = d.
Proof. by destruct d. Qed.

(** A slice the program can have: its array is there and long enough. *)
Definition slice_ok {A} (arrays : list (list A)) (s : Slice) : Prop :=
  match sl_array s with
  | None => sl_len s = 0%nat
  | Some a => ∃ l, arrays !! a = Some l ∧ (sl_len s ≤ length l)%nat
  end.

Lemma slice_read_length {A} (arrays : list (list A)) s : slice_ok arrays s → length (slice_read arrays s) = sl_len s.
Proof.
  unfold slice_ok, slice_read. destruct (sl_array s) as [a|]; [|done].
  intros (l & -> & Hl). simpl. rewrite length_take. lia.
Qed.

Lemma slice_read_app {A} (arrays l : list (list A)) s : slice_ok arrays s →
  slice_read (arrays ++ l) s = slice_read arrays s.
Proof.
  unfold slice_ok, slice_read. destruct (sl_array s) as [a|]; [|done].
  intros (x & Ha & _). by rewrite (lookup_app_l_Some _ _ _ _ Ha), Ha.
Qed.

(** The heap after the first items of a copy *)
Definition copied (h : Heap) (l : list GoDevice) (k : nat) : Heap :=
  mkHeap (h_infos h) (h_statuses h)
    (h_items h ++ [take k l ++ replicate (length l - k) zeroDevice]).

Lemma copyItem_step h in_ l k : slice_ok (h_items h) in_ → slice_read (h_items h) in_ = l → (k < length l)%nat →
  copyItem in_ (mkSlice (Some (length (h_items h))) (length l)) k (copied h l k) = Ret (copied h l (S k)).
Proof.
  intros Hok Hl Hk. unfold copyItem, copied. cbn [h_items h_infos h_statuses].
  rewrite (slice_read_app _ _ _ Hok), Hl. unfold index, slice_write. cbn [sl_array sl_len].
  rewrite (proj2 (Nat.ltb_lt _ _) Hk). destruct (lookup_lt_is_Some_2 l k Hk) as [x Hx]. rewrite Hx. cbn.
  rewrite ERdmaDevice_DeepCopyInto_id. do 2 f_equal.
  rewrite alter_app_r_alt, Nat.sub_diag by lia. cbn. do 2 f_equal.
  rewrite insert_app_r_alt by (rewrite length_take; lia). rewrite length_take_le by lia.
  rewrite Nat.sub_diag, (take_S_r _ _ _ Hx), <- (assoc_L (++)). f_equal.
  by replace (length l - k)%nat with (S (length l - S k)) by lia.
Qed.

Lemma copy_loop h in_ l : slice_ok (h_items h) in_ → slice_read (h_items h) in_ = l →
  for_each (seq 0 (length l)) (copied h l 0)
    (copyItem in_ (mkSlice (Some (length (h_items h))) (length l))) = Ret (copied h l (length l)).
Proof.
  intros Hok Hl.
  rewrite (for_each_eq (λ seen, copied h l (length seen)) _ (copied h l 0)); [by rewrite length_seq|done|].
  intros l1 x l2 E.
  assert (x = length l1 ∧ (length l1 < length l)%nat) as [-> Hlt].
  { pose proof (f_equal length E) as El. rewrite length_seq, length_app in El. simpl in El. split; [|lia].
    assert (seq 0 (length l) !! length l1 = Some x) as Hx by (rewrite E; by apply list_lookup_middle).
    by apply lookup_seq in Hx as [-> _]. }
  rewrite length_app. simpl. rewrite Nat.add_1_r. by apply copyItem_step.
Qed.

(** The copy of a list never panics, says what the list says, leaves
    the list as it is, and has its items in an array of its own: what is assigned
    to a field of a copied item is not seen through the list. *)
Lemma ERdmaDeviceList_DeepCopyInto_copies h in_ :
  slice_ok (h_items h) (gl_Items in_) →
  ∃ h' out, ERdmaDeviceList_DeepCopyInto in_ h = Ret (h', out) ∧
    list_value h' out = list_value h in_ ∧ list_value h' in_ = list_value h in_ ∧
    ∀ i d items, slice_write (h_items h') (gl_Items out) i d = Ret items →
      list_value (mkHeap (h_infos h') (h_statuses h') items) in_ = list_value h in_.
Proof.
  intros Hok. unfold ERdmaDeviceList_DeepCopyInto.
  destruct (sl_array (gl_Items in_)) as [a|] eqn:Ea.
  2: { exists h, in_. split_and!; [done..|]. intros i d items. unfold slice_write. by rewrite Ea. }
  pose proof (slice_read_length _ _ Hok) as Hlen. set (l := slice_read (h_items h) (gl_Items in_)) in *.
  unfold make_items. rewrite <- Hlen.
  change (mkHeap (h_infos h) (h_statuses h) (h_items h ++ [replicate (length l) zeroDevice]))
    with (mkHeap (h_infos h) (h_statuses h) (h_items h ++ [[] ++ replicate (length l) zeroDevice])).
  pose proof (copy_loop h (gl_Items in_) l Hok eq_refl) as Hloop. unfold copied at 1 in Hloop.
  rewrite take_0, Nat.sub_0_r in Hloop. rewrite Hloop. cbn.
  eexists _, _. split; [done|]. unfold list_value, copied. cbn [h_items h_infos h_statuses gl_Items].
  rewrite take_ge, Nat.sub_diag, app_nil_r, (slice_read_app _ _ _ Hok) by lia. fold l. split_and!.
  - unfold slice_read at 1. cbn [sl_array sl_len].
    rewrite lookup_app_r, Nat.sub_diag by lia. simpl. by rewrite take_ge by lia.
  - done.
  - intros i d items. unfold slice_write. cbn [sl_array sl_len]. destruct (i <? length l)%nat; [|done]. intros [= <-].
    rewrite alter_app_r_alt by lia. by rewrite (slice_read_app _ _ _ Hok).
Qed.

(** ** Copies share their elements *)

(** [c.Spec.Devices[i] = x] and [c.Status.Devices[i] = x] *)
Definition write_device (h : Heap) (c : GoDevice) (i : nat) (x : DeviceInfo) : outcome Heap :=
  infos ← slice_write (h_infos h) (gs_Devices (gd_Spec c)) i x;
  Ret (mkHeap infos (h_statuses h) (h_items h)).

Definition write_status (h : Heap) (c : GoDevice) (i : nat) (x : DeviceStatus) : outcome Heap :=
  statuses ← slice_write (h_statuses h) (gst_Devices (gd_Status c)) i x;
  Ret (mkHeap (h_infos h) statuses (h_items h)).

(** What a deep copy promises: no write to the copy is seen in the original. *)
Definition detached (h : Heap) (d c : GoDevice) : Prop :=
  (∀ i x h', write_device h c i x = Ret h' → device_value h' d = device_value h d) ∧
  (∀ i x h', write_status h c i x = Ret h' → device_value h' d = device_value h d).

Lemma slice_write_read {A} (arrays arrays' : list (list A)) s i x :
  slice_write arrays s i x = Ret arrays' →
  slice_read arrays' s = <[i := x]> (slice_read arrays s).
Proof.
  unfold slice_write, slice_read. destruct (sl_array s) as [a|]; [|done].
  destruct (Nat.ltb_spec i (sl_len s)) as [Hi|]; [|done]. intros [= <-].
  destruct (arrays !! a) as [l|] eqn:Ha.
  - rewrite list_lookup_alter_eq, Ha. cbn [fmap option_fmap option_map default]. by apply take_insert_lt.
  - rewrite list_lookup_alter_eq, Ha. by destruct (sl_len s).
Qed.

Lemma slice_write_ok {A} (arrays : list (list A)) s i x :
  slice_ok arrays s → (i < length (slice_read arrays s))%nat → ∃ arrays', slice_write arrays s i x = Ret arrays'.
Proof.
  intros Hok Hi. rewrite slice_read_length in Hi by done. unfold slice_write.
  destruct (sl_array s) as [a|] eqn:Ea; [|unfold slice_ok in Hok; rewrite Ea in Hok; lia].
  rewrite (proj2 (Nat.ltb_lt _ _) Hi). by eexists.
Qed.

(** The first element can be given another value, which a read then shows. *)
Lemma slice_write_seen {A} (arrays : list (list A)) s (f : A → A) :
  (∀ v, f v ≠ v) → slice_ok arrays s → slice_read arrays s ≠ [] →
  ∃ z arrays', slice_write arrays s 0 z = Ret arrays' ∧ slice_read arrays' s ≠ slice_read arrays s.
Proof.
  intros Hf Hok Hne. destruct (slice_read arrays s) as [|v l] eqn:E; [done|].
  destruct (slice_write_ok arrays s 0 (f v) Hok) as [arrays' Hw]; [rewrite E; simpl; lia|].
  exists (f v), arrays'. split; [done|]. rewrite (slice_write_read _ _ _ _ _ Hw), E.
  intros [= Hv]. by destruct (Hf v).
Qed.

Lemma slice_write_nil {A} (arrays arrays' : list (list A)) s i x :
  slice_ok arrays s → slice_read arrays s = [] → slice_write arrays s i x ≠ Ret arrays'.
Proof.
  intros Hok E. pose proof (slice_read_length _ _ Hok) as Hl. rewrite E in Hl. unfold slice_write.
  destruct (sl_array s); [|done]. destruct (Nat.ltb_spec i (sl_len s)); [simpl in Hl; lia|done].
Qed.

Definition otherID (id : string) : string := String "'"%char id.

Lemma otherID_neq id : otherID id ≠ id.
Proof. intros E%(f_equal String.length). simpl in E. lia. Qed.

(** C39: A copied object says what the original says, but it is detached
    from it only when it has neither devices nor statuses: what is assigned to a
    device or a status of the copy is assigned to the original's. *)
Theorem ERdmaDevice_DeepCopy_shares h d c :
  slice_ok (h_infos h) (gs_Devices (gd_Spec d)) → slice_ok (h_statuses h) (gst_Devices (gd_Status d)) →
  ERdmaDevice_DeepCopy (Some d) = Some c →
  device_value h c = device_value h d ∧
  (detached h d c ↔ spec_Devices (device_Spec (device_value h d)) = [] ∧
                    status_Devices (device_Status (device_value h d)) = []) ∧
  (∀ i x h', write_device h c i x = Ret h' →
     spec_Devices (device_Spec (device_value h' d)) = <[i := x]> (spec_Devices (device_Spec (device_value h d)))) ∧
  (∀ i x h', write_status h c i x = Ret h' →
     status_Devices (device_Status (device_value h' d)) = <[i := x]> (status_Devices (device_Status (device_value h d)))).
Proof.
  intros Hok1 Hok2 [= <-]. rewrite ERdmaDevice_DeepCopyInto_id. unfold detached, write_device, write_status, device_value.
  cbn [device_Spec device_Status spec_Devices status_Devices]. split; [done|].
  assert (∀ A (o : outcome A) (f : A → Heap) h', (a ← o; Ret (f a)) = Ret h' → ∃ a, o = Ret a ∧ h' = f a) as Hinv.
  { intros A [a|e|x] f h'; simpl; [|done..]. intros [= <-]. by exists a. }
  split_and!.
  - split.
    + intros [H1 H2]. split; apply dec_stable; intros Hne.
      * destruct (slice_write_seen _ _ (λ v, mkDeviceInfo (dev_InstanceID v) (dev_MAC v) (dev_IsPrimaryENI v)
          (otherID (dev_ID v)) (dev_NetworkCardIndex v) (dev_QueuePair v)) ltac:(intros [] [= E]; by apply otherID_neq in E)
          Hok1 Hne) as (z & infos & Hw & Hs).
        apply Hs. specialize (H1 0%nat z _ ltac:(rewrite Hw; reflexivity)). by injection H1.
      * destruct (slice_write_seen _ _ (λ v, mkDeviceStatus (otherID (st_ID v)) (st_Status v) (st_Message v))
          ltac:(intros [] [= E]; by apply otherID_neq in E) Hok2 Hne) as (z & sts & Hw & Hs).
        apply Hs. specialize (H2 0%nat z _ ltac:(rewrite Hw; reflexivity)). by injection H2.
    + intros [E1 E2]. split; intros i x h' (a & Hw & _)%Hinv;
      [by destruct (slice_write_nil _ _ _ _ _ Hok1 E1 Hw)|by destruct (slice_write_nil _ _ _ _ _ Hok2 E2 Hw)].
  - intros i x h' (a & Hw & ->)%Hinv. by eapply slice_write_read.
  - intros i x h' (a & Hw & ->)%Hinv. by eapply slice_write_read.
Qed.

(** ** The properties at concrete inputs *)

(** A list of one object with one device, as a cache may hold it *)
Definition k_info : DeviceInfo := mkDeviceInfo "i-1" "00:16:3e:00:00:01" true "eni-p" 0 8.

Definition k_object : GoDevice :=
  mkGoDevice (mkObjectMeta "node-1" ∅ [] [] None) (mkGoSpec (mkSlice (Some 0%nat) 1) false)
    (mkGoStatus slice_nil).

Definition k_heap : Heap := mkHeap [[k_info]] [] [[k_object]].

Definition k_list : GoDeviceList := mkGoDeviceList (mkSlice (Some 0%nat) 1).

Lemma ERdmaDeviceList_DeepCopyInto_copies_witness :
  ∃ h' out, ERdmaDeviceList_DeepCopyInto k_list k_heap = Ret (h', out) ∧
    list_value h' out = list_value k_heap k_list ∧ gl_Items out ≠ gl_Items k_list.
Proof.
  destruct (ERdmaDeviceList_DeepCopyInto_copies k_heap k_list) as (h' & out & E & Hv & _).
  - exists [k_object]. split; [reflexivity|simpl; lia].
  - exists h', out. split; [exact E|]. split; [exact Hv|]. vm_compute in E. injection E as <- <-. discriminate.
Defined.

Lemma ERdmaDevice_DeepCopy_shares_witness :
  ∃ c, ERdmaDevice_DeepCopy (Some k_object) = Some c ∧ ¬ detached k_heap k_object c.
Proof.
  exists k_object. split; [reflexivity|].
  destruct (ERdmaDevice_DeepCopy_shares k_heap k_object k_object) as (_ & [H _] & _); [|reflexivity..|].
  - exists [k_info]. split; [reflexivity|simpl; lia].
  - intros Hd. destruct (H Hd) as [E _]. vm_compute in E. discriminate E.
Defined.
