(* ===== verification/RuntimeApi.v ===== *)
(** * RuntimeApi: the data of the container runtimes and of the set-up calls

    The messages of the kubelet's container runtime interface (k8s.io/cri-api),
    of the docker client, and of the Kubernetes objects the controller reads
    when it starts.  Only the fields the program reads are kept; a pointer is an
    [option]. *)

From S2P Require Import Prelude Effects GoStr.

(** ** Container runtime interface *)

(** The two versions of the API a connection may speak.  Their messages have
    the same layout. *)
Inductive CriAPI := RuntimeV1 | RuntimeV1alpha2.

Inductive PodSandboxState := SANDBOX_READY | SANDBOX_NOTREADY.

Inductive NamespaceMode := NS_POD | NS_CONTAINER | NS_NODE | NS_TARGET.

Record PodSandboxMetadata := mkSandboxMetadata {
  psm_Name : string;
  psm_Uid : string;
  psm_Namespace : string
}.

Record PodSandbox := mkPodSandbox {
  psb_Id : string;
  psb_Metadata : option PodSandboxMetadata;
  psb_State : PodSandboxState
}.

Record NamespaceOption := mkNamespaceOption { nso_Network : NamespaceMode }.

Record SandboxNamespaces := mkSandboxNamespaces { sns_Options : option NamespaceOption }.

Record LinuxPodSandboxStatus := mkLinuxStatus { lps_Namespaces : option SandboxNamespaces }.

Record PodSandboxStatus := mkSandboxStatus {
  pss_Id : string;
  pss_Metadata : option PodSandboxMetadata;
  pss_CreatedAt : Z;
  pss_Linux : option LinuxPodSandboxStatus
}.

Record PodSandboxStatusResponse := mkSandboxStatusResponse {
  psr_Status : option PodSandboxStatus;
  psr_Info : gmap string string
}.

Record ContainerMetadata := mkContainerMetadata { cmd_Name : string }.

Record ContainerStatus := mkContainerStatus {
  cs_Id : string;
  cs_Metadata : option ContainerMetadata;
  cs_CreatedAt : Z;
  cs_Image : option string;
  cs_ImageRef : string
}.

Record ContainerStatusResponse := mkContainerStatusResponse {
  csr_Status : option ContainerStatus;
  csr_Info : gmap string string
}.

Record VersionResponse := mkVersionResponse {
  vr_Version : string;
  vr_RuntimeName : string;
  vr_RuntimeVersion : string;
  vr_RuntimeApiVersion : string
}.

(** [Status] with the names of its conditions *)
Record StatusResponse := mkStatusResponse { sr_Status : option (list string) }.

(** Messages the program only passes on: what identifies them *)
Record CriContainer := mkCriContainer { cc_Id : string }.
Record PodSandboxStats := mkSandboxStats { psst_Id : string }.
Record ContainerStats := mkContainerStats { cst_Id : string }.

(** A filter by id and labels; a nil filter lists everything. *)
Record CriFilter := mkCriFilter { cf_Id : string; cf_Labels : gmap string string }.

Inductive CriRequest :=
  | RpcVersion (apiVersion : string)
  | RpcStatus (verbose : bool)
  | RpcPodSandboxStatus (podSandBoxID : string) (verbose : bool)
  | RpcPodSandboxStats (podSandboxID : string)
  | RpcListPodSandboxStats (filter : option CriFilter)
  | RpcListPodSandbox (filter : option CriFilter)
  | RpcListContainers (filter : option CriFilter)
  | RpcListContainerStats (filter : option CriFilter)
  | RpcContainerStatus (containerID : string) (verbose : bool).

Definition cri_response (req : CriRequest) : Type :=
  match req with
  | RpcVersion _ => VersionResponse
  | RpcStatus _ => StatusResponse
  | RpcPodSandboxStatus _ _ => PodSandboxStatusResponse
  | RpcPodSandboxStats _ => option PodSandboxStats
  | RpcListPodSandboxStats _ => list PodSandboxStats
  | RpcListPodSandbox _ => list PodSandbox
  | RpcListContainers _ => list CriContainer
  | RpcListContainerStats _ => list ContainerStats
  | RpcContainerStatus _ _ => ContainerStatusResponse
  end.

(** ** Docker *)

(** [types.ContainerJSON]: the process id of the state and the labels of the
    configuration, where present *)
Record ContainerJSON := mkContainerJSON {
  cj_State : option Z;
  cj_Config : option (option (gmap string string))
}.

(** ** Objects of the cluster *)

(** A secret's data by key; bytes are strings. *)
Record Secret := mkSecret {
  sec_Namespace : string;
  sec_Name : string;
  sec_Data : gmap string string
}.

(** A webhook of a [MutatingWebhookConfiguration] *)
Record MutatingWebhook := mkMutatingWebhook { mw_Name : string; mw_CABundle : string }.

#[export] Instance MutatingWebhook_eq_dec : EqDecision MutatingWebhook.
Proof. solve_decision. Defined.

(** ** Certificates *)

(** The constants of [crypto/x509] *)
Definition KeyUsageDigitalSignature : Z := 1.
Definition KeyUsageCertSign : Z := 32.
Definition ExtKeyUsageServerAuth : Z := 1.
Definition ExtKeyUsageClientAuth : Z := 2.

(** The fields of an [x509.Certificate] template the program sets *)
Record CertTemplate := mkCertTemplate {
  ct_SerialNumber : Z;
  ct_CommonName : string;
  ct_Organization : list string;
  ct_DNSNames : list string;
  ct_NotBefore : Z;
  ct_NotAfter : Z;
  ct_IsCA : bool;
  ct_ExtKeyUsage : list Z;
  ct_KeyUsage : Z;
  ct_BasicConstraintsValid : bool
}.

(** An RSA key pair, known by its DER encoding *)
Record PrivateKey := mkPrivateKey { pk_DER : string }.

(** ** Starting the controller *)

(** [credentials.Config] of the cloud's SDK: the fields that are set *)
Record CredentialConfig := mkCredentialConfig {
  cc_Type : string;
  cc_AccessKeyId : option string;
  cc_AccessKeySecret : option string;
  cc_STSEndpoint : option string;
  cc_EnableIMDSv2 : bool
}.

(** [openapi.Config]: its credential is one of the SDK, or the program's own
    provider, which reads the secret of a namespace and name. *)
Record EcsConfig := mkEcsConfig {
  ec_RegionId : string;
  ec_UserAgent : string;
  ec_Credential : CredentialConfig + string * string;
  ec_EndpointType : string;
  ec_Network : string;
  ec_Endpoint : string
}.

(** [ctrl.Options]: [None] is no webhook server of the program's own. *)
Record ManagerOptions := mkManagerOptions {
  mo_MetricsAddr : string;
  mo_MetricsSecure : bool;
  mo_MetricsAuth : bool;
  mo_WebhookCertDir : option string;
  mo_ProbeAddr : string;
  mo_LeaderElection : bool;
  mo_LeaderElectionID : string
}.
