(* ===== verification/Webhook.v ===== *)
(** * Webhook: internal/webhook/mutating.go

    The mutating admission webhook: a pod that asks for eRDMA devices and is
    annotated for SMC-R gets an init container that sets SMC-R up. *)

From S2P Require Import Prelude Effects GoStr Types.

(** ** Definitions *)

Definition PodAnnotationSMCR : string := "network.alibabacloud.com/erdma-smcr".

(** The fields of [corev1.Container] and [corev1.Pod] the webhook reads or
    writes; what else a pod holds is [pod_Rest].  A nil map is [None]. *)
Record Container := mkContainer {
  ctr_Name : string;
  ctr_Image : string;
  ctr_ImagePullPolicy : string;
  ctr_Command : list string;
  ctr_Requests : option (gmap string string);
  ctr_Limits : option (gmap string string);
  ctr_Privileged : option bool
}.

Record Pod := mkPod {
  pod_Annotations : option (gmap string string);
  pod_Containers : list Container;
  pod_InitContainers : list Container;
  pod_Rest : string
}.

(** [admission.Response] *)
Inductive Response :=
  | Allowed (reason : string)
  | Errored (code : Z) (err : error)
  | PatchResponseFromRaw (original patched : string).

Section Hook.
(** [json.Unmarshal] and [json.Marshal] of k8s.io/apimachinery *)
Variable Unmarshal : string → result Pod.
Variable Marshal : Pod → result string.
Variable cfg : Config.

Definition named_in (m : option (gmap string string)) : bool :=
  match m with Some m => bool_decide (is_Some (m !! ResourceName)) | None => false end.

Definition wantsRdma (container : Container) : bool :=
  named_in (ctr_Limits container) || named_in (ctr_Requests container).

Definition defaultSMCInitImage : string := "registry.cn-hangzhou.aliyuncs.com/erdma/smcr_init:latest".

Definition smcrInit : Container :=
  mkContainer "smcr-init"
    (if decide (cfg_SMCInitImage cfg = ε) then defaultSMCInitImage else cfg_SMCInitImage cfg)
    "Always" ["/usr/local/bin/smcr_init"]
    (Some {[ ResourceName := Itoa 1 ]}) (Some {[ ResourceName := Itoa 1 ]}) (Some true).

Definition withInit (pod : Pod) (c : Container) : Pod :=
  mkPod (pod_Annotations pod) (pod_Containers pod) (pod_InitContainers pod ++ [c]) (pod_Rest pod).

(** The part of [podWebhook] after the pod is found to ask for devices. *)
Definition patchPod (original : Pod) (annotations : gmap string string) : outcome Response :=
  inject ← (match annotations !! PodAnnotationSMCR with
            | Some _ => deref (cfg_EnableInitContainerInject cfg)
            | None => Ret false
            end);
  let pod := if (inject : bool) then withInit original smcrInit else original in
  match Marshal original with
  | inr err => Ret (Errored 1 err)
  | inl originalPatched =>
      match Marshal pod with
      | inr err => Ret (Errored 1 err)
      | inl podPatched => Ret (PatchResponseFromRaw originalPatched podPatched)
      end
  end.

Definition podWebhook (raw : string) : outcome Response :=
  match Unmarshal raw with
  | inr err => Ret (Errored 500 (Errorf "failed decoding pod: %s, %w" [raw] (Some err)))
  | inl original =>
      match pod_Annotations original with
      | None => Ret (Allowed "not rdma")
      | Some annotations =>
          if existsb wantsRdma (pod_Containers original ++ pod_InitContainers original) then
            plugin ← deref (cfg_EnableDevicePlugin cfg);
            if (plugin : bool) then patchPod original annotations else Ret (Allowed "not rdma")
          else Ret (Allowed "not rdma")
      end
  end.

Definition MutatingHook (kind raw : string) : outcome Response :=
  enabled ← deref (cfg_EnableWebhook cfg);
  if negb enabled then Ret (Allowed "webhook not enabled")
  else if decide (kind = "Pod") then podWebhook raw
  else Ret (Allowed "not care").

(** ** What is patched *)

(** The pod asks for devices; it is annotated for SMC-R as well. *)
Definition rdma_pod (pod : Pod) : Prop :=
  Exists (λ c, wantsRdma c = true) (pod_Containers pod ++ pod_InitContainers pod).

Definition smcr_pod (pod : Pod) : Prop :=
  ∃ annotations, pod_Annotations pod = Some annotations ∧ is_Some (annotations !! PodAnnotationSMCR).

(** C36: With the webhook and the device plugin on, a pod is patched only if it
    asks for eRDMA devices, and only by adding one privileged init container
    that asks for one device itself, to a pod annotated for SMC-R when injection
    is on; no other pod changes.  The webhook panics on exactly those annotated
    pods when the configuration does not say whether to inject. *)
Theorem MutatingHook_injects raw pod :
  cfg_EnableWebhook cfg = Some true → cfg_EnableDevicePlugin cfg = Some true →
  Unmarshal raw = inl pod →
  match MutatingHook "Pod" raw with
  | Ret (Allowed _) => pod_Annotations pod = None ∨ ¬ rdma_pod pod
  | Ret (Errored _ err) => Marshal pod = inr err ∨ Marshal (withInit pod smcrInit) = inr err
  | Ret (PatchResponseFromRaw original patched) =>
      Marshal pod = inl original ∧ rdma_pod pod ∧
      ∃ pod', Marshal pod' = inl patched ∧
        (pod' = pod ∧ (¬ smcr_pod pod ∨ cfg_EnableInitContainerInject cfg = Some false) ∨
         pod' = withInit pod smcrInit ∧ rdma_pod pod' ∧ smcr_pod pod ∧
         cfg_EnableInitContainerInject cfg = Some true)
  | Err _ => False
  | Panic f => f = NilDeref ∧ rdma_pod pod ∧ smcr_pod pod ∧ cfg_EnableInitContainerInject cfg = None
  end.
Proof.
  intros Hw Hd Hu. unfold MutatingHook. rewrite Hw. cbn [deref moutcome outcome_moutcome mbind outcome_mbind outcome_bind negb].
  rewrite decide_True by done. unfold podWebhook. rewrite Hu.
  destruct (pod_Annotations pod) as [annotations|] eqn:Ha; [|by left].
  destruct (existsb wantsRdma _) eqn:Hr.
  2: { right. unfold rdma_pod. rewrite Exists_exists. intros (c & Hc & Hw').
       apply not_true_iff_false in Hr. apply Hr, existsb_exists. exists c. by rewrite <- list_elem_of_In. }
  assert (rdma_pod pod) as Hrdma.
  { apply existsb_exists in Hr as (c & Hc & Hw'). apply Exists_exists. exists c. by rewrite list_elem_of_In. }
  rewrite Hd. cbn [deref moutcome outcome_moutcome mbind outcome_mbind outcome_bind]. unfold patchPod.
  assert (rdma_pod (withInit pod smcrInit)) as Hrdma'.
  { unfold rdma_pod, withInit in *. cbn [pod_Containers pod_InitContainers].
    rewrite (assoc_L (++)). apply Exists_app. by left. }
  destruct (annotations !! PodAnnotationSMCR) as [v|] eqn:Hs.
  - assert (smcr_pod pod) as Hsm by (exists annotations; by rewrite Hs).
    destruct (cfg_EnableInitContainerInject cfg) as [[]|] eqn:Hi;
      cbn [deref moutcome outcome_moutcome mbind outcome_mbind outcome_bind]; [| |done].
    + destruct (Marshal pod) as [s|err] eqn:Hm; [|by left].
      destruct (Marshal (withInit pod smcrInit)) as [s'|err] eqn:Hm'; [|by right].
      split_and!; [done..|]. eexists. split; [done|]. by right.
    + destruct (Marshal pod) as [s|err] eqn:Hm; [|by left].
      split_and!; [done..|]. exists pod. split; [done|]. left. auto.
  - cbn [mbind outcome_mbind outcome_bind].
    assert (¬ smcr_pod pod) as Hns.
    { intros (annotations' & Ha' & [v Hv]). rewrite Ha in Ha'. injection Ha' as <-. congruence. }
    destruct (Marshal pod) as [s|err] eqn:Hm; [|by left].
    split_and!; [done..|]. exists pod. split; [done|]. left. auto.
Qed.

End Hook.

(** ** A concrete pod *)

Definition w_pod : Pod :=
  mkPod (Some {[ PodAnnotationSMCR := "true" ]})
    [mkContainer "main" "app" "Always" [] None (Some {[ ResourceName := "1" ]}) None] [] ε.

Definition w_config (inject : option bool) : Config :=
  mkConfig "cn-hangzhou" false "kube-system" "erdma" "cluster.local" "/certs"
    (Some true) (Some true) ε inject ∅ 300.

Definition w_Unmarshal (raw : string) : result Pod := inl w_pod.
Definition w_Marshal (pod : Pod) : result string := inl (Join (ctr_Name <$> pod_InitContainers pod) ",").

Definition w_hook (inject : option bool) : outcome Response :=
  MutatingHook w_Unmarshal w_Marshal (w_config inject) "Pod" "{}".

(** With injection on the init container is added; with injection not configured
    the webhook panics. *)
Lemma MutatingHook_injects_witness :
  w_hook (Some true) = Ret (PatchResponseFromRaw ε "smcr-init") ∧ rdma_pod w_pod ∧
  w_hook None = Panic NilDeref ∧ smcr_pod w_pod.
Proof.
  assert (w_hook (Some true) = Ret (PatchResponseFromRaw ε "smcr-init")) as E1 by (vm_compute; reflexivity).
  assert (w_hook None = Panic NilDeref) as E2 by (vm_compute; reflexivity).
  pose proof (MutatingHook_injects w_Unmarshal w_Marshal (w_config (Some true)) "{}" w_pod
    eq_refl eq_refl eq_refl) as H1.
  pose proof (MutatingHook_injects w_Unmarshal w_Marshal (w_config None) "{}" w_pod
    eq_refl eq_refl eq_refl) as H2.
  unfold w_hook in *. rewrite E1 in H1. rewrite E2 in H2.
  split; [exact E1|]. split; [exact (proj1 (proj2 H1))|]. split; [exact E2|].
  exact (proj1 (proj2 (proj2 H2))).
Defined.
