(* ===== verification/CloudApi.v ===== *)
(** * CloudApi: the services the controller process talks to

    The ECS OpenAPI SDK, the Kubernetes client and the clock are not code of
    this repository: they are the calls of the signature [Ctl], whose replies
    the environment chooses freely.  The request and response records hold the
    fields the program sets or reads; pointer fields of the SDK are [option]s. *)

From S2P Require Import Prelude Effects GoStr Types.

(** ** ECS *)

Record Tag := mkTag { TagKey : option string; TagValue : option string }.

Record Attachment := mkAttachment { NetworkCardIndex : option Z }.

(** [DescribeNetworkInterfacesResponseBodyNetworkInterfaceSetsNetworkInterfaceSet];
    [eni_Tags] is [None] when [Tags] or [Tags.Tag] is nil. *)
Record ENI := mkENI {
  eni_NetworkInterfaceId : option string;
  eni_NetworkInterfaceTrafficMode : option string;
  eni_QueuePairNumber : option Z;
  eni_Type : option string;
  eni_MacAddress : option string;
  eni_Attachment : option Attachment;
  eni_InstanceId : option string;
  eni_Status : option string;
  eni_Tags : option (list Tag)
}.

Record DescribeNetworkInterfacesRequest := mkDescribeENIs {
  dni_RegionId : string;
  dni_InstanceId : option string;
  dni_NetworkInterfaceId : list string;
  dni_Tag : list (string * option string);
  dni_PageSize : Z
}.

Record DescribeNetworkInterfacesResponse := mkENIs {
  dni_StatusCode : option Z;
  dni_NetworkInterfaceSet : list ENI
}.

Record Instance_ := mkInstance {
  inst_InstanceId : option string;
  inst_InstanceType : option string;
  inst_SecurityGroupIds : option (list string);
  inst_VpcAttributes : option (option string)
}.

Record DescribeInstancesRequest := mkDescribeInstances {
  di_RegionId : string;
  di_InstanceIds : option string;
  di_PrivateIpAddresses : option string
}.

Record DescribeInstancesResponse := mkInstances {
  di_TotalCount : option Z;
  di_Instance : list Instance_
}.

Record InstanceType := mkInstanceType {
  it_InstanceTypeId : option string;
  it_EriQuantity : option Z;
  it_NetworkCardQuantity : option Z;
  it_QueuePairNumber : option Z;
  it_GPUAmount : option Z
}.

Record CreateNetworkInterfaceRequest := mkCreateENI {
  cni_NetworkInterfaceName : string;
  cni_TrafficMode : string;
  cni_QueuePairNumber : Z;
  cni_RegionId : string;
  cni_SecurityGroupIds : list string;
  cni_Tag : list (string * option string);
  cni_VSwitchId : option string
}.

Record CreateNetworkInterfaceResponse := mkCreatedENI {
  cni_NetworkInterfaceId : option string;
  cni_MacAddress : option string
}.

Record ModifyNetworkInterfaceAttributeRequest := mkModifyENI {
  mni_RegionId : string;
  mni_NetworkInterfaceId : string;
  mni_TrafficMode : string;
  mni_QueuePairNumber : Z
}.

Record TagResourcesRequest := mkTagResources {
  tr_RegionId : string;
  tr_ResourceType : string;
  tr_ResourceId : list string;
  tr_Tag : list (string * string)
}.

Record AttachNetworkInterfaceRequest := mkAttachENI {
  ani_InstanceId : string;
  ani_NetworkInterfaceId : string;
  ani_RegionId : string;
  ani_NetworkCardIndex : option Z
}.

(** ** Kubernetes *)

Record NodeAddress := mkNodeAddress { addr_Type : string; addr_Address : string }.

Record NodeCondition := mkNodeCondition { cond_Type : string; cond_Status : string }.

Record Node := mkNode {
  node_APIVersion : string;
  node_Kind : string;
  node_Name : string;
  node_UID : string;
  node_Labels : gmap string string;
  node_CreationTimestamp : Z;
  node_DeletionTimestamp : option Z;
  node_ProviderID : string;
  node_Addresses : list NodeAddress;
  node_Conditions : list NodeCondition
}.

(** ** The signature of the controller process *)

Inductive CtlCall :=
  (* ECS OpenAPI *)
  | DescribeInstances (req : DescribeInstancesRequest)
  | DescribeInstanceTypes (ids : list (option string))
  | DescribeNetworkInterfaces (req : DescribeNetworkInterfacesRequest)
  | CreateNetworkInterface (req : CreateNetworkInterfaceRequest)
  | ModifyNetworkInterfaceAttribute (req : ModifyNetworkInterfaceAttributeRequest)
  | TagResources (req : TagResourcesRequest)
  | AttachNetworkInterface (req : AttachNetworkInterfaceRequest)
  | DescribeInstanceAttribute (instanceID : string)
  (* Kubernetes API server *)
  | GetNode (name : string)
  | GetDevice (name : string)
  | ListDevices (label value : string)
  | CreateDevice (d : ERdmaDevice)
  | CreateOrPatchDevice (d : ERdmaDevice)
  | DeleteDevice (name : string)
  | UpdateDeviceStatus (d : ERdmaDevice)
  (* the clock, in nanoseconds *)
  | Now.

Definition ctl_reply (c : CtlCall) : Type :=
  match c with
  | DescribeInstances _ => result DescribeInstancesResponse
  | DescribeInstanceTypes _ => result (list InstanceType)
  | DescribeNetworkInterfaces _ => result DescribeNetworkInterfacesResponse
  | CreateNetworkInterface _ => result CreateNetworkInterfaceResponse
  | DescribeInstanceAttribute _ => result (option bool)
  | ModifyNetworkInterfaceAttribute _ | TagResources _ | AttachNetworkInterface _
  | CreateDevice _ | CreateOrPatchDevice _ | DeleteDevice _ | UpdateDeviceStatus _ =>
      result unit
  | GetNode _ => result Node
  | GetDevice _ => result ERdmaDevice
  | ListDevices _ _ => result (list ERdmaDevice)
  | Now => Z
  end.

Definition Ctl : Sig := {| call := CtlCall; reply := ctl_reply |}.

(** A call whose error is returned to the caller at once. *)
Definition ctl (c : CtlCall) : prog Ctl (ctl_reply c) := perform (S := Ctl) c.

(** ** Which calls change the outside world *)

Definition ecs_mutates (e : event Ctl) : bool :=
  match e with
  | Event (CreateNetworkInterface _) _ | Event (ModifyNetworkInterfaceAttribute _) _
  | Event (TagResources _) _ | Event (AttachNetworkInterface _) _ => true
  | _ => false
  end.

Definition k8s_mutates (e : event Ctl) : bool :=
  match e with
  | Event (CreateDevice _) _ | Event (CreateOrPatchDevice _) _
  | Event (DeleteDevice _) _ | Event (UpdateDeviceStatus _) _ => true
  | _ => false
  end.

Lemma triple_ctl c (Q : trace Ctl → outcome (ctl_reply c) → Prop) :
  (∀ r, Q [Event (S:=Ctl) c r] (Ret r)) → triple (ctl c) Q.
Proof. apply (triple_perform (S:=Ctl)). Qed.

(** A call followed by the rest of the function. *)
Lemma triple_ctl_bind {B} c (f : ctl_reply c → prog Ctl B) Q :
  (∀ r, triple (f r) (λ tr o, Q (Event (S:=Ctl) c r :: tr) o)) → triple (ctl c ≫= f) Q.
Proof. intros H. apply triple_bind, triple_ctl. intros r. apply H. Qed.

Lemma exec_ctl {B} c (f : ctl_reply c → prog Ctl B) tr o :
  exec (ctl c ≫= f) tr o ↔ ∃ r tr', tr = Event (S:=Ctl) c r :: tr' ∧ exec (f r) tr' o.
Proof. done. Qed.

Lemma only_ctl (P : event Ctl → Prop) c : (∀ r, P (Event (S:=Ctl) c r)) → only P (ctl c).
Proof. apply (only_perform (S:=Ctl)). Qed.

(** One call of the controller process. *)
Ltac only_call := match goal with |- only ?P (ctl ?c) => apply (only_ctl P c); intros ? end.

Tactic Notation "exec_call" hyp(H) "as" simple_intropattern(pat) :=
  match type of H with
  | exec (mbind ?f (ctl ?c)) ?tr ?o => apply (proj1 (exec_ctl c f tr o)) in H as pat
  end.
