(* ===== verification/Scenario.v ===== *)
(** * Scenario: a concrete cloud and cluster

    An environment for the controller's calls that answers queries from a
    fixed inventory and accepts every change.  The properties hold against any
    environment; this one shows that their hypotheses can hold. *)

From S2P Require Import Prelude Effects GoStr Types CloudApi.

Record Inventory := mkInventory {
  iv_instances : list Instance_;
  iv_types : list InstanceType;
  iv_enis : list ENI;
  iv_node : option Node;
  iv_devices : list ERdmaDevice;
  iv_now : Z
}.

(** Whether an ENI answers a query: by instance, by id and by tag. *)
Definition has_tags (ts : list (string * option string)) (eni : ENI) : bool :=
  forallb (λ t, existsb (λ tag, bool_decide (TagKey tag = Some t.1 ∧ TagValue tag = t.2))
                 (default [] (eni_Tags eni))) ts.

Definition answers (req : DescribeNetworkInterfacesRequest) (eni : ENI) : bool :=
  match dni_InstanceId req with
  | Some i => bool_decide (eni_InstanceId eni = Some i)
  | None => true
  end &&
  match dni_NetworkInterfaceId req with
  | [] => true
  | ids => existsb (λ id, bool_decide (eni_NetworkInterfaceId eni = Some id)) ids
  end && has_tags (dni_Tag req) eni.

Definition inventory_env (iv : Inventory) : Env Ctl := λ h c,
  match c with
  | DescribeInstances _ =>
      inl (mkInstances (Some (Z.of_nat (length (iv_instances iv)))) (iv_instances iv))
  | DescribeInstanceTypes _ => inl (iv_types iv)
  | DescribeNetworkInterfaces req =>
      inl (mkENIs (Some 200) (List.filter (answers req) (iv_enis iv)))
  | CreateNetworkInterface _ => inl (mkCreatedENI (Some "eni-new") (Some "00:16:3e:00:00:ff"))
  | DescribeInstanceAttribute _ => inl None
  | ModifyNetworkInterfaceAttribute _ | TagResources _ | AttachNetworkInterface _
  | CreateDevice _ | CreateOrPatchDevice _ | DeleteDevice _ | UpdateDeviceStatus _ => inl tt
  | GetNode _ => match iv_node iv with Some n => inl n | None => inr (ApiError NotFound "not found") end
  | GetDevice _ => match iv_devices iv with d :: _ => inl d | [] => inr (ApiError NotFound "not found") end
  | ListDevices label value =>
      inl (List.filter (λ d, bool_decide (meta_Labels (device_ObjectMeta d) !! label = Some value))
             (iv_devices iv))
  | Now => iv_now iv
  end.

(** ** The inventory *)

Definition tag (k v : string) : Tag := mkTag (Some k) (Some v).

Definition owned_tags : list Tag :=
  [tag "creator" "alibabacloud-erdma-controller"; tag "instance-id" "i-1";
   tag "terway.alibabacloud.com/excluded" "true"].

(** The ordinary primary ENI, an owned ERI in use on card 0, one being
    attached, and one that is available. *)
Definition eni_primary : ENI :=
  mkENI (Some "eni-p") (Some "Standard") None (Some "Primary") (Some "00:16:3e:00:00:00")
    (Some (mkAttachment None)) (Some "i-1") (Some "InUse") (Some []).

Definition eni_card0 : ENI :=
  mkENI (Some "eni-0") (Some "HighPerformance") (Some 8) (Some "Secondary") (Some "00:16:3e:00:00:01")
    (Some (mkAttachment (Some 0))) (Some "i-1") (Some "InUse") (Some owned_tags).

Definition eni_attaching : ENI :=
  mkENI (Some "eni-1") (Some "HighPerformance") (Some 8) (Some "Secondary") (Some "00:16:3e:00:00:02")
    None None (Some "Attaching") (Some owned_tags).

Definition eni_available : ENI :=
  mkENI (Some "eni-1") (Some "HighPerformance") (Some 8) (Some "Secondary") (Some "00:16:3e:00:00:02")
    None None (Some "Available") (Some owned_tags).

Definition two_card_instance : Instance_ :=
  mkInstance (Some "i-1") (Some "ecs.two-cards") (Some ["sg-1"]) (Some (Some "vsw-1")).

Definition two_card_type : InstanceType :=
  mkInstanceType (Some "ecs.two-cards") (Some 2) (Some 2) (Some 16) None.

Definition node1 (ready : string) (deleting : option Z) : Node :=
  mkNode "v1" "Node" "node-1" "uid-1" ∅ 0 deleting "cn-hangzhou.i-1"
    [mkNodeAddress "InternalIP" "10.0.0.1"] [mkNodeCondition "Ready" ready].

Definition device_p : DeviceInfo := mkDeviceInfo "i-1" "00:16:3e:00:00:00" true "eni-p" 0 8.
Definition device_0 : DeviceInfo := mkDeviceInfo "i-1" "00:16:3e:00:00:01" false "eni-0" 0 8.
Definition device_1 : DeviceInfo := mkDeviceInfo "i-1" "00:16:3e:00:00:02" false "eni-1" 1 8.

Definition erdma_device (devices : list DeviceInfo) (statuses : list DeviceStatus) : ERdmaDevice :=
  mkERdmaDevice
    (mkObjectMeta "node-1" {[ "alibabacloud.com/instance-id" := "i-1";
                              "alibabacloud.com/nodename" := "node-1" ]} [] [] None)
    (mkERdmaDeviceSpec devices false) (mkERdmaDeviceStatus statuses).

(** A cluster with that node and instance, and the given ENIs and devices. *)
Definition cluster (enis : list ENI) (devices : list ERdmaDevice) : Inventory :=
  mkInventory [two_card_instance] [two_card_type] enis (Some (node1 "True" None)) devices 0.
