(* ===== verification/EriClient.v ===== *)
(** * EriClient: the ENI planner and provisioner, internal/controller/eri.go

    [SelectEriFromExist] plans which ENI serves which network card of an
    instance, [CreateEriForInstance] and [SelectERIs] provision the plan,
    [EnsureEriForInstance] drives each planned ENI to the RDMA state. *)

From S2P Require Import Prelude Effects GoStr Types CloudApi Scenario.

(** ** Constants *)

Definition eriTagCreatorKey : string := "creator".
Definition eriTagCreatorValue : string := "alibabacloud-erdma-controller".
Definition eriTagInstanceIdKey : string := "instance-id".
Definition eriTagExcludedKey : string := "terway.alibabacloud.com/excluded".
Definition eriTagExcludedValue : string := "true".
Definition eniResourceType : string := "eni".
Definition trafficModeRDMA : string := "HighPerformance".
Definition PrimaryType : string := "Primary".

(** The receiver; its [client] field is the environment. *)
Record EriClient := mkEriClient {
  regionID : string;
  ManagedNonOwned : bool
}.

(** [fmt.Sprintf] of a JSON list holding one quoted string *)
Definition json_singleton (s : string) : string :=
  "[" +:+ dquote +:+ s +:+ dquote +:+ "]".

(** ** Reading one ENI *)

Definition eniCardIndex (eni : ENI) : Z :=
  match eni_Attachment eni with
  | Some a => match NetworkCardIndex a with Some i => i | None => 0 end
  | None => 0
  end.

Definition toEri (eni : ENI) (preferQueueCount : Z) : outcome ERI :=
  id ← deref (eni_NetworkInterfaceId eni);
  ty ← deref (eni_Type eni);
  mac ← deref (eni_MacAddress eni);
  Ret {|
    eri_ID := id;
    eri_IsPrimaryENI := bool_decide (ty = PrimaryType);
    eri_MAC := mac;
    eri_InstanceID := match eni_InstanceId eni with Some i => i | None => ε end;
    eri_CardIndex := eniCardIndex eni;
    eri_QueuePair :=
      match eni_QueuePairNumber eni with
      | Some n => if 0 <? n then n else preferQueueCount
      | None => preferQueueCount
      end;
    eri_JumboFrame := false;
    eri_JumboFrameMTU := 0
  |}.

Definition OwnENI (e : EriClient) (eni : ENI) : bool :=
  if ManagedNonOwned e then true
  else match eni_Tags eni with
       | None => false
       | Some tags =>
           existsb (λ tag, bool_decide (TagKey tag = Some eriTagCreatorKey) &&
                           bool_decide (TagValue tag = Some eriTagCreatorValue)) tags
       end.

Definition is_rdma (eni : ENI) : bool :=
  bool_decide (eni_NetworkInterfaceTrafficMode eni = Some trafficModeRDMA).

Definition is_primary (eni : ENI) : bool := bool_decide (eni_Type eni = Some PrimaryType).

(** ** The plan: [SelectEriFromExist] *)

(** The filter over [existENIs], with the counter its closure updates. *)
Definition countExist (existENIs : list ENI) : outcome Z :=
  for_each existENIs 0 (λ item existQueuePairCount,
    if is_rdma item
    then n ← deref (eni_QueuePairNumber item); Ret (int64 (existQueuePairCount + n))
    else Ret existQueuePairCount).

(** The first owned ERI of each card index. *)
Definition pickPerCard (e : EriClient) (existERIs : list ENI) :
    outcome (gmap Z ERI * list ENI) :=
  for_each existERIs (∅, []) (λ eri '(cardIndexENI, selectedENIs),
    if OwnENI e eri then
      let eniIndex := eniCardIndex eri in
      match cardIndexENI !! eniIndex with
      | Some _ => Ret (cardIndexENI, selectedENIs)
      | None => v ← toEri eri 0;
                Ret (<[eniIndex := v]> cardIndexENI, selectedENIs ++ [eri])
      end
    else Ret (cardIndexENI, selectedENIs)).

Definition cardsMissing (cardCount : Z) (cardIndexENI : gmap Z ERI) : list Z :=
  filter (λ i, cardIndexENI !! i = None) (seqZ 0 cardCount).

(** [append(s[:i], s[i+1:]...)] with [i = lo.IndexOf(s, x)]: slicing at -1 panics *)
Definition removeFirst (x : Z) (s : list Z) : outcome (list Z) :=
  match index_of (λ y, bool_decide (y = x)) s with
  | Some i => Ret (take i s ++ drop (S i) s)
  | None => Panic IndexOutOfRange
  end.

(** The loop that turns the primary ENI into the ENI of card 0. *)
Definition usePrimary (existENIs : list ENI) (remain : Z)
    (s : gmap Z ERI * list ENI * list Z) : outcome (gmap Z ERI * list ENI * list Z) :=
  for_each existENIs s (λ eni '(cardIndexENI, selectedENIs, need),
    if is_primary eni then
      v ← toEri eni remain;
      need' ← removeFirst 0 need;
      Ret (<[0 := v]> cardIndexENI, selectedENIs ++ [eni], need')
    else Ret (cardIndexENI, selectedENIs, need)).

(** What the planner decides about the missing cards: the selected ENIs, the
    cards still to create and the queue pairs of each new card. *)
Definition fillMissing (existENIs : list ENI) (queuePairCount existQueuePairCount : Z)
    (cardIndexENI : gmap Z ERI) (selectedENIs : list ENI) (need : list Z) :
    outcome (list ENI * list Z * Z) :=
  if decide (need = []) then Ret (selectedENIs, need, 0)
  else
    let remain := Z.quot (int64 (queuePairCount - existQueuePairCount)) (Z.of_nat (length need)) in
    if 0 <? remain then
      '(cardIndexENI, selectedENIs, need) ←
        (if decide (cardIndexENI !! 0 = None)
         then usePrimary existENIs remain (cardIndexENI, selectedENIs, need)
         else Ret (cardIndexENI, selectedENIs, need));
      if decide (cardIndexENI = ∅)
      then errorf "cannot find node primary ENI or existing ENI" []
      else Ret (selectedENIs, need, remain)
    else Ret (selectedENIs, [], remain).

Definition SelectEriFromExist (e : EriClient) (existENIs : list ENI)
    (queuePairCount cardCount : Z) : outcome (list ERI * list Z * Z) :=
  existQueuePairCount ← countExist existENIs;
  let existERIs := List.filter is_rdma existENIs in
  (* the arguments of the log line *)
  _ ← mapM (λ item, toEri item 0) existERIs;
  '(cardIndexENI, selectedENIs) ← pickPerCard e existERIs;
  let needCreateOrConvert :=
    if existQueuePairCount <=? queuePairCount then cardsMissing cardCount cardIndexENI else [] in
  '(selectedENIs, need, remain) ←
    fillMissing existENIs queuePairCount existQueuePairCount
                cardIndexENI selectedENIs needCreateOrConvert;
  eriList ← mapM (λ item, toEri item remain) selectedENIs;
  if decide (eriList = [] ∧ need = [])
  then errorf "cannot create ERI for instance due to no available slot" []
  else Ret (eriList, need, remain).

(** ** Tags *)

Definition EnsureEriTags (e : EriClient) (eniIDs : list string) (instanceID : string) :
    prog Ctl unit :=
  if decide (eniIDs = []) then mret ()
  else
    let tags := [(eriTagExcludedKey, eriTagExcludedValue)] in
    let tags := if decide (instanceID ≠ ε)
                then tags ++ [(eriTagInstanceIdKey, instanceID)] else tags in
    r ← ctl (TagResources {|
          tr_RegionId := regionID e;
          tr_ResourceType := eniResourceType;
          tr_ResourceId := eniIDs;
          tr_Tag := tags |});
    match r with
    | inl _ => mret ()
    | inr err => throw (Errorf "tag ERI resources %v: %w" [Join eniIDs " "] (Some err))
    end.

(** ** Provisioning *)

Definition InstanceIDFromNode (e : EriClient) (node : Node) : prog Ctl string :=
  let instanceID :=
    if decide (node_ProviderID node ≠ ε) then
      match Split "."%char (node_ProviderID node) with
      | [_; i] => i
      | _ => ε
      end
    else ε in
  found ←
    (if decide (instanceID ≠ ε) then
       r ← ctl (DescribeInstances {|
             di_RegionId := regionID e;
             di_InstanceIds := Some (json_singleton instanceID);
             di_PrivateIpAddresses := None |});
       match r with
       | inr err => errorf "cannot found instance %s, %s" [instanceID; error_string err]
       | inl resp =>
           total ← deref (di_TotalCount resp);
           if total =? 0 then mret None
           else inst ← index (di_Instance resp) 0;
                id ← deref (inst_InstanceId inst); mret (Some id)
       end
     else mret None);
  match found with
  | Some id => mret id
  | None =>
      match find_first (λ a, bool_decide (addr_Type a = "InternalIP")) (node_Addresses node) with
      | None => errorf "cannot found instance from node internal ip" []
      | Some internalIP =>
          r ← ctl (DescribeInstances {|
                di_RegionId := regionID e;
                di_InstanceIds := None;
                di_PrivateIpAddresses := Some (json_singleton (addr_Address internalIP)) |});
          match r with
          | inr err =>
              errorf "cannot found instance %s, %s" [addr_Address internalIP; error_string err]
          | inl resp =>
              total ← deref (di_TotalCount resp);
              if total =? 0 then
                errorf "cannot found instance from node internal ip %s" [addr_Address internalIP]
              else if 1 <? total then
                errorf "found multiple instance from node internal ip %s" [addr_Address internalIP]
              else
                inst ← index (di_Instance resp) 0; deref (inst_InstanceId inst)
          end
      end
  end.

(** The loop of [CreateEriForInstance] over the ENIs found by tag: each takes
    the next card index that is left. *)
Definition reuseTagged (instance : Instance_) (enis : list ENI) (cardIndex : list Z)
    (queuePair : Z) : outcome (list Z * list ERI) :=
  for_each enis (cardIndex, []) (λ eni '(cardIndex, eris),
    match cardIndex with
    | [] => Ret (cardIndex, eris)
    | i :: rest =>
        eri ← toEri eni queuePair;
        iid ← deref (inst_InstanceId instance);
        Ret (rest, eris ++ [{|
          eri_ID := eri_ID eri;
          eri_IsPrimaryENI := eri_IsPrimaryENI eri;
          eri_MAC := eri_MAC eri;
          eri_InstanceID := iid;
          eri_CardIndex := i;
          eri_QueuePair := eri_QueuePair eri;
          eri_JumboFrame := eri_JumboFrame eri;
          eri_JumboFrameMTU := eri_JumboFrameMTU eri |}])
    end).

(** One [CreateNetworkInterface] call. *)
Definition createOne (e : EriClient) (instance : Instance_) (queuePair i : Z) : prog Ctl ERI :=
  iid ← deref (inst_InstanceId instance);
  sgs ← deref (inst_SecurityGroupIds instance);
  vsw ← deref (inst_VpcAttributes instance);
  r ← ctl (CreateNetworkInterface {|
        cni_NetworkInterfaceName := "eri-" +:+ iid +:+ "-" +:+ Itoa i;
        cni_TrafficMode := trafficModeRDMA;
        cni_QueuePairNumber := int32 queuePair;
        cni_RegionId := regionID e;
        cni_SecurityGroupIds := sgs;
        cni_Tag := [(eriTagCreatorKey, Some eriTagCreatorValue);
                    (eriTagInstanceIdKey, inst_InstanceId instance);
                    (eriTagExcludedKey, Some eriTagExcludedValue)];
        cni_VSwitchId := vsw |});
  match r with
  | inr err => throw err
  | inl resp =>
      id ← deref (cni_NetworkInterfaceId resp);
      mac ← deref (cni_MacAddress resp);
      mret {|
        eri_ID := id; eri_IsPrimaryENI := false; eri_MAC := mac;
        eri_InstanceID := iid; eri_CardIndex := i; eri_QueuePair := 0;
        eri_JumboFrame := false; eri_JumboFrameMTU := 0 |}
  end.

Definition CreateEriForInstance (e : EriClient) (instance : Instance_) (cardIndex : list Z)
    (queuePair : Z) : prog Ctl (list ERI) :=
  r ← ctl (DescribeNetworkInterfaces {|
        dni_RegionId := regionID e;
        dni_InstanceId := None;
        dni_NetworkInterfaceId := [];
        dni_Tag := [(eriTagCreatorKey, Some eriTagCreatorValue);
                    (eriTagInstanceIdKey, inst_InstanceId instance)];
        dni_PageSize := 100 |});
  match r with
  | inr err => throw err
  | inl resp =>
      code ← deref (dni_StatusCode resp);
      if negb (code =? 200) then
        errorf "describe network interface failed, status code: %d" ["(pointer)"]
      else
        '(cardIndex, eris) ←
          moutcome (reuseTagged instance (dni_NetworkInterfaceSet resp) cardIndex queuePair);
        for_each cardIndex eris (λ i eris,
          eri ← createOne e instance queuePair i; mret (eris ++ [eri]))
  end.

(** The loop over the instance types: [None] is the early [return nil, nil]. *)
Fixpoint instanceLimits (instanceType : option string) (types : list InstanceType)
    (cardCount queuePairCount : Z) : outcome (option (Z * Z)) :=
  match types with
  | [] => Ret (Some (cardCount, queuePairCount))
  | t :: types =>
      match it_EriQuantity t with
      | None => Ret None
      | Some eriQuantity =>
          tid ← deref (it_InstanceTypeId t);
          iid ← deref instanceType;
          if decide (tid = iid ∧ eriQuantity = 0) then Ret None
          else
            let cardCount :=
              match it_NetworkCardQuantity t with
              | None => 1
              | Some n => if n <? 2 then 1 else Z.min n eriQuantity
              end in
            qp ← deref (it_QueuePairNumber t);
            let queuePairCount :=
              match it_GPUAmount t with
              | Some g => if 0 <? g then int32 (qp * int32 cardCount) else qp
              | None => qp
              end in
            instanceLimits instanceType types cardCount queuePairCount
      end
  end.

Definition SelectERIs (e : EriClient) (instanceID : string) : prog Ctl (option (list ERI)) :=
  r ← ctl (DescribeInstances {|
        di_RegionId := regionID e;
        di_InstanceIds := Some (json_singleton instanceID);
        di_PrivateIpAddresses := None |});
  match r with
  | inr err => errorf "cannot found instance %s, %s" [instanceID; error_string err]
  | inl resp =>
      total ← deref (di_TotalCount resp);
      if total =? 0 then errorf "cannot found instance %s" [instanceID]
      else
        instance ← index (di_Instance resp) 0;
        r ← ctl (DescribeInstanceTypes [inst_InstanceType instance]);
        match r with
        | inr err =>
            ty ← deref (inst_InstanceType instance);
            errorf "cannot found instance type %s, %s" [ty; error_string err]
        | inl types =>
            limits ← moutcome (instanceLimits (inst_InstanceType instance) types 0 0);
            match limits with
            | None => mret None
            | Some (cardCount, queuePairCount) =>
                r ← ctl (DescribeNetworkInterfaces {|
                      dni_RegionId := regionID e;
                      dni_InstanceId := Some instanceID;
                      dni_NetworkInterfaceId := [];
                      dni_Tag := [];
                      dni_PageSize := 100 |});
                match r with
                | inr err => errorf "cannot found node eni: %v" [error_string err]
                | inl enis =>
                    plan ← try (moutcome (SelectEriFromExist e (dni_NetworkInterfaceSet enis)
                                            queuePairCount cardCount));
                    match plan with
                    | inr err =>
                        errorf "cannot generate eri config list from exist enis: %v"
                               [error_string err]
                    | inl (selectEriList, needCreate, queuePairNumberConfig) =>
                        eris ← CreateEriForInstance e instance needCreate queuePairNumberConfig;
                        let selectEriList := selectEriList ++ eris in
                        (* best effort: a failure is only logged *)
                        _ ← try (EnsureEriTags e (eri_ID <$> selectEriList) instanceID);
                        mret (Some selectEriList)
                    end
                end
            end
        end
  end.

(** ** Driving the devices: [EnsureEriForInstance] *)

Definition ConvertPrimaryENI (e : EriClient) (primaryENI instanceID : string) (queuePair : Z) :
    prog Ctl unit :=
  r ← ctl (ModifyNetworkInterfaceAttribute {|
        mni_RegionId := regionID e;
        mni_NetworkInterfaceId := primaryENI;
        mni_TrafficMode := trafficModeRDMA;
        mni_QueuePairNumber := int32 queuePair |});
  match r with
  | inr err => throw err
  | inl _ =>
      (* best effort: a failure is only logged *)
      _ ← try (EnsureEriTags e [primaryENI] instanceID);
      mret ()
  end.

(** [*eniStatus.NetworkInterfaceTrafficMode == trafficModeRDMA] *)
Definition modeIsRDMA (eni : ENI) : prog Ctl bool :=
  mode ← deref (eni_NetworkInterfaceTrafficMode eni);
  mret (bool_decide (mode = trafficModeRDMA)).

(** The body of the loop over the devices. *)
Definition ensureDevice (e : EriClient) (eniMap : gmap string ENI) (device : DeviceInfo)
    (devStatus : list DeviceStatus) : prog Ctl (list DeviceStatus) :=
  let id := dev_ID device in
  match eniMap !! id with
  | None => errorf "cannot found eni %s" [id]
  | Some eniStatus =>
      match eni_Status eniStatus with
      | None => errorf "cannot found eni %s status" [id]
      | Some status =>
          rdma ← (if decide (status = ENIStatusInUse) then modeIsRDMA eniStatus else mret false);
          let devStatus :=
            if (rdma : bool) then devStatus ++ [mkDeviceStatus id DeviceStatusReady ε] else devStatus in
          devStatus ←
            (if negb (dev_IsPrimaryENI device) && bool_decide (status = ENIStatusAvailable) then
               r ← ctl (AttachNetworkInterface {|
                     ani_InstanceId := dev_InstanceID device;
                     ani_NetworkInterfaceId := id;
                     ani_RegionId := regionID e;
                     ani_NetworkCardIndex :=
                       if dev_NetworkCardIndex device =? 0 then None
                       else Some (int32 (dev_NetworkCardIndex device)) |});
               mret (devStatus ++ [match r with
                 | inr err => mkDeviceStatus id DeviceStatusFailed (error_string err)
                 | inl _ => mkDeviceStatus id DeviceStatusPending ε
                 end])
             else mret devStatus);
          normal ← (if dev_IsPrimaryENI device && bool_decide (status = ENIStatusInUse)
                    then negb <$> modeIsRDMA eniStatus else mret false);
          if (normal : bool) then
            r ← try (ConvertPrimaryENI e id (dev_InstanceID device) (dev_QueuePair device));
            mret (devStatus ++ [match r with
              | inr err => mkDeviceStatus id DeviceStatusFailed (error_string err)
              | inl _ => mkDeviceStatus id DeviceStatusReady ε
              end])
          else mret devStatus
      end
  end.

(** [lo.SliceToMap] keyed by the ENI id: the last of equal ids wins. *)
Definition eniMapOf (enis : list ENI) : outcome (gmap string ENI) :=
  for_each enis ∅ (λ item m, id ← deref (eni_NetworkInterfaceId item); Ret (<[id := item]> m)).

Definition EnsureEriForInstance (e : EriClient) (devices : list DeviceInfo) :
    prog Ctl (list DeviceStatus) :=
  r ← ctl (DescribeNetworkInterfaces {|
        dni_RegionId := regionID e;
        dni_InstanceId := None;
        dni_NetworkInterfaceId := dev_ID <$> devices;
        dni_Tag := [];
        dni_PageSize := 100 |});
  match r with
  | inr err => throw err
  | inl enis =>
      eniMap ← moutcome (eniMapOf (dni_NetworkInterfaceSet enis));
      for_each devices [] (λ device devStatus, ensureDevice e eniMap device devStatus)
  end.

Definition jumboFrameFromAttr (enabled : option bool) : bool :=
  match enabled with Some b => b | None => false end.

Definition IsJumboFrameEnabled (instanceID : string) : prog Ctl bool :=
  r ← ctl (DescribeInstanceAttribute instanceID);
  match r with
  | inr err =>
      errorf "cannot describe instance attribute %s: %s" [instanceID; error_string err]
  | inl attr => mret (jumboFrameFromAttr attr)
  end.

(** ** The planner's input *)

(** The identifying fields of an ENI are present. *)
Definition readable (eni : ENI) : Prop :=
  is_Some (eni_NetworkInterfaceId eni) ∧ is_Some (eni_Type eni) ∧ is_Some (eni_MacAddress eni).

(** What [DescribeNetworkInterfaces] reports for one instance: at most a page
    of readable ENIs; an RDMA ENI has a positive [int32] number of queue
    pairs and any other has none; one ENI at most is primary, on card 0. *)
Record plannable (enis : list ENI) : Prop := {
  pl_page : (length enis ≤ 100)%nat;
  pl_fields : Forall readable enis;
  pl_rdma : Forall (λ eni, is_rdma eni = true →
              ∃ n, eni_QueuePairNumber eni = Some n ∧ 0 < n < 2147483648) enis;
  pl_normal : Forall (λ eni, is_rdma eni = false →
              ∀ n, eni_QueuePairNumber eni = Some n → n ≤ 0) enis;
  pl_primary : (length (List.filter is_primary enis) ≤ 1)%nat;
  pl_card0 : Forall (λ eni, is_primary eni = true → eniCardIndex eni = 0) enis
}.

Definition eni_pairs (eni : ENI) : Z := default 0 (eni_QueuePairNumber eni).

(** The queue pairs the instance's ERIs already hold. *)
Definition existing_pairs (enis : list ENI) : Z :=
  sum_Z eni_pairs (List.filter is_rdma enis).

(** The ENIs the controller keeps: of its own RDMA ENIs, the first of each card;
    [seen] are the cards that are taken. *)
Fixpoint first_per_card (e : EriClient) (seen : list Z) (l : list ENI) : list ENI :=
  match l with
  | [] => []
  | x :: l =>
      if OwnENI e x && bool_decide (eniCardIndex x ∉ seen)
      then x :: first_per_card e (eniCardIndex x :: seen) l
      else first_per_card e seen l
  end.

Definition kept (e : EriClient) (enis : list ENI) : list ENI :=
  first_per_card e [] (List.filter is_rdma enis).

Lemma first_per_card_snoc e seen l x :
  first_per_card e seen (l ++ [x]) = first_per_card e seen l ++
    (if OwnENI e x && bool_decide ((eniCardIndex x ∉ seen) ∧
          (eniCardIndex x ∉ (eniCardIndex <$> first_per_card e seen l)))
     then [x] else []).
Proof.
  revert seen; induction l as [|y l IH]; intros seen; cbn [first_per_card app].
  - rewrite (bool_decide_ext (_ ∧ _) (eniCardIndex x ∉ seen)) by set_solver.
    by destruct (_ && _).
  - destruct (OwnENI e y && bool_decide (eniCardIndex y ∉ seen)); rewrite IH; [|done].
    cbn [app]. f_equal. f_equal. rewrite fmap_cons.
    rewrite (bool_decide_ext ((eniCardIndex x ∉ eniCardIndex y :: seen) ∧ _)
      ((eniCardIndex x ∉ seen) ∧ (eniCardIndex x ∉
         (eniCardIndex y :: (eniCardIndex <$> first_per_card e (eniCardIndex y :: seen) l)))))
      by set_solver.
    done.
Qed.

(** The value of [toEri] on a readable ENI. *)
Definition eri_of (eni : ENI) (prefer : Z) : ERI := {|
  eri_ID := default ε (eni_NetworkInterfaceId eni);
  eri_IsPrimaryENI := is_primary eni;
  eri_MAC := default ε (eni_MacAddress eni);
  eri_InstanceID := default ε (eni_InstanceId eni);
  eri_CardIndex := eniCardIndex eni;
  eri_QueuePair :=
    match eni_QueuePairNumber eni with
    | Some n => if 0 <? n then n else prefer
    | None => prefer
    end;
  eri_JumboFrame := false;
  eri_JumboFrameMTU := 0
|}.

Lemma toEri_readable eni prefer : readable eni → toEri eni prefer = Ret (eri_of eni prefer).
Proof.
  intros ([id Hid] & [ty Hty] & [mac Hmac]). unfold toEri, eri_of, is_primary.
  rewrite Hid, Hty, Hmac. cbn. do 2 f_equal. apply bool_decide_ext. naive_solver.
Qed.

Section Plan.
Context (e : EriClient) (enis : list ENI) (qp cc : Z).
Context (Hpl : plannable enis).

Lemma rdma_plannable eni :
  eni ∈ enis → is_rdma eni = true →
  readable eni ∧ ∃ n, eni_QueuePairNumber eni = Some n ∧ 0 < n < 2147483648.
Proof.
  intros Hin Hr. pose proof (pl_fields _ Hpl) as Hf. pose proof (pl_rdma _ Hpl) as Hn.
  rewrite Forall_forall in Hf, Hn. eauto.
Qed.

Lemma rdma_pairs (l : list ENI) :
  l ⊆ enis → Forall (λ x, 0 ≤ eni_pairs x ≤ 2147483648) (List.filter is_rdma l).
Proof.
  intros Hl. apply Forall_forall. intros x [Hin%Hl Hr]%elem_of_filter_bool.
  destruct (rdma_plannable x Hin Hr) as (_ & n & Hn & Hb).
  unfold eni_pairs. rewrite Hn. simpl. lia.
Qed.

Lemma existing_pairs_nonneg l : l ⊆ enis → 0 ≤ existing_pairs l.
Proof.
  intros Hl. apply sum_Z_nonneg. eapply Forall_impl; [by apply rdma_pairs|].
  simpl. lia.
Qed.

Lemma existing_pairs_bound : existing_pairs enis ≤ 2147483648 * 100.
Proof.
  unfold existing_pairs.
  etrans; [apply (sum_Z_bound _ 2147483648);
           eapply Forall_impl; [by apply rdma_pairs|]; simpl; lia|].
  pose proof (pl_page _ Hpl). pose proof (List.filter_length_le is_rdma enis). lia.
Qed.

Lemma existing_pairs_app l1 l2 :
  existing_pairs (l1 ++ l2) = existing_pairs l1 + existing_pairs l2.
Proof. unfold existing_pairs. by rewrite List.filter_app, sum_Z_app. Qed.

(** The count does not overflow. *)
Lemma countExist_plannable : countExist enis = Ret (existing_pairs enis).
Proof.
  apply (for_each_eq existing_pairs); [done|]. intros l1 x l2 E.
  assert (existing_pairs (l1 ++ [x]) ≤ 2147483648 * 100) as Hb.
  { pose proof existing_pairs_bound as Hb. rewrite E in Hb at 1.
    rewrite (cons_middle x l1 l2), (assoc_L (++)), existing_pairs_app in Hb.
    assert (0 ≤ existing_pairs l2) by (apply existing_pairs_nonneg; set_solver). lia. }
  assert (0 ≤ existing_pairs l1) by (apply existing_pairs_nonneg; set_solver).
  assert (0 ≤ existing_pairs [x]) by (apply existing_pairs_nonneg; set_solver).
  rewrite existing_pairs_app in *.
  assert (existing_pairs [x] = if is_rdma x then eni_pairs x else 0) as Ex.
  { unfold existing_pairs. simpl. destruct (is_rdma x); simpl; lia. }
  rewrite Ex in *. destruct (is_rdma x) eqn:Hx.
  - destruct (rdma_plannable x) as (_ & n & Hn & Hn'); [set_solver|done|].
    unfold eni_pairs in *. rewrite Hn in *. simpl in *. by rewrite int64_id by lia.
  - f_equal. lia.
Qed.

(** What the selection of one ERI per card gives. *)
Record picked (l sel : list ENI) (m : gmap Z ERI) : Prop := {
  pk_sublist : sel `sublist_of` l;
  pk_owned : Forall (λ x, OwnENI e x = true) sel;
  pk_nodup : NoDup (eniCardIndex <$> sel);
  pk_map : ∀ i, is_Some (m !! i) ↔ i ∈ eniCardIndex <$> sel;
  pk_all : ∀ x, x ∈ l → OwnENI e x = true → eniCardIndex x ∈ eniCardIndex <$> sel;
  pk_first : sel = first_per_card e [] l
}.

Lemma pickPerCard_picked l :
  Forall readable l → ∃ m sel, pickPerCard e l = Ret (m, sel) ∧ picked l sel m.
Proof.
  intros Hl. unfold pickPerCard.
  match goal with |- context [for_each l ?s ?b] =>
    destruct (for_each_inv l s b (λ done '(m, sel), picked done sel m)) as ([m sel] & Hr & Hp)
  end; [| |by eauto].
  - split; [done|done|constructor| |set_solver|done].
    intros i. rewrite lookup_empty, is_Some_alt. set_solver.
  - intros l1 x l2 [m sel] -> [Hsub Hown Hnd Hmap Hall Hfst].
    pose proof (first_per_card_snoc e [] l1 x) as Hsnoc. rewrite <- Hfst in Hsnoc.
    assert (readable x) as Hx by (rewrite Forall_app, Forall_cons in Hl; naive_solver).
    destruct (OwnENI e x) eqn:Ho; [destruct (m !! eniCardIndex x) as [v|] eqn:Hm|].
    + eexists. split; [done|]. assert (eniCardIndex x ∈ eniCardIndex <$> sel) as Hin.
      { apply Hmap. eauto. }
      split; [by apply sublist_inserts_r|done..|set_solver|].
      rewrite Hsnoc, bool_decide_eq_false_2 by tauto. simpl. by rewrite app_nil_r.
    + rewrite (toEri_readable x 0 Hx). simpl. eexists. split; [done|].
      assert (eniCardIndex x ∉ eniCardIndex <$> sel) as Hin.
      { rewrite <- Hmap, Hm. by intros [? ?]. }
      split.
      * by apply sublist_app.
      * rewrite Forall_app. eauto.
      * rewrite fmap_app. apply NoDup_app. split_and!; [done| |apply NoDup_singleton].
        set_solver.
      * intros i. rewrite fmap_app, elem_of_app, <- Hmap. simpl.
        destruct (decide (i = eniCardIndex x)) as [->|Hne].
        -- rewrite lookup_insert_eq. set_solver.
        -- rewrite lookup_insert_ne by done. set_solver.
      * intros y. rewrite fmap_app. set_solver.
      * rewrite Hsnoc, bool_decide_eq_true_2 by (split; [apply not_elem_of_nil|done]). done.
    + eexists. split; [done|]. split; [by apply sublist_inserts_r|done..| |].
      * intros y [Hy| ->%list_elem_of_singleton]%elem_of_app; [eauto|congruence].
      * rewrite Hsnoc. simpl. by rewrite app_nil_r.
Qed.

(** The cards no selected ENI serves. *)
Definition missing_cards (sel : list ENI) : list Z :=
  filter (λ i, i ∉ eniCardIndex <$> sel) (seqZ 0 cc).

(** The queue pairs the instance can still hand out *)
Definition free_pairs : Z := qp - existing_pairs enis.

(** There are not enough pairs left to give every missing card one. *)
Definition no_room (sel : list ENI) : Prop :=
  missing_cards sel = [] ∨ free_pairs < Z.of_nat (length (missing_cards sel)).

#[export] Instance no_room_dec sel : Decision (no_room sel).
Proof. unfold no_room. apply _. Defined.

(** The planner's decision: nothing to add; create an ENI on each missing card;
    or convert the primary ENI for card 0 and create the rest. *)
Inductive filled (sel : list ENI) : list ENI → list Z → Z → Prop :=
  | filled_none per : per = 0 → no_room sel → filled sel sel [] per
  | filled_create per need :
      need = missing_cards sel → sel ≠ [] → 0 < per →
      per * Z.of_nat (length need) ≤ free_pairs → per = free_pairs / Z.of_nat (length need) →
      (0 ∉ need ∨ Forall (λ x, is_primary x = false) enis) →
      filled sel sel need per
  | filled_convert per need p :
      0 :: need = missing_cards sel → 0 < per →
      per * (1 + Z.of_nat (length need)) ≤ free_pairs →
      p ∈ enis → is_primary p = true → per = free_pairs / (1 + Z.of_nat (length need)) →
      filled sel (sel ++ [p]) need per.

Lemma cardsMissing_picked l sel m :
  picked l sel m → cardsMissing cc m = missing_cards sel.
Proof.
  intros Hp. apply list_filter_iff. intros i.
  rewrite <- (pk_map _ _ _ Hp i), eq_None_not_Some. done.
Qed.

Lemma missing_zero sel :
  0 ∉ eniCardIndex <$> sel → missing_cards sel ≠ [] →
  ∃ rest, missing_cards sel = 0 :: rest.
Proof.
  unfold missing_cards. intros H0 Hne.
  destruct (decide (0 < cc)) as [Hcc|Hcc]; [|by rewrite seqZ_nil in Hne by lia].
  rewrite seqZ_cons by lia. rewrite filter_cons_True by done. eauto.
Qed.

Lemma one_primary p l1 l2 :
  enis = l1 ++ p :: l2 → is_primary p = true →
  Forall (λ x, is_primary x = false) (l1 ++ l2).
Proof.
  intros E Hp. pose proof (pl_primary _ Hpl) as H1. rewrite E in H1.
  rewrite List.filter_app in H1. simpl in H1. rewrite Hp in H1.
  rewrite length_app in H1. simpl in H1.
  assert (∀ l, length (List.filter is_primary l) = 0%nat →
    Forall (λ x, is_primary x = false) l) as Hnil.
  { induction l as [|y l IH]; simpl; [done|]. destruct (is_primary y) eqn:?; naive_solver. }
  apply Forall_app. split; apply Hnil; lia.
Qed.

Lemma usePrimary_plannable remain m sel rest :
  (∃ p m', p ∈ enis ∧ is_primary p = true ∧
     usePrimary enis remain (m, sel, 0 :: rest) = Ret (m', sel ++ [p], rest) ∧ m' ≠ ∅) ∨
  (Forall (λ x, is_primary x = false) enis ∧
   usePrimary enis remain (m, sel, 0 :: rest) = Ret (m, sel, 0 :: rest)).
Proof.
  unfold usePrimary. destruct (find_first is_primary enis) as [p|] eqn:Hf.
  - apply find_first_Some in Hf as (l1 & l2 & E & Hp & _). left.
    pose proof (one_primary p l1 l2 E Hp) as Hn. apply Forall_app in Hn as [Hn1 Hn2].
    assert (readable p) as Hr.
    { pose proof (pl_fields _ Hpl) as H. rewrite E, Forall_app, Forall_cons in H. tauto. }
    exists p, (<[0 := eri_of p remain]> m). rewrite E.
    split_and!; [set_solver|done| |by apply insert_non_empty].
    rewrite for_each_app, for_each_skip.
    + simpl. rewrite Hp, (toEri_readable _ _ Hr). simpl. apply for_each_skip.
      eapply Forall_impl; [exact Hn2|]. intros x Hx. simpl. by rewrite Hx.
    + eapply Forall_impl; [exact Hn1|]. intros x Hx. simpl. by rewrite Hx.
  - right. apply find_first_None in Hf. split; [done|]. apply for_each_skip.
    eapply Forall_impl; [exact Hf|]. intros x Hx. simpl. by rewrite Hx.
Qed.

(** Each new card gets its share of the pairs that are left. *)
Lemma share_bound (need : list Z) :
  existing_pairs enis ≤ qp → - 2147483648 ≤ qp < 2147483648 → need ≠ [] →
  let per := Z.quot (int64 (qp - existing_pairs enis)) (Z.of_nat (length need)) in
  per = free_pairs / Z.of_nat (length need) ∧ 0 ≤ per ∧
  per * Z.of_nat (length need) ≤ free_pairs ∧
  (per ≤ 0 → free_pairs < Z.of_nat (length need)).
Proof.
  intros Hle Hqp Hne per. unfold per, free_pairs. pose proof existing_pairs_bound.
  assert (0 ≤ existing_pairs enis) by by apply existing_pairs_nonneg.
  rewrite int64_id by lia. assert (0 < Z.of_nat (length need)).
  { destruct need; simpl; [done|lia]. }
  rewrite Z.quot_div_nonneg by lia. split; [done|]. split; [apply Z.div_pos; lia|]. split.
  - pose proof (Z.mul_div_le (qp - existing_pairs enis) (Z.of_nat (length need))). lia.
  - intros Hper. destruct (Z.lt_ge_cases (qp - existing_pairs enis) (Z.of_nat (length need)))
      as [|Hge]; [done|].
    pose proof (Z.div_str_pos (qp - existing_pairs enis) (Z.of_nat (length need))). lia.
Qed.

Lemma picked_nil l sel : picked l sel ∅ → sel = [].
Proof.
  intros Hp. destruct sel as [|x sel]; [done|].
  destruct (proj2 (pk_map _ _ _ Hp (eniCardIndex x))) as [v Hv]; [set_solver|done].
Qed.

Lemma fillMissing_filled m sel l :
  - 2147483648 ≤ qp < 2147483648 → picked l sel m →
  let need := if existing_pairs enis <=? qp then cardsMissing cc m else [] in
  match fillMissing enis qp (existing_pairs enis) m sel need with
  | Ret (sel', need', per) => filled sel sel' need' per
  | Err _ => sel = [] ∧ Forall (λ x, is_primary x = false) enis
  | Panic _ => False
  end.
Proof.
  intros Hqp Hp need. unfold fillMissing, need.
  destruct (Z.leb_spec (existing_pairs enis) qp) as [Hle|Hgt].
  2: { rewrite decide_True by done. constructor; [done|]. right. unfold free_pairs. lia. }
  rewrite (cardsMissing_picked _ _ _ Hp).
  case_decide as Hne; [rewrite Hne; constructor; [done|by left]|].
  pose proof (share_bound _ Hle Hqp Hne) as Hb. simpl in Hb. set (per := Z.quot _ _) in *.
  destruct Hb as (Eper & H0per & Hb & Hfew).
  destruct (Z.ltb_spec 0 per) as [Hper|Hper]; [|constructor; [lia|right; by apply Hfew]].
  case_decide as H0; simpl.
  - destruct (missing_zero sel) as [rest Hrest]; [|done|].
    { rewrite <- (pk_map _ _ _ Hp), H0. by intros [? ?]. }
    rewrite Hrest in *. rewrite length_cons, Nat2Z.inj_succ, <- Z.add_1_l in *.
    destruct (usePrimary_plannable per m sel rest)
      as [(p & m' & Hin & Hpr & -> & Hm')|[Hno ->]]; simpl.
    + rewrite decide_False by done. by constructor 3.
    + case_decide as Hm; [subst m; split; [by eapply picked_nil|done]|].
      constructor; [done| |done|..|by right].
      * intros ->. apply Hm, map_empty. intros i. apply eq_None_not_Some.
        rewrite (pk_map _ _ _ Hp). set_solver.
      * by rewrite length_cons, Nat2Z.inj_succ, <- Z.add_1_l.
      * by rewrite length_cons, Nat2Z.inj_succ, <- Z.add_1_l.
  - rewrite decide_False by (by intros ->).
    assert (0 ∈ eniCardIndex <$> sel) as Hin0.
    { apply (pk_map _ _ _ Hp). by destruct (m !! 0); [eexists|]. }
    constructor; [done|by intros ->; apply not_elem_of_nil in Hin0|done..|].
    left. unfold missing_cards. rewrite list_elem_of_filter. tauto.
Qed.

(** The planner on a well-formed instance: it does not panic, its answer is a
    filled selection of owned ERIs, and it fails only without any candidate. *)
Lemma SelectEriFromExist_cases :
  - 2147483648 ≤ qp < 2147483648 →
  ∃ sel m, picked (List.filter is_rdma enis) sel m ∧
    match SelectEriFromExist e enis qp cc with
    | Ret (eris, need, per) =>
        ∃ sel', filled sel sel' need per ∧ eris = (λ x, eri_of x per) <$> sel' ∧
          sel' ⊆ enis ∧ ¬ (eris = [] ∧ need = [])
    | Err _ => sel = [] ∧ (Forall (λ x, is_primary x = false) enis ∨ no_room [])
    | Panic _ => False
    end.
Proof.
  intros Hqp. assert (Forall readable (List.filter is_rdma enis)) as Hr.
  { apply Forall_forall. intros x [Hin Hx]%elem_of_filter_bool. by apply rdma_plannable. }
  destruct (pickPerCard_picked _ Hr) as (m & sel & Hpick & Hp). exists sel, m.
  split; [done|]. unfold SelectEriFromExist. rewrite countExist_plannable. simpl.
  rewrite (mapM_ret _ (λ x, eri_of x 0)).
  2: { eapply Forall_impl; [exact Hr|]. intros x. apply toEri_readable. }
  simpl. rewrite Hpick. simpl.
  pose proof (fillMissing_filled m sel _ Hqp Hp) as Hf. simpl in Hf.
  destruct (fillMissing _ _ _ _ _ _) as [[[sel' need] per]| |]; simpl; [|naive_solver|done].
  assert (sel' ⊆ enis) as Hsub.
  { assert (sel ⊆ enis) as Hs.
    { intros x Hx. apply (sublist_subseteq _ _ (pk_sublist _ _ _ Hp)) in Hx.
      by apply elem_of_filter_bool in Hx as [Hx _]. }
    destruct Hf; set_solver. }
  assert (Forall readable sel') as Hr'.
  { apply Forall_forall. intros x Hx. pose proof (pl_fields _ Hpl) as H.
    rewrite Forall_forall in H. auto. }
  rewrite (mapM_ret _ (λ x, eri_of x per)).
  2: { eapply Forall_impl; [exact Hr'|]. intros x. apply toEri_readable. }
  simpl. case_decide as Hd; [|by eauto].
  destruct Hd as [Hd ->]. apply fmap_nil_inv in Hd as ->.
  inversion Hf; simplify_eq/=; [split; [done|by right]|by destruct sel..].
Qed.

End Plan.

(** ** Properties of the planner *)

Lemma missing_cards_spec cc sel i :
  i ∈ missing_cards cc sel ↔ 0 ≤ i < cc ∧ i ∉ eniCardIndex <$> sel.
Proof. unfold missing_cards. rewrite list_elem_of_filter, elem_of_seqZ. naive_solver lia. Qed.

Lemma missing_cards_nodup cc sel : NoDup (missing_cards cc sel).
Proof. apply NoDup_filter, NoDup_seqZ. Qed.

Lemma primary_card0 enis p : plannable enis → p ∈ enis → is_primary p = true → eniCardIndex p = 0.
Proof. intros Hpl Hp. pose proof (pl_card0 _ Hpl) as H. rewrite Forall_forall in H. auto. Qed.

(** A plan serves every card at most once; with pairs to hand out, every card. *)
Lemma filled_cards e enis qp cc l sel sel' m need per :
  plannable enis → picked e l sel m → filled enis qp cc sel sel' need per →
  NoDup ((eri_CardIndex <$> ((λ x, eri_of x per) <$> sel')) ++ need) ∧
  Forall (λ i, 0 ≤ i < cc) need ∧
  (0 < per → ∀ i, 0 ≤ i < cc → i ∈ (eri_CardIndex <$> ((λ x, eri_of x per) <$> sel')) ++ need).
Proof.
  intros Hpl Hp Hf. rewrite <- list_fmap_compose. change (eri_CardIndex ∘ _) with eniCardIndex.
  pose proof (missing_cards_nodup cc sel) as Hnd. pose proof (pk_nodup _ _ _ _ Hp) as Hs.
  pose proof (missing_cards_spec cc sel) as Hm.
  destruct Hf as [per Hle|per need -> Hne Hper Hb|per need p E Hper Hb Hin Hpr].
  - rewrite app_nil_r. split_and!; [done|done|lia].
  - split_and!.
    + apply NoDup_app. split_and!; [done|set_solver|done].
    + apply Forall_forall. set_solver.
    + intros _ i Hi. rewrite elem_of_app, Hm. destruct (decide (i ∈ eniCardIndex <$> sel)); auto.
  - rewrite fmap_app. simpl. rewrite (primary_card0 enis p) by done.
    rewrite <- E in *. rewrite <- (assoc_L (++)). simpl. split_and!.
    + apply NoDup_app. split_and!; [done|set_solver|done].
    + apply Forall_forall. intros i Hi. apply Hm. set_solver.
    + intros _ i Hi. rewrite elem_of_app, Hm. destruct (decide (i ∈ eniCardIndex <$> sel)); auto.
Qed.

(** Every card an RDMA ENI of the controller serves stays served by one. *)
Lemma kept_cards e enis x :
  x ∈ enis → is_rdma x = true → OwnENI e x = true → eniCardIndex x ∈ eniCardIndex <$> kept e enis.
Proof.
  intros Hin Hr Ho.
  assert (∀ seen l, x ∈ l → eniCardIndex x ∈ seen ∨ eniCardIndex x ∈ eniCardIndex <$> first_per_card e seen l) as H.
  { intros seen l. revert seen. induction l as [|y l IH]; intros seen Hx; [by apply not_elem_of_nil in Hx|].
    cbn [first_per_card]. apply elem_of_cons in Hx as [->|Hx].
    - rewrite Ho. destruct (bool_decide_reflect (eniCardIndex y ∉ seen)) as [Hs|Hs]; simpl.
      + right. by left.
      + left. by apply dec_stable.
    - destruct (_ && _); [|by apply IH]. destruct (IH (eniCardIndex y :: seen) Hx); set_solver. }
  destruct (H [] (List.filter is_rdma enis)) as [Hn|]; [by apply elem_of_filter_bool| |done].
  by apply not_elem_of_nil in Hn.
Qed.

(** The primary ENI of a well-formed instance is the only one. *)
Lemma primary_filter enis p :
  plannable enis → p ∈ enis → is_primary p = true → List.filter is_primary enis = [p].
Proof.
  intros Hpl Hin Hp. pose proof (pl_primary _ Hpl) as H1.
  assert (p ∈ List.filter is_primary enis) as H2 by (by apply elem_of_filter_bool).
  destruct (List.filter is_primary enis) as [|x [|y l]]; simpl in H1; [|set_solver|lia].
  by apply not_elem_of_nil in H2.
Qed.

Lemma no_primary_filter enis :
  Forall (λ x, is_primary x = false) enis → List.filter is_primary enis = [].
Proof. induction 1 as [|x l Hx _ IH]; [done|]. simpl. by rewrite Hx. Qed.

(** The ENIs that are converted: the primary one, when card 0 has no ERI. *)
Definition conversions (enis : list ENI) (missing : list Z) : list ENI :=
  if decide (0 ∈ missing) then List.filter is_primary enis else [].

(** The cards on which an ENI is created *)
Definition creations (converted : list ENI) (missing : list Z) : list Z :=
  match converted with [] => missing | _ => filter (λ i, i ≠ 0) missing end.

Lemma filled_exact e enis qp cc sel' need per (sel := kept e enis) (missing := missing_cards cc sel) :
  plannable enis → filled enis qp cc sel sel' need per →
  ∃ converted, sel' = sel ++ converted ∧
    if decide (no_room enis qp cc sel) then converted = [] ∧ need = [] ∧ per = 0
    else converted = conversions enis missing ∧ need = creations converted missing ∧
         per = free_pairs enis qp / Z.of_nat (length missing) ∧ 0 < per.
Proof.
  intros Hpl Hf. unfold conversions, creations. subst missing. pose proof (missing_cards_nodup cc sel) as Hnd.
  destruct Hf as [per -> Hn|per need -> Hne Hper Hb Eper Hcv|per need p Em Hper Hb Hin Hpr Eper].
  - exists []. rewrite app_nil_r, decide_True by done. done.
  - exists []. rewrite app_nil_r. split; [done|].
    rewrite decide_False.
    2: { intros [Hnil|Hfew]; [by rewrite Eper, Hnil, Z.div_0_r in Hper|].
         assert (0 ≤ Z.of_nat (length (missing_cards cc sel))) by lia. nia. }
    split_and!; [|done..]. case_decide as H0; [|done].
    destruct Hcv as [?|Hno]; [done|]. by rewrite no_primary_filter.
  - exists [p]. split; [done|]. rewrite <- Em in *.
    rewrite length_cons, Nat2Z.inj_succ, <- Z.add_1_l. rewrite decide_False.
    2: { unfold no_room. rewrite <- Em, length_cons, Nat2Z.inj_succ, <- Z.add_1_l.
         intros [?|Hfew]; [done|]. assert (0 ≤ Z.of_nat (length need)) by lia. nia. }
    rewrite decide_True by by left. rewrite (primary_filter enis p) by done.
    split_and!; [done| |done..]. rewrite filter_cons_False by tauto. symmetry.
    apply NoDup_cons in Hnd as [Hnd _]. apply filter_all, Forall_forall. intros i Hi ->. done.
Qed.

(** C1: On a well-formed instance the planner never panics, and its plan is
    determined.  Of the controller's RDMA ENIs the first of each card is kept, so
    that a card that has one stays served.  When there is a free queue pair for
    every card that is left, each of these cards gets exactly one ERI with an
    equal share of the pairs: card 0 the primary ENI if the instance has it, the
    others a new one.  With fewer free pairs than cards left, nothing is added,
    even if some pairs remain.  In no case has a card two ERIs. *)
Theorem SelectEriFromExist_plan e enis qp cc :
  plannable enis → -2147483648 ≤ qp < 2147483648 →
  match SelectEriFromExist e enis qp cc with
  | Ret (eris, need, per) =>
      let missing := missing_cards cc (kept e enis) in
      NoDup ((eri_CardIndex <$> eris) ++ need) ∧
      Forall (λ i, 0 ≤ i < cc) need ∧
      (∀ x, x ∈ enis → is_rdma x = true → OwnENI e x = true → eniCardIndex x ∈ eri_CardIndex <$> eris) ∧
      ∃ converted, eris = (λ x, eri_of x per) <$> kept e enis ++ converted ∧
        if decide (missing = [] ∨ free_pairs enis qp < Z.of_nat (length missing))
        then converted = [] ∧ need = [] ∧ per = 0
        else converted = conversions enis missing ∧ need = creations converted missing ∧
             per = free_pairs enis qp / Z.of_nat (length missing) ∧ 0 < per ∧
             ∀ i, 0 ≤ i < cc → i ∈ (eri_CardIndex <$> eris) ++ need
  | Err _ => True
  | Panic _ => False
  end.
Proof.
  intros Hpl Hqp.
  destruct (SelectEriFromExist_cases e enis qp cc Hpl Hqp) as (sel & m & Hp & H).
  pose proof (pk_first _ _ _ _ Hp) as Hs. fold (kept e enis) in Hs.
  destruct (SelectEriFromExist _ _ _ _) as [[[eris need] per]| |]; [|done..].
  destruct H as (sel' & Hf & -> & _).
  destruct (filled_cards _ _ _ _ _ _ _ _ _ _ Hpl Hp Hf) as (Hnd & Hrange & Hall).
  subst sel. destruct (filled_exact e enis qp cc sel' need per Hpl Hf) as (converted & -> & Hx).
  cbv zeta. split_and!; [done..| |].
  - intros x Hin Hr Ho. rewrite <- list_fmap_compose. change (eri_CardIndex ∘ _) with eniCardIndex.
    rewrite fmap_app. apply elem_of_app. left. by apply kept_cards.
  - exists converted. split; [done|].
    case_decide as Hd; [by rewrite decide_True by done|].
    rewrite decide_False by done.
    destruct Hx as (-> & -> & E & Hper). split_and!; try done. by apply Hall.
Qed.

(** An RDMA ENI keeps the pairs it has. *)
Lemma rdma_keeps enis x per :
  plannable enis → x ∈ enis → is_rdma x = true → eri_QueuePair (eri_of x per) = eni_pairs x.
Proof.
  intros Hpl Hin Hr. destruct (rdma_plannable _ Hpl x Hin Hr) as (_ & n & Hn & Hb).
  simpl. unfold eni_pairs. rewrite Hn. simpl. by destruct (Z.ltb_spec 0 n); [|lia].
Qed.

(** The queue pairs the selected ERIs hold. *)
Lemma picked_pairs enis sel m per e :
  plannable enis → picked e (List.filter is_rdma enis) sel m →
  sum_Z eri_QueuePair ((λ x, eri_of x per) <$> sel) =  sum_Z eni_pairs sel.
Proof.
  intros Hpl Hp. rewrite sum_Z_fmap. apply sum_Z_ext, Forall_forall. intros x Hx.
  apply (sublist_subseteq _ _ (pk_sublist _ _ _ _ Hp)), elem_of_filter_bool in Hx as [Hx Hr].
  by apply (rdma_keeps enis).
Qed.

(** Owned ERIs that are selected and a foreign ERI are all counted. *)
Lemma picked_pairs_bound enis sel m e p :
  plannable enis → picked e (List.filter is_rdma enis) sel m →
  p ∈ enis → eniCardIndex p ∉ eniCardIndex <$> sel →
  sum_Z eni_pairs sel + (if is_rdma p then eni_pairs p else 0) ≤ existing_pairs enis.
Proof.
  intros Hpl Hp Hin Hcard. unfold existing_pairs.
  assert (Forall (λ x, 0 ≤ eni_pairs x) (List.filter is_rdma enis)) as Hnn.
  { eapply Forall_impl; [by eapply rdma_pairs|]. simpl. lia. }
  rewrite (sum_Z_partition eni_pairs (OwnENI e) (List.filter is_rdma enis)).
  assert (∀ f, Forall (λ x, 0 ≤ eni_pairs x) (List.filter f (List.filter is_rdma enis))) as Hnn'.
  { intros f. apply Forall_forall. intros x [Hx _]%elem_of_filter_bool.
    rewrite Forall_forall in Hnn. auto. }
  pose proof (sum_Z_sublist eni_pairs _ _ (Hnn' (OwnENI e))
    (sublist_filter_bool (OwnENI e) _ _ (pk_sublist _ _ _ _ Hp) (pk_owned _ _ _ _ Hp))).
  pose proof (sum_Z_nonneg _ _ (Hnn' (λ x, negb (OwnENI e x)))).
  destruct (is_rdma p) eqn:Hr; [|lia].
  pose proof (sum_Z_elem eni_pairs _ p (Hnn' (λ x, negb (OwnENI e x)))) as Hp'.
  destruct (OwnENI e p) eqn:Ho.
  - exfalso. apply Hcard, (pk_all _ _ _ _ Hp); [|done]. by apply elem_of_filter_bool.
  - rewrite !elem_of_filter_bool, Ho in Hp'. specialize (Hp' (conj (conj Hin Hr) eq_refl)). lia.
Qed.

Lemma app_self_nil {A} (l k : list A) : l = l ++ k → k = [].
Proof. intros E. apply (app_inv_head l). by rewrite app_nil_r. Qed.

(** A converted primary ENI that is not an RDMA ENI is given a share. *)
Lemma converted_share enis p per :
  plannable enis → p ∈ enis → is_rdma p = false → eri_QueuePair (eri_of p per) = per.
Proof.
  intros Hpl Hin Hr. pose proof (pl_normal _ Hpl) as H. rewrite Forall_forall in H.
  specialize (H p Hin Hr). simpl. destruct (eni_QueuePairNumber p) as [n|]; [|done].
  specialize (H n eq_refl). by destruct (Z.ltb_spec 0 n); [lia|].
Qed.

(** The queue pairs a plan hands out on top of those that exist: a share for
    each ENI to create, and one for a primary ENI that becomes an RDMA ENI. *)
Definition granted (converted : list ENI) (need : list Z) (per : Z) : Z :=
  sum_Z (λ x, eri_QueuePair (eri_of x per)) (List.filter (λ x, negb (is_rdma x)) converted)
  + per * Z.of_nat (length need).

Lemma filled_granted enis qp cc sel l need per :
  plannable enis → filled enis qp cc sel (sel ++ l) need per →
  if existing_pairs enis <=? qp then existing_pairs enis + granted l need per ≤ qp
  else l = [] ∧ need = [] ∧ granted l need per = 0.
Proof.
  intros Hpl Hf. remember (sel ++ l) as sel' eqn:El. unfold granted, free_pairs in *.
  destruct Hf as [per -> Hn|per need -> Hne Hper Hb _ _|per need p Em Hper Hb Hin Hpr _].
  - apply app_self_nil in El as ->. destruct (Z.leb_spec (existing_pairs enis) qp); simpl; [lia|done].
  - apply app_self_nil in El as ->. unfold free_pairs in Hb.
    destruct (Z.leb_spec (existing_pairs enis) qp); simpl; [lia|nia].
  - apply app_inv_head in El as <-. unfold free_pairs in Hb.
    destruct (Z.leb_spec (existing_pairs enis) qp); [|nia]. cbn [List.filter].
    destruct (is_rdma p) eqn:Hr; cbn [negb sum_Z]; [nia|].
    rewrite (converted_share enis p per) by done. lia.
Qed.

(** The pairs of the selected ERIs, without the grant to the converted ENI,
    are among those that exist. *)
Lemma selected_pairs e enis qp cc sel m l need per :
  plannable enis → picked e (List.filter is_rdma enis) sel m →
  filled enis qp cc sel (sel ++ l) need per →
  sum_Z eri_QueuePair ((λ x, eri_of x per) <$> sel ++ l) + per * Z.of_nat (length need)
    ≤ existing_pairs enis + granted l need per.
Proof.
  intros Hpl Hp Hf. assert (Forall (λ x, 0 ≤ eni_pairs x) (List.filter is_rdma enis)) as Hnn.
  { eapply Forall_impl; [by eapply rdma_pairs|]. simpl. lia. }
  pose proof (sum_Z_sublist eni_pairs _ _ Hnn (pk_sublist _ _ _ _ Hp)) as Hsel.
  fold (existing_pairs enis) in Hsel. unfold granted.
  rewrite fmap_app, sum_Z_app, (picked_pairs _ _ _ per _ Hpl Hp).
  remember (sel ++ l) as sel' eqn:El.
  destruct Hf as [per -> Hn|per need -> Hne Hper Hb _ _|per need p Em Hper Hb Hin Hpr _];
    [apply app_self_nil in El as ->; simpl; lia..|].
  apply app_inv_head in El as <-. cbn [fmap list_fmap sum_Z List.filter].
  pose proof (primary_card0 enis p Hpl Hin Hpr) as Hc0.
  assert (0 ∉ eniCardIndex <$> sel) as H0.
  { apply (missing_cards_spec cc sel 0). rewrite <- Em. set_solver. }
  rewrite <- Hc0 in H0. pose proof (picked_pairs_bound enis sel m e p Hpl Hp Hin H0) as Hs.
  destruct (is_rdma p) eqn:Hr; cbn [negb sum_Z].
  - rewrite (rdma_keeps enis p per) by done. lia.
  - lia.
Qed.

(** C2: The plan stays within the instance's queue pairs.  The pairs of all RDMA
    ENIs of the instance count, the controller's and foreign ones, selected or
    not, and no RDMA ENI changes its number.  Together with the pairs the plan
    grants on top (a share for each ENI to create and for a primary ENI to
    convert) they stay within the limit of the instance; where they exceed it
    already, nothing is granted. *)
Theorem SelectEriFromExist_budget e enis qp cc eris need per :
  plannable enis → -2147483648 ≤ qp < 2147483648 →
  SelectEriFromExist e enis qp cc = Ret (eris, need, per) →
  ∃ converted, eris = (λ x, eri_of x per) <$> kept e enis ++ converted ∧
    (if existing_pairs enis <=? qp then existing_pairs enis + granted converted need per ≤ qp
     else converted = [] ∧ need = [] ∧ granted converted need per = 0) ∧
    Forall (λ x, is_rdma x = true → eri_QueuePair (eri_of x per) = eni_pairs x)
      (kept e enis ++ converted) ∧
    sum_Z eri_QueuePair eris + per * Z.of_nat (length need) ≤ Z.max (existing_pairs enis) qp.
Proof.
  intros Hpl Hqp E.
  destruct (SelectEriFromExist_cases e enis qp cc Hpl Hqp) as (sel & m & Hp & H).
  rewrite E in H. destruct H as (sel' & Hf & -> & Hsub & _). clear E.
  pose proof (pk_first _ _ _ _ Hp) as Hs. fold (kept e enis) in Hs. subst sel.
  destruct (filled_exact e enis qp cc sel' need per Hpl Hf) as (converted & -> & _).
  pose proof (filled_granted _ _ _ _ _ _ _ Hpl Hf) as Hg.
  pose proof (selected_pairs _ _ _ _ _ _ _ _ _ Hpl Hp Hf) as Hb.
  exists converted. split_and!; [done|done| |].
  - apply Forall_forall. intros x Hx. apply (rdma_keeps enis); [done|by apply Hsub].
  - destruct (Z.leb_spec (existing_pairs enis) qp); [lia|].
    destruct Hg as (_ & _ & Hg). lia.
Qed.

(** The planner only takes over ENIs it may: every selected ERI is read off
    an ENI of the instance that is either an RDMA ENI the controller owns, or
    the primary ENI of the instance. *)
Lemma SelectEriFromExist_owned e enis qp cc eris need per :
  plannable enis → -2147483648 ≤ qp < 2147483648 →
  SelectEriFromExist e enis qp cc = Ret (eris, need, per) →
  Forall (λ eri, ∃ eni, eni ∈ enis ∧ toEri eni per = Ret eri ∧
    ((OwnENI e eni = true ∧ is_rdma eni = true) ∨ is_primary eni = true)) eris.
Proof.
  intros Hpl Hqp E.
  destruct (SelectEriFromExist_cases e enis qp cc Hpl Hqp) as (sel & m & Hp & H).
  rewrite E in H. destruct H as (sel' & Hf & -> & Hsub & _). clear E.
  apply Forall_fmap, Forall_forall. intros x Hx. exists x.
  split; [by apply Hsub|]. split.
  { apply toEri_readable. pose proof (pl_fields _ Hpl) as H. rewrite Forall_forall in H. auto. }
  assert (x ∈ sel → OwnENI e x = true ∧ is_rdma x = true) as Hsel.
  { intros Hx'. split.
    - pose proof (pk_owned _ _ _ _ Hp) as Ho. rewrite Forall_forall in Ho. auto.
    - apply (sublist_subseteq _ _ (pk_sublist _ _ _ _ Hp)) in Hx'.
      by apply elem_of_filter_bool in Hx' as [_ ?]. }
  destruct Hf; [by auto..|]. set_solver.
Qed.

(** C27: The planner fails exactly when nothing can carry eRDMA traffic: the
    controller owns no RDMA ENI of the instance, and the primary ENI cannot be
    converted, because there is none, or the instance has no card, or there
    are fewer free queue pairs than cards. *)
Theorem SelectEriFromExist_error_iff e enis qp cc :
  plannable enis → -2147483648 ≤ qp < 2147483648 →
  (∃ err, SelectEriFromExist e enis qp cc = Err err) ↔
    Forall (λ x, is_rdma x = true → OwnENI e x = false) enis ∧
    (Forall (λ x, is_primary x = false) enis ∨ cc ≤ 0 ∨ qp - existing_pairs enis < cc).
Proof.
  intros Hpl Hqp.
  destruct (SelectEriFromExist_cases e enis qp cc Hpl Hqp) as (sel & m & Hp & H).
  assert (sel = [] ↔ Forall (λ x, is_rdma x = true → OwnENI e x = false) enis) as Hsel.
  { rewrite Forall_forall. split.
    - intros -> x Hx Hr. destruct (OwnENI e x) eqn:Ho; [|done].
      exfalso. apply (not_elem_of_nil (eniCardIndex x)).
      apply (pk_all _ _ _ _ Hp); [by apply elem_of_filter_bool|done].
    - intros Hno. destruct sel as [|x sel]; [done|].
      pose proof (pk_owned _ _ _ _ Hp) as [Ho _]%Forall_cons.
      assert (x ∈ List.filter is_rdma enis) as [Hx Hr]%elem_of_filter_bool.
      { apply (sublist_subseteq _ _ (pk_sublist _ _ _ _ Hp)). set_solver. }
      by rewrite (Hno x Hx Hr) in Ho. }
  assert (missing_cards cc [] = seqZ 0 cc) as Emiss.
  { unfold missing_cards. apply filter_all, Forall_forall. set_solver. }
  rewrite <- Hsel. split.
  - intros [err E]. rewrite E in H. destruct H as [Hs [Hnp|Hr]]; [by auto|].
    split; [done|]. right. unfold no_room, free_pairs in Hr. rewrite Emiss, length_seqZ in Hr.
    destruct Hr as [Hnil|]; [|lia].
    destruct (decide (0 < cc)); [by rewrite seqZ_cons in Hnil by lia|lia].
  - intros [-> Hno]. destruct (SelectEriFromExist _ _ _ _) as [[[eris need] per]|err|] eqn:E;
      [|by eauto|done].
    exfalso. destruct H as (sel' & Hf & -> & Hsub & Hne).
    destruct Hf as [per Hle|per need -> Hs Hper Hb|per need p Em Hper Hb Hin Hpr];
      [by apply Hne|done|].
    unfold free_pairs in Hb. rewrite Emiss in *.
    assert (Z.of_nat (length (seqZ 0 cc)) = 1 + Z.of_nat (length need)) as El.
    { rewrite <- Em. simpl. lia. }
    rewrite length_seqZ in El. rewrite Forall_forall in Hno.
    destruct Hno as [Hnp|[Hcc|Hfew]]; [by rewrite (Hnp p Hin) in Hpr|lia|nia].
Qed.

(** *** What a plan is read off *)

Lemma pickPerCard_subset e l m sel : pickPerCard e l = Ret (m, sel) → sel ⊆ l.
Proof.
  intros E. apply (for_each_ret l (∅, []) (m, sel) _ (λ l1 s, s.2 ⊆ l1)) in E; [done|done|].
  intros l1 x l2 [m1 s1] s2 _ Hs Hb. simpl in *.
  destruct (OwnENI e x); [|injection Hb as <-; simpl; set_solver].
  destruct (m1 !! eniCardIndex x); [injection Hb as <-; simpl; set_solver|].
  destruct (toEri x 0); simpl in Hb; [|done..]. injection Hb as <-. simpl. set_solver.
Qed.

Lemma usePrimary_subset enis remain m sel need m' sel' need' :
  usePrimary enis remain (m, sel, need) = Ret (m', sel', need') → sel' ⊆ sel ++ enis.
Proof.
  intros E. apply (for_each_ret enis (m, sel, need) (m', sel', need') _ (λ l1 s, s.1.2 ⊆ sel ++ l1)) in E;
    [done|simpl; set_solver|].
  intros l1 x l2 [[m1 s1] n1] s2 _ Hs Hb. simpl in *.
  destruct (is_primary x); [|injection Hb as <-; simpl; set_solver].
  destruct (toEri x remain); simpl in Hb; [|done..]. destruct (removeFirst 0 n1); simpl in Hb; [|done..].
  injection Hb as <-. simpl. set_solver.
Qed.

Lemma fillMissing_subset enis qp eqp m sel need sel' need' per :
  fillMissing enis qp eqp m sel need = Ret (sel', need', per) → sel' ⊆ sel ++ enis.
Proof.
  unfold fillMissing. destruct (decide _); [intros [= <- _ _]; set_solver|].
  destruct (0 <? _); [|intros [= <- _ _]; set_solver].
  destruct (decide (m !! 0 = None)).
  - destruct (usePrimary _ _ _) as [[[m1 s1] n1]| |] eqn:Hu; simpl; [|done..].
    destruct (decide (m1 = ∅)); [done|]. intros [= <- _ _]. by eapply usePrimary_subset.
  - simpl. destruct (decide (m = ∅)); [done|]. intros [= <- _ _]. set_solver.
Qed.

(** Whatever the cloud says, every selected ERI is read off one of its ENIs. *)
Lemma SelectEriFromExist_read e enis qp cc eris need per :
  SelectEriFromExist e enis qp cc = Ret (eris, need, per) →
  Forall (λ eri, ∃ eni, eni ∈ enis ∧ toEri eni per = Ret eri) eris.
Proof.
  unfold SelectEriFromExist. destruct (countExist enis); simpl; [|done..].
  destruct (mapM _ (List.filter is_rdma enis)); simpl; [|done..].
  destruct (pickPerCard _ _) as [[m sel]| |] eqn:Hp; simpl; [|done..].
  destruct (fillMissing _ _ _ _ _ _) as [[[sel' need'] per']| |] eqn:Hf; simpl; [|done..].
  destruct (mapM _ sel') as [l| |] eqn:Hm; simpl; [|done..].
  destruct (decide _); [done|]. intros [= <- <- <-].
  apply pickPerCard_subset in Hp. apply fillMissing_subset in Hf. apply mapM_inv in Hm.
  apply Forall_forall. intros y [i Hi]%list_elem_of_lookup.
  destruct (Forall2_lookup_r _ _ _ _ _ Hm Hi) as (x & Hx & Ht). exists x. split; [|done].
  apply list_elem_of_lookup_2, Hf, elem_of_app in Hx as [Hx|Hx]; [|done].
  apply Hp, elem_of_filter_bool in Hx. tauto.
Qed.

(** ** What driving a device may do *)

Definition attach_request (e : EriClient) (d : DeviceInfo) : AttachNetworkInterfaceRequest := {|
  ani_InstanceId := dev_InstanceID d;
  ani_NetworkInterfaceId := dev_ID d;
  ani_RegionId := regionID e;
  ani_NetworkCardIndex :=
    if dev_NetworkCardIndex d =? 0 then None else Some (int32 (dev_NetworkCardIndex d))
|}.

Definition convert_request (e : EriClient) (d : DeviceInfo) :
    ModifyNetworkInterfaceAttributeRequest := {|
  mni_RegionId := regionID e;
  mni_NetworkInterfaceId := dev_ID d;
  mni_TrafficMode := trafficModeRDMA;
  mni_QueuePairNumber := int32 (dev_QueuePair d)
|}.

(** The tagging of one ENI; the creator tag is never among the tags. *)
Definition tag_request (e : EriClient) (ids : list string) (instanceID : string) :
    TagResourcesRequest := {|
  tr_RegionId := regionID e;
  tr_ResourceType := eniResourceType;
  tr_ResourceId := ids;
  tr_Tag := (eriTagExcludedKey, eriTagExcludedValue) ::
    (if decide (instanceID ≠ ε) then [(eriTagInstanceIdKey, instanceID)] else [])
|}.

(** The abstract machine of one device: the calls one pass may make for it,
    given what the cloud says of its ENI, and the status it then reports. *)
Inductive device_step (e : EriClient) (eni : ENI) (d : DeviceInfo) :
    trace Ctl → list DeviceStatus → Prop :=
  | step_ready :
      eni_Status eni = Some ENIStatusInUse → is_rdma eni = true →
      device_step e eni d [] [mkDeviceStatus (dev_ID d) DeviceStatusReady ε]
  | step_attached :
      dev_IsPrimaryENI d = false → eni_Status eni = Some ENIStatusAvailable →
      device_step e eni d [Event (S:=Ctl) (AttachNetworkInterface (attach_request e d)) (inl ())]
        [mkDeviceStatus (dev_ID d) DeviceStatusPending ε]
  | step_attach_failed err :
      dev_IsPrimaryENI d = false → eni_Status eni = Some ENIStatusAvailable →
      device_step e eni d [Event (S:=Ctl) (AttachNetworkInterface (attach_request e d)) (inr err)]
        [mkDeviceStatus (dev_ID d) DeviceStatusFailed (error_string err)]
  | step_converted r :
      dev_IsPrimaryENI d = true → eni_Status eni = Some ENIStatusInUse → is_rdma eni = false →
      device_step e eni d
        [Event (S:=Ctl) (ModifyNetworkInterfaceAttribute (convert_request e d)) (inl ());
         Event (S:=Ctl) (TagResources (tag_request e [dev_ID d] (dev_InstanceID d))) r]
        [mkDeviceStatus (dev_ID d) DeviceStatusReady ε]
  | step_convert_failed err :
      dev_IsPrimaryENI d = true → eni_Status eni = Some ENIStatusInUse → is_rdma eni = false →
      device_step e eni d
        [Event (S:=Ctl) (ModifyNetworkInterfaceAttribute (convert_request e d)) (inr err)]
        [mkDeviceStatus (dev_ID d) DeviceStatusFailed (error_string err)]
  | step_wait status :
      eni_Status eni = Some status →
      ¬ (status = ENIStatusInUse ∧ (is_rdma eni = true ∨ dev_IsPrimaryENI d = true)) →
      ¬ (status = ENIStatusAvailable ∧ dev_IsPrimaryENI d = false) →
      device_step e eni d [] [].

Lemma EnsureEriTags_spec e ids instanceID :
  ids ≠ [] →
  EnsureEriTags e ids instanceID =
    (r ← ctl (TagResources (tag_request e ids instanceID));
     match r with
     | inl _ => mret ()
     | inr err => throw (Errorf "tag ERI resources %v: %w" [Join ids " "] (Some err))
     end).
Proof.
  intros Hne. unfold EnsureEriTags, tag_request. rewrite decide_False by done.
  by destruct (decide (instanceID ≠ ε)).
Qed.

Lemma ConvertPrimaryENI_steps e d :
  triple (try (ConvertPrimaryENI e (dev_ID d) (dev_InstanceID d) (dev_QueuePair d)))
    (λ tr o,
      (∃ r, o = Ret (inl ()) ∧
        tr = [Event (S:=Ctl) (ModifyNetworkInterfaceAttribute (convert_request e d)) (inl ());
              Event (S:=Ctl) (TagResources (tag_request e [dev_ID d] (dev_InstanceID d))) r]) ∨
      (∃ err, o = Ret (inr err) ∧
        tr = [Event (S:=Ctl) (ModifyNetworkInterfaceAttribute (convert_request e d)) (inr err)])).
Proof.
  intros tr o H. unfold ConvertPrimaryENI in H. rewrite EnsureEriTags_spec in H by done.
  destruct H as ([[]|err] & tr' & -> & H); simpl in H.
  - destruct H as ([[]|err] & tr'' & -> & -> & ->); simpl; left; eauto.
  - destruct H as [-> ->]. right. eauto.
Qed.

(** The outcome of one pass over one device. *)
Definition device_post (e : EriClient) (eniMap : gmap string ENI) (d : DeviceInfo)
    (sts : list DeviceStatus) (tr : trace Ctl) (o : outcome (list DeviceStatus)) : Prop :=
  match o with
  | Ret sts' => ∃ eni new, eniMap !! dev_ID d = Some eni ∧
      device_step e eni d tr new ∧ sts' = sts ++ new
  | Err err => tr = [] ∧
      match eniMap !! dev_ID d with
      | None => err = Errorf "cannot found eni %s" [dev_ID d] None
      | Some eni => eni_Status eni = None ∧
          err = Errorf "cannot found eni %s status" [dev_ID d] None
      end
  | Panic f => tr = [] ∧ f = NilDeref ∧
      ∃ eni, eniMap !! dev_ID d = Some eni ∧ eni_Status eni = Some ENIStatusInUse ∧
        eni_NetworkInterfaceTrafficMode eni = None
  end.

#[local] Opaque ConvertPrimaryENI.

Lemma ensureDevice_steps e eniMap d sts :
  triple (ensureDevice e eniMap d sts) (device_post e eniMap d sts).
Proof.
  unfold ensureDevice, device_post.
  destruct (eniMap !! dev_ID d) as [eni|] eqn:Hm; [|by prog_step].
  destruct (eni_Status eni) as [status|] eqn:Hs; [|by prog_step].
  destruct (decide (status = ENIStatusInUse)) as [->|Hiu].
  - rewrite (bool_decide_false (ENIStatusInUse = ENIStatusAvailable)) by done.
    rewrite andb_false_r, andb_true_r.
    unfold modeIsRDMA. destruct (eni_NetworkInterfaceTrafficMode eni) as [mode|] eqn:Hmode;
      cbn; [|apply triple_done; eauto 10].
    assert (is_rdma eni = bool_decide (mode = trafficModeRDMA)) as Hr.
    { unfold is_rdma. rewrite Hmode. apply bool_decide_ext. naive_solver. }
    case_bool_decide as Hrd; destruct (dev_IsPrimaryENI d) eqn:Hp; simpl.
    + apply triple_done. exists eni. eexists. split_and!; [done|by apply step_ready|done].
    + apply triple_done. exists eni. eexists. split_and!; [done|by apply step_ready|done].
    + apply (triple_bind (S:=Ctl)). eapply triple_mono; [apply ConvertPrimaryENI_steps|].
      intros tr o [(r & -> & ->)|(err & -> & ->)]; simpl; apply triple_done;
        exists eni; eexists; (split_and!; [done| |done]);
        by constructor.
    + apply triple_done. exists eni, []. rewrite app_nil_r. split_and!; [done| |done].
      eapply step_wait; [done|..]; rewrite ?Hr, ?Hp; naive_solver.
  - cbn. rewrite (bool_decide_false (status = ENIStatusInUse)), andb_false_r by done.
    case_bool_decide as Hav; [subst status|].
    + destruct (dev_IsPrimaryENI d) eqn:Hp; simpl.
      * apply triple_done. exists eni, []. rewrite app_nil_r. split_and!; [done| |done].
        eapply step_wait; [done|..]; rewrite ?Hp; naive_solver.
      * intros tr o ([[]|err] & tr' & -> & -> & ->); exists eni; eexists;
          (split_and!; [done| |done]); by constructor.
    + rewrite andb_false_r. apply triple_done. exists eni, []. rewrite app_nil_r.
      split_and!; [done| |done]. eapply step_wait; [done|..]; naive_solver.
Qed.

#[local] Transparent ConvertPrimaryENI.

(** The map built from a response holds the response's ENIs under their ids. *)
Lemma eniMapOf_spec enis m :
  eniMapOf enis = Ret m →
  ∀ id, match m !! id with
        | Some eni => eni ∈ enis ∧ eni_NetworkInterfaceId eni = Some id
        | None => Forall (λ eni, eni_NetworkInterfaceId eni ≠ Some id) enis
        end.
Proof.
  intros H. unfold eniMapOf in H.
  refine (for_each_ret _ _ _ _ (λ seen m, ∀ id,
    match m !! id with
    | Some eni => eni ∈ seen ∧ eni_NetworkInterfaceId eni = Some id
    | None => Forall (λ eni, eni_NetworkInterfaceId eni ≠ Some id) seen
    end) H _ _).
  - intros id. rewrite lookup_empty. constructor.
  - intros l1 x l2 m1 m2 _ IH Hb id.
    destruct (eni_NetworkInterfaceId x) as [xid|] eqn:Hx; simplify_eq/=.
    specialize (IH id). destruct (decide (xid = id)) as [->|Hne].
    + rewrite lookup_insert_eq. set_solver.
    + rewrite lookup_insert_ne by done. destruct (m1 !! id); [set_solver|].
      apply Forall_app. split; [done|]. constructor; [congruence|done].
Qed.

Definition ensure_request (e : EriClient) (devices : list DeviceInfo) :
    DescribeNetworkInterfacesRequest := {|
  dni_RegionId := regionID e;
  dni_InstanceId := None;
  dni_NetworkInterfaceId := dev_ID <$> devices;
  dni_Tag := [];
  dni_PageSize := 100
|}.

(** A pass over some devices: one [device_step] each, against the ENIs the
    cloud described. *)
Definition device_pass (e : EriClient) (enis : list ENI) (devices : list DeviceInfo)
    (tr : trace Ctl) (sts : list DeviceStatus) : Prop :=
  ∃ steps : list (trace Ctl * list DeviceStatus),
    Forall2 (λ d st, ∃ eni, eni ∈ enis ∧ eni_NetworkInterfaceId eni = Some (dev_ID d) ∧
                            device_step e eni d st.1 st.2) devices steps ∧
    tr = concat (fst <$> steps) ∧ sts = concat (snd <$> steps).

(** Why a pass stops at a device. *)
Definition pass_stops (enis : list ENI) (d : DeviceInfo) (o : outcome (list DeviceStatus)) :
    Prop :=
  match o with
  | Ret _ => False
  | Err err =>
      (Forall (λ eni, eni_NetworkInterfaceId eni ≠ Some (dev_ID d)) enis ∧
         err = Errorf "cannot found eni %s" [dev_ID d] None) ∨
      (∃ eni, eni ∈ enis ∧ eni_NetworkInterfaceId eni = Some (dev_ID d) ∧
         eni_Status eni = None ∧ err = Errorf "cannot found eni %s status" [dev_ID d] None)
  | Panic f => f = NilDeref ∧
      ∃ eni, eni ∈ enis ∧ eni_NetworkInterfaceId eni = Some (dev_ID d) ∧
        eni_Status eni = Some ENIStatusInUse ∧ eni_NetworkInterfaceTrafficMode eni = None
  end.

Lemma device_pass_snoc e enis devices d eni tr sts tr' sts' :
  device_pass e enis devices tr sts →
  eni ∈ enis → eni_NetworkInterfaceId eni = Some (dev_ID d) → device_step e eni d tr' sts' →
  device_pass e enis (devices ++ [d]) (tr ++ tr') (sts ++ sts').
Proof.
  intros (steps & Hs & -> & ->) Hin Hid Hd. exists (steps ++ [(tr', sts')]).
  rewrite !fmap_app, !concat_app. simpl. rewrite !app_nil_r. split_and!; [|done..].
  apply Forall2_app; [done|]. constructor; [|done]. by exists eni.
Qed.

(** Every execution of [EnsureEriForInstance]. *)
Definition ensure_post (e : EriClient) (devices : list DeviceInfo) (tr : trace Ctl)
    (o : outcome (list DeviceStatus)) : Prop :=
  ∃ r tr', tr = Event (S:=Ctl) (DescribeNetworkInterfaces (ensure_request e devices)) r :: tr' ∧
    match r with
    | inr err => tr' = [] ∧ o = Err err
    | inl resp =>
        let enis := dni_NetworkInterfaceSet resp in
        (∃ sts, o = Ret sts ∧ device_pass e enis devices tr' sts) ∨
        (tr' = [] ∧ o = Panic NilDeref ∧ ∃ eni, eni ∈ enis ∧ eni_NetworkInterfaceId eni = None) ∨
        (∃ l1 d l2 sts, devices = l1 ++ d :: l2 ∧ device_pass e enis l1 tr' sts ∧
           pass_stops enis d o)
    end.

Lemma eniMapOf_total enis :
  (∃ m, eniMapOf enis = Ret m) ∨
  (eniMapOf enis = Panic NilDeref ∧ ∃ eni, eni ∈ enis ∧ eni_NetworkInterfaceId eni = None).
Proof.
  destruct (find_first (λ eni, bool_decide (eni_NetworkInterfaceId eni = None)) enis)
    as [eni|] eqn:Hf.
  - right. apply find_first_Some in Hf as (l1 & l2 & -> & Hn%bool_decide_eq_true & H1).
    split; [|set_solver]. unfold eniMapOf. rewrite for_each_app.
    destruct (for_each_inv l1 (∅ : gmap string ENI)
      (λ item m, id ← deref (eni_NetworkInterfaceId item); Ret (<[id:=item]> m))
      (λ _ _, True)) as (m & -> & _); [done| |].
    + intros la x lb m -> _. rewrite Forall_app, Forall_cons in H1.
      destruct H1 as (_ & Hx%bool_decide_eq_false & _).
      destruct (eni_NetworkInterfaceId x); [|done]. simpl. eauto.
    + simpl. by rewrite Hn.
  - left. apply find_first_None in Hf.
    destruct (for_each_inv enis (∅ : gmap string ENI)
      (λ item m, id ← deref (eni_NetworkInterfaceId item); Ret (<[id:=item]> m))
      (λ _ _, True)) as (m & Hm & _); [done| |by eauto].
    intros la x lb m -> _. rewrite Forall_app, Forall_cons in Hf.
    destruct Hf as (_ & Hx%bool_decide_eq_false & _).
    destruct (eni_NetworkInterfaceId x); [|done]. simpl. eauto.
Qed.

Lemma EnsureEriForInstance_post e devices :
  triple (EnsureEriForInstance e devices) (ensure_post e devices).
Proof.
  unfold EnsureEriForInstance. apply triple_ctl_bind. intros [resp|err].
  2: { apply triple_done. by exists (inr err), []. }
  apply triple_bind.
  destruct (eniMapOf_total (dni_NetworkInterfaceSet resp)) as [[m Hm]|[Hm Hnil]]; rewrite Hm.
  2: { apply triple_done. exists (inl resp), []. simpl. eauto 10. }
  apply triple_done. simpl. pose proof (eniMapOf_spec _ _ Hm) as Hspec.
  set (enis := dni_NetworkInterfaceSet resp) in *.
  apply (triple_for_each _ _ _ (device_pass e enis)).
  - exists []. by split_and!; [constructor|..].
  - intros l1 d l2 tr sts -> HI. eapply triple_mono; [apply ensureDevice_steps|].
    intros tr' o Ho. specialize (Hspec (dev_ID d)).
    destruct o as [sts'|err|f]; simpl in Ho.
    + destruct Ho as (eni & new & Hl & Hstep & ->). rewrite Hl in Hspec.
      destruct Hspec as [Hin Hid]. by eapply device_pass_snoc.
    + destruct Ho as [-> Ho]. rewrite app_nil_r. exists (inl resp), tr. split; [done|].
      right; right. exists l1, d, l2, sts. split_and!; [done..|]. simpl.
      destruct (m !! dev_ID d) as [eni|]; [|by left].
      destruct Ho as [Hst ->]. right. exists eni. naive_solver.
    + destruct Ho as (-> & -> & eni & Hl & Hst & Hmode). rewrite app_nil_r, Hl in *.
      exists (inl resp), tr. split; [done|]. right; right. exists l1, d, l2, sts.
      split_and!; [done..|]. simpl. naive_solver.
  - intros tr sts HI. exists (inl resp), tr. split; [done|]. left. eauto.
Qed.

Lemma device_pass_cons e enis d devices tr sts :
  device_pass e enis (d :: devices) tr sts →
  ∃ eni tr1 sts1 tr2 sts2, eni ∈ enis ∧ eni_NetworkInterfaceId eni = Some (dev_ID d) ∧
    device_step e eni d tr1 sts1 ∧ device_pass e enis devices tr2 sts2 ∧
    tr = tr1 ++ tr2 ∧ sts = sts1 ++ sts2.
Proof.
  intros (steps & Hs & -> & ->).
  apply Forall2_cons_inv_l in Hs as ([tr1 sts1] & steps' & (eni & Hin & Hid & Hd) & Hs & ->).
  exists eni, tr1, sts1, (concat (fst <$> steps')), (concat (snd <$> steps')).
  split_and!; [done..| |done|done]. by exists steps'.
Qed.

Lemma device_step_status e eni d tr sts :
  device_step e eni d tr sts →
  sts = [] ∨ ∃ st, sts = [st] ∧ st_ID st = dev_ID d ∧
    st_Status st ∈ [DeviceStatusReady; DeviceStatusPending; DeviceStatusFailed].
Proof. destruct 1; eauto; right; eexists; (split_and!; [done..|]); set_solver. Qed.

Lemma device_pass_statuses e enis devices tr sts :
  device_pass e enis devices tr sts →
  (st_ID <$> sts) `sublist_of` (dev_ID <$> devices) ∧
  Forall (λ st, st_Status st ∈ [DeviceStatusReady; DeviceStatusPending; DeviceStatusFailed]) sts.
Proof.
  revert tr sts; induction devices as [|d devices IH]; intros tr sts Hp.
  - destruct Hp as (steps & ->%Forall2_nil_inv_l & -> & ->). split; [done|constructor].
  - apply device_pass_cons in Hp as (eni & tr1 & sts1 & tr2 & sts2 & _ & _ & Hd & Hp & -> & ->).
    destruct (IH _ _ Hp) as [Hs Hf].
    destruct (device_step_status _ _ _ _ _ Hd) as [->|(st & -> & Hid & Hst)]; simpl.
    + split; [by apply sublist_cons|done].
    + rewrite Hid. split; [by apply sublist_skip|by constructor].
Qed.

(** A pass that reports every device ready has seen or made every ENI RDMA. *)
Definition device_done (e : EriClient) (enis : list ENI) (tr : trace Ctl) (d : DeviceInfo) : Prop :=
  ∃ eni, eni ∈ enis ∧ eni_NetworkInterfaceId eni = Some (dev_ID d) ∧
    eni_Status eni = Some ENIStatusInUse ∧
    (is_rdma eni = true ∨
     Event (S:=Ctl) (ModifyNetworkInterfaceAttribute (convert_request e d)) (inl ()) ∈ tr).

Lemma device_pass_length e enis devices tr sts :
  device_pass e enis devices tr sts → (length sts ≤ length devices)%nat.
Proof.
  intros [Hs _]%device_pass_statuses. apply sublist_length in Hs.
  by rewrite !length_fmap in Hs.
Qed.

Lemma device_pass_done e enis devices tr sts :
  device_pass e enis devices tr sts → length sts = length devices →
  Forall (λ st, st_Status st = DeviceStatusReady) sts →
  Forall (device_done e enis tr) devices.
Proof.
  revert tr sts; induction devices as [|d devices IH]; intros tr sts Hp Hl Hr; [done|].
  apply device_pass_cons in Hp
    as (eni & tr1 & sts1 & tr2 & sts2 & Hin & Hid & Hd & Hp & -> & ->).
  pose proof (device_pass_length _ _ _ _ _ Hp) as Hle.
  rewrite length_app in Hl. simpl in Hl. apply Forall_app in Hr as [Hr1 Hr2].
  pose proof (device_step_status _ _ _ _ _ Hd) as Hs1.
  assert (length sts1 = 1%nat) as H1.
  { destruct Hs1 as [->|(st & -> & _)]; simpl in *; lia. }
  constructor.
  - exists eni. destruct Hd; simpl in *; try (by split_and!; auto); try discriminate;
      apply Forall_cons in Hr1 as [Hr1 _]; simpl in Hr1; try discriminate.
    split_and!; [done..|]. right. by left.
  - eapply Forall_impl; [eapply (IH _ _ Hp); [lia|done]|].
    intros d' (eni' & ? & ? & ? & [?|?]); exists eni'; split_and!; auto.
    right. rewrite elem_of_app. by right.
Qed.

(** C3: [EnsureEriForInstance] refines the per-device machine: a run that
    returns describes the ENIs of the devices once and then makes, device by
    device and in order, exactly the calls [device_step] allows for the ENI the
    cloud described, and returns the statuses of those steps. *)
Theorem EnsureEriForInstance_refines e devices tr sts :
  exec (EnsureEriForInstance e devices) tr (Ret sts) →
  ∃ resp tr',
    tr = Event (S:=Ctl) (DescribeNetworkInterfaces (ensure_request e devices)) (inl resp) :: tr' ∧
    device_pass e (dni_NetworkInterfaceSet resp) devices tr' sts.
Proof.
  intros ([resp|err] & tr' & -> & H)%EnsureEriForInstance_post; [|naive_solver].
  exists resp, tr'. split; [done|].
  destruct H as [(sts' & [= ->] & H)|[(_ & ? & _)|(l1 & d & l2 & sts' & _ & _ & H)]]; [done..|].
  destruct H.
Qed.

(** The reported statuses follow the order of the devices, with at most one
    status per device, and a run that reports every device ready has seen the
    device's ENI in use as an RDMA ENI or has just converted it. *)
Lemma EnsureEriForInstance_ready e devices tr sts :
  exec (EnsureEriForInstance e devices) tr (Ret sts) →
  (st_ID <$> sts) `sublist_of` (dev_ID <$> devices) ∧
  (length sts = length devices →
   Forall (λ st, st_Status st = DeviceStatusReady) sts →
   ∃ resp tr',
     tr = Event (S:=Ctl) (DescribeNetworkInterfaces (ensure_request e devices)) (inl resp) :: tr' ∧
     Forall (device_done e (dni_NetworkInterfaceSet resp) tr') devices).
Proof.
  intros ([resp|err] & tr' & -> & H)%EnsureEriForInstance_post; [|naive_solver].
  destruct H as [(sts' & [= <-] & H)|[(_ & ? & _)|(l1 & d & l2 & sts' & _ & _ & H)]];
    [|done|destruct H].
  split; [by apply device_pass_statuses in H as [? _]|].
  intros Hl Hr. exists resp, tr'. split; [done|]. by eapply device_pass_done.
Qed.

(** The changes a device and its ENI justify. *)
Inductive justified (e : EriClient) (eni : ENI) (d : DeviceInfo) : event Ctl → Prop :=
  | justified_attach r :
      dev_IsPrimaryENI d = false → eni_Status eni = Some ENIStatusAvailable →
      justified e eni d (Event (S:=Ctl) (AttachNetworkInterface (attach_request e d)) r)
  | justified_convert r :
      dev_IsPrimaryENI d = true → eni_Status eni = Some ENIStatusInUse → is_rdma eni = false →
      justified e eni d
        (Event (S:=Ctl) (ModifyNetworkInterfaceAttribute (convert_request e d)) r)
  | justified_tag r :
      dev_IsPrimaryENI d = true → eni_Status eni = Some ENIStatusInUse → is_rdma eni = false →
      justified e eni d
        (Event (S:=Ctl) (TagResources (tag_request e [dev_ID d] (dev_InstanceID d))) r).

Lemma device_pass_justified e enis devices tr sts :
  device_pass e enis devices tr sts →
  Forall (λ ev, ∃ d eni, d ∈ devices ∧ eni ∈ enis ∧
    eni_NetworkInterfaceId eni = Some (dev_ID d) ∧ justified e eni d ev) tr.
Proof.
  revert tr sts; induction devices as [|d devices IH]; intros tr sts Hp.
  - by destruct Hp as (steps & ->%Forall2_nil_inv_l & -> & _).
  - apply device_pass_cons in Hp
      as (eni & tr1 & sts1 & tr2 & sts2 & Hin & Hid & Hd & Hp & -> & _).
    apply Forall_app. split.
    + destruct Hd; repeat constructor; exists d, eni;
        (split_and!; [by left|done|done|by constructor]).
    + eapply Forall_impl; [by eapply IH|]. intros ev (d' & eni' & Hd' & H).
      exists d', eni'. split; [by right|done].
Qed.

(** The changes a run makes, each with what calls for it. *)
Definition called_for (e : EriClient) (devices : list DeviceInfo) (tr : trace Ctl) (ev : event Ctl) :
    Prop :=
  ∃ resp d eni,
    Event (S:=Ctl) (DescribeNetworkInterfaces (ensure_request e devices)) (inl resp) ∈ tr ∧
    d ∈ devices ∧ eni ∈ dni_NetworkInterfaceSet resp ∧
    eni_NetworkInterfaceId eni = Some (dev_ID d) ∧ justified e eni d ev.

Lemma EnsureEriForInstance_changes e devices tr o :
  exec (EnsureEriForInstance e devices) tr o →
  Forall (λ ev, k8s_mutates ev = false ∧ (ecs_mutates ev = true → called_for e devices tr ev)) tr.
Proof.
  intros (r & tr' & -> & H)%EnsureEriForInstance_post. constructor; [by split|].
  assert (match r with inl resp => ∃ l1 sts, l1 ⊆ devices ∧
            device_pass e (dni_NetworkInterfaceSet resp) l1 tr' sts | inr _ => tr' = [] end) as Hp.
  { destruct r as [resp|err]; [|by destruct H].
    destruct H as [(sts & _ & H)|[(-> & _)|(l1 & d & l2 & sts & -> & H & _)]].
    - by exists devices, sts.
    - exists [], []. split; [set_solver|]. exists []. by split_and!; [constructor|..].
    - exists l1, sts. split; [set_solver|done]. }
  destruct r as [resp|err]; [|by rewrite Hp].
  destruct Hp as (l1 & sts & Hsub & Hp%device_pass_justified).
  eapply Forall_impl; [exact Hp|]. intros ev (d & eni & Hd & Hin & Hid & Hj). split.
  - by destruct Hj.
  - intros _. exists resp, d, eni. split_and!; [by left|by apply Hsub|done..].
Qed.

(** C4: Whatever the outcome, every change made to the cloud is justified by a
    device and the ENI described for it: a secondary ENI is attached only when
    it is available, the primary ENI is converted and tagged only when it is
    in use and not yet RDMA; nothing is created, and the Kubernetes API server
    is left alone. *)
Theorem EnsureEriForInstance_justified e devices tr o :
  exec (EnsureEriForInstance e devices) tr o →
  Forall (λ ev, k8s_mutates ev = false ∧
    (ecs_mutates ev = true → ∃ resp d eni,
       Event (S:=Ctl) (DescribeNetworkInterfaces (ensure_request e devices)) (inl resp) ∈ tr ∧
       d ∈ devices ∧ eni ∈ dni_NetworkInterfaceSet resp ∧
       eni_NetworkInterfaceId eni = Some (dev_ID d) ∧ justified e eni d ev)) tr.
Proof. apply EnsureEriForInstance_changes. Qed.

(** ** The properties at concrete inputs *)

Lemma scenario_plannable : plannable [eni_primary; eni_card0].
Proof.
  split; simpl.
  - lia.
  - repeat constructor; by eexists.
  - repeat constructor; [discriminate|]. intros _. eexists. split; [done|lia].
  - repeat constructor; [intros _ n ?; discriminate|discriminate].
  - lia.
  - repeat constructor.
Qed.

Definition scenario_client : EriClient := mkEriClient "cn-hangzhou" false.

Lemma SelectEriFromExist_plan_witness :
  ∃ eris need per,
    SelectEriFromExist scenario_client [eni_primary; eni_card0] 16 2 = Ret (eris, need, per) ∧
    eris = [eri_of eni_card0 8] ∧ need = [1] ∧ per = 8 ∧
    ∀ i, 0 ≤ i < 2 → i ∈ (eri_CardIndex <$> eris) ++ need.
Proof.
  pose proof (SelectEriFromExist_plan scenario_client [eni_primary; eni_card0] 16 2
    scenario_plannable ltac:(lia)) as H.
  assert (SelectEriFromExist scenario_client [eni_primary; eni_card0] 16 2 =
    Ret ([eri_of eni_card0 8], [1], 8)) as E by (vm_compute; reflexivity).
  rewrite E in H. destruct H as (_ & _ & _ & converted & _ & H).
  destruct (decide _) as [Hd|_]; [exfalso; vm_compute in Hd; naive_solver|].
  exists [eri_of eni_card0 8], [1], 8. split_and!; [exact E|done..|apply H].
Defined.

(** Nine pairs, three cards, one of them served: the pair that is left is not
    enough for the other two cards, and both stay without an ERI. *)
Example plan_too_few_pairs :
  let rdma id mac n := mkENI (Some id) (Some "HighPerformance") (Some n) (Some "Secondary")
    (Some mac) (Some (mkAttachment (Some 1))) None None None in
  let x := rdma "eni-secondary1" "00:16:3e:00:00:00" 6 in
  let y := rdma "eni-secondary2" "00:16:3e:00:00:01" 2 in
  SelectEriFromExist (mkEriClient ε true) [eni_primary; x; y] 9 3 = Ret ([eri_of x 0], [], 0) ∧
  missing_cards 3 (kept (mkEriClient ε true) [eni_primary; x; y]) = [0; 2] ∧
  free_pairs [eni_primary; x; y] 9 = 1.
Proof. vm_compute. auto. Qed.

Lemma SelectEriFromExist_budget_witness :
  ∃ eris need per,
    SelectEriFromExist scenario_client [eni_primary; eni_card0] 16 2 = Ret (eris, need, per) ∧
    existing_pairs [eni_primary; eni_card0] = 8 ∧ per * Z.of_nat (length need) = 8 ∧
    ∃ converted, 8 + granted converted need per ≤ 16.
Proof.
  do 3 eexists. split; [vm_compute; reflexivity|]. split; [reflexivity|]. split; [reflexivity|].
  destruct (SelectEriFromExist_budget scenario_client [eni_primary; eni_card0] 16 2 _ _ _
    scenario_plannable ltac:(lia) ltac:(vm_compute; reflexivity)) as (converted & _ & H & _).
  exists converted. exact H.
Defined.

Lemma SelectEriFromExist_owned_witness :
  ∃ eris need per,
    SelectEriFromExist scenario_client [eni_primary; eni_card0] 16 2 = Ret (eris, need, per) ∧
    Forall (λ eri, ∃ eni, eni ∈ [eni_primary; eni_card0] ∧ toEri eni per = Ret eri ∧
      ((OwnENI scenario_client eni = true ∧ is_rdma eni = true) ∨ is_primary eni = true)) eris.
Proof.
  do 3 eexists. split; [vm_compute; reflexivity|].
  eapply (SelectEriFromExist_owned scenario_client [eni_primary; eni_card0] 16 2);
    [exact scenario_plannable|lia|vm_compute; reflexivity].
Defined.

Lemma SelectEriFromExist_error_iff_witness :
  (∃ err, SelectEriFromExist scenario_client [eni_primary] 1 2 = Err err) ∧
  (¬ ∃ err, SelectEriFromExist scenario_client [eni_primary; eni_card0] 16 2 = Err err).
Proof.
  split.
  - apply (SelectEriFromExist_error_iff scenario_client [eni_primary] 1 2); [|lia|].
    + destruct scenario_plannable as [_ [Hf _]%Forall_cons [Hr _]%Forall_cons [Hn _]%Forall_cons _ _].
      split; [simpl; lia|by constructor..|simpl; lia|repeat constructor].
    + split; [repeat constructor; discriminate|]. right; right. vm_compute. reflexivity.
  - rewrite (SelectEriFromExist_error_iff scenario_client [eni_primary; eni_card0] 16 2);
      [|exact scenario_plannable|lia].
    intros [Hf _]. apply Forall_cons in Hf as [_ [Hf _]%Forall_cons]. discriminate (Hf eq_refl).
Defined.

(** The devices of the primary ENI and of an available one. *)
Definition scenario_env : Env Ctl := inventory_env (cluster [eni_primary; eni_available] []).

Definition scenario_pass : prog Ctl (list DeviceStatus) :=
  EnsureEriForInstance scenario_client [device_p; device_1].

Lemma scenario_pass_returns :
  exec scenario_pass (run scenario_env [] scenario_pass).2
    (Ret [mkDeviceStatus "eni-p" "Ready" ε; mkDeviceStatus "eni-1" "Pending" ε]).
Proof. apply run_returns. vm_compute. reflexivity. Defined.

Lemma EnsureEriForInstance_refines_witness :
  ∃ tr sts resp tr', exec scenario_pass tr (Ret sts) ∧
    tr = Event (S:=Ctl) (DescribeNetworkInterfaces
           (ensure_request scenario_client [device_p; device_1])) (inl resp) :: tr' ∧
    device_pass scenario_client (dni_NetworkInterfaceSet resp) [device_p; device_1] tr' sts.
Proof.
  destruct (EnsureEriForInstance_refines _ _ _ _ scenario_pass_returns) as (resp & tr' & H).
  do 2 eexists. exists resp, tr'. split; [exact scenario_pass_returns|exact H].
Defined.

Lemma EnsureEriForInstance_ready_witness :
  ∃ tr sts, exec scenario_pass tr (Ret sts) ∧ (st_ID <$> sts) `sublist_of` ["eni-p"; "eni-1"].
Proof.
  destruct (EnsureEriForInstance_ready _ _ _ _ scenario_pass_returns) as [H _].
  do 2 eexists. split; [exact scenario_pass_returns|exact H].
Defined.

Lemma EnsureEriForInstance_justified_witness :
  let tr := (run scenario_env [] scenario_pass).2 in
  length (List.filter ecs_mutates tr) = 3%nat ∧ Forall (λ ev, k8s_mutates ev = false) tr.
Proof.
  split; [vm_compute; reflexivity|].
  eapply Forall_impl; [exact (EnsureEriForInstance_justified _ _ _ _ scenario_pass_returns)|].
  by intros ev [? _].
Defined.
