(* ===== verification/Provision.v ===== *)
(** * Provision: what the provisioning operations of eri.go do

    Theorems about [InstanceIDFromNode], [CreateEriForInstance] and
    [SelectERIs] of [EriClient]: which calls a run makes, what it returns. *)

From S2P Require Import Prelude Effects GoStr Types CloudApi Scenario EriClient.

(** ** Specification *)

Definition tagged_request (e : EriClient) (instance : Instance_) :
    DescribeNetworkInterfacesRequest := {|
  dni_RegionId := regionID e;
  dni_InstanceId := None;
  dni_NetworkInterfaceId := [];
  dni_Tag := [(eriTagCreatorKey, Some eriTagCreatorValue);
              (eriTagInstanceIdKey, inst_InstanceId instance)];
  dni_PageSize := 100
|}.

(** The request that creates the ERI of card [i]. *)
Definition create_request (e : EriClient) (iid : string)
    (sgs : list string) (vsw : option string) (queuePair i : Z) :
    CreateNetworkInterfaceRequest := {|
  cni_NetworkInterfaceName := "eri-" +:+ iid +:+ "-" +:+ Itoa i;
  cni_TrafficMode := trafficModeRDMA;
  cni_QueuePairNumber := int32 queuePair;
  cni_RegionId := regionID e;
  cni_SecurityGroupIds := sgs;
  cni_Tag := [(eriTagCreatorKey, Some eriTagCreatorValue);
              (eriTagInstanceIdKey, Some iid);
              (eriTagExcludedKey, Some eriTagExcludedValue)];
  cni_VSwitchId := vsw
|}.

(** A call that creates the ERI of card [i] for the instance. *)
Definition creates (e : EriClient) (instance : Instance_) (queuePair i : Z)
    (req : CreateNetworkInterfaceRequest) : Prop :=
  ∃ iid sgs vsw, inst_InstanceId instance = Some iid ∧
    inst_SecurityGroupIds instance = Some sgs ∧ inst_VpcAttributes instance = Some vsw ∧
    req = create_request e iid sgs vsw queuePair i.

(** One successful creation: its card, its call, the ERI returned. *)
Definition created (e : EriClient) (instance : Instance_) (queuePair : Z)
    (i : Z) (ev : event Ctl) (eri : ERI) : Prop :=
  ∃ req resp, creates e instance queuePair i req ∧
    ev = Event (S:=Ctl) (CreateNetworkInterface req) (inl resp) ∧
    cni_NetworkInterfaceId resp = Some (eri_ID eri) ∧
    cni_MacAddress resp = Some (eri_MAC eri) ∧
    inst_InstanceId instance = Some (eri_InstanceID eri) ∧
    eri_CardIndex eri = i ∧ eri_IsPrimaryENI eri = false.

(** A tagged ENI taken for a card. *)
Definition reused (instance : Instance_) (queuePair : Z) (c : ENI * Z) (eri : ERI) : Prop :=
  ∃ v, toEri c.1 queuePair = Ret v ∧
    eri_ID eri = eri_ID v ∧ eri_MAC eri = eri_MAC v ∧ eri_QueuePair eri = eri_QueuePair v ∧
    inst_InstanceId instance = Some (eri_InstanceID eri) ∧ eri_CardIndex eri = c.2.

(** ** [CreateEriForInstance] *)

Lemma reuseTagged_ret instance enis cards queuePair rest eris :
  reuseTagged instance enis cards queuePair = Ret (rest, eris) →
  rest = drop (length enis) cards ∧ Forall2 (reused instance queuePair) (zip enis cards) eris.
Proof.
  intros H. unfold reuseTagged in H.
  refine (for_each_ret _ _ _ _ (λ seen '(rest, eris), rest = drop (length seen) cards ∧
    Forall2 (reused instance queuePair) (zip seen cards) eris) H _ _); [done|].
  intros l1 x l2 [rest1 eris1] s2 _ [-> H1] Hb. rewrite length_app. simpl. rewrite <- drop_drop.
  pose proof (zip_with_app_l pair l1 [x] cards) as Ez.
  destruct (drop (length l1) cards) as [|i rest2] eqn:Hd.
  - simplify_eq. split; [done|]. rewrite Ez. simpl. rewrite app_nil_r.
    by rewrite zip_with_take_r.
  - destruct (toEri x queuePair) as [v| |] eqn:Hv; simplify_eq/=.
    destruct (inst_InstanceId instance) as [iid|] eqn:Hi; simplify_eq/=.
    split; [by rewrite drop_0|]. rewrite Ez. simpl. rewrite zip_with_take_r.
    apply Forall2_app; [done|]. constructor; [|constructor]. by exists v.
Qed.

(** The creations of a run, in order: every card but possibly the last one
    attempted got its ENI. *)
Definition create_post (e : EriClient) (instance : Instance_) (cards : list Z) (queuePair : Z)
    (tr : trace Ctl) (o : outcome (list ERI)) : Prop :=
  ∃ r tr', tr = Event (S:=Ctl) (DescribeNetworkInterfaces (tagged_request e instance)) r :: tr' ∧
    (tr' = [] ∧ (∀ eris, o ≠ Ret eris) ∨
     ∃ resp old done todo new trd trf,
       r = inl resp ∧ drop (length (dni_NetworkInterfaceSet resp)) cards = done ++ todo ∧
       Forall2 (reused instance queuePair) (zip (dni_NetworkInterfaceSet resp) cards) old ∧
       Forall3 (created e instance queuePair) done trd new ∧ tr' = trd ++ trf ∧
       match todo with
       | [] => trf = [] ∧ o = Ret (old ++ new)
       | i :: _ => (∀ eris, o ≠ Ret eris) ∧
           (trf = [] ∨ ∃ req r, creates e instance queuePair i req ∧
              trf = [Event (S:=Ctl) (CreateNetworkInterface req) r])
       end).

Lemma createOne_created e instance queuePair i :
  triple (createOne e instance queuePair i) (λ tr o,
    match o with
    | Ret eri => ∃ ev, tr = [ev] ∧ created e instance queuePair i ev eri
    | _ => tr = [] ∨ ∃ req r, creates e instance queuePair i req ∧
             tr = [Event (S:=Ctl) (CreateNetworkInterface req) r]
    end).
Proof.
  unfold createOne. destruct (inst_InstanceId instance) as [iid|] eqn:Hi; [|apply triple_done; by left].
  destruct (inst_SecurityGroupIds instance) as [sgs|] eqn:Hs; [|apply triple_done; by left].
  destruct (inst_VpcAttributes instance) as [vsw|] eqn:Hv; [|apply triple_done; by left].
  assert (creates e instance queuePair i (create_request e iid sgs vsw queuePair i)) as Hc.
  { by exists iid, sgs, vsw. }
  apply triple_ctl_bind. intros [resp|err];
    [|apply triple_done; right; by exists (create_request e iid sgs vsw queuePair i), (inr err)].
  destruct (cni_NetworkInterfaceId resp) as [id|] eqn:Hid; 
    [|apply triple_done; right; by exists (create_request e iid sgs vsw queuePair i), (inl resp)].
  destruct (cni_MacAddress resp) as [mac|] eqn:Hmac; 
    [|apply triple_done; right; by exists (create_request e iid sgs vsw queuePair i), (inl resp)].
  apply triple_done. eexists. split; [done|].
  exists (create_request e iid sgs vsw queuePair i), resp. by split_and!.
Qed.

#[local] Opaque createOne.

Lemma CreateEriForInstance_post e instance cards queuePair :
  triple (CreateEriForInstance e instance cards queuePair)
         (create_post e instance cards queuePair).
Proof.
  unfold CreateEriForInstance. fold (tagged_request e instance).
  apply triple_ctl_bind. intros [resp|err].
  2: { apply triple_done. exists (inr err), []. split; [done|]. by left. }
  destruct (dni_StatusCode resp) as [code|]; simpl.
  2: { apply triple_done. exists (inl resp), []. split; [done|]. by left. }
  destruct (negb (code =? 200)).
  { apply triple_done. exists (inl resp), []. split; [done|]. by left. }
  destruct (reuseTagged _ _ _ _) as [[rest old]|err|f] eqn:Hr;
    [|apply triple_done; by exists (inl resp), []; split; [|left]..].
  apply reuseTagged_ret in Hr as [-> Hold].
  apply (triple_for_each _ _ _ (λ seen tr eris, ∃ new, eris = old ++ new ∧
    Forall3 (created e instance queuePair) seen tr new)).
  - exists []. rewrite app_nil_r. split; [done|constructor].
  - intros l1 i l2 tr s El (new & -> & Hnew). apply (triple_bind (S:=Ctl)).
    eapply triple_mono; [apply createOne_created|]. intros tr' o Ho.
    destruct o as [eri|err|f]; cbn [after].
    + destruct Ho as (ev & -> & Hc). apply triple_done. rewrite app_nil_r.
      exists (new ++ [eri]). rewrite (assoc_L (++)). split; [done|].
      apply Forall3_app; [done|]. by repeat constructor.
    + exists (inl resp), (tr ++ tr'). split; [done|]. right.
      exists resp, old, l1, (i :: l2), new, tr, tr'. by split_and!.
    + exists (inl resp), (tr ++ tr'). split; [done|]. right.
      exists resp, old, l1, (i :: l2), new, tr, tr'. by split_and!.
  - intros tr s (new & -> & Hnew). exists (inl resp), tr. split; [done|]. right.
    exists resp, old, (drop (length (dni_NetworkInterfaceSet resp)) cards), [], new, tr, [].
    rewrite !app_nil_r. by split_and!.
Qed.

#[local] Transparent createOne.

(** ** [SelectERIs] *)

Definition instance_request (e : EriClient) (instanceID : string) : DescribeInstancesRequest := {|
  di_RegionId := regionID e;
  di_InstanceIds := Some (json_singleton instanceID);
  di_PrivateIpAddresses := None
|}.

Definition enis_request (e : EriClient) (instanceID : string) :
    DescribeNetworkInterfacesRequest := {|
  dni_RegionId := regionID e;
  dni_InstanceId := Some instanceID;
  dni_NetworkInterfaceId := [];
  dni_Tag := [];
  dni_PageSize := 100
|}.

(** The calls of a run of [SelectERIs] that returned: the instance and its type
    are described; an unsupported type ends it; otherwise the instance's ENIs
    are described and planned, the rest of the plan is created, and all of it
    is tagged. *)
Definition select_post (e : EriClient) (instanceID : string) (tr : trace Ctl)
    (res : option (list ERI)) : Prop :=
  ∃ insts instance types tr',
    tr = Event (S:=Ctl) (DescribeInstances (instance_request e instanceID)) (inl insts) ::
         Event (S:=Ctl) (DescribeInstanceTypes [inst_InstanceType instance]) (inl types) :: tr' ∧
    di_Instance insts !! 0%nat = Some instance ∧
    match res with
    | None => tr' = [] ∧ instanceLimits (inst_InstanceType instance) types 0 0 = Ret None
    | Some eris => ∃ cc qp enis old need per new trc trt,
        instanceLimits (inst_InstanceType instance) types 0 0 = Ret (Some (cc, qp)) ∧
        tr' = Event (S:=Ctl) (DescribeNetworkInterfaces (enis_request e instanceID)) (inl enis) ::
              trc ++ trt ∧
        SelectEriFromExist e (dni_NetworkInterfaceSet enis) qp cc = Ret (old, need, per) ∧
        exec (CreateEriForInstance e instance need per) trc (Ret new) ∧
        eris = old ++ new ∧
        (eris = [] ∧ trt = [] ∨ eris ≠ [] ∧ ∃ r,
           trt = [Event (S:=Ctl) (TagResources (tag_request e (eri_ID <$> eris) instanceID)) r])
    end.

Lemma EnsureEriTags_try e ids instanceID tr o :
  exec (try (EnsureEriTags e ids instanceID)) tr o →
  (∃ res, o = Ret res) ∧
  (ids = [] ∧ tr = [] ∨
   ids ≠ [] ∧ ∃ r, tr = [Event (S:=Ctl) (TagResources (tag_request e ids instanceID)) r]).
Proof.
  intros (o1 & H & ->)%exec_try. destruct (decide (ids = [])) as [->|Hne].
  - destruct H as [-> ->]. split; [by eexists|by left].
  - rewrite EnsureEriTags_spec in H by done. destruct H as (r & tr' & -> & H).
    destruct r; destruct H as [-> ->]; (split; [by eexists|right; split; [done|by eexists]]).
Qed.

#[local] Opaque CreateEriForInstance EnsureEriTags.

Lemma SelectERIs_returned e instanceID tr res :
  exec (SelectERIs e instanceID) tr (Ret res) → select_post e instanceID tr res.
Proof.
  intros H. unfold SelectERIs in H. fold (instance_request e instanceID) in H.
  fold (enis_request e instanceID) in H.
  destruct H as ([insts|err] & tr1 & -> & H); cbn in H; [|naive_solver].
  destruct (di_TotalCount insts) as [total|]; cbn in H; [|naive_solver].
  destruct (total =? 0); cbn in H; [naive_solver|].
  unfold index in H. cbn in H.
  destruct (di_Instance insts) as [|instance rest] eqn:Hi; cbn in H; [naive_solver|].
  destruct H as ([types|err] & tr2 & -> & H); cbn in H.
  2: { destruct (inst_InstanceType instance); cbn in H; naive_solver. }
  exists insts, instance, types, tr2. rewrite Hi. split_and!; [done..|].
  destruct (instanceLimits _ _ _ _) as [[[cc qp]|]| |] eqn:Hl; cbn in H; [|naive_solver..].
  destruct H as ([enis|err] & tr3 & -> & H); cbn in H; [|naive_solver].
  destruct (SelectEriFromExist _ _ _ _) as [[[old need] per]| |] eqn:Hs; cbn in H;
    [|naive_solver..].
  apply exec_bind in H as (trc & [new|err|f] & Hc & H); [|naive_solver..].
  destruct H as (tr4 & -> & H). apply exec_bind in H as (trt & ot & Ht & H).
  apply EnsureEriTags_try in Ht as [[rt ->] Ht].
  destruct H as (tr5 & -> & [-> [= ->]]). rewrite app_nil_r.
  exists cc, qp, enis, old, need, per, new, trc, trt. split_and!; [done..|].
  destruct Ht as [[Hn ->]|[Hn Ht]]; [left|right]; (split; [|done]).
  - by apply fmap_nil_inv in Hn.
  - intros En. apply Hn. by rewrite En.
Qed.

#[local] Transparent CreateEriForInstance EnsureEriTags.

(** ** The limits of an instance type *)

(** What [DescribeInstanceTypes] reports of a type: [int32] quantities. *)
Record type_sane (instanceType : option string) (t : InstanceType) : Prop := {
  ts_id : instanceType ≠ None ∧ it_InstanceTypeId t = instanceType;
  ts_eri : ∀ n, it_EriQuantity t = Some n → 0 ≤ n < 2147483648;
  ts_cards : ∀ n, it_NetworkCardQuantity t = Some n → 0 ≤ n < 2147483648;
  ts_pairs : ∃ n, it_QueuePairNumber t = Some n ∧ 0 ≤ n < 2147483648
}.

Definition offers_eri (t : InstanceType) : bool :=
  match it_EriQuantity t with Some n => negb (n =? 0) | None => false end.

(** The cards of a type that get an ERI. *)
Definition type_cards (t : InstanceType) : Z :=
  match it_NetworkCardQuantity t with
  | Some n => if n <? 2 then 1 else Z.min n (default 0 (it_EriQuantity t))
  | None => 1
  end.

(** The queue pairs of a type: GPU types report them per card. *)
Definition type_pairs (t : InstanceType) : Z :=
  let qp := default 0 (it_QueuePairNumber t) in
  match it_GPUAmount t with
  | Some g => if 0 <? g then int32 (qp * type_cards t) else qp
  | None => qp
  end.

Lemma type_cards_bound ty t :
  type_sane ty t → offers_eri t = true →
  1 ≤ type_cards t ≤ Z.max 1 (default 0 (it_NetworkCardQuantity t)) ∧
  type_cards t ≤ default 0 (it_EriQuantity t) ∧ int32 (type_cards t) = type_cards t.
Proof.
  intros [_ He Hc _] Ho. unfold offers_eri, type_cards in *.
  destruct (it_EriQuantity t) as [q|]; [|done]. specialize (He q eq_refl). simpl.
  apply negb_true_iff, Z.eqb_neq in Ho.
  destruct (it_NetworkCardQuantity t) as [n|]; simpl.
  - specialize (Hc n eq_refl). destruct (Z.ltb_spec n 2); rewrite ?int32_id; lia.
  - rewrite int32_id; lia.
Qed.

Lemma instanceLimits_cons ty t types cc qp :
  type_sane ty t →
  instanceLimits ty (t :: types) cc qp =
    if offers_eri t then instanceLimits ty types (type_cards t) (type_pairs t) else Ret None.
Proof.
  intros Ht. pose proof (type_cards_bound ty t Ht) as Hb. destruct Ht as [[Hty Hid] _ _ (n & Hqp & _)].
  unfold offers_eri, type_pairs, type_cards in *. simpl.
  destruct (it_EriQuantity t) as [q|]; [|done]. rewrite Hid.
  destruct ty as [ty|]; [|done]. cbn. rewrite Hqp.
  destruct (q =? 0) eqn:Hq; simpl in *.
  - by rewrite decide_True by (split; [done|lia]).
  - rewrite decide_False by lia. destruct Hb as (_ & _ & Hb); [done|]. by rewrite Hb.
Qed.

Lemma type_pairs_range ty t : type_sane ty t → -2147483648 ≤ type_pairs t < 2147483648.
Proof.
  intros [_ _ _ (n & Hqp & Hb)]. unfold type_pairs. rewrite Hqp. simpl.
  destruct (it_GPUAmount t) as [g|]; [|lia]. destruct (0 <? g); [apply int32_range|lia].
Qed.

Lemma instanceLimits_range ty types cc qp cc' qp' :
  Forall (type_sane ty) types → -2147483648 ≤ qp < 2147483648 →
  instanceLimits ty types cc qp = Ret (Some (cc', qp')) → -2147483648 ≤ qp' < 2147483648.
Proof.
  intros Hs. revert cc qp; induction Hs as [|t types Ht _ IH]; intros cc qp Hqp.
  - simpl. intros. by simplify_eq.
  - rewrite (instanceLimits_cons ty) by done. destruct (offers_eri t); [|done].
    apply IH. by eapply type_pairs_range.
Qed.

(** ** Properties *)

Lemma created_cards e instance queuePair l trd new :
  Forall3 (created e instance queuePair) l trd new → eri_CardIndex <$> new = l.
Proof.
  induction 1 as [|i ev eri l trd new Hc _ IH]; [done|].
  destruct Hc as (req & resp & _ & _ & _ & _ & _ & Hi & _). rewrite fmap_cons. by f_equal.
Qed.

Lemma reused_cards instance queuePair enis cards old :
  Forall2 (reused instance queuePair) (zip enis cards) old →
  eri_CardIndex <$> old = take (length enis) cards.
Proof.
  revert cards old; induction enis as [|eni enis IH]; intros [|i cards] old H; simpl in *;
    try (by apply Forall2_nil_inv_l in H as ->).
  apply Forall2_cons_inv_l in H as (eri & old' & (v & _ & _ & _ & _ & _ & Hi) & H & ->).
  rewrite fmap_cons. f_equal; [done|]. by apply IH.
Qed.

Lemma CreateEriForInstance_ret e instance cards queuePair tr eris :
  exec (CreateEriForInstance e instance cards queuePair) tr (Ret eris) →
  eri_CardIndex <$> eris = cards ∧
  ∃ resp old new trd, eris = old ++ new ∧
    tr = Event (S:=Ctl) (DescribeNetworkInterfaces (tagged_request e instance)) (inl resp) :: trd ∧
    Forall2 (reused instance queuePair) (zip (dni_NetworkInterfaceSet resp) cards) old ∧
    Forall3 (created e instance queuePair)
      (drop (length (dni_NetworkInterfaceSet resp)) cards) trd new.
Proof.
  intros (r & tr' & -> & [[_ Hn]|(resp & old & l1 & todo & new & trd & trf & -> & Hd & Ho & Hc & -> & Ht)])
    %CreateEriForInstance_post; [by destruct (Hn eris)|].
  destruct todo as [|i todo]; [|destruct Ht as [Hn _]; by destruct (Hn eris)].
  destruct Ht as [-> [= ->]]. rewrite !app_nil_r in *. split.
  - rewrite fmap_app, (reused_cards _ _ _ _ _ Ho), (created_cards _ _ _ _ _ _ Hc), <- Hd.
    apply take_drop.
  - exists resp, old, new, trd. rewrite Hd. by split_and!.
Qed.

(** When [CreateEriForInstance] succeeds it returns one ERI per card asked
    for, in order; the first cards take the ENIs tagged for the instance, and
    each remaining card has exactly one [CreateNetworkInterface] call whose
    request is for that card. *)
Lemma CreateEriForInstance_cards e instance cards queuePair tr eris :
  exec (CreateEriForInstance e instance cards queuePair) tr (Ret eris) →
  eri_CardIndex <$> eris = cards ∧
  ∃ resp old new trd, eris = old ++ new ∧
    tr = Event (S:=Ctl) (DescribeNetworkInterfaces (tagged_request e instance)) (inl resp) :: trd ∧
    Forall2 (reused instance queuePair) (zip (dni_NetworkInterfaceSet resp) cards) old ∧
    Forall3 (created e instance queuePair)
      (drop (length (dni_NetworkInterfaceSet resp)) cards) trd new.
Proof. apply CreateEriForInstance_ret. Qed.

Lemma created_calls e instance queuePair l trd new :
  Forall3 (created e instance queuePair) l trd new →
  Forall2 (λ i ev, ∃ req r, creates e instance queuePair i req ∧
                     ev = Event (S:=Ctl) (CreateNetworkInterface req) r) l trd.
Proof.
  induction 1 as [|i ev eri l trd new (req & resp & Hc & -> & _) _ IH]; constructor; [|done].
  by exists req, (inl resp).
Qed.

(** The calls after the first of any run: creations for the first of the cards
    the tagged ENIs leave. *)
Lemma CreateEriForInstance_creates e instance cards queuePair tr o :
  exec (CreateEriForInstance e instance cards queuePair) tr o →
  ∃ r trc l1 l2, tr = Event (S:=Ctl) (DescribeNetworkInterfaces (tagged_request e instance)) r :: trc ∧
    match r with
    | inl resp => drop (length (dni_NetworkInterfaceSet resp)) cards = l1 ++ l2
    | inr _ => l1 = []
    end ∧
    Forall2 (λ i ev, ∃ req r, creates e instance queuePair i req ∧
                       ev = Event (S:=Ctl) (CreateNetworkInterface req) r) l1 trc.
Proof.
  intros (r & tr' & -> & [[-> Hn]|(resp & old & l1 & todo & new & trd & trf & -> & Hd & Ho & Hc & -> & Ht)])
    %CreateEriForInstance_post.
  - exists r, [], [], (match r with inl resp => drop (length (dni_NetworkInterfaceSet resp)) cards
                                  | inr _ => [] end). destruct r; by split_and!.
  - destruct todo as [|i todo].
    { destruct Ht as [-> _]. exists (inl resp), trd, l1, []. rewrite (app_nil_r trd).
      split_and!; [done..|]. by eapply created_calls. }
    destruct Ht as [_ [->|(req & r & Hq & ->)]].
    + exists (inl resp), trd, l1, (i :: todo). rewrite (app_nil_r trd).
      split_and!; [done..|]. by eapply created_calls.
    + exists (inl resp), (trd ++ [Event (S:=Ctl) (CreateNetworkInterface req) r]), (l1 ++ [i]), todo.
      rewrite <- (assoc_L (++)). split_and!; [done..|].
      apply Forall2_app; [by eapply created_calls|]. constructor; [by exists req, r|constructor].
Qed.

(** Whatever the outcome, [CreateEriForInstance] creates at most one ENI
    for each card the tagged ENIs leave, in order and starting with the first,
    and makes no other change. *)
Lemma CreateEriForInstance_calls e instance cards queuePair tr o :
  exec (CreateEriForInstance e instance cards queuePair) tr o →
  Forall (λ ev, k8s_mutates ev = false) tr ∧
  ∃ l, l `prefix_of` (match tr with
                      | Event (DescribeNetworkInterfaces _) (inl resp) :: _ =>
                          drop (length (dni_NetworkInterfaceSet resp)) cards
                      | _ => []
                      end) ∧
    Forall2 (λ i ev, ∃ req r, creates e instance queuePair i req ∧
                       ev = Event (S:=Ctl) (CreateNetworkInterface req) r) l
      (List.filter ecs_mutates tr).
Proof.
  intros (r & trc & l1 & l2 & -> & Hl & Hc)%CreateEriForInstance_creates.
  assert (List.filter ecs_mutates trc = trc ∧ Forall (λ ev, k8s_mutates ev = false) trc) as [Hf Hk].
  { clear Hl. induction Hc as [|i ev l trc (req & r' & _ & ->) _ [IH1 IH2]]; [done|].
    simpl. rewrite IH1. split; [done|by constructor]. }
  split; [by constructor|]. exists l1. simpl. rewrite Hf. split; [|done].
  destruct r as [resp|]; [by exists l2|by rewrite Hl].
Qed.

(** The last description decides. *)
Lemma instanceLimits_snoc ty types t cc qp :
  Forall (type_sane ty) (types ++ [t]) →
  instanceLimits ty (types ++ [t]) cc qp =
    Ret (if forallb offers_eri (types ++ [t]) then Some (type_cards t, type_pairs t) else None).
Proof.
  revert cc qp; induction types as [|t' types IH]; intros cc qp Hs; simpl in Hs.
  - apply Forall_cons in Hs as [Ht _]. simpl app.
    rewrite (instanceLimits_cons ty) by done. simpl. by destruct (offers_eri t).
  - apply Forall_cons in Hs as [Ht Hs]. simpl app.
    rewrite (instanceLimits_cons ty) by done. simpl. destruct (offers_eri t'); [|done]. by apply IH.
Qed.

(** An instance type is supported exactly when every description of it
    offers ERIs; the number of cards is then at least one and never more than
    the ERIs or (from two on) the network cards it has, and the last
    description decides. *)
Lemma instanceLimits_supported ty types t :
  Forall (type_sane ty) (types ++ [t]) →
  if forallb offers_eri (types ++ [t]) then
    instanceLimits ty (types ++ [t]) 0 0 = Ret (Some (type_cards t, type_pairs t)) ∧
    1 ≤ type_cards t ≤ default 0 (it_EriQuantity t) ∧
    type_cards t ≤ Z.max 1 (default 0 (it_NetworkCardQuantity t))
  else instanceLimits ty (types ++ [t]) 0 0 = Ret None.
Proof.
  intros Hs. rewrite instanceLimits_snoc by done. apply Forall_app in Hs as [_ [Ht _]%Forall_cons].
  rewrite forallb_app. simpl. destruct (forallb offers_eri types); [simpl|done].
  destruct (offers_eri t) eqn:Ho; [|done]. pose proof (type_cards_bound ty t Ht Ho).
  simpl. split; [done|lia].
Qed.

(** An instance whose type has no ERIs is left alone: when [SelectERIs]
    answers with no selection it has only described the instance and its type. *)
Lemma SelectERIs_unsupported e instanceID tr :
  exec (SelectERIs e instanceID) tr (Ret None) →
  Forall (λ ev, ecs_mutates ev = false ∧ k8s_mutates ev = false) tr ∧
  ∃ instance types, tr !! 1%nat =
      Some (Event (S:=Ctl) (DescribeInstanceTypes [inst_InstanceType instance]) (inl types)) ∧
    (Forall (type_sane (inst_InstanceType instance)) types → forallb offers_eri types = false).
Proof.
  intros (insts & instance & types & tr' & -> & _ & -> & Hl)%SelectERIs_returned. split.
  - by repeat constructor.
  - exists instance, types. split; [done|]. intros Hs.
    assert (∀ cc qp, instanceLimits (inst_InstanceType instance) types cc qp = Ret None →
              forallb offers_eri types = false) as H; [|by eapply H].
    clear Hl. induction Hs as [|t types Ht _ IH]; intros cc qp; [done|].
    rewrite (instanceLimits_cons _ _ _ _ _ Ht). simpl. destruct (offers_eri t); [|done].
    apply IH.
Qed.

(** The replies of a cloud that describes its resources as documented. *)
Definition sane_reply (ev : event Ctl) : Prop :=
  match ev with
  | Event (DescribeInstanceTypes [ty]) (inl types) => Forall (type_sane ty) types
  | Event (DescribeNetworkInterfaces req) (inl resp) =>
      match dni_InstanceId req with
      | Some _ => plannable (dni_NetworkInterfaceSet resp)
      | None => True
      end
  | _ => True
  end.

(** ** Whose ERIs are selected *)

(** The cloud answers a query by instance with that instance and its ENIs. *)
Definition names_instance (ev : event Ctl) : Prop :=
  match ev with
  | Event (DescribeInstances req) (inl resp) => ∀ id,
      di_InstanceIds req = Some (json_singleton id) →
      Forall (λ i, inst_InstanceId i = Some id) (di_Instance resp)
  | Event (DescribeNetworkInterfaces req) (inl resp) => ∀ id,
      dni_InstanceId req = Some id →
      Forall (λ eni, eni_InstanceId eni = Some id) (dni_NetworkInterfaceSet resp)
  | _ => True
  end.

Lemma CreateEriForInstance_instance e instance cards queuePair tr eris :
  exec (CreateEriForInstance e instance cards queuePair) tr (Ret eris) →
  Forall (λ eri, inst_InstanceId instance = Some (eri_InstanceID eri)) eris.
Proof.
  intros (_ & resp & old & new & trd & -> & _ & Ho & Hn)%CreateEriForInstance_ret.
  apply Forall_app. split.
  - induction Ho as [|c eri l k (v & _ & _ & _ & _ & Hi & _) _ IH]; by constructor.
  - induction Hn as [|i ev eri l trc k (req & r & _ & _ & _ & _ & Hi & _) _ IH]; by constructor.
Qed.

(** A selection for an instance consists of ERIs of that instance. *)
Lemma SelectERIs_instance e instanceID tr eris :
  Forall names_instance tr → exec (SelectERIs e instanceID) tr (Ret (Some eris)) →
  Forall (λ eri, eri_InstanceID eri = instanceID) eris.
Proof.
  intros Hs (insts & instance & types & tr' & -> & Hi & Hr)%SelectERIs_returned.
  destruct Hr as (cc & qp & enis & old & need & per & new & trc & trt & _ & -> & Hp & Hc & -> & _).
  rewrite !Forall_cons in Hs. destruct Hs as (Hins & _ & Hen & _). simpl in Hins, Hen.
  assert (inst_InstanceId instance = Some instanceID) as Hid.
  { specialize (Hins instanceID eq_refl). rewrite Forall_forall in Hins.
    by eapply Hins, list_elem_of_lookup_2. }
  apply Forall_app. split.
  - specialize (Hen instanceID eq_refl). rewrite Forall_forall in Hen.
    eapply Forall_impl; [by eapply SelectEriFromExist_read|]. intros eri (eni & Hin & Ht).
    apply Hen in Hin. unfold toEri in Ht. rewrite Hin in Ht.
    destruct (eni_NetworkInterfaceId eni), (eni_Type eni), (eni_MacAddress eni); try done. by injection Ht as <-.
  - eapply Forall_impl; [by eapply CreateEriForInstance_instance|]. intros eri Hin. congruence.
Qed.

(** Where an ERI selected for an instance comes from: an RDMA ENI of the
    controller on the instance, or the primary ENI of the instance; an ENI
    reported for the tags of the controller and of the instance; or a creation
    of this very run, under these tags. *)
Inductive selected_from (e : EriClient) (instanceID : string) (per : Z) (tr : trace Ctl) (eri : ERI) :
    Prop :=
  | from_instance resp eni :
      Event (S:=Ctl) (DescribeNetworkInterfaces (enis_request e instanceID)) (inl resp) ∈ tr →
      eni ∈ dni_NetworkInterfaceSet resp → toEri eni per = Ret eri →
      (OwnENI e eni = true ∧ is_rdma eni = true) ∨ is_primary eni = true →
      selected_from e instanceID per tr eri
  | from_tags insts instance resp eni i :
      Event (S:=Ctl) (DescribeInstances (instance_request e instanceID)) (inl insts) ∈ tr →
      di_Instance insts !! 0%nat = Some instance →
      Event (S:=Ctl) (DescribeNetworkInterfaces (tagged_request e instance)) (inl resp) ∈ tr →
      eni ∈ dni_NetworkInterfaceSet resp → reused instance per (eni, i) eri →
      selected_from e instanceID per tr eri
  | from_creation insts instance i ev :
      Event (S:=Ctl) (DescribeInstances (instance_request e instanceID)) (inl insts) ∈ tr →
      di_Instance insts !! 0%nat = Some instance →
      ev ∈ tr → created e instance per i ev eri →
      selected_from e instanceID per tr eri.

Lemma CreateEriForInstance_from e instanceID insts instance cards per tr trc eris :
  Event (S:=Ctl) (DescribeInstances (instance_request e instanceID)) (inl insts) ∈ tr →
  di_Instance insts !! 0%nat = Some instance → trc ⊆ tr →
  exec (CreateEriForInstance e instance cards per) trc (Ret eris) →
  Forall (selected_from e instanceID per tr) eris.
Proof.
  intros Hi Hi0 Hsub (_ & resp & old & new & trd & -> & -> & Ho & Hn)%CreateEriForInstance_ret.
  apply Forall_app. split; apply Forall_forall; intros eri [k Hk]%list_elem_of_lookup.
  - destruct (Forall2_lookup_r _ _ _ _ _ Ho Hk) as ([eni i] & Hz & Hr).
    apply lookup_zip_with_Some in Hz as (? & ? & [= <- <-] & Hx & _).
    eapply from_tags; [done..| |by eapply list_elem_of_lookup_2|done]. apply Hsub. by left.
  - destruct (Forall3_lookup_r _ _ _ _ _ _ Hn Hk) as (i & ev & _ & Hev & Hc).
    eapply from_creation; [done..| |done]. apply Hsub. right. by eapply list_elem_of_lookup_2.
Qed.

(** C23: Against a cloud that describes its resources as documented, the
    selection of [SelectERIs] is not empty, gives each network card at most one
    ERI, and consists of ERIs that are the instance's own or created for it:
    each is an RDMA ENI of the controller on the instance or its primary ENI,
    or one the cloud reports for the tags of the controller and of the instance,
    or was created with these tags in this run; where the cloud answers a query by instance with
    that instance, all of them name it.  The last call tags all of it at once. *)
Theorem SelectERIs_plan e instanceID tr eris :
  Forall sane_reply tr → exec (SelectERIs e instanceID) tr (Ret (Some eris)) →
  eris ≠ [] ∧ NoDup (eri_CardIndex <$> eris) ∧
  (∃ per, Forall (selected_from e instanceID per tr) eris) ∧
  (Forall names_instance tr → Forall (λ eri, eri_InstanceID eri = instanceID) eris) ∧
  ∃ r, last tr = Some (Event (S:=Ctl) (TagResources (tag_request e (eri_ID <$> eris) instanceID)) r).
Proof.
  intros Hs H. pose proof (λ Hn, SelectERIs_instance _ _ _ _ Hn H) as Hins.
  apply SelectERIs_returned in H as (insts & instance & types & tr' & -> & Hi & Hr).
  destruct Hr as (cc & qp & enis & old & need & per & new & trc & trt & Hl & -> & Hp & Hc & -> & Ht).
  rewrite !Forall_cons in Hs. destruct Hs as (_ & Hty & Hpl & _). simpl in Hty, Hpl.
  assert (-2147483648 ≤ qp < 2147483648) as Hqp by
    (eapply (instanceLimits_range _ _ 0 0); [done|lia|done]).
  destruct (CreateEriForInstance_ret _ _ _ _ _ _ Hc) as [Hnew _].
  destruct (SelectEriFromExist_cases e _ qp cc Hpl Hqp) as (sel & m & Hpick & Hcase).
  rewrite Hp in Hcase. destruct Hcase as (sel' & Hf & Eold & _ & Hne).
  assert (old ++ new ≠ []) as Hnil.
  { intros [-> ->]%app_nil. apply Hne. by rewrite <- Hnew. }
  split_and!; [done| | |exact Hins|].
  - rewrite fmap_app, Hnew, Eold. by eapply filled_cards.
  - exists per. apply Forall_app. split.
    + eapply Forall_impl; [by eapply SelectEriFromExist_owned|]. intros eri (eni & Hin & Hto & Ho).
      eapply from_instance; [|done..]. do 2 right. by left.
    + eapply CreateEriForInstance_from; [by left|done| |done]. set_solver.
  - destruct Ht as [[? _]|[_ (r & ->)]]; [done|]. exists r.
    by rewrite !app_comm_cons, last_snoc.
Qed.

(** A change of the cloud that provisions an instance: the creation of an ERI
    of the controller, or the tagging of ERIs. *)
Definition provisions (e : EriClient) (instanceID : string) (ev : event Ctl) : Prop :=
  k8s_mutates ev = false ∧
  (ecs_mutates ev = true →
     (∃ instance queuePair i req r, creates e instance queuePair i req ∧
        ev = Event (S:=Ctl) (CreateNetworkInterface req) r) ∨
     (∃ ids r, ids ≠ [] ∧
        ev = Event (S:=Ctl) (TagResources (tag_request e ids instanceID)) r)).

Lemma CreateEriForInstance_only e instanceID instance cards queuePair :
  only (provisions e instanceID) (CreateEriForInstance e instance cards queuePair).
Proof.
  intros tr o (r & trc & l1 & l2 & -> & _ & Hc)%CreateEriForInstance_creates.
  constructor; [by split|].
  induction Hc as [|i ev l trc (req & r' & Hq & ->) _ IH]; constructor; [|done].
  split; [done|]. intros _. left. by exists instance, queuePair, i, req, r'.
Qed.

Lemma EnsureEriTags_only e instanceID ids :
  only (provisions e instanceID) (try (EnsureEriTags e ids instanceID)).
Proof.
  intros tr o [_ [[_ ->]|[Hne (r & ->)]]]%EnsureEriTags_try; [constructor|].
  constructor; [|constructor]. split; [done|]. intros _. right. by exists ids, r.
Qed.

#[local] Opaque CreateEriForInstance EnsureEriTags.

Lemma SelectERIs_only e instanceID :
  only (provisions e instanceID) (SelectERIs e instanceID).
Proof.
  unfold SelectERIs. only_with ltac:(first
    [ apply CreateEriForInstance_only | apply EnsureEriTags_only | only_call; by split ]).
Qed.

#[local] Transparent CreateEriForInstance EnsureEriTags.

Lemma InstanceIDFromNode_only e node :
  only (λ ev, k8s_mutates ev = false ∧ ecs_mutates ev = false) (InstanceIDFromNode e node).
Proof. unfold InstanceIDFromNode. only_with ltac:(by only_call). Qed.

(** Whatever the outcome, [SelectERIs] changes nothing in Kubernetes, and
    the cloud only by creating ERIs that carry the controller's tags or by
    tagging ERIs for the instance: it attaches, converts and deletes nothing. *)
Lemma SelectERIs_calls e instanceID tr o :
  exec (SelectERIs e instanceID) tr o → Forall (provisions e instanceID) tr.
Proof. apply SelectERIs_only. Qed.

(** ** A card left without an ERI

    The ENIs [CreateEriForInstance] finds by tag include those already attached
    to the instance: a card that lost its ERI is given the ENI of another card. *)

Lemma eni_card0_plannable : plannable [eni_card0].
Proof.
  split; simpl; [lia|repeat constructor; by eexists| | |lia|].
  - constructor; [|constructor]. intros _. eexists. split; [done|lia].
  - constructor; [|constructor]. discriminate.
  - constructor; [done|constructor].
Qed.

Lemma two_card_type_sane : type_sane (inst_InstanceType two_card_instance) two_card_type.
Proof.
  split; [done|simpl; intros; simplify_eq; lia..|]. eexists. split; [done|lia].
Qed.

(** [SelectERIs] can select one ENI for two cards: on a two-card instance
    that has its ERI of card 0, no ENI is created for card 1; the ERI of card 0
    is listed again as the ERI of card 1. *)
Lemma SelectERIs_reuses_attached :
  let e := mkEriClient "cn-hangzhou" false in
  let '(o, tr) := run (inventory_env (cluster [eni_card0] [])) [] (SelectERIs e "i-1") in
  Forall sane_reply tr ∧
  (∃ eris, o = Ret (Some eris) ∧
     (λ x, (eri_ID x, eri_CardIndex x)) <$> eris = [("eni-0", 0); ("eni-0", 1)]) ∧
  Forall (λ ev, ∀ req r, ev ≠ Event (S:=Ctl) (CreateNetworkInterface req) r) tr.
Proof.
  pose proof eni_card0_plannable. pose proof two_card_type_sane.
  cbv zeta. destruct (run _ _ _) as [o tr] eqn:E. vm_compute in E. injection E as <- <-.
  split_and!.
  - repeat (apply Forall_cons; split); try done.
  - eexists. split; reflexivity.
  - repeat constructor; intros; discriminate.
Qed.

(** ** The properties at concrete inputs *)

Definition p_client : EriClient := mkEriClient "cn-hangzhou" false.

Definition p_env : Env Ctl := inventory_env (cluster [eni_card0] []).

Definition p_create : prog Ctl (list ERI) := CreateEriForInstance p_client two_card_instance [0; 1] 8.

Lemma p_create_returns :
  exec p_create (run p_env [] p_create).2
    (Ret [mkERI "eni-0" false "00:16:3e:00:00:01" "i-1" 0 8 false 0;
          mkERI "eni-new" false "00:16:3e:00:00:ff" "i-1" 1 0 false 0]).
Proof. apply run_returns. vm_compute. reflexivity. Defined.

Lemma CreateEriForInstance_cards_witness :
  ∃ tr eris, exec p_create tr (Ret eris) ∧ eri_CardIndex <$> eris = [0; 1].
Proof.
  destruct (CreateEriForInstance_cards _ _ _ _ _ _ p_create_returns) as [H _].
  do 2 eexists. split; [exact p_create_returns|exact H].
Defined.

Lemma instanceLimits_supported_witness :
  instanceLimits (Some "ecs.two-cards") [two_card_type] 0 0 = Ret (Some (2, 16)) ∧
  1 ≤ type_cards two_card_type ≤ 2.
Proof.
  pose proof (instanceLimits_supported (Some "ecs.two-cards") [] two_card_type) as H.
  destruct H as (H1 & H2 & _); [by constructor; [exact two_card_type_sane|]|]. by split.
Defined.

Lemma p_select_returns :
  exec (SelectERIs p_client "i-1") (run p_env [] (SelectERIs p_client "i-1")).2
    (Ret (Some [mkERI "eni-0" false "00:16:3e:00:00:01" "i-1" 0 8 false 0;
                mkERI "eni-0" false "00:16:3e:00:00:01" "i-1" 1 8 false 0])).
Proof. apply run_returns. vm_compute. reflexivity. Defined.

Lemma p_select_sane : Forall sane_reply (run p_env [] (SelectERIs p_client "i-1")).2.
Proof.
  pose proof eni_card0_plannable. pose proof two_card_type_sane.
  destruct (run _ _ _) as [o tr] eqn:E. vm_compute in E. injection E as <- <-.
  repeat (apply Forall_cons; split); done.
Defined.

Lemma SelectERIs_plan_witness :
  ∃ tr eris, exec (SelectERIs p_client "i-1") tr (Ret (Some eris)) ∧ NoDup (eri_CardIndex <$> eris) ∧
    ∃ per, Forall (selected_from p_client "i-1" per tr) eris.
Proof.
  destruct (SelectERIs_plan _ _ _ _ p_select_sane p_select_returns) as (_ & H & Hf & _).
  do 2 eexists. split; [exact p_select_returns|]. split; [exact H|exact Hf].
Defined.

Lemma SelectERIs_calls_witness :
  length (List.filter ecs_mutates (run p_env [] (SelectERIs p_client "i-1")).2) = 1%nat ∧
  Forall (provisions p_client "i-1") (run p_env [] (SelectERIs p_client "i-1")).2.
Proof.
  split; [vm_compute; reflexivity|]. exact (SelectERIs_calls _ _ _ _ p_select_returns).
Defined.
