(* ===== verification/NodeController.v ===== *)
(** * NodeController: internal/controller/node_controller.go

    The reconciler of nodes: it provisions a ready node's ERIs and records them
    in an ERdmaDevice, removes the ERdmaDevice of a deleted node, and backfills
    tags on the ERIs of nodes provisioned earlier, each ENI once per process. *)

From S2P Require Import Prelude Effects GoStr Time Types CloudApi Scenario EriClient Provision.

(** ** Polling *)

(** [wait.PollUntilContextTimeout] of apimachinery, with immediate polling: a
    library call that evaluates the condition at its own pace.  What the
    reconcilers rely on: it makes no call of its own, and it comes back. *)
Class WaitLib := {
  PollUntilContextTimeout : Z → Z → prog Ctl bool → prog Ctl (result unit);
  poll_only (P : event Ctl → Prop) interval timeout cond :
    only P cond → only P (PollUntilContextTimeout interval timeout cond);
  poll_returns interval timeout cond :
    triple cond (λ _ o, ∃ b, o = Ret b) →
    triple (PollUntilContextTimeout interval timeout cond) (λ _ o, ∃ r, o = Ret r)
}.

(** ** Definitions *)

Definition erdmaFinalizer : string := "network.alibabacloud.com/erdma-controller".
Definition labelInstanceID : string := "alibabacloud.com/instance-id".
Definition labelNodename : string := "alibabacloud.com/nodename".

(** [ctrl.Result] *)
Record Result := mkResult { Requeue : bool; RequeueAfter : Z }.

Definition noResult : Result := mkResult false 0.

(** The receiver's fields; [taggedENIs] is passed and returned. *)
Record NodeReconciler := mkNodeReconciler {
  nr_EriClient : EriClient;
  nr_CtrlConfig : Config
}.

Definition isNodeReady (node : Node) : bool :=
  match find_first (λ c, bool_decide (cond_Type c = "Ready")) (node_Conditions node) with
  | Some cond => bool_decide (cond_Status cond = "True")
  | None => false
  end.

Definition OwnNode (r : NodeReconciler) (node : option Node) : bool :=
  match node with
  | None => false
  | Some node =>
      forallb (λ '(k, v), bool_decide (default ε (node_Labels node !! k) = v))
        (map_to_list (cfg_NodeSelector (nr_CtrlConfig r)))
  end.

Definition PredictNodeUpdate (r : NodeReconciler) (oldNode newNode : option Node) : outcome bool :=
  if negb (OwnNode r newNode) then Ret false
  else if negb (OwnNode r oldNode) && OwnNode r newNode then Ret true
  else
    new ← deref newNode;
    if bool_decide (node_DeletionTimestamp new ≠ None) then Ret true
    else
      old ← deref oldNode;
      if negb (isNodeReady old) && isNodeReady new then Ret true
      else Ret (bool_decide (node_ProviderID old ≠ node_ProviderID new)).

(** The marking loop of [backfillEriTags]: [LoadOrStore] on each ENI id. *)
Definition markPending (devices : list ERdmaDevice) (taggedENIs : gset string) :
    gset string * list string :=
  fold_left (λ '(taggedENIs, pending) id,
      if decide (id = ε) then (taggedENIs, pending)
      else if decide (id ∈ taggedENIs) then (taggedENIs, pending)
      else ({[id]} ∪ taggedENIs, pending ++ [id]))
    (devices ≫= λ dev, dev_ID <$> spec_Devices (device_Spec dev)) (taggedENIs, []).

Definition backfillEriTags (r : NodeReconciler) (devices : list ERdmaDevice)
    (instanceID : string) (taggedENIs : gset string) : prog Ctl (gset string) :=
  let '(taggedENIs, pending) := markPending devices taggedENIs in
  if decide (pending = []) then mret taggedENIs
  else
    res ← try (EnsureEriTags (nr_EriClient r) pending instanceID);
    match res with
    | inr _ => mret (fold_left (λ tagged id, tagged ∖ {[id]}) pending taggedENIs)
    | inl _ => mret taggedENIs
    end.

(** The device written by [CreateOrPatch]: the finalizers are dropped. *)
Definition withoutFinalizers (d : ERdmaDevice) : ERdmaDevice := {|
  device_ObjectMeta := {|
    meta_Name := meta_Name (device_ObjectMeta d);
    meta_Labels := meta_Labels (device_ObjectMeta d);
    meta_OwnerReferences := meta_OwnerReferences (device_ObjectMeta d);
    meta_Finalizers := filter (λ f, f ≠ erdmaFinalizer) [];
    meta_DeletionTimestamp := meta_DeletionTimestamp (device_ObjectMeta d) |};
  device_Spec := device_Spec d;
  device_Status := device_Status d
|}.

(** A loop of API calls that stops at the first error. *)
Definition call_each {A} (l : list A) (call : A → prog Ctl (result unit)) : prog Ctl unit :=
  for_each l tt (λ x _, r ← call x; match r with inr err => throw err | inl _ => mret tt end).

Definition RemoveERdmaDevices (nodeName : string) : prog Ctl Result :=
  r ← ctl (ListDevices labelNodename nodeName);
  match r with
  | inr err => throw err
  | inl items =>
      if decide (items = []) then mret noResult
      else
        _ ← call_each items (λ device, ctl (CreateOrPatchDevice (withoutFinalizers device)));
        _ ← call_each items (λ device, ctl (DeleteDevice (meta_Name (device_ObjectMeta device))));
        mret noResult
  end.

(** The [ERdmaDevice] that records a selection. *)
Definition deviceOfEri (item : ERI) : DeviceInfo := {|
  dev_InstanceID := eri_InstanceID item;
  dev_MAC := eri_MAC item;
  dev_IsPrimaryENI := eri_IsPrimaryENI item;
  dev_ID := eri_ID item;
  dev_NetworkCardIndex := eri_CardIndex item;
  dev_QueuePair := eri_QueuePair item
|}.

Definition newERdmaDevice (node : Node) (instanceID : string) (jumboFrame : bool)
    (eri : list ERI) : ERdmaDevice := {|
  device_ObjectMeta := {|
    meta_Name := node_Name node;
    meta_Labels := {[ labelInstanceID := instanceID; labelNodename := node_Name node ]};
    meta_OwnerReferences :=
      [mkOwnerReference (node_APIVersion node) (node_Kind node) (node_Name node) (node_UID node)];
    meta_Finalizers := [];
    meta_DeletionTimestamp := None |};
  device_Spec := {| spec_Devices := deviceOfEri <$> eri; spec_JumboFrame := jumboFrame |};
  device_Status := {| status_Devices := [] |}
|}.

Section Reconcile.
Context `{WaitLib}.
Context (r : NodeReconciler).

(** The body of [Reconcile] once the node may be served. *)
Definition serveNode (node : Node) (taggedENIs : gset string) :
    prog Ctl (gset string * Result) :=
  instanceID ← InstanceIDFromNode (nr_EriClient r) node;
  items ← ctl (ListDevices labelInstanceID instanceID);
  match items with
  | inr err => throw err
  | inl [] =>
      eri ← SelectERIs (nr_EriClient r) instanceID;
      match eri with
      | None => mret (taggedENIs, noResult)
      | Some eri =>
          jumbo ← try (IsJumboFrameEnabled instanceID);
          let jumboFrame := match jumbo with inl b => b | inr _ => false end in
          let erdmaDevice := newERdmaDevice node instanceID jumboFrame eri in
          res ← ctl (CreateDevice erdmaDevice);
          match res with
          | inr err => throw err
          | inl _ =>
              _ ← PollUntilContextTimeout (500 * Millisecond) (2 * Second)
                    (res ← ctl (GetDevice (meta_Name (device_ObjectMeta erdmaDevice)));
                     mret match res with inl _ => true | inr _ => false end);
              mret (taggedENIs, noResult)
          end
      end
  | inl items =>
      taggedENIs ← backfillEriTags r items instanceID taggedENIs;
      mret (taggedENIs, noResult)
  end.

Definition NodeReconcile (name : string) (taggedENIs : gset string) :
    prog Ctl (gset string * Result) :=
  res ← ctl (GetNode name);
  match res with
  | inr err =>
      if IsNotFound err then
        result ← RemoveERdmaDevices name; mret (taggedENIs, result)
      else throw err
  | inl node =>
      if negb (time_IsZero (node_DeletionTimestamp node)) then
        result ← RemoveERdmaDevices name; mret (taggedENIs, result)
      else
        wait ← (if negb (isNodeReady node) then
                  let timeout :=
                    int64 (cfg_WaitNodeReadyTimeoutSeconds (nr_CtrlConfig r) * Second) in
                  now ← ctl Now;
                  let elapsed := time_Sub now (node_CreationTimestamp node) in
                  mret (elapsed <? timeout)
                else mret false);
        if (wait : bool) then mret (taggedENIs, mkResult false (30 * Second))
        else serveNode node taggedENIs
  end.

End Reconcile.

(** An implementation of the polling library: the condition is evaluated at
    each multiple of the interval until the timeout. *)
Fixpoint poll_times (n : nat) (cond : prog Ctl bool) : prog Ctl (result unit) :=
  match n with
  | O => mret (inr (Errorf "context deadline exceeded" [] None))
  | S n =>
      b ← try cond;
      match b with
      | inl true => mret (inl tt)
      | inl false => poll_times n cond
      | inr err => mret (inr err)
      end
  end.

Definition pollEvery (interval timeout : Z) (cond : prog Ctl bool) : prog Ctl (result unit) :=
  poll_times (S (Z.to_nat (timeout / interval))) cond.

Lemma pollEvery_only (P : event Ctl → Prop) interval timeout cond :
  only P cond → only P (pollEvery interval timeout cond).
Proof.
  intros H. unfold pollEvery. induction (S _) as [|n IH]; simpl; [apply only_done|].
  apply only_bind; [by apply only_try|]. intros [[]|err]; [apply only_done|done|apply only_done].
Qed.

Lemma pollEvery_returns interval timeout cond :
  triple cond (λ _ o, ∃ b, o = Ret b) →
  triple (pollEvery interval timeout cond) (λ _ o, ∃ r, o = Ret r).
Proof.
  intros H. unfold pollEvery. induction (S _) as [|n IH]; simpl; [apply triple_done; by eexists|].
  apply triple_bind, triple_try. eapply triple_mono; [apply H|].
  intros tr o [[] ->]; simpl; [apply triple_done; by eexists|apply IH].
Qed.

Definition intervalWait : WaitLib := {|
  PollUntilContextTimeout := pollEvery;
  poll_only := pollEvery_only;
  poll_returns := pollEvery_returns
|}.

(** ** Which nodes concern the controller *)

(** The node carries every label of the selector. *)
Definition selected (r : NodeReconciler) (node : Node) : Prop :=
  ∀ k v, cfg_NodeSelector (nr_CtrlConfig r) !! k = Some v → default ε (node_Labels node !! k) = v.

Lemma OwnNode_selected r node : OwnNode r (Some node) = true ↔ selected r node.
Proof.
  unfold OwnNode, selected. rewrite forallb_forall. split.
  - intros H k v Hkv%elem_of_map_to_list%list_elem_of_In. specialize (H _ Hkv).
    by apply bool_decide_eq_true in H.
  - intros H [k v] Hkv%list_elem_of_In%elem_of_map_to_list. apply bool_decide_eq_true. eauto.
Qed.

(** ** Removal *)

(** The calls of a loop that stops at its first failure. *)
Lemma call_each_exec {A} (l : list A) (call : A → prog Ctl (result unit))
    (ev : A → result unit → event Ctl) tr o :
  (∀ x tr o, exec (call x) tr o → ∃ r, tr = [ev x r] ∧ o = Ret r) →
  exec (call_each l call) tr o →
  ∃ l1 l2, l = l1 ++ l2 ∧
    match l2 with
    | [] => tr = (λ x, ev x (inl tt)) <$> l1 ∧ o = Ret tt
    | x :: _ => ∃ err, tr = ((λ x, ev x (inl tt)) <$> l1) ++ [ev x (inr err)] ∧ o = Err err
    end.
Proof.
  intros Hc. unfold call_each. revert tr; induction l as [|x l IH]; intros tr H.
  - destruct H as [-> ->]. by exists [], [].
  - simpl in H. apply exec_bind in H as (tr1 & o1 & H1 & H2).
    apply exec_bind in H1 as (tr0 & o0 & H0 & H1).
    apply Hc in H0 as (r & -> & ->). destruct H1 as (tr2 & -> & H1).
    destruct r as [[]|err]; destruct H1 as [-> ->].
    + destruct H2 as (tr3 & -> & H2). destruct (IH _ H2) as (l1 & l2 & -> & H).
      exists (x :: l1), l2. split; [done|]. destruct l2 as [|y l2].
      * by destruct H as [-> ->].
      * destruct H as (err & -> & ->). by exists err.
    + destruct H2 as [-> ->]. exists [], (x :: l). split; [done|]. by exists err.
Qed.

Definition patched (d : ERdmaDevice) (r : result unit) : event Ctl :=
  Event (S:=Ctl) (CreateOrPatchDevice (withoutFinalizers d)) r.

Definition deleted (d : ERdmaDevice) (r : result unit) : event Ctl :=
  Event (S:=Ctl) (DeleteDevice (meta_Name (device_ObjectMeta d))) r.

(** The complete removal of the listed devices. *)
Definition removal (nodeName : string) (items : list ERdmaDevice) : trace Ctl :=
  Event (S:=Ctl) (ListDevices labelNodename nodeName) (inl items) ::
  ((λ d, patched d (inl tt)) <$> items) ++ ((λ d, deleted d (inl tt)) <$> items).

(** A removal runs to its end or stops, with the error, at the first call that
    fails. *)
Definition remove_post (nodeName : string) (tr : trace Ctl) (o : outcome Result) : Prop :=
  (∃ items, tr = removal nodeName items ∧ o = Ret noResult) ∨
  (∃ err, tr = [Event (S:=Ctl) (ListDevices labelNodename nodeName) (inr err)] ∧ o = Err err) ∨
  (∃ items pre ev err, o = Err err ∧ tr = pre ++ [ev] ∧
     pre `prefix_of` removal nodeName items ∧
     ∃ d, d ∈ items ∧ (ev = patched d (inr err) ∨ ev = deleted d (inr err))).

Lemma RemoveERdmaDevices_post nodeName :
  triple (RemoveERdmaDevices nodeName) (remove_post nodeName).
Proof.
  unfold RemoveERdmaDevices. apply triple_ctl_bind. intros [items|err].
  2: { apply triple_done. right; left. by exists err. }
  destruct (decide (items = [])) as [->|Hne].
  { apply triple_done. left. by exists []. }
  intros tr o H. apply exec_bind in H as (trp & op & Hp & H).
  apply (call_each_exec _ _ patched) in Hp as (p1 & p2 & Ep & Hp).
  2: { intros x t o1 (r & tr' & -> & -> & ->). by exists r. }
  destruct p2 as [|d p2].
  - destruct Hp as [-> ->]. destruct H as (tr2 & -> & H). rewrite app_nil_r in Ep. subst p1.
    apply exec_bind in H as (trd & od & Hd & H).
    apply (call_each_exec _ _ deleted) in Hd as (d1 & d2 & Ed & Hd).
    2: { intros x t o1 (r & tr' & -> & -> & ->). by exists r. }
    destruct d2 as [|d d2].
    + destruct Hd as [-> ->]. destruct H as (tr3 & -> & [-> ->]). rewrite app_nil_r in Ed. subst d1.
      left. exists items. by rewrite app_nil_r.
    + destruct Hd as (err & -> & ->). destruct H as [-> ->]. right; right.
      exists items, (Event (S:=Ctl) (ListDevices labelNodename nodeName) (inl items) ::
        ((λ d, patched d (inl tt)) <$> items) ++ ((λ d, deleted d (inl tt)) <$> d1)),
        (deleted d (inr err)), err. split; [done|].
      split; [by rewrite <- app_comm_cons, <- (assoc_L (++))|]. split.
      * exists ((λ d, deleted d (inl tt)) <$> d :: d2). unfold removal. rewrite Ed at 3.
        by rewrite fmap_app, <- app_comm_cons, <- (assoc_L (++)).
      * exists d. split; [rewrite Ed; set_solver|by right].
  - destruct Hp as (err & -> & ->). destruct H as [-> ->]. right; right.
    exists items, (Event (S:=Ctl) (ListDevices labelNodename nodeName) (inl items) ::
      ((λ d, patched d (inl tt)) <$> p1)), (patched d (inr err)), err.
    split; [done|]. split; [done|]. split.
    + exists (((λ d, patched d (inl tt)) <$> d :: p2) ++ ((λ d, deleted d (inl tt)) <$> items)).
      unfold removal. rewrite Ep at 2. by rewrite fmap_app, <- app_comm_cons, <- (assoc_L (++)).
    + exists d. split; [rewrite Ep; set_solver|by left].
Qed.

(** ** Every run of the reconciler *)

Section Runs.
Context `{WaitLib}.
Context (r : NodeReconciler).

Definition jumbo_of (attr : result (option bool)) : bool :=
  match attr with inl a => jumboFrameFromAttr a | inr _ => false end.

(** Provisioning a node that has no [ERdmaDevice]. *)
Definition create_pass (node : Node) (instanceID : string) (tagged : gset string)
    (tr : trace Ctl) (o : outcome (gset string * Result)) : Prop :=
  ∃ trs os, exec (SelectERIs (nr_EriClient r) instanceID) trs os ∧
    match os with
    | Err err => tr = trs ∧ o = Err err
    | Panic f => tr = trs ∧ o = Panic f
    | Ret None => tr = trs ∧ o = Ret (tagged, noResult)
    | Ret (Some eris) => ∃ attr res gets,
        tr = trs ++ Event (S:=Ctl) (DescribeInstanceAttribute instanceID) attr ::
             Event (S:=Ctl) (CreateDevice (newERdmaDevice node instanceID (jumbo_of attr) eris)) res ::
             gets ∧
        match res with
        | inr err => gets = [] ∧ o = Err err
        | inl _ => Forall (λ ev, ∃ g, ev = Event (S:=Ctl) (GetDevice (node_Name node)) g) gets ∧
                   o = Ret (tagged, noResult)
        end
    end.

Definition serve_pass (node : Node) (tagged : gset string)
    (tr : trace Ctl) (o : outcome (gset string * Result)) : Prop :=
  ∃ tr1 o1, exec (InstanceIDFromNode (nr_EriClient r) node) tr1 o1 ∧
    match o1 with
    | Err err => tr = tr1 ∧ o = Err err
    | Panic f => tr = tr1 ∧ o = Panic f
    | Ret instanceID => ∃ items tr2,
        tr = tr1 ++ Event (S:=Ctl) (ListDevices labelInstanceID instanceID) items :: tr2 ∧
        match items with
        | inr err => tr2 = [] ∧ o = Err err
        | inl [] => create_pass node instanceID tagged tr2 o
        | inl items => ∃ tagged', exec (backfillEriTags r items instanceID tagged) tr2 (Ret tagged') ∧
                       o = Ret (tagged', noResult)
        end
    end.

Definition with_tagged (tagged : gset string) (o : outcome Result) : outcome (gset string * Result) :=
  match o with
  | Ret res => Ret (tagged, res)
  | Err err => Err err
  | Panic f => Panic f
  end.

Definition wait_timeout : Z := int64 (cfg_WaitNodeReadyTimeoutSeconds (nr_CtrlConfig r) * Second).

Definition node_pass (name : string) (tagged : gset string)
    (tr : trace Ctl) (o : outcome (gset string * Result)) : Prop :=
  ∃ got tr', tr = Event (S:=Ctl) (GetNode name) got :: tr' ∧
    match got with
    | inr err =>
        if IsNotFound err then ∃ o', remove_post name tr' o' ∧ o = with_tagged tagged o'
        else tr' = [] ∧ o = Err err
    | inl node =>
        if negb (time_IsZero (node_DeletionTimestamp node))
        then ∃ o', remove_post name tr' o' ∧ o = with_tagged tagged o'
        else if isNodeReady node then serve_pass node tagged tr' o
        else ∃ now tr'', tr' = Event (S:=Ctl) Now now :: tr'' ∧
          if time_Sub now (node_CreationTimestamp node) <? wait_timeout
          then tr'' = [] ∧ o = Ret (tagged, mkResult false (30 * Second))
          else serve_pass node tagged tr'' o
    end.

Lemma backfill_returns items instanceID tagged :
  triple (backfillEriTags r items instanceID tagged) (λ _ o, ∃ tagged', o = Ret tagged').
Proof.
  unfold backfillEriTags. destruct (markPending items tagged) as [tagged1 pending].
  destruct (decide _); [apply triple_done; by eexists|].
  intros tr o (tr1 & o1 & H1 & H2)%exec_bind. apply EnsureEriTags_try in H1 as [[res ->] _].
  destruct H2 as (tr2 & -> & H2). destruct res; destruct H2 as [_ ->]; by eexists.
Qed.

Lemma poll_gets name tr o :
  exec (PollUntilContextTimeout (500 * Millisecond) (2 * Second)
          (res ← ctl (GetDevice name);
           mret match res with inl _ => true | inr _ => false end)) tr o →
  Forall (λ ev, ∃ g, ev = Event (S:=Ctl) (GetDevice name) g) tr ∧ ∃ x, o = Ret x.
Proof.
  intros Hp. split.
  - refine (poll_only _ _ _ _ _ _ _ Hp). apply only_bind; [by only_call; eexists|].
    intros a. apply only_done.
  - refine (poll_returns _ _ _ _ _ _ Hp). apply triple_ctl_bind. intros g. apply triple_done.
    by eexists.
Qed.

#[local] Opaque SelectERIs backfillEriTags InstanceIDFromNode RemoveERdmaDevices.

Lemma serveNode_pass node tagged : triple (serveNode r node tagged) (serve_pass node tagged).
Proof.
  intros tr o (tr1 & o1 & H1 & H2)%exec_bind. exists tr1, o1. split; [done|].
  destruct o1 as [instanceID|err|f]; [|done..].
  destruct H2 as (tr2 & -> & (items & tr3 & -> & H2)). exists items, tr3. split; [done|].
  destruct items as [[|d items]|err]; cbn in H2; [| |done].
  - apply exec_bind in H2 as (trs & os & Hs & H2). exists trs, os. split; [done|].
    destruct os as [[eris|]|err|f]; [| |done|done].
    + destruct H2 as (tr4 & -> & (attr & tr5 & -> & H2)). cbn in H2. exists attr.
      destruct attr as [attr|err]; cbn in H2; destruct H2 as (res & gets & -> & H2); exists res, gets;
        (split; [done|]); (destruct res as [[]|err']; [|by destruct H2]);
        apply exec_bind in H2 as (trg & og & Hg & H2);
        apply poll_gets in Hg as [Hg [x ->]]; destruct H2 as (tr6 & -> & [-> ->]);
        by rewrite app_nil_r.
    + destruct H2 as (tr4 & -> & [-> ->]). by rewrite app_nil_r.
  - apply exec_bind in H2 as (trb & ob & Hb & H2).
    destruct (backfill_returns _ _ _ _ _ Hb) as [tagged' ->].
    destruct H2 as (tr4 & -> & [-> ->]). rewrite app_nil_r. by exists tagged'.
Qed.

Lemma removal_pass name tagged tr o :
  exec (result ← RemoveERdmaDevices name; mret (tagged, result)) tr o →
  ∃ o', remove_post name tr o' ∧ o = with_tagged tagged o'.
Proof.
  intros (tr1 & o1 & H1 & H2)%exec_bind. apply RemoveERdmaDevices_post in H1. exists o1.
  destruct o1 as [res|err|f].
  - destruct H2 as (tr2 & -> & [-> ->]). by rewrite app_nil_r.
  - destruct H2 as [-> ->]. by split.
  - destruct H2 as [-> ->]. by split.
Qed.

Lemma NodeReconcile_pass name tagged : triple (NodeReconcile r name tagged) (node_pass name tagged).
Proof.
  unfold NodeReconcile. intros tr o H1. exec_call H1 as (got & tr' & -> & H1). exists got, tr'. split; [done|].
  destruct got as [node|err]; cbv beta iota in H1.
  - destruct (negb (time_IsZero (node_DeletionTimestamp node))); [by apply removal_pass|].
    destruct (isNodeReady node); simpl negb in H1; cbv iota in H1; [by apply serveNode_pass|].
    apply exec_bind in H1 as (tr1 & o1 & (now & tr'' & -> & [-> ->]) & tr2 & -> & H1).
    exists now, tr2. split; [done|].
    unfold wait_timeout.
    destruct (_ <? _); [done|by apply serveNode_pass].
  - destruct (IsNotFound err); [by apply removal_pass|done].
Qed.

#[local] Transparent SelectERIs backfillEriTags InstanceIDFromNode RemoveERdmaDevices.

End Runs.

(** ** The backfill *)

Definition device_ids (devices : list ERdmaDevice) : list string :=
  devices ≫= λ dev, dev_ID <$> spec_Devices (device_Spec dev).

(** The marking loop takes every named id that is not marked yet, once. *)
Lemma markPending_spec devices tagged :
  ∃ pending, markPending devices tagged = (list_to_set pending ∪ tagged, pending) ∧
    NoDup pending ∧
    (∀ id, id ∈ pending ↔ id ∈ device_ids devices ∧ id ≠ ε ∧ id ∉ tagged).
Proof.
  unfold markPending. fold (device_ids devices).
  induction (device_ids devices) as [|id ids IH] using rev_ind.
  - exists []. simpl. rewrite (left_id_L ∅ (∪)). split_and!; [done|constructor|set_solver].
  - destruct IH as (pending & E & Hnd & Hin). rewrite fold_left_app, E. simpl.
    destruct (decide (id = ε)) as [->|He]; [exists pending; split_and!; [done..|set_solver]|].
    destruct (decide (id ∈ list_to_set pending ∪ tagged)) as [Ht|Ht].
    + exists pending. split_and!; [done..|]. intros x. rewrite Hin. set_solver.
    + exists (pending ++ [id]). rewrite list_to_set_app_L. simpl. split_and!.
      * f_equal. set_solver.
      * apply NoDup_app. split_and!; [done|set_solver|apply NoDup_singleton].
      * set_solver.
Qed.

(** Removing the marks just set gives the marks back as they were. *)
Lemma rollback_marks (pending : list string) (tagged : gset string) :
  (∀ id, id ∈ pending → id ∉ tagged) →
  fold_left (λ t id, t ∖ {[id]}) pending (list_to_set pending ∪ tagged) = tagged.
Proof.
  intros Hd.
  assert (∀ t, fold_left (λ t id, t ∖ {[id]}) pending t = t ∖ list_to_set pending) as ->.
  { clear Hd. induction pending as [|id pending IH]; intros t; simpl; [set_solver|].
    rewrite IH. set_solver. }
  set_solver.
Qed.

(** One backfill: nothing to do, one tagging that succeeds and is remembered,
    or one that fails and is forgotten. *)
Lemma backfill_exec r items instanceID tagged tr o :
  exec (backfillEriTags r items instanceID tagged) tr o →
  ∃ pending, NoDup pending ∧
    (∀ id, id ∈ pending ↔ id ∈ device_ids items ∧ id ≠ ε ∧ id ∉ tagged) ∧
    (pending = [] ∧ tr = [] ∧ o = Ret tagged ∨
     pending ≠ [] ∧ ∃ res,
       tr = [Event (S:=Ctl) (TagResources (tag_request (nr_EriClient r) pending instanceID)) res] ∧
       o = Ret match res with inl _ => list_to_set pending ∪ tagged | inr _ => tagged end).
Proof.
  unfold backfillEriTags. destruct (markPending_spec items tagged) as (pending & -> & Hnd & Hin).
  intros H. exists pending. split_and!; [done..|]. destruct (decide (pending = [])) as [->|Hne].
  - left. destruct H as [-> ->]. simpl. by rewrite (left_id_L ∅ (∪)).
  - right. split; [done|]. rewrite EnsureEriTags_spec in H by done.
    destruct H as (res & tr' & -> & H). exists res. destruct res as [[]|err]; destruct H as [-> ->].
    + done.
    + split; [done|]. f_equal. apply rollback_marks. set_solver.
Qed.

(** The backfills of a process, one after the other. *)
Definition backfills (r : NodeReconciler) (passes : list (list ERdmaDevice * string)) :
    prog Ctl (gset string) :=
  for_each passes ∅ (λ '(items, instanceID) tagged, backfillEriTags r items instanceID tagged).

(** The ENIs a call has tagged. *)
Definition tagged_by (ev : event Ctl) : list string :=
  match ev with
  | Event (TagResources req) (inl _) => tr_ResourceId req
  | _ => []
  end.

(** An id has been in a tagging call. *)
Definition attempted (tr : trace Ctl) (id : string) : Prop :=
  ∃ req res, Event (S:=Ctl) (TagResources req) res ∈ tr ∧ id ∈ tr_ResourceId req.

(** What the backfills of some passes have established. *)
Record backfilled (passes : list (list ERdmaDevice * string)) (tr : trace Ctl)
    (tagged : gset string) : Prop := {
  bf_once : NoDup (tr ≫= tagged_by);
  bf_marks : tagged = list_to_set (tr ≫= tagged_by);
  bf_all : ∀ items instanceID id, (items, instanceID) ∈ passes →
    id ∈ device_ids items → id ≠ ε → attempted tr id
}.

Lemma attempted_app tr1 tr2 id : attempted (tr1 ++ tr2) id ↔ attempted tr1 id ∨ attempted tr2 id.
Proof. unfold attempted. setoid_rewrite elem_of_app. naive_solver. Qed.

Lemma tagged_attempted tr id : id ∈ tr ≫= tagged_by → attempted tr id.
Proof.
  intros (ev & Hm & Hev)%list_elem_of_bind.
  destruct ev as [[] res]; simpl in Hm; try by apply not_elem_of_nil in Hm.
  destruct res; [by exists req, (inl u)|by apply not_elem_of_nil in Hm].
Qed.

Lemma backfilled_step r passes items instanceID tr1 tagged tr2 o :
  backfilled passes tr1 tagged → exec (backfillEriTags r items instanceID tagged) tr2 o →
  ∃ tagged', o = Ret tagged' ∧ backfilled (passes ++ [(items, instanceID)]) (tr1 ++ tr2) tagged'.
Proof.
  intros [Hnd Et Hall] (pending & Hpn & Hin & H)%backfill_exec.
  assert (∀ id, id ∈ device_ids items → id ≠ ε → id ∉ pending → attempted tr1 id) as Hold.
  { intros id Hid He Hnp. apply tagged_attempted. rewrite Hin, Et in Hnp.
    destruct (decide (id ∈ tr1 ≫= tagged_by)); [done|]. exfalso. set_solver. }
  assert (∀ id items' iid', (items', iid') ∈ passes ++ [(items, instanceID)] →
    id ∈ device_ids items' → id ≠ ε → id ∈ pending ∨ attempted tr1 id) as Hnew.
  { intros id items' iid' [Hp|[= -> ->]%list_elem_of_singleton]%elem_of_app Hid He; [eauto|].
    destruct (decide (id ∈ pending)); eauto. }
  destruct H as [(-> & -> & ->)|(Hne & res & -> & ->)]; eexists; (split; [done|]).
  - rewrite app_nil_r. split; [done..|]. intros items' iid' id Hp Hid He.
    destruct (Hnew id items' iid') as [?%not_elem_of_nil|?]; done.
  - split.
    + rewrite bind_app. destruct res; simpl; rewrite ?app_nil_r; [|done].
      apply NoDup_app. split_and!; [done|set_solver|done].
    + rewrite bind_app. destruct res; simpl; rewrite ?app_nil_r; [|done].
      rewrite list_to_set_app_L. set_solver.
    + intros items' iid' id Hp Hid He. apply attempted_app.
      destruct (Hnew id items' iid') as [?|?]; [done..| |by left].
      right. eexists _, res. split; [by left|done].
Qed.

(** C26: Over the life of a process the backfill tags an ENI successfully at
    most once: the ids of all its successful calls are pairwise distinct and are
    exactly the ids remembered; every named ENI of every pass has been in a call. *)
Theorem backfill_once r passes tr tagged :
  exec (backfills r passes) tr (Ret tagged) →
  NoDup (tr ≫= tagged_by) ∧ tagged = list_to_set (tr ≫= tagged_by) ∧
  (∀ items instanceID id, (items, instanceID) ∈ passes → id ∈ device_ids items → id ≠ ε →
     ∃ req res, Event (S:=Ctl) (TagResources req) res ∈ tr ∧ id ∈ tr_ResourceId req).
Proof.
  enough (triple (backfills r passes)
    (λ tr o, ∃ tagged, o = Ret tagged ∧ backfilled passes tr tagged)) as H.
  { intros He. by apply H in He as (tagged' & [= ->] & []). }
  apply (triple_for_each _ _ _ backfilled).
  - split; [constructor|done|set_solver].
  - intros l1 [items iid] l2 tr1 tagged1 _ Hb tr2 o H.
    by destruct (backfilled_step _ _ _ _ _ _ _ _ Hb H) as (tagged' & -> & ?).
  - eauto.
Qed.

(** ** Properties of the reconciler *)

(** A node is served only when it has reported ready or its grace period
    is over: until then a reconcile reads the node and the clock, changes
    nothing, and asks to be run again in 30 seconds. *)
Lemma NodeReconcile_waits `{WaitLib} r name tagged tr o node :
  exec (NodeReconcile r name tagged) tr o →
  head tr = Some (Event (S:=Ctl) (GetNode name) (inl node)) →
  time_IsZero (node_DeletionTimestamp node) = true → isNodeReady node = false →
  ∃ now tr', tr = Event (S:=Ctl) (GetNode name) (inl node) :: Event (S:=Ctl) Now now :: tr' ∧
    (time_Sub now (node_CreationTimestamp node) < wait_timeout r →
       tr' = [] ∧ o = Ret (tagged, mkResult false (30 * Second))).
Proof.
  intros (got & tr' & -> & Hp)%NodeReconcile_pass Hh Hz Hn.
  injection Hh as ->%inj_pair2.
  rewrite Hz, Hn in Hp. destruct Hp as (now & tr'' & -> & Hp). exists now, tr''.
  split; [done|]. intros Ht%Z.ltb_lt. by rewrite Ht in Hp.
Qed.

(** A node that is gone or being deleted has its devices removed, and
    nothing else happens: they are listed by node name, then each loses its
    finalizers, then each is deleted; the first failure ends the pass. *)
Lemma NodeReconcile_removes `{WaitLib} r name tagged tr o got :
  exec (NodeReconcile r name tagged) tr o →
  head tr = Some (Event (S:=Ctl) (GetNode name) got) →
  match got with
  | inl node => time_IsZero (node_DeletionTimestamp node) = false
  | inr err => IsNotFound err = true
  end →
  ∃ o', remove_post name (tail tr) o' ∧ o = with_tagged tagged o'.
Proof.
  intros (got' & tr' & -> & Hp)%NodeReconcile_pass Hh Hg.
  injection Hh as ->%inj_pair2.
  destruct got as [node|err]; by rewrite Hg in Hp.
Qed.

(** Calls that leave the cloud alone and create no [ERdmaDevice]. *)
Definition unserved (ev : event Ctl) : Prop :=
  ecs_mutates ev = false ∧ ∀ d res, ev ≠ Event (S:=Ctl) (CreateDevice d) res.

Lemma removal_unserved nodeName items : Forall unserved (removal nodeName items).
Proof.
  constructor; [done|]. apply Forall_app. split; apply Forall_fmap, Forall_forall; done.
Qed.

Lemma remove_post_unserved nodeName tr o : remove_post nodeName tr o → Forall unserved tr.
Proof.
  intros [(items & -> & _)|[(err & -> & _)|(items & pre & ev & err & _ & -> & [k Hk] & d & _ & Hev)]].
  - apply removal_unserved.
  - by repeat constructor.
  - pose proof (removal_unserved nodeName items) as H. rewrite Hk in H.
    apply Forall_app in H as [H _]. apply Forall_app. split; [done|].
    constructor; [by destruct Hev as [->| ->]|constructor].
Qed.

(** The node is present, not being deleted, and ready or past its grace period. *)
Definition servable (r : NodeReconciler) (name : string) (node : Node) (pre : trace Ctl) : Prop :=
  time_IsZero (node_DeletionTimestamp node) = true ∧
  (isNodeReady node = true ∧ pre = [Event (S:=Ctl) (GetNode name) (inl node)] ∨
   isNodeReady node = false ∧ ∃ now,
     pre = [Event (S:=Ctl) (GetNode name) (inl node); Event (S:=Ctl) Now now] ∧
     wait_timeout r ≤ time_Sub now (node_CreationTimestamp node)).

(** A pass serves the node, or neither provisions nor creates anything. *)
Lemma node_pass_cases `{WaitLib} r name tagged tr o :
  exec (NodeReconcile r name tagged) tr o →
  Forall unserved tr ∨
  ∃ node pre post, tr = pre ++ post ∧ servable r name node pre ∧ serve_pass r node tagged post o.
Proof.
  intros (got & tr' & -> & Hp)%NodeReconcile_pass. unfold servable. destruct got as [node|err].
  - destruct (time_IsZero (node_DeletionTimestamp node)) eqn:Hz; simpl in Hp.
    + destruct (isNodeReady node) eqn:Hr; [right; by eexists _, [_], tr'; eauto 10|].
      destruct Hp as (now & tr'' & -> & Hp).
      destruct (Z.ltb_spec (time_Sub now (node_CreationTimestamp node)) (wait_timeout r)) as [Hl|Hl].
      * left. destruct Hp as [-> _]. by repeat constructor.
      * right. exists node, [Event (S:=Ctl) (GetNode name) (inl node); Event (S:=Ctl) Now now], tr''.
        split_and!; eauto 10.
    + left. destruct Hp as (o' & Hp%remove_post_unserved & _). by constructor.
  - left. destruct (IsNotFound err).
    + destruct Hp as (o' & Hp%remove_post_unserved & _). by constructor.
    + destruct Hp as [-> _]. by repeat constructor.
Qed.

Lemma servable_quiet r name node pre :
  servable r name node pre → Forall (λ ev, k8s_mutates ev = false ∧ ecs_mutates ev = false) pre.
Proof. intros [_ [[_ ->]|(_ & now & -> & _)]]; by repeat constructor. Qed.

(** C9: The cloud is changed only for a node that is present, not being
    deleted, and ready or past its grace period. *)
Theorem NodeReconcile_serves `{WaitLib} r name tagged tr o ev :
  exec (NodeReconcile r name tagged) tr o → ev ∈ tr → ecs_mutates ev = true →
  ∃ node pre post, tr = pre ++ post ∧ servable r name node pre ∧ ev ∈ post.
Proof.
  intros [Hq|(node & pre & post & -> & Hs & _)]%node_pass_cases Hev Hm.
  - rewrite Forall_forall in Hq. destruct (Hq ev Hev) as [Hf _]. congruence.
  - exists node, pre, post. split_and!; [done..|].
    apply elem_of_app in Hev as [Hev|Hev]; [|done]. apply servable_quiet in Hs.
    rewrite Forall_forall in Hs. destruct (Hs ev Hev). congruence.
Qed.

Lemma not_created (P : event Ctl → Prop) tr d res :
  Forall P tr → (∀ ev, P ev → k8s_mutates ev = false) → Event (S:=Ctl) (CreateDevice d) res ∉ tr.
Proof. intros HP Hk Hin. rewrite Forall_forall in HP. by apply HP, Hk in Hin. Qed.

(** A pass that creates an object: it served the node, learnt its instance,
    found no object for it, selected its ERIs and asked for its jumbo frames. *)
Definition creation (r : NodeReconciler) (name : string) (d : ERdmaDevice) (res : result unit)
    (before gets : trace Ctl) : Prop :=
  ∃ node instanceID attr eris pre tr1 trs,
    before = pre ++ tr1 ++ Event (S:=Ctl) (ListDevices labelInstanceID instanceID) (inl []) :: trs ++
             [Event (S:=Ctl) (DescribeInstanceAttribute instanceID) attr] ∧
    servable r name node pre ∧ exec (InstanceIDFromNode (nr_EriClient r) node) tr1 (Ret instanceID) ∧
    exec (SelectERIs (nr_EriClient r) instanceID) trs (Ret (Some eris)) ∧
    d = newERdmaDevice node instanceID (jumbo_of attr) eris ∧
    Forall (λ ev, ∃ g, ev = Event (S:=Ctl) (GetDevice (node_Name node)) g) gets.

Lemma servable_head r name node pre :
  servable r name node pre → ∃ rest, pre = Event (S:=Ctl) (GetNode name) (inl node) :: rest.
Proof. intros [_ [[_ ->]|(_ & now & -> & _)]]; by eexists. Qed.

(** Before and after the creation nothing in Kubernetes is changed. *)
Lemma creation_quiet r name d res before gets :
  creation r name d res before gets →
  Forall (λ ev, k8s_mutates ev = false) before ∧ Forall (λ ev, k8s_mutates ev = false) gets.
Proof.
  intros (node & iid & attr & eris & pre & tr1 & trs & -> & Hs & H1 & H2 & _ & Hg).
  apply servable_quiet in Hs. apply InstanceIDFromNode_only in H1. apply SelectERIs_only in H2. split.
  - rewrite !Forall_app, Forall_cons, Forall_app, Forall_singleton. split_and!; try done.
    + eapply Forall_impl; [exact Hs|]. by intros ev [].
    + eapply Forall_impl; [exact H1|]. by intros ev [].
    + eapply Forall_impl; [exact H2|]. by intros ev [].
  - eapply Forall_impl; [exact Hg|]. by intros ev [g ->].
Qed.

Lemma NodeReconcile_creation `{WaitLib} r name tagged tr o d res :
  exec (NodeReconcile r name tagged) tr o → Event (S:=Ctl) (CreateDevice d) res ∈ tr →
  ∃ before gets, tr = before ++ Event (S:=Ctl) (CreateDevice d) res :: gets ∧
    creation r name d res before gets.
Proof.
  intros [Hq|(node & pre & post & -> & Hs & Hp)]%node_pass_cases Hin.
  { exfalso. rewrite Forall_forall in Hq. destruct (Hq _ Hin) as [_ Hn]. by eapply Hn. }
  pose proof (servable_quiet _ _ _ _ Hs) as Hpre.
  apply elem_of_app in Hin as [Hin|Hin]; [by destruct (not_created _ _ _ _ Hpre ltac:(by intros ? []) Hin)|].
  destruct Hp as (tr1 & o1 & H1 & Hp). pose proof (InstanceIDFromNode_only _ _ _ _ H1) as Hq1.
  pose proof (not_created _ _ d res Hq1 ltac:(by intros ? [])) as Hn1.
  destruct o1 as [instanceID|err|f]; [|by destruct Hp as [-> _]..].
  destruct Hp as (items & tr2 & -> & Hp).
  apply elem_of_app in Hin as [Hin|Hin]; [done|]. apply elem_of_cons in Hin as [?|Hin]; [done|].
  destruct items as [[|d0 items]|err]; [| |destruct Hp as [-> _]; by apply not_elem_of_nil in Hin].
  - destruct Hp as (trs & os & Hsel & Hp). pose proof (SelectERIs_only _ _ _ _ Hsel) as Hq2.
    pose proof (not_created _ _ d res Hq2 ltac:(by intros ? [])) as Hn2.
    destruct os as [[eris|]|err|f]; [|by destruct Hp as [-> _]..].
    destruct Hp as (attr & res' & gets & -> & Hp).
    assert (Forall (λ ev, ∃ g, ev = Event (S:=Ctl) (GetDevice (node_Name node)) g) gets) as Hg.
    { destruct res'; [by destruct Hp|destruct Hp as [-> _]; constructor]. }
    apply elem_of_app in Hin as [Hin|Hin]; [done|]. apply elem_of_cons in Hin as [?|Hin]; [done|].
    apply elem_of_cons in Hin as [Heq|Hin].
    + injection Heq as Hd Hr. subst d. apply inj_pair2 in Hr as <-.
      eexists (pre ++ tr1 ++ _ :: trs ++ [_]), gets.
      split; [rewrite <- !(assoc_L (++)); simpl; by rewrite <- !(assoc_L (++))|].
      exists node, instanceID, attr, eris, pre, tr1, trs. by split_and!.
    + exfalso. rewrite Forall_forall in Hg. by destruct (Hg _ Hin).
  - exfalso. destruct Hp as (tagged' & Hb & _). apply backfill_exec in Hb as (pending & _ & _ & Hb).
    destruct Hb as [(_ & -> & _)|(_ & rt & -> & _)]; [by apply not_elem_of_nil in Hin|].
    by apply list_elem_of_singleton in Hin.
Qed.

(** C10: An [ERdmaDevice] is created at most once in a pass, and only for a
    served node (present, not being deleted, ready or past its grace period)
    whose own instance has none: the pass asks which instance the node runs
    on, changing nothing, lists the objects of that instance and finds none, and
    selects its ERIs with success.  The object records exactly the selected ERIs
    under the names of the node and the instance, and the pass then only
    polls for it. *)
Theorem NodeReconcile_creates `{WaitLib} r name tagged tr o d res :
  exec (NodeReconcile r name tagged) tr o → Event (S:=Ctl) (CreateDevice d) res ∈ tr →
  ∃ node instanceID attr eris pre tri trs gets,
    tr = pre ++ tri ++ Event (S:=Ctl) (ListDevices labelInstanceID instanceID) (inl []) :: trs ++
         Event (S:=Ctl) (DescribeInstanceAttribute instanceID) attr ::
         Event (S:=Ctl) (CreateDevice d) res :: gets ∧
    head pre = Some (Event (S:=Ctl) (GetNode name) (inl node)) ∧
    servable r name node pre ∧
    exec (InstanceIDFromNode (nr_EriClient r) node) tri (Ret instanceID) ∧
    Forall (λ ev, k8s_mutates ev = false ∧ ecs_mutates ev = false) (pre ++ tri) ∧
    exec (SelectERIs (nr_EriClient r) instanceID) trs (Ret (Some eris)) ∧
    d = newERdmaDevice node instanceID (jumbo_of attr) eris ∧
    Forall (λ ev, ∃ g, ev = Event (S:=Ctl) (GetDevice (node_Name node)) g) gets.
Proof.
  intros Hx Hin. destruct (NodeReconcile_creation _ _ _ _ _ _ _ Hx Hin) as (before & gets & -> &
    node & iid & attr & eris & pre & tri & trs & -> & Hs & H1 & H2 & Hd & Hg).
  exists node, iid, attr, eris, pre, tri, trs, gets.
  split; [rewrite <- !(assoc_L (++)); simpl; by rewrite <- !(assoc_L (++))|]. split_and!; try done.
  - by destruct (servable_head _ _ _ _ Hs) as [rest ->].
  - apply servable_quiet in Hs. apply InstanceIDFromNode_only in H1. by apply Forall_app.
Qed.

(** The update filter never panics; it lets an update through exactly when
    the node is selected and it was not selected before, is being deleted,
    becomes ready, or changes its provider id. *)
Lemma PredictNodeUpdate_spec r old new :
  PredictNodeUpdate r old new = Ret (match new with
    | None => false
    | Some n => OwnNode r (Some n) &&
        (negb (OwnNode r old) || match old with
          | None => true
          | Some o => bool_decide (node_DeletionTimestamp n ≠ None) ||
                      (negb (isNodeReady o) && isNodeReady n) ||
                      bool_decide (node_ProviderID o ≠ node_ProviderID n)
          end)
    end).
Proof.
  unfold PredictNodeUpdate. destruct new as [n|]; [|done].
  destruct (OwnNode r (Some n)); simpl; [|done].
  destruct old as [o|]; [|done]. destruct (OwnNode r (Some o)); simpl; [|done].
  case_bool_decide; simpl; [done|]. by destruct (negb (isNodeReady o) && isNodeReady n).
Qed.

(** ** The properties at concrete inputs *)

Definition n_config : Config :=
  mkConfig "cn-hangzhou" false ε ε ε ε None None ε None {[ "pool" := "rdma" ]} 600.

Definition n_reconciler : NodeReconciler :=
  mkNodeReconciler (mkEriClient "cn-hangzhou" false) n_config.

Definition n_cluster (node : option Node) (now : Z) (devices : list ERdmaDevice) : Env Ctl :=
  inventory_env (mkInventory [two_card_instance] [two_card_type] [eni_card0] node devices now).

(** Two passes over the same device: the second has nothing left to tag. *)
Definition n_passes : list (list ERdmaDevice * string) :=
  [([erdma_device [device_0; device_1] []], "i-1"); ([erdma_device [device_0] []], "i-1")].

Lemma backfill_once_witness :
  ∃ tr tagged, exec (backfills n_reconciler n_passes) tr (Ret tagged) ∧ length tr = 1%nat ∧
    NoDup (tr ≫= tagged_by) ∧ tagged = list_to_set (tr ≫= tagged_by).
Proof.
  set (env := n_cluster None 0 []).
  assert (exec (backfills n_reconciler n_passes) (run env [] (backfills n_reconciler n_passes)).2
    (Ret {["eni-0"; "eni-1"]})) as H by (apply run_returns; vm_compute; reflexivity).
  destruct (backfill_once _ _ _ _ H) as (H1 & H2 & _).
  do 2 eexists. split_and!; [exact H|vm_compute; reflexivity|exact H1|exact H2].
Defined.

Definition n_run (env : Env Ctl) : outcome (gset string * Result) * trace Ctl :=
  run env [] (NodeReconcile (H := intervalWait) n_reconciler "node-1" ∅).

Lemma n_run_exec env :
  exec (NodeReconcile (H := intervalWait) n_reconciler "node-1" ∅) (n_run env).2 (n_run env).1.
Proof. apply run_exec. Defined.

Lemma NodeReconcile_waits_witness :
  (n_run (n_cluster (Some (node1 "False" None)) (60 * Second) [])).1 =
    Ret (∅, mkResult false (30 * Second)).
Proof.
  set (env := n_cluster (Some (node1 "False" None)) (60 * Second) []).
  destruct (NodeReconcile_waits (H := intervalWait) _ _ _ _ _ (node1 "False" None) (n_run_exec env)
    ltac:(vm_compute; reflexivity) ltac:(reflexivity) ltac:(reflexivity)) as (now & tr' & E & Ht).
  assert (now = 60 * Second) as ->.
  { assert ((n_run env).2 !! 1%nat = Some (Event (S:=Ctl) Now (60 * Second))) as E1
      by (vm_compute; reflexivity).
    rewrite E in E1. injection E1 as E1%inj_pair2. exact E1. }
  exact (proj2 (Ht ltac:(vm_compute; reflexivity))).
Defined.

Lemma NodeReconcile_removes_witness :
  ∃ o', remove_post "node-1" (tail (n_run (n_cluster None 0 [erdma_device [device_0] []])).2) o' ∧
    (n_run (n_cluster None 0 [erdma_device [device_0] []])).1 = with_tagged ∅ o'.
Proof.
  eapply (NodeReconcile_removes (H := intervalWait) _ _ _ _ _ (inr (ApiError NotFound "not found")));
    [apply n_run_exec|vm_compute; reflexivity|reflexivity].
Defined.

Definition n_env : Env Ctl := n_cluster (Some (node1 "True" None)) 0 [].

Lemma NodeReconcile_serves_witness :
  ∃ ev node pre post, ev ∈ (n_run n_env).2 ∧ ecs_mutates ev = true ∧
    (n_run n_env).2 = pre ++ post ∧ servable n_reconciler "node-1" node pre ∧ ev ∈ post.
Proof.
  assert (∃ ev, ev ∈ (n_run n_env).2 ∧ ecs_mutates ev = true) as (ev & Hin & Hm).
  { destruct (find_first ecs_mutates (n_run n_env).2) as [ev|] eqn:E; [|vm_compute in E; discriminate].
    apply find_first_Some in E as (l1 & l2 & -> & Hm & _). exists ev. split; [|exact Hm].
    apply elem_of_app. right. left. }
  exists ev.
  destruct (NodeReconcile_serves (H := intervalWait) _ _ _ _ _ ev (n_run_exec n_env) Hin Hm)
    as (node & pre & post & H).
  exists node, pre, post. split; [exact Hin|]. split; [exact Hm|exact H].
Defined.

Lemma NodeReconcile_creates_witness :
  ∃ d res node instanceID attr eris tri, Event (S:=Ctl) (CreateDevice d) res ∈ (n_run n_env).2 ∧
    exec (InstanceIDFromNode (nr_EriClient n_reconciler) node) tri (Ret instanceID) ∧
    d = newERdmaDevice node instanceID (jumbo_of attr) eris.
Proof.
  assert (∃ d res, Event (S:=Ctl) (CreateDevice d) res ∈ (n_run n_env).2) as (d & res & Hin).
  { do 2 eexists. vm_compute. do 9 right. left. }
  destruct (NodeReconcile_creates (H := intervalWait) _ _ _ _ _ d res (n_run_exec n_env) Hin)
    as (node & iid & attr & eris & pre & tri & trs & gets & _ & _ & _ & Hi & _ & _ & Hd & _).
  exists d, res, node, iid, attr, eris, tri. split; [exact Hin|]. split; [exact Hi|exact Hd].
Defined.
