(* ===== verification/Watch.v ===== *)
(** * Watch: the SetupWithManager methods of internal/controller

    Which events of the cluster bring a reconciler to run: those of nodes pass a
    filter, those of ERdmaDevices all do. *)

From S2P Require Import Prelude Effects GoStr Types CloudApi Scenario EriClient Provision NodeController.

(** ** Definitions *)

(** The events of controller-runtime; an object can be nil. *)
Inductive TypedEvent (A : Type) :=
  | CreateEvent (object : option A)
  | DeleteEvent (object : option A)
  | UpdateEvent (objectOld objectNew : option A)
  | GenericEvent (object : option A).
Arguments CreateEvent {A} object.
Arguments DeleteEvent {A} object.
Arguments UpdateEvent {A} objectOld objectNew.
Arguments GenericEvent {A} object.

(** The [predicate.TypedFuncs] of the node controller *)
Definition nodeFilter (r : NodeReconciler) (e : TypedEvent Node) : outcome bool :=
  match e with
  | CreateEvent object => Ret (OwnNode r object)
  | DeleteEvent object => Ret (OwnNode r object)
  | UpdateEvent objectOld objectNew => PredictNodeUpdate r objectOld objectNew
  | GenericEvent object => Ret (OwnNode r object)
  end.

(** The controller of ERdmaDevices has no filter. *)
Definition deviceFilter (e : TypedEvent ERdmaDevice) : outcome bool := Ret true.

(** [handler.TypedEnqueueRequestForObject]: the name of the object of an event,
    the new one of an update *)
Definition request {A} (name : A → string) (e : TypedEvent A) : option string :=
  match e with
  | CreateEvent object | DeleteEvent object | GenericEvent object => name <$> object
  | UpdateEvent objectOld objectNew =>
      match objectNew with Some new => Some (name new) | None => name <$> objectOld end
  end.

(** The requests one event adds to the controller's queue *)
Definition enqueued {A} (filter : TypedEvent A → outcome bool) (name : A → string) (e : TypedEvent A) :
    outcome (list string) :=
  pass ← filter e;
  Ret (if (pass : bool) then match request name e with Some n => [n] | None => [] end else []).

Definition nodeRequests (r : NodeReconciler) : TypedEvent Node → outcome (list string) :=
  enqueued (nodeFilter r) node_Name.

Definition deviceRequests : TypedEvent ERdmaDevice → outcome (list string) :=
  enqueued deviceFilter (λ d, meta_Name (device_ObjectMeta d)).

(** ** The life of a node *)

(** The events an informer delivers for the versions of a node: the first is
    created, each of the others updates the one before. *)
Definition eventOf {A} (before : list A) (v : A) : TypedEvent A :=
  match last before with
  | None => CreateEvent (Some v)
  | Some old => UpdateEvent (Some old) (Some v)
  end.

(** The controller has work to do on the node: it is selected, and ready. *)
Definition wanted (r : NodeReconciler) (node : Node) : bool := OwnNode r (Some node) && isNodeReady node.

Lemma PredictNodeUpdate_wanted r old new :
  wanted r new = true → wanted r old = false → PredictNodeUpdate r (Some old) (Some new) = Ret true.
Proof.
  rewrite PredictNodeUpdate_spec. unfold wanted. intros [-> ->]%andb_true_iff [->| ->]%andb_false_iff;
    simpl; [done|]. by rewrite !orb_true_r.
Qed.

(** The events the filter never drops, whatever else changes *)
Lemma PredictNodeUpdate_deleting r old new :
  OwnNode r (Some new) = true → node_DeletionTimestamp new ≠ None →
  PredictNodeUpdate r (Some old) (Some new) = Ret true.
Proof.
  rewrite PredictNodeUpdate_spec. intros -> Hd. rewrite (bool_decide_eq_true_2 _ Hd). simpl.
  by rewrite orb_true_r.
Qed.

Lemma PredictNodeUpdate_provider r old new :
  OwnNode r (Some new) = true → node_ProviderID old ≠ node_ProviderID new →
  PredictNodeUpdate r (Some old) (Some new) = Ret true.
Proof.
  rewrite PredictNodeUpdate_spec. intros -> Hd. rewrite (bool_decide_eq_true_2 _ Hd). simpl.
  by rewrite !orb_true_r.
Qed.

(** C37: No node is missed: when the last version of a node is selected and
    ready, the version at which it last became so was enqueued.  A selected node
    is enqueued at every update while it is being deleted, and when its provider
    id changes; its disappearance is enqueued exactly when it is selected then. *)
Theorem nodeRequests_complete r versions node :
  last versions = Some node → OwnNode r (Some node) = true →
  (isNodeReady node = true → ∃ l1 v l2, versions = l1 ++ v :: l2 ∧
     Forall (λ n, wanted r n = true) (v :: l2) ∧ nodeRequests r (eventOf l1 v) = Ret [node_Name v]) ∧
  (∀ old, node_DeletionTimestamp node ≠ None ∨ node_ProviderID old ≠ node_ProviderID node →
     nodeRequests r (UpdateEvent (Some old) (Some node)) = Ret [node_Name node]) ∧
  (∀ n, nodeRequests r (DeleteEvent (Some n)) = Ret (if OwnNode r (Some n) then [node_Name n] else [])).
Proof.
  intros Hl Ho. split_and!.
  - intros Hr. assert (wanted r node = true) as Hw by (unfold wanted; by rewrite Ho, Hr).
    apply last_Some in Hl as [l ->].
    enough (∀ l2 l1, wanted r node = true → Forall (λ n, wanted r n = true) l2 → ∀ v, wanted r v = true →
      ∃ l1' v' l2', l1 ++ v :: l2 = l1' ++ v' :: l2' ∧
        Forall (λ n, wanted r n = true) (v' :: l2') ∧ nodeRequests r (eventOf l1' v') = Ret [node_Name v']) as H
      by (by apply (H [] l)).
    intros l2 l1. revert l2. induction l1 as [|old l1 IH] using rev_ind; intros l2 _ H2 v Hv.
    + exists [], v, l2. split_and!; [done|by constructor|]. unfold nodeRequests, enqueued, eventOf.
      cbn [last nodeFilter]. apply andb_true_iff in Hv as [Hv _]. by rewrite Hv.
    + destruct (wanted r old) eqn:Hold.
      * rewrite <- (assoc_L (++)). simpl. apply IH; [done|by constructor|done].
      * exists (l1 ++ [old]), v, l2. split_and!; [done|by constructor|].
        unfold nodeRequests, enqueued, eventOf. rewrite last_snoc. cbn [nodeFilter].
        by rewrite PredictNodeUpdate_wanted.
  - intros old [Hd|Hd]; unfold nodeRequests, enqueued; cbn [nodeFilter];
      [by rewrite PredictNodeUpdate_deleting|by rewrite PredictNodeUpdate_provider].
  - intros n. done.
Qed.

(** ** The properties at concrete inputs *)

(** A node of the pool that becomes ready, and then reports an address *)
Definition w_node (ready : string) (addrs : list NodeAddress) : Node :=
  mkNode "v1" "Node" "node-1" "uid-1" {[ "pool" := "rdma" ]} 0 None "cn-hangzhou.i-1" addrs
    [mkNodeCondition "Ready" ready].

Definition w_versions : list Node :=
  [w_node "False" []; w_node "True" []; w_node "True" [mkNodeAddress "InternalIP" "10.0.0.1"]].

Lemma nodeRequests_complete_witness :
  (∃ l1 v l2, w_versions = l1 ++ v :: l2 ∧ nodeRequests n_reconciler (eventOf l1 v) = Ret ["node-1"]) ∧
  nodeRequests n_reconciler (eventOf [w_node "True" []] (w_node "True" [mkNodeAddress "InternalIP" "10.0.0.1"])) = Ret [].
Proof.
  destruct (nodeRequests_complete n_reconciler w_versions (w_node "True" [mkNodeAddress "InternalIP" "10.0.0.1"])
    ltac:(reflexivity) ltac:(vm_compute; reflexivity)) as (H & _ & _).
  destruct (H ltac:(reflexivity)) as (l1 & v & l2 & E & _ & Hv). split; [|vm_compute; reflexivity].
  exists l1, v, l2. split; [exact E|]. rewrite Hv.
  assert (v ∈ w_versions) as Hin by (rewrite E; apply elem_of_app; right; left).
  unfold w_versions in Hin. rewrite !elem_of_cons in Hin.
  destruct Hin as [->|[->|[->|Hin]]]; [reflexivity..|]. by apply not_elem_of_nil in Hin.
Defined.
