(* ===== verification/DeviceController.v ===== *)
(** * DeviceController: internal/controller/erdmadevice_controller.go

    The reconciler of ERdmaDevices: it drives the device's ENIs with
    [EnsureEriForInstance] until every device of the spec is reported ready. *)

From S2P Require Import Prelude Effects GoStr Time Types CloudApi Scenario EriClient Provision NodeController.

(** ** Definitions *)

Definition notReady (item : DeviceStatus) : bool :=
  bool_decide (st_Status item ≠ DeviceStatusReady).

Definition withStatus (device : ERdmaDevice) (statuses : list DeviceStatus) : ERdmaDevice := {|
  device_ObjectMeta := device_ObjectMeta device;
  device_Spec := device_Spec device;
  device_Status := {| status_Devices := statuses |}
|}.

(** [Reconcile] of the [ERdmaDeviceReconciler]; its [EriClient] is [e]. *)
Definition DeviceReconcile (e : EriClient) (name : string) : prog Ctl Result :=
  res ← ctl (GetDevice name);
  match res with
  | inr err => if IsNotFound err then mret noResult else throw err
  | inl device =>
      if negb (time_IsZero (meta_DeletionTimestamp (device_ObjectMeta device))) then
        RemoveERdmaDevices name
      else
        let specDevices := spec_Devices (device_Spec device) in
        let statusDevices := status_Devices (device_Status device) in
        if bool_decide (length specDevices = length statusDevices) &&
           negb (existsb notReady statusDevices)
        then mret noResult
        else
          eriStatus ← EnsureEriForInstance e specDevices;
          res ← ctl (UpdateDeviceStatus (withStatus device eriStatus));
          match res with
          | inr err => throw err
          | inl _ =>
              if existsb notReady eriStatus
              then mret (mkResult true (10 * Second))
              else mret noResult
          end
  end.

(** ** Every run of the reconciler *)

(** Nothing is left to do for the device. *)
Definition settled (device : ERdmaDevice) : Prop :=
  length (status_Devices (device_Status device)) = length (spec_Devices (device_Spec device)) ∧
  Forall (λ st, st_Status st = DeviceStatusReady) (status_Devices (device_Status device)).

Lemma existsb_notReady l :
  existsb notReady l = false ↔ Forall (λ st, st_Status st = DeviceStatusReady) l.
Proof.
  unfold notReady. induction l as [|st l IH]; simpl; [done|].
  rewrite orb_false_iff, IH, Forall_cons, bool_decide_eq_false.
  by destruct (decide (st_Status st = DeviceStatusReady)); naive_solver.
Qed.

Definition settledb (device : ERdmaDevice) : bool :=
  bool_decide (length (spec_Devices (device_Spec device)) =
               length (status_Devices (device_Status device))) &&
  negb (existsb notReady (status_Devices (device_Status device))).

Lemma settledb_spec device : settledb device = true ↔ settled device.
Proof.
  unfold settledb, settled. rewrite andb_true_iff, bool_decide_eq_true, negb_true_iff,
    existsb_notReady. naive_solver.
Qed.

(** A pass over an unsettled device: the ENIs are driven, the statuses written,
    and the pass is repeated while some status is not ready. *)
Definition drive_pass (e : EriClient) (device : ERdmaDevice) (tr : trace Ctl) (o : outcome Result) :
    Prop :=
  ∃ tr1 o1, exec (EnsureEriForInstance e (spec_Devices (device_Spec device))) tr1 o1 ∧
    match o1 with
    | Err err => tr = tr1 ∧ o = Err err
    | Panic f => tr = tr1 ∧ o = Panic f
    | Ret sts => ∃ res,
        tr = tr1 ++ [Event (S:=Ctl) (UpdateDeviceStatus (withStatus device sts)) res] ∧
        o = match res with
            | inr err => Err err
            | inl _ => Ret (if existsb notReady sts then mkResult true (10 * Second) else noResult)
            end
    end.

Definition reconcile_pass (e : EriClient) (name : string) (tr : trace Ctl) (o : outcome Result) :
    Prop :=
  ∃ res tr', tr = Event (S:=Ctl) (GetDevice name) res :: tr' ∧
    match res with
    | inr err => tr' = [] ∧ o = if IsNotFound err then Ret noResult else Err err
    | inl device =>
        if negb (time_IsZero (meta_DeletionTimestamp (device_ObjectMeta device)))
        then remove_post name tr' o
        else if settledb device then tr' = [] ∧ o = Ret noResult
        else drive_pass e device tr' o
    end.

#[local] Opaque EnsureEriForInstance.

Lemma DeviceReconcile_pass e name : triple (DeviceReconcile e name) (reconcile_pass e name).
Proof.
  unfold DeviceReconcile. intros tr o H. exec_call H as (res & tr' & -> & H).
  exists res, tr'. split; [done|]. destruct res as [device|err].
  2: { by destruct (IsNotFound err). }
  destruct (negb (time_IsZero _)); [by apply RemoveERdmaDevices_post|].
  fold (settledb device) in H. destruct (settledb device); [done|].
  apply exec_bind in H as (tr1 & o1 & H1 & H). exists tr1, o1. split; [done|].
  destruct o1 as [sts|err|f]; [|done..].
  destruct H as (tr2 & -> & H). exec_call H as (res & tr3 & -> & H). exists res.
  destruct res as [[]|err]; [destruct (existsb notReady sts)|]; by destruct H as [-> ->].
Qed.

#[local] Transparent EnsureEriForInstance.

(** ** Convergence *)

Definition ready_status (d : DeviceInfo) : DeviceStatus :=
  mkDeviceStatus (dev_ID d) DeviceStatusReady ε.

Definition serving (eni : ENI) : Prop :=
  eni_Status eni = Some ENIStatusInUse ∧ is_rdma eni = true.

(** An ENI a pass can act on: in use, or available for a secondary device; not
    in one of the cloud's transitional states. *)
Definition actionable (d : DeviceInfo) (eni : ENI) : Prop :=
  serving eni ∨
  (dev_IsPrimaryENI d = false ∧ eni_Status eni = Some ENIStatusAvailable) ∨
  (dev_IsPrimaryENI d = true ∧ eni_Status eni = Some ENIStatusInUse).

(** No change asked of the cloud was refused. *)
Definition accepted (ev : event Ctl) : Prop :=
  match ev with
  | Event (AttachNetworkInterface _) (inr _)
  | Event (ModifyNetworkInterfaceAttribute _) (inr _) => False
  | _ => True
  end.

(** The cloud has carried out what a pass asked for the device: an ENI that was
    serving, attached or converted is serving. *)
Definition carried_out (e : EriClient) (enis : list ENI) (tr : trace Ctl) (d : DeviceInfo)
    (enis' : list ENI) : Prop :=
  (∃ eni, eni ∈ enis ∧ eni_NetworkInterfaceId eni = Some (dev_ID d) ∧ serving eni) ∨
  Event (S:=Ctl) (AttachNetworkInterface (attach_request e d)) (inl ()) ∈ tr ∨
  Event (S:=Ctl) (ModifyNetworkInterfaceAttribute (convert_request e d)) (inl ()) ∈ tr →
  ∀ eni, eni ∈ enis' → eni_NetworkInterfaceId eni = Some (dev_ID d) → serving eni.

Lemma device_step_serving e eni d tr sts :
  device_step e eni d tr sts → serving eni → tr = [] ∧ sts = [ready_status d].
Proof.
  intros Hd [Hs Hr].
  destruct Hd as [|_ Hst|err _ Hst|r _ _ Hn|err _ _ Hn|status Hst Hn _]; 
    [done| | |congruence|congruence|]; rewrite Hs in Hst; [discriminate|discriminate|].
  exfalso. injection Hst as <-. apply Hn. auto.
Qed.

Lemma device_pass_serving e enis devices tr sts :
  device_pass e enis devices tr sts →
  Forall (λ d, ∀ eni, eni ∈ enis → eni_NetworkInterfaceId eni = Some (dev_ID d) → serving eni) devices →
  tr = [] ∧ sts = ready_status <$> devices.
Proof.
  intros Hp Hs. revert tr sts Hp; induction Hs as [|d devices Hd _ IH]; intros tr sts Hp.
  - by destruct Hp as (steps & ->%Forall2_nil_inv_l & -> & ->).
  - apply device_pass_cons in Hp as (eni & tr1 & sts1 & tr2 & sts2 & Hin & Hid & Hst & Hp & -> & ->).
    destruct (device_step_serving _ _ _ _ _ Hst (Hd eni Hin Hid)) as [-> ->].
    by destruct (IH _ _ Hp) as [-> ->].
Qed.

Lemma device_step_asks e eni d tr sts :
  device_step e eni d tr sts → actionable d eni → Forall accepted tr →
  serving eni ∨
  Event (S:=Ctl) (AttachNetworkInterface (attach_request e d)) (inl ()) ∈ tr ∨
  Event (S:=Ctl) (ModifyNetworkInterfaceAttribute (convert_request e d)) (inl ()) ∈ tr.
Proof.
  intros Hd Ha Hok. destruct Hd as [| |err|r|err|status Hst Hn1 Hn2];
    [by left|right; left; by left| |right; right; by left| |].
  - by apply Forall_cons in Hok as [[] _].
  - by apply Forall_cons in Hok as [[] _].
  - left. unfold actionable in Ha. destruct Ha as [?|[[? Hs]|[? Hs]]]; [done|..]; exfalso;
      rewrite Hst in Hs; injection Hs as ->; [apply Hn2|apply Hn1]; auto.
Qed.

Lemma device_pass_asks e enis devices tr sts d :
  device_pass e enis devices tr sts → d ∈ devices → Forall accepted tr →
  (∀ eni, eni ∈ enis → eni_NetworkInterfaceId eni = Some (dev_ID d) → actionable d eni) →
  (∃ eni, eni ∈ enis ∧ eni_NetworkInterfaceId eni = Some (dev_ID d) ∧ serving eni) ∨
  Event (S:=Ctl) (AttachNetworkInterface (attach_request e d)) (inl ()) ∈ tr ∨
  Event (S:=Ctl) (ModifyNetworkInterfaceAttribute (convert_request e d)) (inl ()) ∈ tr.
Proof.
  intros Hp Hd Hok Ha. revert tr sts Hp Hok; induction devices as [|d' devices IH];
    intros tr sts Hp Hok; [by apply not_elem_of_nil in Hd|].
  apply device_pass_cons in Hp as (eni & tr1 & sts1 & tr2 & sts2 & Hin & Hid & Hst & Hp & -> & ->).
  apply Forall_app in Hok as [Hok1 Hok2]. rewrite !elem_of_app.
  apply elem_of_cons in Hd as [->|Hd].
  - destruct (device_step_asks _ _ _ _ _ Hst (Ha eni Hin Hid) Hok1) as [?|[?|?]]; eauto 10.
  - destruct (IH Hd _ _ Hp Hok2) as [?|[?|?]]; auto.
Qed.

(** What a pass that returned did, as a [device_pass]. *)
Lemma ensure_returned e devices tr sts :
  exec (EnsureEriForInstance e devices) tr (Ret sts) →
  ∃ resp tr',
    tr = Event (S:=Ctl) (DescribeNetworkInterfaces (ensure_request e devices)) (inl resp) :: tr' ∧
    device_pass e (dni_NetworkInterfaceSet resp) devices tr' sts.
Proof.
  intros ([resp|err] & tr' & -> & H)%EnsureEriForInstance_post; [|naive_solver].
  exists resp, tr'. split; [done|].
  destruct H as [(sts' & [= ->] & H)|[(_ & ? & _)|(l1 & d & l2 & sts' & _ & _ & H)]]; [done..|].
  destruct H.
Qed.

(** ** Properties *)

(** A device whose every ENI is reported ready is left alone: the pass
    only reads it, and is not repeated. *)
Lemma DeviceReconcile_settled e name tr o device :
  exec (DeviceReconcile e name) tr o →
  head tr = Some (Event (S:=Ctl) (GetDevice name) (inl device)) →
  time_IsZero (meta_DeletionTimestamp (device_ObjectMeta device)) = true → settled device →
  tr = [Event (S:=Ctl) (GetDevice name) (inl device)] ∧ o = Ret noResult.
Proof.
  intros (res & tr' & -> & H)%DeviceReconcile_pass Hh Hz Hs. injection Hh as ->%inj_pair2.
  rewrite Hz, (proj2 (settledb_spec device) Hs) in H. by destruct H as [-> ->].
Qed.

(** C24: On an unsettled device a pass that returns has driven the devices of
    the spec, has written exactly the statuses that gave, and is repeated after
    ten seconds if and only if one of them is not ready. *)
Theorem DeviceReconcile_drives e name tr res device :
  exec (DeviceReconcile e name) tr (Ret res) →
  head tr = Some (Event (S:=Ctl) (GetDevice name) (inl device)) →
  time_IsZero (meta_DeletionTimestamp (device_ObjectMeta device)) = true → ¬ settled device →
  ∃ tr1 sts,
    tr = Event (S:=Ctl) (GetDevice name) (inl device) :: tr1 ++
         [Event (S:=Ctl) (UpdateDeviceStatus (withStatus device sts)) (inl ())] ∧
    exec (EnsureEriForInstance e (spec_Devices (device_Spec device))) tr1 (Ret sts) ∧
    (res = mkResult true (10 * Second) ∧ Exists (λ st, st_Status st ≠ DeviceStatusReady) sts ∨
     res = noResult ∧ Forall (λ st, st_Status st = DeviceStatusReady) sts).
Proof.
  intros (got & tr' & -> & H)%DeviceReconcile_pass Hh Hz Hs. injection Hh as ->%inj_pair2.
  rewrite Hz in H. destruct (settledb device) eqn:Hb; [by apply settledb_spec in Hb|].
  destruct H as (tr1 & o1 & He & H). destruct o1 as [sts|err|f]; [|naive_solver..].
  destruct H as (upd & -> & Ho). destruct upd as [[]|err]; [|done]. exists tr1, sts.
  split_and!; [done..|]. injection Ho as ->. destruct (existsb notReady sts) eqn:Hr.
  - left. split; [done|]. apply existsb_exists in Hr as (st & Hin & Hst%bool_decide_eq_true).
    apply Exists_exists. exists st. split; [by apply list_elem_of_In|done].
  - right. split; [done|]. by apply existsb_notReady.
Qed.

(** C5: Two passes are enough when the cloud does what it accepted: if in the
    first pass every ENI is in use or available and no request is refused, and
    by the second pass the cloud has attached and converted what it was asked
    to, then the second pass changes nothing, reports every device ready, and
    the device is settled. *)
Theorem EnsureEriForInstance_converges e device tr1 sts1 tr2 sts2 :
  let devices := spec_Devices (device_Spec device) in
  exec (EnsureEriForInstance e devices) tr1 (Ret sts1) →
  exec (EnsureEriForInstance e devices) tr2 (Ret sts2) →
  Forall accepted tr1 →
  (∀ resp1 resp2 d,
     head tr1 = Some (Event (S:=Ctl) (DescribeNetworkInterfaces (ensure_request e devices)) (inl resp1)) →
     head tr2 = Some (Event (S:=Ctl) (DescribeNetworkInterfaces (ensure_request e devices)) (inl resp2)) →
     d ∈ devices →
     (∀ eni, eni ∈ dni_NetworkInterfaceSet resp1 →
        eni_NetworkInterfaceId eni = Some (dev_ID d) → actionable d eni) ∧
     carried_out e (dni_NetworkInterfaceSet resp1) tr1 d (dni_NetworkInterfaceSet resp2)) →
  sts2 = ready_status <$> devices ∧ Forall (λ ev, ecs_mutates ev = false) tr2 ∧
  settled (withStatus device sts2).
Proof.
  intros devices (resp1 & tr1' & -> & Hp1)%ensure_returned (resp2 & tr2' & -> & Hp2)%ensure_returned
    Hok Hc.
  apply Forall_cons in Hok as [_ Hok].
  destruct (device_pass_serving _ _ _ _ _ Hp2) as [-> ->].
  - apply Forall_forall. intros d Hd. destruct (Hc resp1 resp2 d eq_refl eq_refl Hd) as [Ha Ho].
    apply Ho. rewrite !elem_of_cons.
    destruct (device_pass_asks _ _ _ _ _ _ Hp1 Hd Hok Ha) as [?|[?|?]]; auto.
  - split_and!; [done|by repeat constructor|]. unfold settled, withStatus. simpl.
    rewrite length_fmap. split; [done|]. by apply Forall_fmap, Forall_forall.
Qed.

(** ** ENIs between two states *)

(** The cloud is still attaching or detaching the ENI. *)
Definition transitional (eni : ENI) : Prop :=
  ∃ status, eni_Status eni = Some status ∧ status ≠ ENIStatusInUse ∧ status ≠ ENIStatusAvailable.

Lemma device_pass_transitional e enis devices tr sts :
  device_pass e enis devices tr sts → Forall transitional enis → tr = [] ∧ sts = [].
Proof.
  intros Hp Ht. rewrite Forall_forall in Ht.
  revert tr sts Hp; induction devices as [|d devices IH]; intros tr sts Hp.
  - by destruct Hp as (steps & ->%Forall2_nil_inv_l & -> & ->).
  - apply device_pass_cons in Hp as (eni & tr1 & sts1 & tr2 & sts2 & Hin & _ & Hst & Hp & -> & ->).
    destruct (IH _ _ Hp) as [-> ->]. destruct (Ht eni Hin) as (status & Hs & Hiu & Hav).
    assert (∀ x, eni_Status eni = Some x → x = status) as Hx by (intros x Hx; congruence).
    destruct Hst as [H1|_ H1|err _ H1|r _ H1|err _ H1|]; [..|done]; apply Hx in H1; congruence.
Qed.

(** C40: While the cloud is still attaching the ENIs of an unsettled device, a
    pass reports no status at all for them and is not repeated, although no
    device is ready: nothing brings the reconciler back to finish the job. *)
Theorem DeviceReconcile_stalls e name tr res device :
  exec (DeviceReconcile e name) tr (Ret res) →
  head tr = Some (Event (S:=Ctl) (GetDevice name) (inl device)) →
  time_IsZero (meta_DeletionTimestamp (device_ObjectMeta device)) = true → ¬ settled device →
  (∀ req resp, Event (S:=Ctl) (DescribeNetworkInterfaces req) (inl resp) ∈ tr →
     Forall transitional (dni_NetworkInterfaceSet resp)) →
  res = noResult ∧ Event (S:=Ctl) (UpdateDeviceStatus (withStatus device [])) (inl ()) ∈ tr.
Proof.
  intros (got & tr' & -> & H)%DeviceReconcile_pass Hh Hz Hs Ht. injection Hh as ->%inj_pair2.
  rewrite Hz in H. destruct (settledb device) eqn:Hb; [by apply settledb_spec in Hb|].
  destruct H as (tr1 & o1 & He & H). destruct o1 as [sts|err|f]; [|naive_solver..].
  destruct H as (upd & -> & Ho). destruct upd as [[]|err]; [|done].
  apply ensure_returned in He as (resp & tr2 & -> & Hp).
  apply device_pass_transitional in Hp as [-> ->].
  - simpl in Ho. split; [by injection Ho|]. right. right. by left.
  - eapply Ht. right. by left.
Qed.

(** ** The properties at concrete inputs *)

Definition d_client : EriClient := mkEriClient "cn-hangzhou" false.

Definition d_run (enis : list ENI) (device : ERdmaDevice) : outcome Result * trace Ctl :=
  run (inventory_env (cluster enis [device])) [] (DeviceReconcile d_client "node-1").

Lemma d_run_exec enis device :
  exec (DeviceReconcile d_client "node-1") (d_run enis device).2 (d_run enis device).1.
Proof. apply run_exec. Defined.

Definition d_settled : ERdmaDevice := erdma_device [device_0] [ready_status device_0].
Definition d_fresh : ERdmaDevice := erdma_device [device_1] [].

Lemma DeviceReconcile_settled_witness :
  (d_run [] d_settled).2 = [Event (S:=Ctl) (GetDevice "node-1") (inl d_settled)].
Proof.
  destruct (DeviceReconcile_settled _ _ _ _ d_settled (d_run_exec [] d_settled)
    ltac:(vm_compute; reflexivity) ltac:(reflexivity)
    ltac:(split; [reflexivity|repeat constructor])) as [H _].
  exact H.
Defined.

Lemma d_fresh_unsettled : ¬ settled d_fresh.
Proof. intros [H _]. discriminate H. Defined.

Lemma d_fresh_requeued :
  exec (DeviceReconcile d_client "node-1") (d_run [eni_available] d_fresh).2
    (Ret (mkResult true (10 * Second))).
Proof. apply run_returns. vm_compute. reflexivity. Defined.

Lemma DeviceReconcile_drives_witness :
  ∃ tr1 sts, exec (EnsureEriForInstance d_client [device_1]) tr1 (Ret sts) ∧
    Exists (λ st, st_Status st ≠ DeviceStatusReady) sts.
Proof.
  destruct (DeviceReconcile_drives _ _ _ _ d_fresh d_fresh_requeued
    ltac:(vm_compute; reflexivity) ltac:(reflexivity) d_fresh_unsettled)
    as (tr1 & sts & _ & He & [[_ H]|[H _]]); [|discriminate H].
  exists tr1, sts. split; [exact He|exact H].
Defined.

(** The ENI of [device_1] once attached. *)
Definition d_attached : ENI :=
  mkENI (Some "eni-1") (Some "HighPerformance") (Some 8) (Some "Secondary") (Some "00:16:3e:00:00:02")
    (Some (mkAttachment (Some 1))) (Some "i-1") (Some "InUse") (Some owned_tags).

Definition d_pass (eni : ENI) : trace Ctl :=
  (run (inventory_env (cluster [eni] [])) [] (EnsureEriForInstance d_client [device_1])).2.

Lemma d_pass_available :
  exec (EnsureEriForInstance d_client [device_1]) (d_pass eni_available)
    (Ret [mkDeviceStatus "eni-1" "Pending" ε]).
Proof. apply run_returns. vm_compute. reflexivity. Defined.

Lemma d_pass_attached :
  exec (EnsureEriForInstance d_client [device_1]) (d_pass d_attached) (Ret [ready_status device_1]).
Proof. apply run_returns. vm_compute. reflexivity. Defined.

Definition described (ev : option (event Ctl)) : option DescribeNetworkInterfacesResponse :=
  match ev with
  | Some (Event (DescribeNetworkInterfaces _) (inl resp)) => Some resp
  | _ => None
  end.

Lemma EnsureEriForInstance_converges_witness :
  Forall (λ ev, ecs_mutates ev = false) (d_pass d_attached) ∧
  settled (withStatus d_fresh [ready_status device_1]).
Proof.
  destruct (EnsureEriForInstance_converges d_client d_fresh _ _ _ _ d_pass_available d_pass_attached)
    as (_ & H1 & H2); [repeat constructor| |split; [exact H1|exact H2]].
  intros resp1 resp2 d H1 H2 Hd.
  assert (resp1 = mkENIs (Some 200) [eni_available]) as ->.
  { apply (f_equal described) in H1. vm_compute in H1. injection H1 as <-. reflexivity. }
  assert (resp2 = mkENIs (Some 200) [d_attached]) as ->.
  { apply (f_equal described) in H2. vm_compute in H2. injection H2 as <-. reflexivity. }
  apply list_elem_of_singleton in Hd as ->. split.
  - intros eni ->%list_elem_of_singleton _. right; left. by split.
  - intros _ eni ->%list_elem_of_singleton _. by split.
Defined.

Lemma DeviceReconcile_stalls_witness :
  ¬ settled d_fresh ∧
  Event (S:=Ctl) (UpdateDeviceStatus (withStatus d_fresh [])) (inl ()) ∈
    (d_run [eni_attaching] d_fresh).2.
Proof.
  assert (exec (DeviceReconcile d_client "node-1") (d_run [eni_attaching] d_fresh).2 (Ret noResult))
    as H by (apply run_returns; vm_compute; reflexivity).
  split; [exact d_fresh_unsettled|].
  destruct (DeviceReconcile_stalls _ _ _ _ d_fresh H
    ltac:(vm_compute; reflexivity) ltac:(reflexivity) d_fresh_unsettled) as [_ H'].
  - intros req resp Hin. vm_compute in Hin.
    repeat (apply elem_of_cons in Hin as [Hin|Hin]; [try discriminate Hin|]);
      [|by apply not_elem_of_nil in Hin].
    apply (f_equal (λ ev, described (Some ev))) in Hin. simpl in Hin. injection Hin as ->.
    constructor; [|constructor]. eexists. split; [reflexivity|]. split; discriminate.
  - exact H'.
Defined.
