(* ===== verification/DevicePlugin.v ===== *)
(** * DevicePlugin: internal/deviceplugin/deviceplugin.go

    What the plugin advertises to the kubelet and what it grants to containers;
    its server is in PluginServer, its hook in PreStart.  The iteration order of
    a Go map is chosen by the runtime: an operation that ranges over one takes
    the codes of the order. *)

From S2P Require Import Prelude Effects GoStr Types.

(** ** Definitions *)

Definition rdmaCMDevice : string := "/dev/infiniband/rdma_cm".
Definition SMCRPNETEnv : string := "SMCR_PNET".
Definition Healthy : string := "Healthy".

(** [drivers.PNetIDFromDevice]; a nil device is dereferenced. *)
Definition PNetIDFromDevice (info : option ERdmaDeviceInfo) : outcome string :=
  info ← deref info; Ret (RemoveAll ":" (ToUpper (info_MAC info))).

(** The fields of [ERDMADevicePlugin] the requests read. *)
Record ERDMADevicePlugin := mkPlugin {
  dp_devices : gmap string ERdmaDeviceInfo;
  dp_allocAllDevices : bool;
  dp_devicepluginPreStart : bool;
  dp_allocRdmaCM : bool
}.

(** The device map of [NewERDMADevicePlugin]: the last device of a name wins. *)
Definition deviceMap (devices : list ERdmaDeviceInfo) : gmap string ERdmaDeviceInfo :=
  fold_left (λ m d, <[info_Name d := d]> m) devices ∅.

(** [NewERDMADevicePlugin]; [hasRdmaCM] tells whether the host has the device,
    [cri] is the result of connecting to the container runtime. *)
Definition NewERDMADevicePlugin (devices : list ERdmaDeviceInfo)
    (allocAllDevices devicepluginPreStart allocRdmaCM : bool)
    (cri : result unit) (hasRdmaCM : bool) : outcome ERDMADevicePlugin :=
  _ ← (if devicepluginPreStart then of_result cri else Ret tt);
  Ret (mkPlugin (deviceMap devices) allocAllDevices devicepluginPreStart
         (allocRdmaCM && hasRdmaCM)).

(** [GetDevicePluginOptions]: whether the kubelet calls the hook *)
Definition GetDevicePluginOptions (m : ERDMADevicePlugin) : bool := dp_devicepluginPreStart m.

Definition GetPreferredAllocation : outcome unit := errorf "unsupported" [].

(** [pluginapi.Device] *)
Record Device := mkDevice { pd_ID : string; pd_Health : string; pd_NUMA : Z }.

Definition deviceID (name : string) (i : nat) : string := name +:+ "/" +:+ Itoa (Z.of_nat i).

(** The list [ListAndWatch] sends, at once and every five seconds. *)
Definition advertised (m : ERDMADevicePlugin) (order : list nat) : list Device :=
  reorder order (map_to_list (dp_devices m)).*2 ≫= λ d,
    (λ i, mkDevice (deviceID (info_Name d) i) Healthy (info_NUMA d)) <$> seq 0 200.

(** [pluginapi.DeviceSpec] and [pluginapi.ContainerAllocateResponse] *)
Record DeviceSpec := mkDeviceSpec {
  ds_ContainerPath : string; ds_HostPath : string; ds_Permissions : string
}.

Record ContainerAllocateResponse := mkContainerResponse {
  car_Devices : list DeviceSpec;
  car_Envs : gmap string string
}.

(** The loop variables of one container: [devices], [erdmaInfo] and the
    [occupied] map that outlives the container. *)
Record Grant := mkGrant {
  gr_devices : gmap string (list string);
  gr_erdmaInfo : option ERdmaDeviceInfo;
  gr_occupied : gset string
}.

(** One requested id. *)
Definition grantID (m : ERDMADevicePlugin) (devID : string) (g : Grant) : outcome Grant :=
  let devPath := Split "/" devID in
  if decide (length devPath ≤ 1)%nat then Ret g
  else
    name ← index devPath 0;
    if decide (name ∈ gr_occupied g) then Ret g
    else
      let erdmaInfo := dp_devices m !! name in
      info ← deref erdmaInfo;
      Ret (mkGrant (<[name := info_DevPaths info]> (gr_devices g)) erdmaInfo
             ({[name]} ∪ gr_occupied g)).

(** One device of the node, when every device is allocated. *)
Definition grantDevice (dev : ERdmaDeviceInfo) (g : Grant) : outcome Grant :=
  if decide (info_Name dev ∈ gr_occupied g) then Ret g
  else
    Ret (mkGrant (<[info_Name dev := info_DevPaths dev]> (gr_devices g))
           (match gr_erdmaInfo g with None => Some dev | Some i => Some i end)
           ({[info_Name dev]} ∪ gr_occupied g)).

Definition grantContainer (m : ERDMADevicePlugin) (devIDs : list string) (order : list nat)
    (occupied : gset string) : outcome Grant :=
  let g := mkGrant ∅ None occupied in
  if negb (dp_allocAllDevices m)
  then for_each devIDs g (grantID m)
  else for_each (reorder order (map_to_list (dp_devices m)).*2) g grantDevice.

Definition deviceSpec (item : string) : DeviceSpec := mkDeviceSpec item item "rw".

(** The response to one container, if it is given any path. *)
Definition containerResponse (m : ERDMADevicePlugin) (g : Grant) (order : list nat) :
    outcome (option ContainerAllocateResponse) :=
  let devicePaths :=
    reorder order (map_to_list (gr_devices g)).*2 ≫= λ item, deviceSpec <$> item in
  let devicePaths :=
    if dp_allocRdmaCM m then devicePaths ++ [deviceSpec rdmaCMDevice] else devicePaths in
  if decide (devicePaths = []) then Ret None
  else
    pnet ← PNetIDFromDevice (gr_erdmaInfo g);
    Ret (Some (mkContainerResponse devicePaths {[ SMCRPNETEnv := pnet ]})).

(** The body of the loop of [Allocate]. *)
Definition allocateStep (m : ERDMADevicePlugin) (req : list string * (list nat * list nat))
    (s : gset string * list ContainerAllocateResponse) :
    outcome (gset string * list ContainerAllocateResponse) :=
  let '(devIDs, (order1, order2)) := req in
  let '(occupied, responses) := s in
  g ← grantContainer m devIDs order1 occupied;
  r ← containerResponse m g order2;
  Ret (gr_occupied g, match r with Some r => responses ++ [r] | None => responses end).

(** [Allocate]: each container comes with the orders of its two map ranges. *)
Definition Allocate (m : ERDMADevicePlugin) (reqs : list (list string * (list nat * list nat))) :
    outcome (list ContainerAllocateResponse) :=
  '(_, responses) ← for_each reqs (∅, []) (allocateStep m);
  Ret responses.

(** ** What is advertised *)

(** A plugin as [NewERDMADevicePlugin] builds it: the map is keyed by the
    names, and a name is a single path component. *)
Record wf (m : ERDMADevicePlugin) : Prop := {
  wf_key : ∀ name d, dp_devices m !! name = Some d → info_Name d = name;
  wf_name : ∀ name d, dp_devices m !! name = Some d → "/"%char ∉ chars name
}.

Lemma deviceMap_key devices name d : deviceMap devices !! name = Some d → info_Name d = name.
Proof.
  unfold deviceMap. induction devices as [|d' devices IH] using rev_ind; [done|].
  rewrite fold_left_app. simpl. rewrite lookup_insert_Some. naive_solver.
Qed.

Lemma deviceMap_elem devices name d : deviceMap devices !! name = Some d → d ∈ devices.
Proof.
  unfold deviceMap. induction devices as [|d' devices IH] using rev_ind; [done|].
  rewrite fold_left_app, elem_of_app. simpl. rewrite lookup_insert_Some. set_solver.
Qed.

Lemma deviceID_split name i : "/"%char ∉ chars name → Split "/" (deviceID name i) = [name; Itoa (Z.of_nat i)].
Proof.
  intros Hn. unfold deviceID. change ("/" +:+ ?s) with (String "/"%char s).
  rewrite Split_app by done. f_equal. apply Split_no_sep, Itoa_no_char; done.
Qed.

Lemma advertised_elem m order dev :
  dev ∈ advertised m order ↔ ∃ name d i, dp_devices m !! name = Some d ∧ (i < 200)%nat ∧
    dev = mkDevice (deviceID (info_Name d) i) Healthy (info_NUMA d).
Proof.
  unfold advertised. rewrite list_elem_of_bind. split.
  - intros (d & Hd & Hin). rewrite reorder_perm in Hin.
    apply list_elem_of_fmap in Hin as ([name d'] & -> & Hin%elem_of_map_to_list).
    apply list_elem_of_fmap in Hd as (i & -> & Hi%elem_of_seq). exists name, d', i. naive_solver lia.
  - intros (name & d & i & Hd & Hi & ->). exists d. split.
    + apply list_elem_of_fmap. exists i. split; [done|]. apply elem_of_seq. lia.
    + rewrite reorder_perm. apply list_elem_of_fmap. exists (name, d).
      split; [done|]. by apply elem_of_map_to_list.
Qed.

Lemma concat_ids_nodup (l : list ERdmaDeviceInfo) :
  NoDup (info_Name <$> l) → Forall (λ d, "/"%char ∉ chars (info_Name d)) l →
  NoDup (l ≫= λ d, (λ i, deviceID (info_Name d) i) <$> seq 0 200).
Proof.
  induction l as [|d l IH]; [constructor|].
  rewrite fmap_cons. intros [Hd Hnd]%NoDup_cons [Hs Hss]%Forall_cons.
  rewrite bind_cons. apply NoDup_app. split_and!; [| |by apply IH].
  - apply NoDup_fmap_2_strong; [|apply NoDup_seq]. intros i j _ _ E.
    apply (f_equal (Split "/")) in E. rewrite !deviceID_split in E by done.
    injection E as E. apply (inj Itoa) in E. lia.
  - intros x (i & -> & _)%list_elem_of_fmap (d' & Hx & Hin)%list_elem_of_bind.
    apply list_elem_of_fmap in Hx as (j & E & _). apply Hd.
    rewrite Forall_forall in Hss. apply (f_equal (Split "/")) in E.
    rewrite !deviceID_split in E by auto. injection E as E _.
    rewrite E. apply list_elem_of_fmap. eauto.
Qed.

(** The kubelet is told of 200 distinct ids per device, whatever the order
    in which the devices are visited, and each id leads back to its device. *)
Lemma advertised_ids m order :
  wf m →
  NoDup (pd_ID <$> advertised m order) ∧
  length (advertised m order) = (200 * size (dp_devices m))%nat ∧
  Forall (λ dev, ∃ name d i, dp_devices m !! name = Some d ∧ (i < 200)%nat ∧
    Split "/" (pd_ID dev) = [name; Itoa (Z.of_nat i)] ∧ pd_NUMA dev = info_NUMA d)
    (advertised m order).
Proof.
  intros [Hk Hn]. split_and!.
  - unfold advertised. set (ds := reorder _ _).
    assert (ds ≡ₚ (map_to_list (dp_devices m)).*2) as Hp by apply reorder_perm.
    rewrite fmap_bind_list. erewrite list_bind_ext; [apply concat_ids_nodup| |reflexivity].
    3: { intros d. by rewrite <- list_fmap_compose. }
    + rewrite Hp. rewrite <- list_fmap_compose.
      rewrite (list_fmap_ext _ fst); [apply NoDup_fst_map_to_list|].
      intros _ [name d] Hin%list_elem_of_lookup_2%elem_of_map_to_list. by apply Hk.
    + rewrite Hp. apply Forall_fmap, Forall_forall.
      intros [name d] Hin%elem_of_map_to_list. simpl. rewrite (Hk _ _ Hin). by eapply Hn.
  - unfold advertised. rewrite <- (length_map_to_list (dp_devices m)).
    transitivity (200 * length (reorder order (map_to_list (dp_devices m)).*2))%nat.
    + induction (reorder _ _) as [|d ds IH]; [done|]. rewrite bind_cons, length_app, IH.
      rewrite length_fmap, length_seq. simpl. lia.
    + by rewrite reorder_perm, length_fmap.
  - apply Forall_forall. intros dev (name & d & i & Hd & Hi & ->)%advertised_elem.
    exists name, d, i. split_and!; [done..| |done]. simpl.
    rewrite (Hk _ _ Hd). apply deviceID_split. by eapply Hn.
Qed.

(** ** What is granted *)

(** The device a requested id names. *)
Definition named (devID : string) : option string :=
  match Split "/" devID with name :: _ :: _ => Some name | _ => None end.

(** The devices a container asks for. *)
Definition requested (m : ERDMADevicePlugin) (devIDs : list string) : gset string :=
  if dp_allocAllDevices m then dom (dp_devices m) else list_to_set (omap named devIDs).

(** What each container gets: what it asks for, less what an earlier container
    of the same request already got. *)
Fixpoint shares (m : ERDMADevicePlugin) (occupied : gset string) (reqs : list (list string)) :
    list (gset string) :=
  match reqs with
  | [] => []
  | devIDs :: reqs =>
      let share := requested m devIDs ∖ occupied in
      share :: shares m (share ∪ occupied) reqs
  end.

Definition known (m : ERDMADevicePlugin) (devIDs : list string) : Prop :=
  dp_allocAllDevices m = true ∨
  Forall (λ devID, ∀ name, named devID = Some name → is_Some (dp_devices m !! name)) devIDs.

(** The state of the loop once the names [done] have been seen. *)
Record granted (m : ERDMADevicePlugin) (occupied done : gset string) (g : Grant) : Prop := {
  gt_occupied : gr_occupied g = occupied ∪ done;
  gt_known : ∀ name, name ∈ done ∖ occupied → is_Some (dp_devices m !! name);
  gt_devices : ∀ name paths, gr_devices g !! name = Some paths ↔
    name ∈ done ∖ occupied ∧ ∃ d, dp_devices m !! name = Some d ∧ paths = info_DevPaths d;
  gt_info : match gr_erdmaInfo g with
            | None => done ⊆ occupied
            | Some d => ∃ name, name ∈ done ∖ occupied ∧ dp_devices m !! name = Some d
            end
}.

Lemma granted_step m occupied done g name d info :
  granted m occupied done g → dp_devices m !! name = Some d → name ∉ gr_occupied g →
  info = Some d ∨ (∃ i, gr_erdmaInfo g = Some i ∧ info = Some i) →
  granted m occupied (done ∪ {[name]})
    (mkGrant (<[name := info_DevPaths d]> (gr_devices g)) info ({[name]} ∪ gr_occupied g)).
Proof.
  intros [Ho Hk Hd Hi] Hm Hn Hinfo. rewrite Ho in Hn. split; simpl.
  - rewrite Ho. set_solver.
  - intros name' H. destruct (decide (name' = name)) as [->|]; [eauto|]. apply Hk. set_solver.
  - intros name' paths. rewrite lookup_insert_Some, Hd. split.
    + intros [[-> <-]|[Hne [H1 H2]]]; [|set_solver]. split; [set_solver|eauto].
    + intros [H1 (d' & H2 & ->)]. destruct (decide (name = name')) as [->|Hne].
      * left. naive_solver.
      * right. split; [done|]. split; [set_solver|eauto].
  - destruct Hinfo as [->|(i & Hi' & ->)].
    + exists name. split; [set_solver|done].
    + rewrite Hi' in Hi. destruct Hi as (name' & H1 & H2). exists name'. split; [set_solver|done].
Qed.

Lemma granted_skip m occupied done g name :
  granted m occupied done g → name ∈ gr_occupied g → granted m occupied (done ∪ {[name]}) g.
Proof.
  intros [Ho Hk Hd Hi] Hn. rewrite Ho in Hn. split.
  - rewrite Ho. set_solver.
  - intros name' H. apply Hk. set_solver.
  - intros name' paths. rewrite Hd. assert (name' ∈ (done ∪ {[name]}) ∖ occupied ↔ name' ∈ done ∖ occupied)
      as -> by set_solver. done.
  - destruct (gr_erdmaInfo g); [|set_solver]. destruct Hi as (name' & H1 & H2).
    exists name'. split; [set_solver|done].
Qed.

Lemma granted_init m occupied : granted m occupied ∅ (mkGrant ∅ None occupied).
Proof.
  split; simpl; [set_solver|set_solver| |set_solver]. intros. rewrite lookup_empty. set_solver.
Qed.

Lemma grantID_named m devID g :
  grantID m devID g =
    match named devID with
    | None => Ret g
    | Some name =>
        if decide (name ∈ gr_occupied g) then Ret g
        else info ← deref (dp_devices m !! name);
             Ret (mkGrant (<[name := info_DevPaths info]> (gr_devices g)) (dp_devices m !! name)
                    ({[name]} ∪ gr_occupied g))
    end.
Proof.
  unfold grantID, named, index. pose proof (Split_not_nil "/" devID).
  destruct (Split "/" devID) as [|name [|w ws]]; done.
Qed.

(** A container whose devices are known is granted exactly its share. *)
Lemma grantContainer_granted m devIDs order occupied :
  wf m → known m devIDs →
  ∃ g, grantContainer m devIDs order occupied = Ret g ∧
    granted m occupied (requested m devIDs) g.
Proof.
  intros Hwf Hk. unfold grantContainer, requested, known in *.
  destruct (dp_allocAllDevices m); simpl.
  - set (ds := reorder order (map_to_list (dp_devices m)).*2).
    assert (dom (dp_devices m) = list_to_set (info_Name <$> ds)) as ->.
    { apply set_eq. intros name. rewrite elem_of_dom, elem_of_list_to_set, list_elem_of_fmap.
      unfold ds. setoid_rewrite reorder_perm. setoid_rewrite list_elem_of_fmap. split.
      - intros [d Hd]. exists d. split; [by rewrite (wf_key _ Hwf _ _ Hd)|].
        exists (name, d). split; [done|]. by apply elem_of_map_to_list.
      - intros (d & -> & [name' d'] & -> & Hd%elem_of_map_to_list). simpl.
        rewrite (wf_key _ Hwf _ _ Hd). eauto. }
    assert (∀ d, d ∈ ds → dp_devices m !! info_Name d = Some d) as Hds.
    { intros d. unfold ds. rewrite reorder_perm, list_elem_of_fmap.
      intros ([name d'] & -> & Hd%elem_of_map_to_list). simpl. by rewrite (wf_key _ Hwf _ _ Hd). }
    apply (for_each_inv ds _ grantDevice (λ seen g, granted m occupied (list_to_set (info_Name <$> seen)) g));
      [apply granted_init|].
    intros l1 d l2 g El Hg. unfold grantDevice.
    rewrite fmap_app, list_to_set_app_L. simpl. rewrite (right_id_L ∅ (∪)).
    destruct (decide (info_Name d ∈ gr_occupied g)); eexists; (split; [done|]).
    + by apply granted_skip.
    + apply granted_step; [done|apply Hds; rewrite El; set_solver|done|].
      destruct (gr_erdmaInfo g); eauto.
  - destruct Hk as [?|Hk]; [done|]. rewrite Forall_forall in Hk.
    apply (for_each_inv devIDs _ (grantID m)
      (λ seen g, granted m occupied (list_to_set (omap named seen)) g)); [apply granted_init|].
    intros l1 devID l2 g El Hg. rewrite grantID_named, omap_app, list_to_set_app_L. simpl.
    destruct (named devID) as [name|] eqn:Hnm; simpl.
    2: { exists g. by rewrite (right_id_L ∅ (∪)). }
    rewrite (right_id_L ∅ (∪)).
    destruct (decide (name ∈ gr_occupied g)); [exists g; split; [done|]; by apply granted_skip|].
    destruct (Hk devID) with name as [d Hd]; [rewrite El; set_solver|done|].
    rewrite Hd. simpl. eexists. split; [done|]. apply granted_step; auto.
Qed.

Definition paths_of (m : ERDMADevicePlugin) (name : string) : list string :=
  from_option info_DevPaths [] (dp_devices m !! name).

(** The response to a container that was granted [share]. *)
Definition response_for (m : ERDMADevicePlugin) (share : gset string)
    (r : option ContainerAllocateResponse) : Prop :=
  ∃ paths, paths ≡ₚ (elements share ≫= paths_of m) ++
                   (if dp_allocRdmaCM m then [rdmaCMDevice] else []) ∧
    match r with
    | None => paths = []
    | Some r => paths ≠ [] ∧ car_Devices r = deviceSpec <$> paths ∧
        ∃ name d pnet, name ∈ share ∧ dp_devices m !! name = Some d ∧
          PNetIDFromDevice (Some d) = Ret pnet ∧ car_Envs r = {[ SMCRPNETEnv := pnet ]}
    end.

Lemma granted_paths m occupied done g order :
  granted m occupied done g →
  reorder order (map_to_list (gr_devices g)).*2 ≫= (λ item, deviceSpec <$> item) ≡ₚ
  deviceSpec <$> (elements (done ∖ occupied) ≫= paths_of m).
Proof.
  intros [_ Hk Hd _]. rewrite reorder_perm, fmap_bind_list.
  assert (map_to_list (gr_devices g) ≡ₚ
    (λ name, (name, paths_of m name)) <$> elements (done ∖ occupied)) as ->.
  - apply NoDup_Permutation.
    + apply NoDup_map_to_list.
    + apply NoDup_fmap; [|apply NoDup_elements]. by intros x y [= ->].
    + intros [name paths]. rewrite elem_of_map_to_list, Hd, list_elem_of_fmap.
      setoid_rewrite elem_of_elements. unfold paths_of. split.
      * intros [Hin (d & Hl & ->)]. exists name. by rewrite Hl.
      * intros (name' & [= -> ->] & Hin). split; [done|]. destruct (Hk name' Hin) as [d Hl].
        exists d. by rewrite Hl.
  - by rewrite <- list_fmap_compose, list_fmap_bind.
Qed.

Lemma containerResponse_for m occupied done g order :
  granted m occupied done g →
  match containerResponse m g order with
  | Ret r => response_for m (done ∖ occupied) r ∧
             (dp_allocRdmaCM m = true → done ∖ occupied ≠ ∅)
  | Panic f => f = NilDeref ∧ done ∖ occupied = ∅ ∧ dp_allocRdmaCM m = true
  | Err _ => False
  end.
Proof.
  intros Hg. pose proof (granted_paths m occupied done g order Hg) as Hp.
  unfold containerResponse. set (paths0 := reorder _ _ ≫= _) in *.
  set (base := elements (done ∖ occupied) ≫= paths_of m) in *.
  assert (∃ paths, (if dp_allocRdmaCM m then paths0 ++ [deviceSpec rdmaCMDevice] else paths0) =
      deviceSpec <$> paths ∧ paths ≡ₚ base ++ (if dp_allocRdmaCM m then [rdmaCMDevice] else []))
    as (paths & -> & Hpaths).
  { assert (paths0 ≡ₚ deviceSpec <$> base) as Hp' by done.
    apply Permutation_map_inv in Hp' as (ps & E & Hps).
    change (map deviceSpec ps) with (deviceSpec <$> ps) in E. rewrite E.
    destruct (dp_allocRdmaCM m); [exists (ps ++ [rdmaCMDevice])|exists ps; by rewrite app_nil_r].
    by rewrite fmap_app, Hps. }
  destruct (decide (deviceSpec <$> paths = [])) as [Hnil%fmap_nil_inv|Hne].
  - split; [exists paths; done|]. intros Hcm. rewrite Hcm, Hnil in Hpaths.
    by apply Permutation_nil, app_nil in Hpaths as [_ ?].
  - pose proof (gt_info _ _ _ _ Hg) as Hi. destruct (gr_erdmaInfo g) as [d|]; simpl.
    + destruct Hi as (name & Hin & Hd). split; [|set_solver]. exists paths. split; [done|].
      split; [by intros ->|]. split; [done|]. by exists name, d, (RemoveAll ":" (ToUpper (info_MAC d))).
    + assert (done ∖ occupied = ∅) as He by set_solver. split_and!; [done..|].
      destruct (dp_allocRdmaCM m); [done|]. exfalso. apply Hne.
      unfold base in Hpaths. rewrite He, elements_empty in Hpaths. simpl in Hpaths.
      by apply Permutation_nil_r in Hpaths as ->.
Qed.

Lemma allocate_loop m reqs occupied acc :
  wf m → Forall (known m) reqs.*1 →
  match for_each reqs (occupied, acc) (allocateStep m) with
  | Ret (_, responses) => ∃ rs, responses = acc ++ omap id rs ∧
      Forall2 (response_for m) (shares m occupied reqs.*1) rs ∧
      (dp_allocRdmaCM m = true → ∅ ∉ shares m occupied reqs.*1)
  | Panic f => f = NilDeref ∧ dp_allocRdmaCM m = true ∧ ∅ ∈ shares m occupied reqs.*1
  | Err _ => False
  end.
Proof.
  intros Hwf. revert occupied acc. induction reqs as [|[devIDs [o1 o2]] reqs IH]; intros occupied acc Hk.
  - exists []. rewrite app_nil_r. split_and!; [done|constructor|set_solver].
  - rewrite fmap_cons in *. apply Forall_cons in Hk as [Hk Hks]. simpl.
    destruct (grantContainer_granted m devIDs o1 occupied Hwf Hk) as (g & -> & Hg). simpl.
    pose proof (containerResponse_for m _ _ g o2 Hg) as Hr.
    assert (gr_occupied g = requested m devIDs ∖ occupied ∪ occupied) as Ho.
    { rewrite (gt_occupied _ _ _ _ Hg). apply set_eq. intros x.
      destruct (decide (x ∈ occupied)); set_solver. }
    destruct (containerResponse m g o2) as [r| |f]; simpl; [|done|].
    2: { destruct Hr as (-> & He & Hcm). split_and!; [done..|]. rewrite He. by left. }
    rewrite Ho. destruct Hr as [Hr Hne].
    specialize (IH (requested m devIDs ∖ occupied ∪ occupied)
      (match r with Some r => acc ++ [r] | None => acc end) Hks).
    destruct (for_each reqs _ _) as [[occ responses]| |f]; [|done|].
    + destruct IH as (rs & -> & Hrs & Hemp). exists (r :: rs). split_and!.
      * destruct r; [by rewrite <- (assoc_L (++))|done].
      * by constructor.
      * intros Hcm [He|He]%elem_of_cons; [by apply Hne|by apply Hemp].
    + destruct IH as (-> & Hcm & He). split_and!; [done..|]. by right.
Qed.

(** No device is in two shares. *)
Lemma shares_disjoint m occupied reqs :
  (∀ s, s ∈ shares m occupied reqs → s ## occupied) ∧
  ∀ i j si sj, shares m occupied reqs !! i = Some si → shares m occupied reqs !! j = Some sj →
    i ≠ j → si ## sj.
Proof.
  revert occupied; induction reqs as [|r reqs IH]; intros occupied; [set_solver|].
  simpl. set (s := requested m r ∖ occupied). destruct (IH (s ∪ occupied)) as [IH1 IH2].
  split.
  - intros s' [->|Hs]%elem_of_cons; [set_solver|]. specialize (IH1 _ Hs). set_solver.
  - intros i j si sj Hi Hj Hij. destruct i as [|i], j as [|j]; simplify_eq/=.
    + apply list_elem_of_lookup_2, IH1 in Hj. set_solver.
    + apply list_elem_of_lookup_2, IH1 in Hi. set_solver.
    + apply (IH2 i j); auto.
Qed.

(** C16: A request for known devices is answered container by container: the
    devices of a container are those it asks for that no earlier container of
    the request has; its paths are exactly theirs (and the connection
    manager's), its [SMCR_PNET] is that of one of them, and a container without
    a path has no response.  No device is granted twice. *)
Theorem Allocate_shares m reqs responses :
  wf m → Forall (known m) reqs.*1 → Allocate m reqs = Ret responses →
  (∃ rs, responses = omap id rs ∧ Forall2 (response_for m) (shares m ∅ reqs.*1) rs) ∧
  ∀ i j si sj, shares m ∅ reqs.*1 !! i = Some si → shares m ∅ reqs.*1 !! j = Some sj →
    i ≠ j → si ## sj.
Proof.
  intros Hwf Hk H. pose proof (allocate_loop m reqs ∅ [] Hwf Hk) as Hl. unfold Allocate in H.
  split; [|apply shares_disjoint].
  destruct (for_each _ _ _) as [[occ rs']| |]; simplify_eq/=.
  destruct Hl as (rs & -> & Hrs & _). eauto.
Qed.

(** C35: A request for known devices never fails with an error; it panics, on a
    nil device, exactly when the connection manager is to be granted and some
    container's devices all went to earlier containers. *)
Theorem Allocate_panics_iff m reqs :
  wf m → Forall (known m) reqs.*1 →
  match Allocate m reqs with
  | Ret _ => dp_allocRdmaCM m = false ∨ ∅ ∉ shares m ∅ reqs.*1
  | Err _ => False
  | Panic f => f = NilDeref ∧ dp_allocRdmaCM m = true ∧ ∅ ∈ shares m ∅ reqs.*1
  end.
Proof.
  intros Hwf Hk. pose proof (allocate_loop m reqs ∅ [] Hwf Hk) as Hl. unfold Allocate.
  destruct (for_each _ _ _) as [[occ rs']| |]; simpl; [|done..].
  destruct Hl as (rs & _ & _ & Hne). destruct (dp_allocRdmaCM m); auto.
Qed.

(** Every id the plugin advertises is known to it. *)
Lemma advertised_known m order devIDs :
  wf m → devIDs ⊆ pd_ID <$> advertised m order → known m devIDs.
Proof.
  intros Hwf Hsub. right. apply Forall_forall. intros devID Hin name Hn.
  apply Hsub, list_elem_of_fmap in Hin as (dev & -> & Hdev).
  apply advertised_elem in Hdev as (name' & d & i & Hd & _ & ->).
  unfold named in Hn. simpl in Hn. rewrite (wf_key _ Hwf _ _ Hd), deviceID_split in Hn.
  - injection Hn as <-. by exists d.
  - by eapply wf_name.
Qed.

Lemma advertised_named m order devID :
  wf m → devID ∈ pd_ID <$> advertised m order →
  ∃ name d, named devID = Some name ∧ dp_devices m !! name = Some d.
Proof.
  intros Hwf (dev & -> & Hdev)%list_elem_of_fmap.
  apply advertised_elem in Hdev as (name & d & i & Hd & _ & ->). exists name, d. split; [|done].
  unfold named. simpl. rewrite (wf_key _ Hwf _ _ Hd), deviceID_split; [done|]. by eapply wf_name.
Qed.

Lemma named_requested m devIDs devID name d :
  devID ∈ devIDs → named devID = Some name → dp_devices m !! name = Some d →
  name ∈ requested m devIDs.
Proof.
  intros Hin Hn Hd. unfold requested. destruct (dp_allocAllDevices m); [by apply elem_of_dom_2 in Hd|].
  apply elem_of_list_to_set, list_elem_of_omap. eauto.
Qed.

(** A container that asks for advertised ids is served: its response has
    every path of every device it asks for, read-write and at the same place in
    the container as on the host. *)
Lemma Allocate_single m order devIDs o1 o2 :
  wf m → devIDs ≠ [] → devIDs ⊆ pd_ID <$> advertised m order →
  (∀ name d, dp_devices m !! name = Some d → info_DevPaths d ≠ []) →
  ∃ r, Allocate m [(devIDs, (o1, o2))] = Ret [r] ∧
    ∀ devID, devID ∈ devIDs → ∃ name d, named devID = Some name ∧ dp_devices m !! name = Some d ∧
      ∀ path, path ∈ info_DevPaths d → mkDeviceSpec path path "rw" ∈ car_Devices r.
Proof.
  intros Hwf Hne Hsub Hpaths. pose proof (advertised_known _ _ _ Hwf Hsub) as Hk.
  assert (∀ devID, devID ∈ devIDs → ∃ name d, named devID = Some name ∧
    dp_devices m !! name = Some d ∧ name ∈ requested m devIDs) as Hin.
  { intros devID Hd. destruct (advertised_named m order devID Hwf (Hsub _ Hd)) as (name & d & Hn & Hl).
    exists name, d. split_and!; [done..|]. by eapply named_requested. }
  destruct devIDs as [|devID0 devIDs]; [done|].
  destruct (Hin devID0 ltac:(by left)) as (name0 & d0 & _ & Hl0 & Hr0).
  pose proof (allocate_loop m [(devID0 :: devIDs, (o1, o2))] ∅ [] Hwf ltac:(by constructor)) as Hl.
  unfold Allocate. simpl shares in Hl. rewrite difference_empty_L in Hl.
  destruct (for_each _ _ _) as [[occ rs']| |]; simpl; [|done|].
  2: { destruct Hl as (_ & _ & He%list_elem_of_singleton). rewrite <- He in Hr0.
       by apply not_elem_of_empty in Hr0. }
  destruct Hl as (rs & -> & Hrs & _).
  apply Forall2_cons_inv_l in Hrs as (r & rs'' & (paths & Hp & Hr) & ->%Forall2_nil_inv_l & ->).
  assert (∀ name d path, name ∈ requested m (devID0 :: devIDs) → dp_devices m !! name = Some d →
    path ∈ info_DevPaths d → path ∈ paths) as Hpath.
  { intros name d path Hn Hd Hpa. rewrite Hp, elem_of_app, list_elem_of_bind. left. exists name.
    unfold paths_of. rewrite Hd, elem_of_elements. by split. }
  destruct r as [r|].
  - exists r. split; [done|]. destruct Hr as (_ & Hdev & _). rewrite Hdev.
    intros devID Hd. destruct (Hin devID Hd) as (name & d & Hn & Hld & Hrq).
    exists name, d. split_and!; [done..|]. intros path Hpa. apply list_elem_of_fmap.
    exists path. split; [done|]. by eapply Hpath.
  - exfalso. pose proof (Hpaths _ _ Hl0) as Hd0. destruct (info_DevPaths d0) as [|path ps] eqn:E; [done|].
    rewrite Hr in Hpath. apply (not_elem_of_nil path). apply (Hpath name0 d0); [done..|].
    rewrite E. by left.
Qed.

(** ** The plugin on a concrete node *)

(** What [NewERDMADevicePlugin] builds from devices the kernel can name. *)
Lemma NewERDMADevicePlugin_wf devices all pre cm cri has m :
  Forall (λ d, has_char "/" (info_Name d) = false) devices →
  NewERDMADevicePlugin devices all pre cm cri has = Ret m → wf m.
Proof.
  intros Hf H. unfold NewERDMADevicePlugin in H.
  assert (dp_devices m = deviceMap devices) as E
    by (destruct pre; [destruct cri|]; simplify_eq/=; done).
  split; intros name d Hd; rewrite E in Hd; pose proof (deviceMap_key _ _ _ Hd) as Hk; [done|].
  rewrite <- Hk. rewrite Forall_forall in Hf. apply has_char_false, Hf. by eapply deviceMap_elem.
Qed.

Definition p_dev0 : ERdmaDeviceInfo :=
  mkERdmaDeviceInfo "erdma_0" "00:16:3e:00:00:01" ["/dev/infiniband/uverbs0"] 0 0.
Definition p_dev1 : ERdmaDeviceInfo :=
  mkERdmaDeviceInfo "erdma_1" "00:16:3e:00:00:02" ["/dev/infiniband/uverbs1"] 1 0.

Definition p_plugin (allocRdmaCM : bool) : ERDMADevicePlugin :=
  mkPlugin (deviceMap [p_dev0; p_dev1]) false false allocRdmaCM.

Lemma p_wf cm : wf (p_plugin cm).
Proof.
  apply (NewERDMADevicePlugin_wf [p_dev0; p_dev1] false false cm (inl tt) true);
    [repeat constructor|by destruct cm].
Defined.

Definition p_reqs : list (list string * (list nat * list nat)) :=
  [(["erdma_0/3"; "erdma_0/4"], ([], [])); (["erdma_0/5"; "erdma_1/0"], ([], []))].

Lemma p_known cm : Forall (known (p_plugin cm)) p_reqs.*1.
Proof.
  assert (∀ name devID, devID ∈ ["erdma_0/3"; "erdma_0/4"; "erdma_0/5"; "erdma_1/0"] →
    named devID = Some name → is_Some (dp_devices (p_plugin cm) !! name)) as H.
  { intros name devID Hin Hn. rewrite !elem_of_cons in Hin.
    destruct Hin as [->|[->|[->|[->|[]%not_elem_of_nil]]]]; injection Hn as <-; by eexists. }
  repeat (constructor; [right; repeat (constructor; [intros ? ?; eapply H; [|done]; set_solver|]); constructor|]).
  constructor.
Defined.

Lemma advertised_ids_witness :
  wf (p_plugin true) ∧ length (advertised (p_plugin true) [1%nat]) = 400%nat.
Proof.
  split; [apply p_wf|]. destruct (advertised_ids (p_plugin true) [1%nat] (p_wf true)) as (_ & E & _).
  rewrite E. vm_compute. reflexivity.
Defined.

Lemma Allocate_shares_witness :
  ∃ responses, Allocate (p_plugin true) p_reqs = Ret responses ∧ length responses = 2%nat ∧
    ∃ rs, responses = omap id rs ∧
      Forall2 (response_for (p_plugin true)) (shares (p_plugin true) ∅ p_reqs.*1) rs.
Proof.
  eexists. split; [vm_compute; reflexivity|]. split; [reflexivity|].
  exact (proj1 (Allocate_shares (p_plugin true) p_reqs _ (p_wf true) (p_known true)
    ltac:(vm_compute; reflexivity))).
Defined.

Definition p_twice : list (list string * (list nat * list nat)) :=
  [(["erdma_0/3"], ([], [])); (["erdma_0/5"], ([], []))].

Lemma p_twice_known : Forall (known (p_plugin true)) p_twice.*1.
Proof.
  repeat (constructor; [right; constructor; [intros ? [= <-]; by eexists|constructor]|]). constructor.
Defined.

(** Two containers of one pod that each ask for a unit of the same device. *)
Lemma Allocate_panics_iff_witness :
  Allocate (p_plugin true) p_twice = Panic NilDeref ∧ ∅ ∈ shares (p_plugin true) ∅ p_twice.*1.
Proof.
  assert (Allocate (p_plugin true) p_twice = Panic NilDeref) as E by (vm_compute; reflexivity).
  split; [exact E|]. pose proof (Allocate_panics_iff (p_plugin true) p_twice (p_wf true) p_twice_known) as H.
  rewrite E in H. exact (proj2 (proj2 H)).
Defined.

Lemma Allocate_single_witness :
  ∃ r, Allocate (p_plugin true) [(["erdma_0/3"], ([], []))] = Ret [r] ∧
    mkDeviceSpec "/dev/infiniband/uverbs0" "/dev/infiniband/uverbs0" "rw" ∈ car_Devices r.
Proof.
  assert (["erdma_0/3"] ⊆ pd_ID <$> advertised (p_plugin true) []) as Hsub.
  { intros x [->|[]%not_elem_of_nil]%elem_of_cons. apply list_elem_of_fmap.
    exists (mkDevice (deviceID "erdma_0" 3) Healthy 0). split; [reflexivity|].
    apply advertised_elem. exists "erdma_0", p_dev0, 3%nat. split_and!; [reflexivity|lia|reflexivity]. }
  assert (∀ name d, dp_devices (p_plugin true) !! name = Some d → info_DevPaths d ≠ []) as Hp.
  { intros name d Hd. apply (deviceMap_elem [p_dev0; p_dev1]) in Hd.
    rewrite !elem_of_cons in Hd. destruct Hd as [->|[->|[]%not_elem_of_nil]]; discriminate. }
  destruct (Allocate_single (p_plugin true) [] ["erdma_0/3"] [] [] (p_wf true) ltac:(discriminate) Hsub Hp)
    as (r & E & Hr).
  exists r. split; [exact E|]. destruct (Hr "erdma_0/3") as (name & d & Hn & Hd & Hall); [left|].
  injection Hn as <-. apply Hall. assert (Some d = Some p_dev0) as [= ->] by (rewrite <- Hd; vm_compute; reflexivity). left.
Defined.
