(* ===== verification/Host.v ===== *)
(** * Host: what surrounds a process

    Files and commands of the host, the kernel's network configuration
    (netlink), the metadata server, the kubelet, the container runtime, and the
    cluster as the controller reads it when it starts, are the calls of the
    signature [Host]; their replies are chosen by the environment. *)

From S2P Require Import Prelude Effects GoStr Types RuntimeApi.

(** ** Network data *)

(** An IPv4 address as its 32-bit value, and a network with its prefix length:
    what [net.IPNet.String] of an IPv4 network shows. *)
Definition IP : Type := Z.

Record IPNet := mkIPNet { net_IP : IP; net_Ones : Z }.

(** [net.IP.String] and [net.IPNet.String] of IPv4 *)
Definition IP_byte (ip : IP) (k : Z) : Z := Z.land (Z.shiftr ip (8 * k)) 255.

Definition IP_String (ip : IP) : string :=
  Join [Itoa (IP_byte ip 3); Itoa (IP_byte ip 2); Itoa (IP_byte ip 1); Itoa (IP_byte ip 0)] ".".

Definition IPNet_String (n : IPNet) : string :=
  IP_String (net_IP n) +:+ "/" +:+ Itoa (net_Ones n).

(** [netlink.Route]: [Dst] nil is the default route. *)
Record Route := mkRoute {
  rt_Dst : option IPNet;
  rt_Gw : option IP;
  rt_LinkIndex : Z;
  rt_Priority : Z;
  rt_ScopeLink : bool
}.

(** The attributes of a [netlink.Link]; [HardwareAddr] is a list of bytes. *)
Record Link := mkLink {
  lk_Name : string;
  lk_Index : Z;
  lk_MTU : Z;
  lk_OperUp : bool;
  lk_HardwareAddr : option (list Z);
  lk_IsDevice : bool
}.

(** An address of a link, with the two tests [hasNonLinkLocalAddr] makes. *)
Record Addr := mkAddr { ad_IP : IP; ad_LinkLocal : bool }.

Record RdmaLink := mkRdmaLink { rl_Name : string; rl_NodeGuid : string; rl_IsEth : bool }.

(** The devices of one container in a [PodResources]. *)
Record ContainerDevices := mkContainerDevices { cd_ResourceName : string; cd_DeviceIds : list string }.

Record PodResources := mkPodResources {
  pr_Namespace : string; pr_Name : string; pr_Containers : list (list ContainerDevices)
}.

(** ** The signature of the agent process *)

(** [Now] is in nanoseconds since 1970. *)
Inductive HostCall :=
  (* the process, commands and files *)
  | LookupEnv (name : string)
  | Now
  | Exec (args : list string)
  | ReadDir (path : string)
  | ReadFile (path : string)
  | Stat (path : string)
  | Unlink (path : string)
  | MkdirAll (path : string)
  | WriteFile (path data : string)
  (* the container runtime *)
  | CriDial (endPoint addr : string)
  | CriCall (addr : string) (api : CriAPI) (req : CriRequest)
  | DockerClient
  | DockerContainerList (labels : list string)
  | DockerContainerInspect (id : string)
  (* the plugin's server and the kubelet *)
  | Listen (path : string)
  | ServerServe
  | ServerStop
  | RegisterPlugin (endpoint resource : string) (preStart : bool)
  | ListPodResources
  (* the API server *)
  | ListERdmaDevices (nodename : string)
  | GetSecret (ns name : string)
  | CreateSecret (s : Secret)
  | GetWebhookConfig (ns name : string)
  | PatchWebhookConfig (before after : list MutatingWebhook)
  (* starting a process of the cluster *)
  | GetRestConfig
  | NewK8sClient
  | GetEndpointRules (product region network : string)
  | NewSdkCredential (cfg : CredentialConfig)
  | NewEcsClient (cfg : EcsConfig)
  | NewManager (opts : ManagerOptions)
  | SetupController (name : string)
  | AddCheck (name : string)
  | RegisterWebhook (path : string)
  | ManagerStart
  (* keys and certificates *)
  | GenerateKey (bits : Z)
  | CreateCertificate (template parent : CertTemplate) (pub priv : PrivateKey)
  (* netlink *)
  | RdmaLinkList
  | LinkList
  | AddrList4 (link : string)
  | AddrListAll (link : string)
  | AddrAdd (link : string) (addr : IPNet)
  | RouteList4 (link : option string)
  | RouteAdd (r : Route)
  | RouteDel (r : Route)
  | LinkSetMTU (link : string) (mtu : Z)
  | LinkSetUp (link : string)
  | LinkSetDown (link : string)
  (* the metadata server: status code and body *)
  | HttpDo (method url : string) (header : option (string * string)).

Definition host_reply (c : HostCall) : Type :=
  match c with
  | LookupEnv _ => option string
  | Now => Z
  | Exec _ => (string * option error)%type
  | ReadDir _ => result (list string)
  | ReadFile _ => result string
  | Stat _ | Unlink _ | Listen _ | RegisterPlugin _ _ _ | MkdirAll _ | WriteFile _ _ => result unit
  | CriDial _ _ | DockerClient => result unit
  | CriCall _ _ req => result (cri_response req)
  | DockerContainerList _ => result (list string)
  | DockerContainerInspect _ => result ContainerJSON
  | GetSecret _ _ => result Secret
  | CreateSecret _ | PatchWebhookConfig _ _ => result unit
  | GetWebhookConfig _ _ => result (list MutatingWebhook)
  | GetRestConfig | NewK8sClient => result unit
  | GetEndpointRules _ _ _ => result string
  | NewSdkCredential _ | NewEcsClient _ | NewManager _ => result unit
  | SetupController _ | AddCheck _ | ManagerStart => result unit
  | RegisterWebhook _ => unit
  | GenerateKey _ => result PrivateKey
  | CreateCertificate _ _ _ _ => result string
  | ServerServe | ServerStop => unit
  | ListPodResources => result (list PodResources)
  | ListERdmaDevices _ => result (list ERdmaDevice)
  | RdmaLinkList => result (list RdmaLink)
  | LinkList => result (list Link)
  | AddrList4 _ | AddrListAll _ => result (list Addr)
  | RouteList4 _ => result (list Route)
  | AddrAdd _ _ | RouteAdd _ | RouteDel _ | LinkSetMTU _ _ | LinkSetUp _ | LinkSetDown _ =>
      result unit
  | HttpDo _ _ _ => result (Z * result string)
  end.

Definition Host : Sig := {| call := HostCall; reply := host_reply |}.

Definition host (c : HostCall) : prog Host (host_reply c) := perform (S := Host) c.

(** A call whose error ends the function. *)
Definition hcall {A} (p : prog Host (result A)) : prog Host A :=
  r ← p; match r with inl a => mret a | inr err => throw err end.

(** [os.Getenv] *)
Definition Getenv (name : string) : prog Host string := default ε <$> host (LookupEnv name).

(** The response of a runtime that has nothing to report *)
Definition plain_cri (req : CriRequest) : cri_response req :=
  match req with
  | RpcVersion _ => mkVersionResponse "0.1.0" "containerd" "1.7.0" "v1"
  | RpcStatus _ => mkStatusResponse (Some ["RuntimeReady"; "NetworkReady"])
  | RpcPodSandboxStatus _ _ => mkSandboxStatusResponse None ∅
  | RpcPodSandboxStats _ => None
  | RpcListPodSandboxStats _ => []
  | RpcListPodSandbox _ => []
  | RpcListContainers _ => []
  | RpcListContainerStats _ => []
  | RpcContainerStatus _ _ => mkContainerStatusResponse None ∅
  end.

(** A host that has nothing to report and accepts every change: the concrete
    environments of the witnesses answer a few calls otherwise. *)
Definition plain_reply (c : HostCall) : host_reply c :=
  match c with
  | LookupEnv _ => None
  | Now => 0
  | Exec _ => (ε, None)
  | ReadDir _ => inl []
  | ReadFile _ => inl ε
  | Stat _ | Unlink _ | Listen _ | RegisterPlugin _ _ _ | MkdirAll _ | WriteFile _ _ => inl tt
  | CriDial _ _ | DockerClient => inl tt
  | CriCall _ _ req => inl (plain_cri req)
  | DockerContainerList _ => inl []
  | DockerContainerInspect _ => inl (mkContainerJSON None None)
  | GetSecret ns name => inl (mkSecret ns name ∅)
  | CreateSecret _ | PatchWebhookConfig _ _ => inl tt
  | GetWebhookConfig _ _ => inl []
  | GetRestConfig | NewK8sClient => inl tt
  | GetEndpointRules product _ _ => inl (product +:+ ".aliyuncs.com")
  | NewSdkCredential _ | NewEcsClient _ | NewManager _ => inl tt
  | SetupController _ | AddCheck _ | ManagerStart => inl tt
  | RegisterWebhook _ => tt
  | GenerateKey _ => inl (mkPrivateKey ε)
  | CreateCertificate _ _ _ _ => inl ε
  | ServerServe | ServerStop => tt
  | ListPodResources => inl []
  | ListERdmaDevices _ => inl []
  | RdmaLinkList => inl []
  | LinkList => inl []
  | AddrList4 _ | AddrListAll _ => inl []
  | RouteList4 _ => inl []
  | AddrAdd _ _ | RouteAdd _ | RouteDel _ | LinkSetMTU _ _ | LinkSetUp _ | LinkSetDown _ => inl tt
  | HttpDo _ _ _ => inl (404, inl ε)
  end.

Definition plain_env : Env Host := λ _ c, plain_reply c.

(** ** Reasoning about calls *)

Lemma triple_host_bind {B} c (f : host_reply c → prog Host B) Q :
  (∀ r, triple (f r) (λ tr o, Q (Event (S:=Host) c r :: tr) o)) → triple (host c ≫= f) Q.
Proof.
  intros H. apply (triple_bind (S:=Host)). apply (triple_perform (S:=Host)). intros r. apply H.
Qed.

Lemma exec_host {B} c (f : host_reply c → prog Host B) tr o :
  exec (host c ≫= f) tr o ↔ ∃ r tr', tr = Event (S:=Host) c r :: tr' ∧ exec (f r) tr' o.
Proof. done. Qed.

Lemma only_host (P : event Host → Prop) c : (∀ r, P (Event (S:=Host) c r)) → only P (host c).
Proof. apply (only_perform (S:=Host)). Qed.

Lemma panics_host (P : fault → Prop) c : panics P (host c).
Proof. apply (panics_perform (S:=Host)). Qed.

Ltac panics_hcall := match goal with |- panics ?P (host ?c) => exact (panics_host P c) end.

Ltac only_hcall := match goal with |- only ?P (host ?c) => apply (only_host P c); intros ? end.

Tactic Notation "exec_hcall" hyp(H) "as" simple_intropattern(pat) :=
  cbv beta iota in H;
  match type of H with
  | exec (mbind ?f (host ?c)) ?tr ?o => apply (proj1 (exec_host c f tr o)) in H as pat
  end.

(** ** Addresses *)

Definition ip_ok (ip : IP) : Prop := 0 ≤ ip < 4294967296.

Definition net_ok (n : IPNet) : Prop := ip_ok (net_IP n) ∧ 0 ≤ net_Ones n ≤ 32.

Lemma IP_bytes ip : ip_ok ip →
  ip = 16777216 * IP_byte ip 3 + 65536 * IP_byte ip 2 + 256 * IP_byte ip 1 + IP_byte ip 0.
Proof.
  unfold ip_ok, IP_byte. intros H.
  change 255 with (Z.ones 8). rewrite !Z.land_ones, !Z.shiftr_div_pow2 by lia.
  change (2 ^ (8 * 3)) with 16777216. change (2 ^ (8 * 2)) with 65536.
  change (2 ^ (8 * 1)) with 256. change (2 ^ 8) with 256. change (2 ^ (8 * 0)) with 1. rewrite Z.div_1_r.
  pose proof (Z.div_mod ip 256 ltac:(lia)). 
  pose proof (Z.div_mod (ip / 256) 256 ltac:(lia)).
  pose proof (Z.div_mod (ip / 256 / 256) 256 ltac:(lia)).
  rewrite (Z.div_div ip 256 256) in * by lia. rewrite (Z.div_div ip (256 * 256) 256) in * by lia.
  change (256 * 256 * 256) with 16777216 in *. change (256 * 256) with 65536 in *.
  rewrite (Z.mod_small (ip / 16777216) 256) by (split; [apply Z.div_pos; lia|apply Z.div_lt_upper_bound; lia]).
  lia.
Qed.

Lemma dot_free z : "."%char ∉ chars (Itoa z).
Proof. by apply Itoa_no_char. Qed.

#[local] Opaque Itoa.

(** Addresses and networks are determined by how they are printed. *)
Lemma IP_String_inj ip1 ip2 : ip_ok ip1 → ip_ok ip2 → IP_String ip1 = IP_String ip2 → ip1 = ip2.
Proof.
  intros H1 H2 E. apply (f_equal (Split "."%char)) in E. unfold IP_String in E.
  rewrite !Split_Join in E by (try done; repeat constructor; apply dot_free).
  injection E as E3 E2 E1 E0. apply (inj Itoa) in E3, E2, E1, E0.
  rewrite (IP_bytes ip1), (IP_bytes ip2) by done. congruence.
Qed.

Lemma slash_free ip : "/"%char ∉ chars (IP_String ip).
Proof.
  unfold IP_String. cbn [Join]. rewrite !chars_app. rewrite !not_elem_of_app.
  split_and!; try (by apply Itoa_no_char); simpl; rewrite ?not_elem_of_cons;
    (split; [done|apply not_elem_of_nil]).
Qed.

Lemma IPNet_String_inj n1 n2 :
  net_ok n1 → net_ok n2 → IPNet_String n1 = IPNet_String n2 → n1 = n2.
Proof.
  intros [H1 _] [H2 _] E. apply (f_equal (Split "/"%char)) in E. unfold IPNet_String in E.
  change ("/" +:+ ?s) with (String "/"%char s) in E.
  rewrite !Split_app in E by apply slash_free.
  rewrite !Split_no_sep in E by (by apply Itoa_no_char).
  injection E as E1 E2. apply (inj Itoa) in E2. destruct n1 as [ip1 o1], n2 as [ip2 o2]; simpl in *.
  f_equal; [by apply IP_String_inj|done].
Qed.

#[local] Transparent Itoa.
