(* ===== verification/PluginServer.v ===== *)
(** * PluginServer: the life cycle of the device plugin's server

    [Start], [Stop], [cleanup], [watchKubeletRestart] and [Serve] of
    internal/deviceplugin/deviceplugin.go, and the pod lookup of
    pod_resource.go.  The state is whether a server is running and whether the
    [stop] channel is open; closing a closed channel panics. *)

From S2P Require Import Prelude Effects GoStr Types Host.

(** ** Definitions *)

Definition DevicePluginPath : string := "/var/lib/kubelet/device-plugins/".

Record Server := mkServer {
  sv_socket : string;
  sv_preStart : bool;
  sv_running : bool;
  sv_stopOpen : bool
}.

(** [fmt.Sprintf(dpSocketPath, time.Now().Unix())] and a fresh plugin *)
Definition newServer (now : Z) (preStart : bool) : Server :=
  mkServer ("/var/lib/kubelet/device-plugins/" +:+ Itoa now +:+ "-erdma.sock") preStart false true.

(** The unanchored pattern [.*-erdma.sock]: its first dot-star matches the empty
    string, its other dot any byte but a newline. *)
Fixpoint matchSockAt (s : list ascii) : bool :=
  match s with
  | [] => false
  | _ :: s' =>
      (is_prefix (chars "-erdma") s &&
       match drop 6 s with
       | c :: rest => negb (bool_decide (c = newline_char)) && is_prefix (chars "sock") rest
       | [] => false
       end) || matchSockAt s'
  end.

Definition matchSock (name : string) : bool := matchSockAt (chars name).

(** [path.Base] of a path without a trailing slash *)
Definition Base (p : string) : string := List.last (Split "/" p) ε.

(** [cleanup]: the sockets of previous plugins are removed, best effort. *)
Definition cleanup : prog Host (result unit) :=
  r ← host (ReadDir DevicePluginPath);
  match r with
  | inr err => mret (inr err)
  | inl preSocks =>
      for_each preSocks (inl tt) (λ preSock res,
        if matchSock preSock
        then _ ← host (Unlink (DevicePluginPath +:+ preSock)); mret res
        else mret res)
  end.

(** [close(m.stop)] *)
Definition closeStop (m : Server) : prog Host Server :=
  if sv_stopOpen m then mret (mkServer (sv_socket m) (sv_preStart m) (sv_running m) false)
  else panic (Panicked "close of closed channel").

Definition setRunning (m : Server) (running : bool) : Server :=
  mkServer (sv_socket m) (sv_preStart m) running (sv_stopOpen m).

Definition Start (m : Server) : prog Host (Server * result unit) :=
  m ← (if sv_running m then
         m ← closeStop m; _ ← host ServerStop; mret m
       else mret m);
  err ← cleanup;
  match err with
  | inr err => mret (m, inr err)
  | inl _ =>
      sock ← host (Listen (sv_socket m));
      match sock with
      | inr err => mret (m, inr err)
      | inl _ =>
          _ ← host ServerServe;
          mret (mkServer (sv_socket m) (sv_preStart m) true true, inl tt)
      end
  end.

Definition Stop (m : Server) : prog Host (Server * result unit) :=
  if negb (sv_running m) then mret (m, inl tt)
  else
    _ ← host ServerStop;
    m ← closeStop (setRunning m false);
    err ← cleanup;
    mret (m, err).

Definition Register (m : Server) : prog Host (result unit) :=
  host (RegisterPlugin (Base (sv_socket m)) ResourceName (sv_preStart m)).

(** One tick of [watchKubeletRestart] *)
Definition watchTick (m : Server) : prog Host Server :=
  st ← host (Stat (sv_socket m));
  match st with
  | inl _ => mret m
  | inr err =>
      if IsNotFound err then
        '(m, _) ← Stop m;
        '(m, err) ← Start m;
        match err with
        | inr _ => panic (Fatal "error restart device plugin after kubelet restart")
        | inl _ =>
            err ← Register m;
            match err with
            | inr _ => panic (Fatal "error register device plugin after kubelet restart")
            | inl _ => mret m
            end
        end
      else panic (Fatal "error stat socket")
  end.

(** The ticks go on for the life of the process; [n] of them. *)
Fixpoint watchKubeletRestart (n : nat) (m : Server) : prog Host Server :=
  match n with
  | O => mret m
  | S n => m ← watchTick m; watchKubeletRestart n m
  end.

Definition Serve (n : nat) (m : Server) : prog Host Server :=
  '(m, err) ← Start m;
  match err with
  | inr _ => panic (Fatal "Could not start device plugin")
  | inl _ =>
      err ← Register m;
      m ← (match err with
           | inl _ => mret m
           | inr _ =>
               '(m, stopErr) ← Stop m;
               match stopErr with
               | inr _ => panic (Fatal "stop current device plugin server with error")
               | inl _ => mret m
               end
           end);
      watchKubeletRestart n m
  end.

(** [getPodDevices]: the eRDMA ids of each pod; the last of equal pods wins. *)
Definition podDeviceIDs (pr : PodResources) : list string :=
  concat (pr_Containers pr) ≫= λ item,
    if decide (cd_ResourceName item = ResourceName) then cd_DeviceIds item else [].

Definition getPodDevices : prog Host (gmap (string * string) (list string)) :=
  r ← host ListPodResources;
  match r with
  | inr err => errorf "%v.Get(_) = _, %v" ["client"; error_string err]
  | inl prs =>
      mret (fold_left (λ m pr, <[(pr_Namespace pr, pr_Name pr) := podDeviceIDs pr]> m) prs ∅)
  end.

(** [getDevPod]: the first pod, in the order of the map, that holds the id. *)
Definition getDevPod (devId : string) (order : list nat) : prog Host (option (string * string)) :=
  podDevices ← getPodDevices;
  mret (fst <$> find_first (λ '(_, devices), existsb (λ d, bool_decide (d = devId)) devices)
                  (reorder order (map_to_list podDevices))).

(** ** Cleaning up *)

Definition unlinked (name : string) (r : result unit) : event Host :=
  Event (S:=Host) (Unlink (DevicePluginPath +:+ name)) r.

(** [cleanup] reads the kubelet's directory and removes each eRDMA socket in it,
    once, whatever the outcome of each removal. *)
Lemma cleanup_exec tr o :
  exec cleanup tr o →
  ∃ r tr', tr = Event (S:=Host) (ReadDir DevicePluginPath) r :: tr' ∧
    match r with
    | inr err => tr' = [] ∧ o = Ret (inr err)
    | inl names => o = Ret (inl tt) ∧
        Forall2 (λ name ev, ∃ res, ev = unlinked name res) (List.filter matchSock names) tr'
    end.
Proof.
  unfold cleanup. intros H. exec_hcall H as (r & tr' & -> & H). exists r, tr'. split; [done|].
  destruct r as [names|err]; [|done].
  revert tr' H. induction names as [|name names IH]; intros tr' H; [by destruct H as [-> ->]|].
  simpl in H. simpl. destruct (matchSock name).
  - destruct H as (res & tr2 & -> & H). destruct (IH _ H) as [-> Hf]. split; [done|].
    constructor; [by exists res|done].
  - by apply IH.
Qed.

Lemma matchSockAt_app s1 s2 : matchSockAt s2 = true → matchSockAt (s1 ++ s2) = true.
Proof.
  intros H. induction s1 as [|c s1 IH]; [done|]. simpl app. simpl matchSockAt.
  rewrite IH. apply orb_true_r.
Qed.

(** The plugin's own sockets are among those removed. *)
Lemma matchSock_own now : matchSock (Itoa now +:+ "-erdma.sock") = true.
Proof. unfold matchSock. rewrite chars_app. apply matchSockAt_app. reflexivity. Qed.

(** ** The invariant of the server *)

(** A running server's [stop] channel has not been closed. *)
Definition inv (m : Server) : Prop := sv_running m = true → sv_stopOpen m = true.

(** The starting of a server that is not running. *)
Definition start_post (m : Server) (tr : trace Host) (o : outcome (Server * result unit)) : Prop :=
  ∃ trc res, exec cleanup trc (Ret res) ∧
    match res with
    | inr err => tr = trc ∧ o = Ret (m, inr err)
    | inl _ => ∃ sock trs, tr = trc ++ Event (S:=Host) (Listen (sv_socket m)) sock :: trs ∧
        match sock with
        | inr err => trs = [] ∧ o = Ret (m, inr err)
        | inl _ => trs = [Event (S:=Host) ServerServe tt] ∧
                   o = Ret (mkServer (sv_socket m) (sv_preStart m) true true, inl tt)
        end
    end.

Lemma cleanup_ret tr o : exec cleanup tr o → ∃ res, o = Ret res.
Proof.
  intros (r & tr' & _ & H)%cleanup_exec. destruct r as [names|err]; [destruct H as [-> _]|destruct H as [_ ->]];
    by eexists.
Qed.

#[local] Opaque cleanup.

Lemma Start_idle m : sv_running m = false → triple (Start m) (start_post m).
Proof.
  intros Hr tr o H. unfold Start in H. rewrite Hr in H. simpl in H.
  apply exec_bind in H as (trc & oc & Hc & H). destruct (cleanup_ret _ _ Hc) as [res ->].
  exists trc, res. split; [done|]. destruct H as (tr2 & -> & H).
  destruct res as [[]|err]; [|by destruct H as [-> ->]; rewrite app_nil_r].
  destruct H as (sock & trs & -> & H). exists sock, trs. split; [done|].
  destruct sock as [[]|err]; [|done]. by destruct H as ([] & tr3 & -> & -> & ->).
Qed.

Lemma Stop_post m : inv m → triple (Stop m) (λ tr o,
  if sv_running m then
    ∃ trc res, exec cleanup trc (Ret res) ∧ tr = Event (S:=Host) ServerStop tt :: trc ∧
      o = Ret (mkServer (sv_socket m) (sv_preStart m) false false, res)
  else tr = [] ∧ o = Ret (m, inl tt)).
Proof.
  intros Hi tr o H. unfold Stop, closeStop in H. destruct (sv_running m) eqn:Hr; simpl in H; [|done].
  rewrite (Hi Hr) in H. destruct H as ([] & tr1 & -> & H). cbn in H.
  apply exec_bind in H as (trc & oc & Hc & H). destruct (cleanup_ret _ _ Hc) as [res ->].
  destruct H as (tr2 & -> & [-> ->]). exists trc, res. rewrite app_nil_r. done.
Qed.

#[local] Transparent cleanup.

Definition registered (m : Server) (r : result unit) : event Host :=
  Event (S:=Host) (RegisterPlugin (Base (sv_socket m)) ResourceName (sv_preStart m)) r.

(** One tick: the socket is there and nothing happens; or it is gone, as after a
    kubelet restart, and a new server listens on it and is registered; or the
    process ends. *)
Definition tick_post (m : Server) (tr : trace Host) (o : outcome Server) : Prop :=
  match o with
  | Ret m' =>
      (tr = [Event (S:=Host) (Stat (sv_socket m)) (inl tt)] ∧ m' = m) ∨
      (∃ err pre trc, IsNotFound err = true ∧ exec cleanup trc (Ret (inl tt)) ∧
         tr = Event (S:=Host) (Stat (sv_socket m)) (inr err) :: pre ++ trc ++
              [Event (S:=Host) (Listen (sv_socket m)) (inl tt);
               Event (S:=Host) ServerServe tt; registered m (inl tt)] ∧
         m' = mkServer (sv_socket m) (sv_preStart m) true true)
  | Err _ => False
  | Panic f => ∃ msg, f = Fatal msg
  end.

#[local] Opaque Start Stop.

(** A server that was stopped, or never ran, is started and registered. *)
Lemma restart_post m : sv_running m = false →
  triple ('(m, err) ← Start m;
    match err with
    | inr _ => panic (Fatal "error restart device plugin after kubelet restart")
    | inl _ =>
        err ← Register m;
        match err with
        | inr _ => panic (Fatal "error register device plugin after kubelet restart")
        | inl _ => mret m
        end
    end)
    (λ tr o, match o with
     | Ret m' => ∃ trc, exec cleanup trc (Ret (inl tt)) ∧
         tr = trc ++ [Event (S:=Host) (Listen (sv_socket m)) (inl tt);
                      Event (S:=Host) ServerServe tt; registered m (inl tt)] ∧
         m' = mkServer (sv_socket m) (sv_preStart m) true true
     | Err _ => False
     | Panic f => ∃ msg, f = Fatal msg
     end).
Proof.
  intros Hr tr o H. apply exec_bind in H as (tr1 & o1 & H1 & H).
  apply (Start_idle m Hr) in H1 as (trc & res & Hc & H1). destruct res as [[]|err].
  - destruct H1 as (sock & trs & -> & H1). destruct sock as [[]|err].
    + destruct H1 as [-> ->]. destruct H as (tr2 & -> & H). unfold Register in H.
      destruct H as (reg & tr3 & -> & H).
      destruct reg as [[]|err]; destruct H as [-> ->]; [|by eexists].
      exists trc. split; [done|]. by rewrite <- (assoc_L (++)).
    + destruct H1 as [-> ->]. destruct H as (tr2 & -> & [-> ->]). by eexists.
  - destruct H1 as [-> ->]. destruct H as (tr2 & -> & [-> ->]). by eexists.
Qed.

Lemma watchTick_post m : inv m → triple (watchTick m) (tick_post m).
Proof.
  intros Hi tr o H. unfold watchTick in H. exec_hcall H as (st & tr1 & -> & H).
  destruct st as [[]|err]; [destruct H as [-> ->]; by left|].
  destruct (IsNotFound err) eqn:He; [|destruct H as [-> ->]; by eexists].
  apply exec_bind in H as (tr2 & o2 & H2 & H). apply (Stop_post m Hi) in H2.
  assert (∃ m2 res, o2 = Ret (m2, res) ∧ sv_running m2 = false ∧ sv_socket m2 = sv_socket m ∧
            sv_preStart m2 = sv_preStart m) as (m2 & res & -> & Hr2 & Hs2 & Hp2).
  { destruct (sv_running m) eqn:Hr; [destruct H2 as (trc & res & _ & _ & ->)|destruct H2 as [_ ->]];
      eexists _, _; (split_and!; [done..]). }
  destruct H as (tr3 & -> & H). apply (restart_post m2 Hr2) in H.
  destruct o as [m'|e|f]; [|done|done].
  destruct H as (trc & Hc & -> & ->). right. exists err, tr2, trc. unfold registered.
  by rewrite Hs2, Hp2.
Qed.

(** Serving keeps the invariant, and ends only by a fatal error. *)
Lemma Serve_post n m :
  sv_running m = false →
  triple (Serve n m) (λ _ o,
    match o with
    | Ret m' => inv m'
    | Err _ => False
    | Panic f => ∃ msg, f = Fatal msg
    end).
Proof.
  intros Hr tr o H. unfold Serve in H. apply exec_bind in H as (tr1 & o1 & H1 & H).
  apply (Start_idle m Hr) in H1 as (trc & res & _ & H1).
  assert (∃ m1 res1, o1 = Ret (m1, res1) ∧ inv m1) as (m1 & res1 & -> & Hi).
  { destruct res as [[]|err]; [destruct H1 as ([[]|err] & trs & _ & _ & ->)|destruct H1 as [_ ->]];
      eexists _, _; (split; [done|]); [done|intros ?; congruence..]. }
  destruct H as (tr2 & -> & H). destruct res1 as [[]|err]; [|destruct H as [-> ->]; by eexists].
  unfold Register in H. exec_hcall H as (reg & tr3 & -> & H).
  apply exec_bind in H as (tr4 & o4 & H4 & H).
  assert (match o4 with Ret m4 => inv m4 | Err _ => False | Panic f => ∃ msg, f = Fatal msg end) as Ho4.
  { destruct reg as [[]|err]; [by destruct H4 as [_ ->]|].
    apply exec_bind in H4 as (tr5 & o5 & H5 & H4). apply (Stop_post m1 Hi) in H5.
    assert (∃ m5 res, o5 = Ret (m5, res) ∧ inv m5) as (m5 & res5 & -> & Hi5).
    { destruct (sv_running m1) eqn:Hr1; [destruct H5 as (trc5 & res5 & _ & _ & ->)|destruct H5 as [_ ->]];
        eexists _, _; (split; [done|]); done. }
    destruct H4 as (tr6 & -> & H4). destruct res5 as [[]|err']; destruct H4 as [_ ->]; [done|by eexists]. }
  destruct o4 as [m4|e|f]; [|done|by destruct H as [_ ->]].
  destruct H as (tr5 & _ & H). clear -Ho4 H. revert m4 tr5 Ho4 H. induction n as [|n IH]; intros m4 tr5 Hi H.
  - by destruct H as [_ ->].
  - change (watchKubeletRestart (S n) m4) with (m ← watchTick m4; watchKubeletRestart n m) in H.
    apply exec_bind in H as (tr6 & o6 & H6 & H). apply (watchTick_post m4 Hi) in H6.
    destruct o6 as [m6|e|f]; simpl in H6; [|done|by destruct H as [_ ->]].
    destruct H as (tr7 & _ & H). eapply IH; [|exact H].
    destruct H6 as [[_ ->]|(err & pre & trc & _ & _ & _ & ->)]; done.
Qed.

(** C25: However long the plugin serves and whatever the kubelet and the kernel
    answer, the [stop] channel is never closed twice: serving only ever ends by
    one of the fatal errors, and the server it leaves can still be stopped
    without a panic. *)
Theorem Serve_safe n m tr o :
  sv_running m = false → exec (Serve n m) tr o →
  match o with
  | Ret m' => triple (Stop m') (λ _ o', ∃ m'' err, o' = Ret (m'', err) ∧ sv_running m'' = false)
  | Err _ => False
  | Panic f => ∃ msg, f = Fatal msg
  end.
Proof.
  intros Hr H. apply (Serve_post n m Hr) in H. destruct o as [m'|e|f]; [|done..].
  intros tr' o' H'. apply (Stop_post m' H) in H'. destruct (sv_running m') eqn:Hr'.
  - destruct H' as (trc & res & _ & _ & ->). by eexists _, _.
  - destruct H' as [_ ->]. by eexists _, _.
Qed.

(** A server starts listening only after every socket that looks like a
    previous plugin's was removed from the kubelet's directory, its own
    included, and nothing else was removed. *)
Lemma Start_cleans m tr m' :
  sv_running m = false → exec (Start m) tr (Ret (m', inl tt)) →
  m' = mkServer (sv_socket m) (sv_preStart m) true true ∧
  ∃ names trc,
    tr = Event (S:=Host) (ReadDir DevicePluginPath) (inl names) :: trc ++
         [Event (S:=Host) (Listen (sv_socket m)) (inl tt); Event (S:=Host) ServerServe tt] ∧
    Forall2 (λ name ev, ∃ res, ev = unlinked name res) (List.filter matchSock names) trc ∧
    ∀ now, Itoa now +:+ "-erdma.sock" ∈ names →
      Itoa now +:+ "-erdma.sock" ∈ List.filter matchSock names.
Proof.
  intros Hr (trc & res & Hc & H)%(Start_idle m Hr).
  destruct res as [[]|err]; [|naive_solver]. destruct H as (sock & trs & -> & H).
  destruct sock as [[]|err]; [|naive_solver]. destruct H as [-> [= ->]]. split; [done|].
  apply cleanup_exec in Hc as (r & tr' & -> & Hc). destruct r as [names|err]; [|naive_solver].
  destruct Hc as [_ Hc]. exists names, tr'. split_and!; [done..|].
  intros now Hin. apply elem_of_filter_bool. split; [done|]. apply matchSock_own.
Qed.

(** ** The pod of a device *)

Lemma getPodDevices_holds prs pod ids :
  fold_left (λ m pr, <[(pr_Namespace pr, pr_Name pr) := podDeviceIDs pr]> m) prs
    (∅ : gmap (string * string) (list string)) !! pod = Some ids →
  ∃ pr, pr ∈ prs ∧ pod = (pr_Namespace pr, pr_Name pr) ∧ ids = podDeviceIDs pr.
Proof.
  induction prs as [|pr prs IH] using rev_ind; [done|].
  rewrite fold_left_app. simpl. rewrite lookup_insert_Some. setoid_rewrite elem_of_app.
  set_solver.
Qed.

(** Whatever the order in which the map is visited, the pod found for a
    device id is one the kubelet reports to hold it, and when none is found no
    pod does, provided the kubelet reports each pod once. *)
Lemma getDevPod_finds devId order tr res :
  exec (getDevPod devId order) tr (Ret res) →
  ∃ prs, tr = [Event (S:=Host) ListPodResources (inl prs)] ∧
    (∀ pod, res = Some pod → ∃ pr, pr ∈ prs ∧ pod = (pr_Namespace pr, pr_Name pr) ∧
       devId ∈ podDeviceIDs pr) ∧
    (NoDup ((λ pr, (pr_Namespace pr, pr_Name pr)) <$> prs) → res = None →
       ∀ pr, pr ∈ prs → devId ∉ podDeviceIDs pr).
Proof.
  intros H. unfold getDevPod, getPodDevices in H. destruct H as ([prs|err] & tr' & -> & H);
    [|by destruct H].
  destruct H as [-> [= ->]]. exists prs. split; [done|].
  set (m := fold_left _ _ _). split.
  - intros pod Hp. apply fmap_Some in Hp as ([pod' ids] & Hf & ->).
    apply find_first_Some in Hf as (l1 & l2 & E & Hex & _).
    assert ((pod', ids) ∈ map_to_list m) as Hin by (apply (elem_of_reorder order); rewrite E; set_solver).
    apply elem_of_map_to_list, getPodDevices_holds in Hin as (pr & Hpr & -> & ->).
    exists pr. split_and!; [done..|]. apply existsb_exists in Hex as (d & Hd & ->%bool_decide_eq_true).
    by apply list_elem_of_In.
  - intros Hnd Hn pr Hpr Hin. apply fmap_None, find_first_None in Hn.
    rewrite Forall_forall in Hn.
    assert (m !! (pr_Namespace pr, pr_Name pr) = Some (podDeviceIDs pr)) as Hl.
    { clear -Hnd Hpr. unfold m. clear m. induction prs as [|pr' prs IH] using rev_ind; [set_solver|].
      rewrite fold_left_app. simpl. rewrite fmap_app in Hnd. apply NoDup_app in Hnd as (Hnd & Hd & _).
      apply elem_of_app in Hpr as [Hpr| ->%list_elem_of_singleton]; [|by rewrite lookup_insert_eq].
      rewrite lookup_insert_ne; [by apply IH|]. intros E. eapply Hd; [|by left].
      rewrite E. apply list_elem_of_fmap. by exists pr. }
    specialize (Hn ((pr_Namespace pr, pr_Name pr), podDeviceIDs pr)).
    rewrite elem_of_reorder, elem_of_map_to_list in Hn. specialize (Hn Hl).
    apply not_true_iff_false in Hn. apply Hn, existsb_exists. exists devId.
    split; [by apply list_elem_of_In|by apply bool_decide_eq_true].
Qed.

(** ** A plugin on a concrete host *)

(** A host with one socket left over and a kubelet that lists one pod.  The
    kubelet restarts between the first and the second tick. *)
Definition s_env : Env Host := λ h c,
  match c as c return host_reply c with
  | ReadDir _ => inl ["kubelet.sock"; "1700000000-erdma.sock"]
  | Stat _ => if decide (length h = 6%nat) then inr (ApiError NotFound "no such file") else inl tt
  | ListPodResources =>
      inl [mkPodResources "default" "pod-1"
             [[mkContainerDevices "aliyun/erdma" ["erdma_0/3"]]]]
  | c => plain_reply c
  end.

Definition s_server : Server := newServer 1700000001 false.

Definition s_running : Server := mkServer (sv_socket s_server) false true true.

Lemma Serve_safe_witness :
  (run s_env [] (Serve 3 s_server)).1 = Ret s_running ∧
  length (run s_env [] (Serve 3 s_server)).2 = 16%nat ∧
  triple (Stop s_running) (λ _ o', ∃ m'' err, o' = Ret (m'', err) ∧ sv_running m'' = false).
Proof.
  assert ((run s_env [] (Serve 3 s_server)).1 = Ret s_running) as E by (vm_compute; reflexivity).
  split; [exact E|]. split; [vm_compute; reflexivity|].
  exact (Serve_safe 3 s_server _ _ eq_refl (run_returns s_env _ _ E)).
Defined.

Lemma getDevPod_finds_witness :
  (run s_env [] (getDevPod "erdma_0/3" [])).1 = Ret (Some ("default", "pod-1")) ∧
  ∃ (prs : list PodResources) pr, pr ∈ prs ∧ ("default", "pod-1") = (pr_Namespace pr, pr_Name pr) ∧
    "erdma_0/3" ∈ podDeviceIDs pr.
Proof.
  assert ((run s_env [] (getDevPod "erdma_0/3" [])).1 = Ret (Some ("default", "pod-1"))) as E
    by (vm_compute; reflexivity).
  split; [exact E|].
  destruct (getDevPod_finds _ _ _ _ (run_returns s_env _ _ E)) as (prs & _ & H & _).
  destruct (H _ eq_refl) as (pr & Hpr). exists prs, pr. exact Hpr.
Defined.
