(* ===== verification/Metadata.v ===== *)
(** * Metadata: internal/utils/metadata.go

    The client of the instance metadata server: every request carries a token,
    which is cached; a request is tried four times, and a rejected token is
    replaced once. *)

From S2P Require Import Prelude Effects GoStr Types Host.

(** ** The retry library

    [wait.ExponentialBackoff] of apimachinery calls a condition, which updates
    the variables it closes over, until it holds, fails, or the steps run out.
    [attempts] is that behaviour without the pauses between calls. *)

Fixpoint attempts {St} (steps : nat) (s : St) (cond : St → prog Host (St * result bool)) :
    prog Host (St * result unit) :=
  match steps with
  | O => mret (s, inr (Errorf "timed out waiting for the condition" [] None))
  | S steps =>
      '(s, r) ← cond s;
      match r with
      | inl true => mret (s, inl tt)
      | inl false => attempts steps s cond
      | inr err => mret (s, inr err)
      end
  end.

Class BackoffLib := {
  ExponentialBackoff {St} (steps : nat) (s : St) (cond : St → prog Host (St * result bool)) :
    prog Host (St * result unit);
  backoff_attempts {St} steps (s : St) cond tr o :
    exec (ExponentialBackoff steps s cond) tr o ↔ exec (attempts steps s cond) tr o
}.

Definition plainBackoff : BackoffLib := {|
  ExponentialBackoff := @attempts;
  backoff_attempts := λ St steps s cond tr o, conj (λ H, H) (λ H, H)
|}.

(** ** Definitions *)

Definition tokenURL : string := "http://100.100.100.200/latest/api/token".
Definition tokenTimeout : Z := 21600.
Definition ttlHeader : string := "X-aliyun-ecs-metadata-token-ttl-seconds".
Definition tokenHeader : string := "X-aliyun-ecs-metadata-token".

(** The variables of [withRetry]: [innerErr] and [body]. *)
Record Attempt := mkAttempt { at_innerErr : option error; at_body : string }.

(** The condition of [withRetry].  A URL that does not parse fails like a
    request that gets no answer. *)
Definition tryOnce (url : string) (header : string * string) (s : Attempt) :
    prog Host (Attempt * result bool) :=
  let method := if decide (url = tokenURL) then "PUT" else "GET" in
  resp ← host (HttpDo method url (Some header));
  match resp with
  | inr err => mret (mkAttempt (Some (MetaError ε url (Some err))) (at_body s), inl false)
  | inl (code, body) =>
      if bool_decide (code = 429) || (500 <=? code) then
        mret (mkAttempt (Some (MetaError (Itoa code) url None)) (at_body s), inl false)
      else if 400 <=? code then
        let err := MetaError (Itoa code) url None in
        mret (mkAttempt (Some err) (at_body s), inr err)
      else
        match body with
        | inr err => mret (s, inr err)
        | inl body => mret (mkAttempt (at_innerErr s) body, inl true)
        end
  end.

Section Retry.
Context `{BackoffLib}.

Definition withRetry (url : string) (header : string * string) : prog Host (result string) :=
  '(s, err) ← ExponentialBackoff 4 (mkAttempt None ε) (tryOnce url header);
  match err with
  | inr err => mret (inr (default err (at_innerErr s)))
  | inl _ => mret (inl (at_body s))
  end.

(** The token, from the cache or from the server: the cache is passed and
    returned. *)
Definition getToken (cache : option string) : prog Host (option string * result string) :=
  match cache with
  | Some token => mret (cache, inl token)
  | None =>
      r ← withRetry tokenURL (ttlHeader, Itoa tokenTimeout);
      match r with
      | inr err => mret (cache, inr err)
      | inl token => mret (Some token, inl token)
      end
  end.

Definition unauthorized (err : error) : bool :=
  match err with MetaError code _ _ => bool_decide (code = "401") | _ => false end.

(** [getWithToken]; [skipRetry] is set by the jump back to the [retry] label. *)
Fixpoint getRounds (rounds : nat) (url : string) (cache : option string) :
    prog Host (option string * result string) :=
  '(cache, token) ← getToken cache;
  match token with
  | inr err => mret (cache, inr err)
  | inl token =>
      out ← withRetry url (tokenHeader, token);
      match out with
      | inl body => mret (cache, inl body)
      | inr err =>
          match rounds with
          | S rounds => if unauthorized err then getRounds rounds url None
                        else mret (cache, inr err)
          | O => mret (cache, inr err)
          end
      end
  end.

Definition getWithToken (url : string) (cache : option string) :
    prog Host (option string * result string) := getRounds 1 url cache.

Definition firstLine (body : string) : string :=
  Trim "/" (hd ε (Split newline_char body)).

Definition GetStrFromMetadata (url : string) (cache : option string) :
    prog Host (option string * result string) :=
  '(cache, body) ← getWithToken url cache;
  match body with
  | inr err => mret (cache, inr err)
  | inl body => mret (cache, inl (firstLine body))
  end.

End Retry.

(** ** Requests and answers *)

Definition method_of (url : string) : string := if decide (url = tokenURL) then "PUT" else "GET".

Definition asked (url : string) (header : string * string) (ev : event Host) : Prop :=
  ∃ rep, ev = Event (S:=Host) (HttpDo (method_of url) url (Some header)) rep.

(** The answer a successful request ends with. *)
Definition answered (url : string) (header : string * string) (body : string)
    (ev : event Host) : Prop :=
  ∃ code, code < 400 ∧
    ev = Event (S:=Host) (HttpDo (method_of url) url (Some header)) (inl (code, inl body)).

(** The requests of a retry loop, and how it ends. *)
Definition retried (url : string) (header : string * string) (steps : nat)
    (tr : trace Host) (r : result string) : Prop :=
  (length tr ≤ steps)%nat ∧ Forall (asked url header) tr ∧
  match r with
  | inl body => ∃ ev, last tr = Some ev ∧ answered url header body ev
  | inr _ => True
  end.

(** One attempt: not answered, answered with an error, or answered. *)
Lemma tryOnce_cases url header s tr o :
  exec (tryOnce url header s) tr o →
  ∃ ev s' r, tr = [ev] ∧ o = Ret (s', r) ∧ asked url header ev ∧
    (r = inl true → answered url header (at_body s') ev).
Proof.
  unfold tryOnce. fold (method_of url). intros H. exec_hcall H as (rep & tr' & -> & H).
  exists (Event (S:=Host) (HttpDo (method_of url) url (Some header)) rep).
  destruct rep as [[code body]|err].
  - destruct (bool_decide (code = 429) || (500 <=? code)) eqn:Hretry;
      [|destruct (400 <=? code) eqn:Hbad; [|destruct body as [body|err]]]; destruct H as [-> ->];
      eexists _, _; (split_and!; [done..|by eexists|]); try done.
    intros _. exists code. split; [lia|done].
  - destruct H as [-> ->]. eexists _, _. by split_and!; [..|by eexists|].
Qed.

Lemma attempts_tryOnce url header steps s tr o :
  exec (attempts steps s (tryOnce url header)) tr o →
  ∃ s' r, o = Ret (s', r) ∧ (length tr ≤ steps)%nat ∧ Forall (asked url header) tr ∧
    (r = inl tt → ∃ ev, last tr = Some ev ∧ answered url header (at_body s') ev).
Proof.
  revert s tr; induction steps as [|steps IH]; intros s tr H.
  - destruct H as [-> ->]. by eexists _, _.
  - change (attempts (S steps) s (tryOnce url header)) with
      ('(s, r) ← tryOnce url header s;
       match r with
       | inl true => mret (s, inl tt)
       | inl false => attempts steps s (tryOnce url header)
       | inr err => mret (s, inr err)
       end) in H.
    apply exec_bind in H as (tr1 & o1 & H1 & H).
    apply tryOnce_cases in H1 as (ev & s1 & r1 & -> & -> & Ha & Hok).
    destruct H as (tr2 & -> & H). destruct r1 as [[]|err].
    + destruct H as [-> ->]. eexists _, _. split_and!; [done|simpl; lia|by constructor|].
      intros _. exists ev. split; [done|]. by apply Hok.
    + destruct (IH _ _ H) as (s2 & r2 & -> & Hl & Hf & Hlast). eexists _, _.
      split_and!; [done|simpl; lia|by constructor|]. intros Hr. destruct (Hlast Hr) as (ev' & He & Han).
      exists ev'. split; [|done]. by destruct tr2.
    + destruct H as [-> ->]. eexists _, _. by split_and!; [done|simpl; lia|constructor|].
Qed.

Section Requests.
Context `{BackoffLib}.

Lemma withRetry_retried url header tr o :
  exec (withRetry url header) tr o → ∃ r, o = Ret r ∧ retried url header 4 tr r.
Proof.
  intros Hx. unfold withRetry in Hx. apply exec_bind in Hx as (tr1 & o1 & H1 & Hx).
  apply backoff_attempts, attempts_tryOnce in H1 as (s' & r & -> & Hl & Hf & Hok).
  destruct Hx as (tr2 & -> & Hx).
  destruct r as [[]|err]; destruct Hx as [-> ->]; rewrite app_nil_r; eexists; (split; [done|]);
    split_and!; try done. by apply Hok.
Qed.

(** The first request of a retry loop, and how a rejection ends it. *)
Lemma withRetry_first url header tr o :
  exec (withRetry url header) tr o →
  ∃ rep tr', tr = Event (S:=Host) (HttpDo (method_of url) url (Some header)) rep :: tr' ∧
    ∀ body, rep = inl (401, body) → tr' = [] ∧ o = Ret (inr (MetaError "401" url None)).
Proof.
  intros Hx. unfold withRetry in Hx. apply exec_bind in Hx as (tr1 & o1 & H1 & Hx).
  apply backoff_attempts in H1.
  change (attempts 4 ?s0 ?c) with
    ('(s, r) ← c s0;
     match r with
     | inl true => mret (s, inl tt)
     | inl false => attempts 3 s c
     | inr err => mret (s, inr err)
     end) in H1.
  apply exec_bind in H1 as (tr2 & o2 & H2 & H1). unfold tryOnce in H2. fold (method_of url) in H2.
  exec_hcall H2 as (rep & tr3 & -> & H2). exists rep.
  destruct rep as [[code body]|err]; cbv beta iota in H2.
  - destruct (decide (code = 401)) as [->|Hne].
    + destruct H2 as [-> ->]. destruct H1 as (tr4 & -> & [-> ->]).
      destruct Hx as (tr5 & -> & [-> ->]). by eexists.
    + assert (∃ tr', tr = Event (S:=Host) (HttpDo (method_of url) url (Some header)) (inl (code, body)) :: tr')
        as [tr' ->].
      { destruct o2 as [[s2 r2]|e|f]; [destruct H1 as (tr4 & -> & H1)|destruct H1 as [-> H1]..];
          (destruct o1 as [[s1 r1]|e'|f']; [destruct Hx as (tr5 & -> & Hx)|destruct Hx as [-> Hx]..]);
          by eexists. }
      exists tr'. split; [done|]. intros b [= ? _]. done.
  - assert (∃ tr', tr = Event (S:=Host) (HttpDo (method_of url) url (Some header)) (inr err) :: tr')
      as [tr' ->].
    { destruct o2 as [[s2 r2]|e|f]; [destruct H1 as (tr4 & -> & H1)|destruct H1 as [-> H1]..];
        (destruct o1 as [[s1 r1]|e'|f']; [destruct Hx as (tr5 & -> & Hx)|destruct Hx as [-> Hx]..]);
        by eexists. }
    by exists tr'.
Qed.

(** A request of the client: for a token, or for the page with a token. *)
Definition metadata_request (url : string) (ev : event Host) : Prop :=
  asked tokenURL (ttlHeader, Itoa tokenTimeout) ev ∨ ∃ token, asked url (tokenHeader, token) ev.

#[local] Opaque withRetry.

Lemma getToken_cases cache tr o :
  exec (getToken cache) tr o →
  ∃ cache' r, o = Ret (cache', r) ∧ (length tr ≤ 4)%nat ∧
    Forall (asked tokenURL (ttlHeader, Itoa tokenTimeout)) tr ∧
    match r with
    | inl token => cache' = Some token ∧ (cache = Some token ∧ tr = [] ∨
        cache = None ∧ ∃ ev, last tr = Some ev ∧ answered tokenURL (ttlHeader, Itoa tokenTimeout) token ev)
    | inr _ => cache = None ∧ cache' = None
    end.
Proof.
  intros Hx. unfold getToken in Hx. destruct cache as [token|].
  - destruct Hx as [-> ->]. exists (Some token), (inl token).
    split_and!; [done|simpl; lia|apply Forall_nil_2|done|by left].
  - apply exec_bind in Hx as (tr1 & o1 & H1 & Hx).
    apply withRetry_retried in H1 as (r & -> & Hl & Hf & Hr). destruct Hx as (tr2 & -> & Hx).
    destruct r as [token|err]; destruct Hx as [-> ->]; rewrite app_nil_r.
    + exists (Some token), (inl token). split_and!; [done..|]. right. by split.
    + exists None, (inr err). by split_and!.
Qed.

Definition answer_post (url : string) (bound : nat) (tr : trace Host)
    (o : outcome (option string * result string)) : Prop :=
  ∃ cache' r, o = Ret (cache', r) ∧ (length tr ≤ bound)%nat ∧ Forall (metadata_request url) tr ∧
    ∀ body, r = inl body → ∃ token ev, cache' = Some token ∧ last tr = Some ev ∧
      answered url (tokenHeader, token) body ev.

(** One round, continued by [k] when the page was refused. *)
Lemma round_answer url cache bound (k : option string → error → prog Host (option string * result string)) :
  (∀ cache err, triple (k cache err) (answer_post url bound)) →
  triple ('(cache, token) ← getToken cache;
          match token with
          | inr err => mret (cache, inr err)
          | inl token =>
              out ← withRetry url (tokenHeader, token);
              match out with
              | inl body => mret (cache, inl body)
              | inr err => k cache err
              end
          end) (answer_post url (8 + bound)).
Proof.
  intros Hk tr o Hx. apply exec_bind in Hx as (tr1 & o1 & H1 & Hx).
  apply getToken_cases in H1 as (cache1 & r1 & -> & Hl1 & Hf1 & Hr1).
  assert (Forall (metadata_request url) tr1) as Hf1' by
    (eapply Forall_impl; [exact Hf1|intros; by left]).
  destruct Hx as (tr2 & -> & Hx). cbv beta iota in Hx. destruct r1 as [token|err].
  - destruct Hr1 as [-> _]. apply exec_bind in Hx as (tr3 & o3 & H3 & Hx).
    apply withRetry_retried in H3 as (r3 & -> & Hl3 & Hf3 & Hr3).
    assert (Forall (metadata_request url) tr3) as Hf3' by
      (eapply Forall_impl; [exact Hf3|intros; right; by eexists]).
    destruct Hx as (tr4 & -> & Hx). cbv beta iota in Hx. destruct r3 as [body|err].
    + destruct Hx as [-> ->]. rewrite app_nil_r. eexists _, _.
      split_and!; [done|rewrite length_app; lia|by apply Forall_app|]. intros b [= <-].
      destruct Hr3 as (ev & Hlast & Ha). exists token, ev.
      split_and!; [done|by rewrite last_app, Hlast|done].
    + destruct (Hk _ _ _ _ Hx) as (cache' & r & -> & Hl & Hf & Hok). eexists _, _.
      split_and!; [done|rewrite !length_app; lia|by rewrite !Forall_app|].
      intros body Hb. destruct (Hok body Hb) as (token' & ev & Ec & Hlast & Ha).
      exists token', ev. split_and!; [done| |done]. by rewrite !last_app, Hlast.
  - destruct Hx as [-> ->]. rewrite app_nil_r. eexists _, _. by split_and!; [done|lia|done|].
Qed.

Lemma refused_answer url bound cache err :
  triple (mret (cache, inr err)) (answer_post url bound).
Proof. intros tr o [-> ->]. eexists _, _. by split_and!; [done|simpl; lia|constructor|]. Qed.

Lemma getRounds_answer rounds url cache :
  triple (getRounds rounds url cache) (answer_post url (8 * S rounds)).
Proof.
  revert cache; induction rounds as [|rounds IH]; intros cache.
  - apply (round_answer url cache 0). intros. apply refused_answer.
  - replace (8 * S (S rounds))%nat with (8 + 8 * S rounds)%nat by lia.
    apply (round_answer url cache (8 * S rounds) (λ cache err,
      if unauthorized err then getRounds rounds url None else mret (cache, inr err))).
    intros cache' err. destruct (unauthorized err); [apply IH|apply refused_answer].
Qed.

#[local] Transparent withRetry.

(** A query returns: its failure is a result. *)
Lemma GetStrFromMetadata_returns url cache tr o :
  exec (GetStrFromMetadata url cache) tr o → ∃ cache' r, o = Ret (cache', r).
Proof.
  intros Hx. unfold GetStrFromMetadata in Hx. apply exec_bind in Hx as (tr1 & o1 & H1 & Hx).
  apply (getRounds_answer 1) in H1 as (cache' & r & -> & _). destruct Hx as (tr2 & -> & Hx).
  destruct r; destruct Hx as [-> ->]; eauto.
Qed.

(** C33: A metadata query makes at most sixteen requests, each for a token or
    for the page with a token; when it succeeds, its answer is the first line of
    the body of the last request, which carried the token that is now cached. *)
Theorem GetStrFromMetadata_answer url cache tr o :
  exec (GetStrFromMetadata url cache) tr o →
  (length tr ≤ 16)%nat ∧ Forall (metadata_request url) tr ∧
  ∃ cache' r, o = Ret (cache', r) ∧
    ∀ s, r = inl s → ∃ token body ev, cache' = Some token ∧ last tr = Some ev ∧
      answered url (tokenHeader, token) body ev ∧ s = firstLine body.
Proof.
  intros Hx. unfold GetStrFromMetadata in Hx. apply exec_bind in Hx as (tr1 & o1 & H1 & Hx).
  apply (getRounds_answer 1) in H1 as (cache' & r & -> & Hl & Hf & Hok).
  destruct Hx as (tr2 & -> & Hx). destruct r as [body|err]; destruct Hx as [-> ->]; rewrite app_nil_r;
    (split; [lia|]); (split; [done|]); eexists _, _; (split; [done|]); [|done].
  intros s [= <-]. destruct (Hok body eq_refl) as (token & ev & -> & Hlast & Ha).
  by exists token, body, ev.
Qed.

(** A cached token the server rejects is dropped and replaced: the next
    request asks for a new one. *)
Lemma getWithToken_replaces url token body tr o :
  exec (getWithToken url (Some token))
    (Event (S:=Host) (HttpDo (method_of url) url (Some (tokenHeader, token))) (inl (401, body)) :: tr) o →
  ∃ rep tr', tr = Event (S:=Host) (HttpDo "PUT" tokenURL (Some (ttlHeader, Itoa tokenTimeout))) rep :: tr'.
Proof.
  intros Hx. unfold getWithToken in Hx.
  apply exec_bind in Hx as (tr1 & o1 & [-> ->] & tr2 & Etr & Hx). simpl in Etr. subst tr2.
  apply exec_bind in Hx as (tr3 & o3 & H3 & Hx).
  apply withRetry_first in H3 as (rep & tr4 & -> & Hrej).
  destruct o3 as [r3|e|f]; [destruct Hx as (tr5 & Etr & Hx)|destruct Hx as [Etr Hx]..];
    simpl in Etr; apply (inj2 cons) in Etr as [Hrep Etr]; apply Event_inj in Hrep as <-;
    destruct (Hrej body eq_refl) as [-> Hr]; try discriminate Hr.
  injection Hr as ->. subst tr. simpl app.
  change (exec (getRounds 0 url None) tr5 o) in Hx.
  apply exec_bind in Hx as (tr6 & o6 & H6 & Hx). apply exec_bind in H6 as (tr7 & o7 & H7 & H6).
  apply withRetry_first in H7 as (rep & tr8 & -> & _).
  assert (∃ t, tr5 = (Event (S:=Host) (HttpDo "PUT" tokenURL (Some (ttlHeader, Itoa tokenTimeout))) rep :: tr8) ++ t)
    as [t ->]; [|by eexists _, _].
  destruct o7; [destruct H6 as (? & -> & H6)|destruct H6 as [-> H6]..];
    (destruct o6; [destruct Hx as (? & -> & Hx)|destruct Hx as [-> Hx]..]);
    rewrite <- ?app_assoc; (exists []; by rewrite app_nil_r) || (by eexists).
Qed.

End Requests.

(** ** A concrete metadata server *)

(** A server that has revoked the cached token and issues a new one. *)
Definition meta_env : Env Host := λ h c,
  match c as c return host_reply c with
  | HttpDo _ url header =>
      if decide (url = tokenURL) then inl (200, inl "token-2")
      else if decide (header = Some (tokenHeader, "token-2")) then inl (200, inl "i-1/")
      else inl (401, inl ε)
  | c => plain_reply c
  end.

Definition meta_url : string := "http://100.100.100.200/latest/meta-data/instance-id".

#[local] Existing Instance plainBackoff.

Lemma GetStrFromMetadata_answer_witness :
  (run meta_env [] (GetStrFromMetadata meta_url (Some "token-1"))).1 = Ret (Some "token-2", inl "i-1") ∧
  ∃ body ev, last (run meta_env [] (GetStrFromMetadata meta_url (Some "token-1"))).2 = Some ev ∧
    answered meta_url (tokenHeader, "token-2") body ev ∧ "i-1" = firstLine body.
Proof.
  assert ((run meta_env [] (GetStrFromMetadata meta_url (Some "token-1"))).1 =
    Ret (Some "token-2", inl "i-1")) as E by (vm_compute; reflexivity).
  split; [exact E|].
  destruct (GetStrFromMetadata_answer _ _ _ _ (run_returns meta_env _ _ E)) as (_ & _ & cache & r & Eo & H).
  injection Eo as <- <-. destruct (H _ eq_refl) as (token & body & ev & [= <-] & Hl & Ha & Hs).
  exists body, ev. split; [exact Hl|]. split; [exact Ha|exact Hs].
Defined.

