(* ===== verification/Config.v ===== *)
(** * Config: internal/config/config.go

    The configuration and the credentials the controller reads when it starts:
    two JSON files, decoded and completed with defaults; a region that is not
    configured is asked of the metadata server. *)

From S2P Require Import Prelude Effects GoStr Json Types RuntimeApi Host Metadata.

(** ** Decoding *)

(** The tags of [types.Config] *)
Definition config_fields : list (field Config) := [
  mkField "region" cfg_Region
    (λ x '(mkConfig _ b c d e f g h i j k l), mkConfig x b c d e f g h i j k l);
  mkField "manageNonOwnedENIs" cfg_ManageNonOwnedERIs
    (λ x '(mkConfig a _ c d e f g h i j k l), mkConfig a x c d e f g h i j k l);
  mkField "controllerNamespace" cfg_ControllerNamespace
    (λ x '(mkConfig a b _ d e f g h i j k l), mkConfig a b x d e f g h i j k l);
  mkField "controllerName" cfg_ControllerName
    (λ x '(mkConfig a b c _ e f g h i j k l), mkConfig a b c x e f g h i j k l);
  mkField "clusterDomain" cfg_ClusterDomain
    (λ x '(mkConfig a b c d _ f g h i j k l), mkConfig a b c d x f g h i j k l);
  mkField "certDir" cfg_CertDir
    (λ x '(mkConfig a b c d e _ g h i j k l), mkConfig a b c d e x g h i j k l);
  mkField "enableDevicePlugin" cfg_EnableDevicePlugin
    (λ x '(mkConfig a b c d e f _ h i j k l), mkConfig a b c d e f x h i j k l);
  mkField "enableWebhook" cfg_EnableWebhook
    (λ x '(mkConfig a b c d e f g _ i j k l), mkConfig a b c d e f g x i j k l);
  mkField "smcInitImage" cfg_SMCInitImage
    (λ x '(mkConfig a b c d e f g h _ j k l), mkConfig a b c d e f g h x j k l);
  mkField "enableInitContainerInject" cfg_EnableInitContainerInject
    (λ x '(mkConfig a b c d e f g h i _ k l), mkConfig a b c d e f g h i x k l);
  mkField "nodeSelector" cfg_NodeSelector
    (λ x '(mkConfig a b c d e f g h i j _ l), mkConfig a b c d e f g h i j x l);
  mkField "waitNodeReadyTimeoutSeconds" cfg_WaitNodeReadyTimeoutSeconds
    (λ x '(mkConfig a b c d e f g h i j k _), mkConfig a b c d e f g h i j k x)
].

#[export] Instance Config_FromJson : FromJson Config := {|
  go_zero := mkConfig ε false ε ε ε ε None None ε None ∅ 0;
  decode := decode_struct "types.Config" config_fields
|}.

(** The tags of [types.Credentials] *)
Definition credentials_fields : list (field Credentials) := [
  mkField "type" cred_Type (λ x '(mkCredentials _ b c d e), mkCredentials x b c d e);
  mkField (A:=Credentials) (B:=string) "accessKeyID" cred_AccessKeyID
    (λ x '(mkCredentials a _ c d e), mkCredentials a x c d e);
  mkField (A:=Credentials) (B:=string) "accessKeySecret" cred_AccessKeySecret
    (λ x '(mkCredentials a b _ d e), mkCredentials a b x d e);
  mkField "stsSecretNS" cred_StsSecretNS (λ x '(mkCredentials a b c _ e), mkCredentials a b c x e);
  mkField "stsSecretName" cred_StsSecretName (λ x '(mkCredentials a b c d _), mkCredentials a b c d x)
].

#[export] Instance Credentials_FromJson : FromJson Credentials := {|
  go_zero := mkCredentials ε ε ε ε ε;
  decode := decode_struct "types.Credentials" credentials_fields
|}.

(** ** Reading the files *)

Definition defaultConfigPath : string := "/etc/erdma-controller/config.json".
Definition defaultCredentialPath : string := "/etc/erdma-controller-credential/credential.json".
Definition regionIDAddr : string := "http://100.100.100.200/latest/meta-data/region-id".

(** [os.IsNotExist]: it does not look through wrapped errors. *)
Definition os_IsNotExist (err : error) : bool :=
  match err with ApiError NotFound _ => true | _ => false end.

Section Parse.
Context `{BackoffLib}.

(** [getRegion]; the metadata token is cached. *)
Definition getRegion (cache : option string) : prog Host (option string * result string) :=
  GetStrFromMetadata regionIDAddr cache.

(** The defaults of [parseConfig] for what the file leaves out *)
Definition withDefaults (c : Config) : Config :=
  mkConfig (cfg_Region c) (cfg_ManageNonOwnedERIs c) (cfg_ControllerNamespace c)
    (cfg_ControllerName c) (cfg_ClusterDomain c) (cfg_CertDir c)
    (match cfg_EnableDevicePlugin c with None => Some true | b => b end)
    (match cfg_EnableWebhook c with None => Some true | b => b end)
    (cfg_SMCInitImage c) (cfg_EnableInitContainerInject c) (cfg_NodeSelector c)
    (if cfg_WaitNodeReadyTimeoutSeconds c =? 0 then 300 else cfg_WaitNodeReadyTimeoutSeconds c).

Definition withRegion (region : string) (c : Config) : Config :=
  mkConfig region (cfg_ManageNonOwnedERIs c) (cfg_ControllerNamespace c)
    (cfg_ControllerName c) (cfg_ClusterDomain c) (cfg_CertDir c) (cfg_EnableDevicePlugin c)
    (cfg_EnableWebhook c) (cfg_SMCInitImage c) (cfg_EnableInitContainerInject c)
    (cfg_NodeSelector c) (cfg_WaitNodeReadyTimeoutSeconds c).

Definition parseConfig (configPath : string) (cache : option string) :
    prog Host (option string * Config) :=
  let configPath := if decide (configPath = ε) then defaultConfigPath else configPath in
  conf ← host (ReadFile configPath);
  match conf with
  | inr err => errorf "failed to read config file: %v, %v" [configPath; error_string err]
  | inl conf =>
      match Unmarshal (A:=Config) conf with
      | inr err => errorf "failed to unmarshal config file: %v, %v" [configPath; error_string err]
      | inl erdmaConfig =>
          let erdmaConfig := withDefaults erdmaConfig in
          if decide (cfg_Region erdmaConfig = ε) then
            '(cache, region) ← getRegion cache;
            match region with
            | inr err => errorf "failed to get region from metaserver: %v" [error_string err]
            | inl region => mret (cache, withRegion region erdmaConfig)
            end
          else mret (cache, erdmaConfig)
      end
  end.

(** The secret of the STS credentials, when the file does not name one *)
Definition withSecretDefaults (c : Credentials) : Credentials :=
  mkCredentials (cred_Type c) (cred_AccessKeyID c) (cred_AccessKeySecret c)
    (if decide (cred_StsSecretNS c = ε) then "kube-system" else cred_StsSecretNS c)
    (if decide (cred_StsSecretName c = ε) then "addon.network.token" else cred_StsSecretName c).

Definition parseCredential (credentialPath : string) : prog Host Credentials :=
  let credentialPath :=
    if decide (credentialPath = ε) then defaultCredentialPath else credentialPath in
  cred ← host (ReadFile credentialPath);
  match cred with
  | inr err =>
      if os_IsNotExist err then mret go_zero
      else errorf "failed to read credential file: %v, %v" [credentialPath; error_string err]
  | inl cred =>
      match Unmarshal (A:=Credentials) cred with
      | inr err => errorf "failed to unmarshal credential file: %v, %v" [credentialPath; error_string err]
      | inl credential => mret (withSecretDefaults credential)
      end
  end.

(** [InitConfig]: the two variables [cfg] and [credential] *)
Definition InitConfig (configPath credentialPath : string) (cache : option string) :
    prog Host (option string * Config * Credentials) :=
  '(cache, cfg) ← parseConfig configPath cache;
  credential ← parseCredential credentialPath;
  mret (cache, cfg, credential).

End Parse.

(** ** The documents *)

Definition json_of_option {A} (f : A → json) (x : option A) : json :=
  match x with Some a => f a | None => JNull end.

(** The document of a configuration *)
Definition config_json (c : Config) : json := JObj [
  ("region", JStr (cfg_Region c));
  ("manageNonOwnedENIs", JBool (cfg_ManageNonOwnedERIs c));
  ("controllerNamespace", JStr (cfg_ControllerNamespace c));
  ("controllerName", JStr (cfg_ControllerName c));
  ("clusterDomain", JStr (cfg_ClusterDomain c));
  ("certDir", JStr (cfg_CertDir c));
  ("enableDevicePlugin", json_of_option JBool (cfg_EnableDevicePlugin c));
  ("enableWebhook", json_of_option JBool (cfg_EnableWebhook c));
  ("smcInitImage", JStr (cfg_SMCInitImage c));
  ("enableInitContainerInject", json_of_option JBool (cfg_EnableInitContainerInject c));
  ("nodeSelector", JObj (prod_map id JStr <$> map_to_list (cfg_NodeSelector c)));
  ("waitNodeReadyTimeoutSeconds", JNum (Itoa (cfg_WaitNodeReadyTimeoutSeconds c)))
].

Definition credentials_json (c : Credentials) : json := JObj [
  ("type", JStr (cred_Type c));
  ("accessKeyID", JStr (cred_AccessKeyID c));
  ("accessKeySecret", JStr (cred_AccessKeySecret c));
  ("stsSecretNS", JStr (cred_StsSecretNS c));
  ("stsSecretName", JStr (cred_StsSecretName c))
].

(** A configuration whose strings are ASCII and whose integer is an [int] *)
Record config_ok (c : Config) : Prop := {
  ok_Region : ascii_string (cfg_Region c);
  ok_Namespace : ascii_string (cfg_ControllerNamespace c);
  ok_Name : ascii_string (cfg_ControllerName c);
  ok_Domain : ascii_string (cfg_ClusterDomain c);
  ok_CertDir : ascii_string (cfg_CertDir c);
  ok_Image : ascii_string (cfg_SMCInitImage c);
  ok_Selector : map_Forall (λ k v, ascii_string k ∧ ascii_string v) (cfg_NodeSelector c);
  ok_Wait : -9223372036854775808 ≤ cfg_WaitNodeReadyTimeoutSeconds c ≤ 9223372036854775807
}.

(** Credentials whose strings are ASCII *)
Record credentials_ok (c : Credentials) : Prop := {
  cok_Type : ascii_string (cred_Type c);
  cok_ID : ascii_string (cred_AccessKeyID c);
  cok_Secret : ascii_string (cred_AccessKeySecret c);
  cok_NS : ascii_string (cred_StsSecretNS c);
  cok_Name : ascii_string (cred_StsSecretName c)
}.

(** ** Round trips *)

Lemma decode_string_map (m : gmap string string) :
  decode (JObj (prod_map id JStr <$> map_to_list m)) (∅ : gmap string string) = (m, None).
Proof.
  cbn [decode map_FromJson].
  assert (∀ (l : list (string * string)) (a : gmap string string),
    fold_left decode_entry (prod_map id JStr <$> l) (a, None) =
    (fold_left (λ a kv, <[kv.1 := kv.2]> a) l a, None)) as Hf.
  { induction l as [|[k v] l IH]; intros a; [done|]. rewrite fmap_cons. cbn [fold_left]. apply IH. }
  rewrite Hf. f_equal.
  assert (∀ (l : list (string * string)) (a : gmap string string), NoDup l.*1 →
    fold_left (λ a kv, <[kv.1 := kv.2]> a) l a = list_to_map l ∪ a) as Hu.
  { induction l as [|[k v] l IH]; intros a; [by rewrite list_to_map_nil, (left_id_L ∅ (∪))|].
    rewrite fmap_cons. intros [Hk Hl]%NoDup_cons. cbn [fold_left fst snd]. rewrite IH by done.
    rewrite list_to_map_cons, <- insert_union_r by by apply not_elem_of_list_to_map.
    by rewrite insert_union_l. }
  rewrite Hu by apply NoDup_fst_map_to_list. by rewrite list_to_map_to_list, (right_id_L ∅ (∪)).
Qed.

#[local] Opaque Itoa Atoi.

Lemma decode_config c : config_ok c → decode (config_json c) go_zero = (c, None).
Proof.
  intros H. pose proof (Atoi_Itoa _ (ok_Wait _ H)) as Hw. pose proof (decode_string_map (cfg_NodeSelector c)) as Hs.
  destruct c as [a b c' d e f g h i j k l]. unfold config_json.
  cbn in Hw, Hs.
  cbn [decode Config_FromJson].
  do 6 decode_member by reflexivity.
  decode_member by (destruct g; reflexivity). decode_member by (destruct h; reflexivity).
  decode_member by reflexivity. decode_member by (destruct j; reflexivity).
  decode_member by (rewrite Hs; reflexivity).
  decode_member by (rewrite Hw; reflexivity).
  reflexivity.
Qed.

Lemma config_printable c : config_ok c → printable (config_json c).
Proof.
  intros [Hr Hn Hm Hd Hc Hi Hs _]. unfold config_json. cbn [printable foldr].
  assert (foldr (λ '(k, x) P, ascii_string k ∧ printable x ∧ P) True
    (prod_map id JStr <$> map_to_list (cfg_NodeSelector c))) as Hsel.
  { assert (∀ l : list (string * string), Forall (λ kv, ascii_string kv.1 ∧ ascii_string kv.2) l →
      foldr (λ '(k, x) P, ascii_string k ∧ printable x ∧ P) True (prod_map id JStr <$> l)) as Hl.
    { induction 1 as [|[k v] l [Hk Hv] _ IH]; [done|]. rewrite fmap_cons. by split_and!. }
    apply Hl. apply map_Forall_to_list in Hs. eapply Forall_impl; [exact Hs|]. by intros [k v]. }
  split_and!; try done; try (by destruct (cfg_EnableDevicePlugin c), (cfg_EnableWebhook c),
    (cfg_EnableInitContainerInject c)); try (repeat constructor; done).
  by eexists.
Qed.

Lemma decode_credentials c : decode (credentials_json c) go_zero = (c, None).
Proof.
  destruct c as [a b c d e]. unfold credentials_json. cbn [decode Credentials_FromJson].
  do 5 decode_member by reflexivity. reflexivity.
Qed.

Lemma credentials_printable c : credentials_ok c → printable (credentials_json c).
Proof.
  intros [? ? ? ? ?]. unfold credentials_json. cbn [printable foldr].
  split_and!; try done; repeat constructor; done.
Qed.

Lemma Unmarshal_config c : config_ok c → Unmarshal (json_text (config_json c)) = inl c.
Proof.
  intros H. unfold Unmarshal. rewrite parse_print.
  - by rewrite decode_config.
  - by apply config_printable.
  - unfold max_depth, config_json. cbn [json_depth foldr].
    assert (∀ l : list (string * string), (foldr (λ '(_, x) n, Nat.max (json_depth x) n) 0
      (prod_map id JStr <$> l) = 0)%nat) as ->.
    { induction l as [|[k v] l IH]; [done|]. by rewrite fmap_cons. }
    destruct (cfg_EnableDevicePlugin c), (cfg_EnableWebhook c), (cfg_EnableInitContainerInject c); simpl; lia.
Qed.

(** C13: The documents of a configuration and of credentials are read back as
    what they were written for: every field has its own name in its file and
    none is lost or confused with another. *)
Theorem config_roundtrip c k :
  config_ok c → credentials_ok k →
  Unmarshal (json_text (config_json c)) = inl c ∧ Unmarshal (json_text (credentials_json k)) = inl k.
Proof.
  intros Hc Hk. split; [by apply Unmarshal_config|].
  unfold Unmarshal. rewrite parse_print; [by rewrite decode_credentials|by apply credentials_printable|].
  unfold max_depth, credentials_json. simpl. lia.
Qed.

(** The document the Helm chart writes, with a member the program does not know *)
Definition chart_config : string := json_text (JObj [
  ("region", JStr ε); ("manageNonOwnedENIs", JBool false); ("controllerNamespace", JStr "kube-system");
  ("controllerName", JStr "alibabacloud-erdma-controller"); ("clusterDomain", JStr "cluster.local");
  ("certDir", JStr "/var/lib/certDir"); ("enableDevicePlugin", JBool true); ("enableWebhook", JBool true);
  ("smcInitImage", JStr ε); ("enableInitContainerInject", JBool true); ("localERIDiscovery", JBool false);
  ("nodeSelector", JObj [("kubernetes.io/os", JStr "linux")])]).

Definition chart_Config : Config :=
  mkConfig ε false "kube-system" "alibabacloud-erdma-controller" "cluster.local" "/var/lib/certDir"
    (Some true) (Some true) ε (Some true) {[ "kubernetes.io/os" := "linux" ]} 0.

Lemma chart_config_ok : config_ok chart_Config.
Proof.
  split; by apply (bool_decide_unpack _); vm_compute.
Qed.

Definition chart_Credentials : Credentials :=
  mkCredentials "access_key" "LTAI5t" "secret" "kube-system" "addon.network.token".

Lemma chart_credentials_ok : credentials_ok chart_Credentials.
Proof. split; by apply (bool_decide_unpack _); vm_compute. Qed.

Lemma config_roundtrip_witness :
  Unmarshal (json_text (config_json chart_Config)) = inl chart_Config ∧
  Unmarshal (json_text (credentials_json chart_Credentials)) = inl chart_Credentials ∧
  Unmarshal chart_config = inl chart_Config.
Proof.
  destruct (config_roundtrip chart_Config chart_Credentials chart_config_ok chart_credentials_ok) as [Hc Hk].
  split; [exact Hc|]. split; [exact Hk|vm_compute; reflexivity].
Defined.

(** ** The values of a decoded configuration *)

(** What every field's decoding keeps, decoding a struct keeps. *)
Lemma decode_struct_inv {A} (P : A → Prop) ty (fields : list (field A)) j a :
  Forall (λ f, ∀ v a, P a → P (f.2 v a).1) fields → P a → P (decode_struct ty fields j a).1.
Proof.
  intros Hf Ha. destruct j as [| | | | |m]; try done. cbn [decode_struct].
  enough (∀ e, P (fold_left (λ '(a, e) '(k, v),
        match find_field fields k with
        | Some f => let '(a, e') := f.2 v a in (a, first_saved e e')
        | None => (a, e)
        end) m (a, e)).1) by done.
  revert a Ha. induction m as [|[k v] m IH]; intros a Ha e; [done|]. cbn [fold_left].
  destruct (find_field fields k) as [f|] eqn:E; [|by apply IH].
  assert (f ∈ fields) as Hin.
  { unfold find_field in E. case_match eqn:E1; [injection E as ->; rename E1 into E|];
      apply find_first_Some in E as (l1 & l2 & -> & _); set_solver. }
  rewrite Forall_forall in Hf. specialize (Hf _ Hin v a Ha).
  destruct (f.2 v a) as [a' e']. by apply IH.
Qed.

Definition is_int (z : Z) : Prop := -9223372036854775808 ≤ z ≤ 9223372036854775807.

Lemma decode_int_range j a : is_int a → is_int (decode (A:=Z) j a).1.
Proof.
  intros Ha. destruct j; simpl; try done. destruct (Atoi lit) eqn:E; [|done]. by apply Atoi_range in E.
Qed.

Lemma Unmarshal_wait text c :
  Unmarshal (A:=Config) text = inl c → is_int (cfg_WaitNodeReadyTimeoutSeconds c).
Proof.
  unfold Unmarshal. destruct (parse_json text) as [j|]; [|done].
  destruct (decode j go_zero) as [c' [err|]] eqn:E; [done|]. intros [= <-].
  assert (c' = (decode_struct "types.Config" config_fields j (go_zero (A:=Config))).1) as ->
    by by change (c' = (decode (A:=Config) j go_zero).1); rewrite E.
  apply decode_struct_inv; [|unfold is_int; simpl; lia].
  unfold config_fields.
  do 11 (constructor; [intros v [a b c d e f g h i jj k l] Ha; cbn [snd mkField] in *;
    destruct (decode v _); exact Ha|]).
  constructor; [|constructor].
  intros v [a b c d e f g h i jj k l] Ha. cbn [snd mkField cfg_WaitNodeReadyTimeoutSeconds] in *.
  pose proof (decode_int_range v l Ha) as Hr. by destruct (decode v l).
Qed.

(** What the defaults make of a file: the webhook and the device plugin are on
    unless it turns them off, the waiting time is a non-zero [int], and whether
    the init container is injected is left as it is, unset when the file leaves
    it out. *)
Record defaulted (file c : Config) : Prop := {
  df_webhook : cfg_EnableWebhook c = Some (default true (cfg_EnableWebhook file));
  df_plugin : cfg_EnableDevicePlugin c = Some (default true (cfg_EnableDevicePlugin file));
  df_wait : is_int (cfg_WaitNodeReadyTimeoutSeconds c) ∧ cfg_WaitNodeReadyTimeoutSeconds c ≠ 0 ∧
    (cfg_WaitNodeReadyTimeoutSeconds c = cfg_WaitNodeReadyTimeoutSeconds file ∨
     cfg_WaitNodeReadyTimeoutSeconds file = 0 ∧ cfg_WaitNodeReadyTimeoutSeconds c = 300);
  df_inject : cfg_EnableInitContainerInject c = cfg_EnableInitContainerInject file
}.

Lemma withDefaults_defaulted c :
  is_int (cfg_WaitNodeReadyTimeoutSeconds c) → defaulted c (withDefaults c).
Proof.
  intros Hw. split; simpl.
  - by destruct (cfg_EnableWebhook c).
  - by destruct (cfg_EnableDevicePlugin c).
  - destruct (Z.eqb_spec (cfg_WaitNodeReadyTimeoutSeconds c) 0); [unfold is_int; lia|auto].
  - done.
Qed.

Definition pathOr (fallback p : string) : string := if decide (p = ε) then fallback else p.

Definition read (path : string) (r : result string) : event Host := Event (S:=Host) (ReadFile path) r.

(** The messages of the errors of [InitConfig] *)
Definition config_errors : list string :=
  ["failed to read config file: %v, %v"; "failed to unmarshal config file: %v, %v";
   "failed to get region from metaserver: %v"; "failed to read credential file: %v, %v";
   "failed to unmarshal credential file: %v, %v"].

Section Results.
Context `{Backoff : BackoffLib}.

Lemma getRegion_returns cache tr o :
  exec (getRegion cache) tr o → ∃ cache' r, o = Ret (cache', r).
Proof. apply GetStrFromMetadata_returns. Qed.

#[local] Opaque getRegion.

(** How [parseConfig] got its configuration, [c0] being what the file holds *)
Definition config_from (path : string) (cache cache' : option string) (tr : trace Host)
    (c0 c : Config) : Prop :=
  ∃ text trm, tr = read (pathOr defaultConfigPath path) (inl text) :: trm ∧
    Unmarshal (A:=Config) text = inl c0 ∧
    if decide (cfg_Region c0 = ε)
    then ∃ region, exec (getRegion cache) trm (Ret (cache', inl region)) ∧
                   c = withRegion region (withDefaults c0)
    else trm = [] ∧ cache' = cache ∧ c = withDefaults c0.

Lemma parseConfig_post path cache tr o :
  exec (parseConfig path cache) tr o →
  match o with
  | Ret (cache', c) => ∃ c0, config_from path cache cache' tr c0 c
  | Err e => ∃ msg args, e = Errorf msg args None ∧ msg ∈ config_errors
  | Panic _ => False
  end.
Proof.
  unfold parseConfig. intros H. exec_hcall H as (r & trm & -> & H). destruct r as [text|err].
  2: { destruct H as [-> ->]. eexists _, _. split; [done|]. by left. }
  destruct (Unmarshal (A:=Config) text) as [c0|err] eqn:Eu.
  2: { destruct H as [-> ->]. eexists _, _. split; [done|]. right. by left. }
  change (cfg_Region (withDefaults c0)) with (cfg_Region c0) in H.
  destruct (decide (cfg_Region c0 = ε)) as [Er|Er].
  - apply exec_bind in H as (tr1 & o1 & H1 & H). pose proof (getRegion_returns _ _ _ H1) as (cache' & r & ->).
    destruct H as (tr2 & -> & H). destruct r as [region|err]; destruct H as [-> ->].
    + exists c0, text, tr1. rewrite app_nil_r. split_and!; [done..|]. rewrite decide_True by done. eauto.
    + eexists _, _. split; [done|]. do 2 right. by left.
  - destruct H as [-> ->]. exists c0, text, []. split_and!; [done..|]. by rewrite decide_False.
Qed.

(** The credentials a reply to the reading of the file means *)
Definition credentials_from (r : result string) (credential : Credentials) : Prop :=
  match r with
  | inl text => ∃ c, Unmarshal (A:=Credentials) text = inl c ∧ credential = withSecretDefaults c
  | inr err => os_IsNotExist err = true ∧ credential = mkCredentials ε ε ε ε ε
  end.

Lemma parseCredential_post path tr o :
  exec (parseCredential path) tr o →
  match o with
  | Ret credential => ∃ r, tr = [read (pathOr defaultCredentialPath path) r] ∧ credentials_from r credential
  | Err e => ∃ msg args, e = Errorf msg args None ∧ msg ∈ config_errors
  | Panic _ => False
  end.
Proof.
  unfold parseCredential. intros H. exec_hcall H as (r & trm & -> & H). destruct r as [text|err].
  - destruct (Unmarshal (A:=Credentials) text) as [c|err] eqn:Eu; destruct H as [-> ->].
    + exists (inl text). split; [done|]. by exists c.
    + eexists _, _. split; [done|]. do 4 right. by left.
  - destruct (os_IsNotExist err) eqn:Ee; destruct H as [-> ->].
    + by exists (inr err).
    + eexists _, _. split; [done|]. do 3 right. by left.
Qed.

(** C28: [InitConfig] panics never and its errors say which source failed.  When
    it succeeds, the configuration is the one the file holds with its defaults
    filled in, the metadata server having been asked for the region exactly when
    the file has none: the webhook and the device plugin are set, on unless the
    file turns them off, and the waiting time is a non-zero [int], 300 where the
    file has none.  The injection of the init container gets no default: it is
    unset when the file leaves it out.  The credentials are those of their file,
    with the default secret, or empty when there is no file. *)
Theorem InitConfig_result configPath credentialPath cache tr o :
  exec (InitConfig configPath credentialPath cache) tr o →
  match o with
  | Ret (cache', c, credential) =>
      ∃ file trc r, tr = trc ++ [read (pathOr defaultCredentialPath credentialPath) r] ∧
        config_from configPath cache cache' trc file c ∧ defaulted file c ∧
        credentials_from r credential
  | Err e => ∃ msg args, e = Errorf msg args None ∧ msg ∈ config_errors
  | Panic _ => False
  end.
Proof.
  unfold InitConfig. intros H. apply exec_bind in H as (tr1 & o1 & H1 & H).
  apply parseConfig_post in H1. destruct o1 as [[cache' c]|e|f]; [|by destruct H as [-> ->]|done].
  destruct H as (tr2 & -> & H). apply exec_bind in H as (tr3 & o3 & H3 & H).
  apply parseCredential_post in H3. destruct o3 as [credential|e|f]; [|by destruct H as [-> ->]|done].
  destruct H as (tr4 & -> & [-> ->]). destruct H3 as (r & -> & Hc).
  destruct H1 as (file & H1). exists file, tr1, r.
  split_and!; [by rewrite app_nil_r|done| |done].
  destruct H1 as (text & trm & _ & Hu & Hr). apply Unmarshal_wait in Hu.
  pose proof (withDefaults_defaulted file Hu) as [Hw Hp Ht Hi].
  destruct (decide (cfg_Region file = ε)); [destruct Hr as (region & _ & ->)|destruct Hr as (_ & _ & ->)];
    by split.
Qed.

End Results.

(** The chart's configuration on an instance whose metadata server knows the region *)
Definition chart_env : Env Host := λ h c,
  match c as c return host_reply c with
  | ReadFile path =>
      if decide (path = defaultConfigPath) then inl chart_config
      else inr (ApiError NotFound "no such file")
  | HttpDo _ url _ =>
      if decide (url = regionIDAddr) then inl (200, inl "cn-beijing") else inl (200, inl "token")
  | c => plain_reply c
  end.

Lemma InitConfig_result_witness :
  ∃ c, exec (InitConfig (H:=plainBackoff) ε ε None) (run chart_env [] (InitConfig (H:=plainBackoff) ε ε None)).2
         (Ret (Some "token", c, mkCredentials ε ε ε ε ε)) ∧
    cfg_Region c = "cn-beijing" ∧ ∃ file, defaulted file c.
Proof.
  assert (∃ c, (run chart_env [] (InitConfig (H:=plainBackoff) ε ε None)).1 =
    Ret (Some "token", c, mkCredentials ε ε ε ε ε) ∧ cfg_Region c = "cn-beijing") as (c & E & Er).
  { eexists. split; vm_compute; reflexivity. }
  exists c. apply run_returns in E. split_and!; [exact E|exact Er|].
  destruct (InitConfig_result _ _ _ _ _ E) as (file & trc & r & _ & _ & Hc & _).
  exists file. exact Hc.
Defined.
