(* ===== verification/Aes.v ===== *)
(** * Aes: AES in CBC mode and base64, as [crypto] and [encoding] have them

    The program decrypts the STS credentials with the standard library's
    [crypto/aes], [crypto/cipher] and [encoding/base64].  These are their
    definitions (FIPS 197, SP 800-38A, RFC 4648); encryption and encoding are
    defined for the specification, and decryption undoes encryption. *)

From S2P Require Import Prelude.
From Stdlib Require Import Btauto.

(** ** Bytes *)

Definition is_byte (z : Z) : Prop := 0 ≤ z < 256.

#[export] Instance is_byte_dec z : Decision (is_byte z).
Proof. unfold is_byte. apply _. Defined.

Definition all_bytes : list Z := seqZ 0 256.

Definition xor_bytes (a b : list Z) : list Z := zip_with Z.lxor a b.

(** ** The field *)

(** Multiplication by [x] modulo [x^8 + x^4 + x^3 + x + 1] *)
Definition xtime (a : Z) : Z :=
  let b := 2 * a in if b <? 256 then b else Z.lxor (b - 256) 27.

Fixpoint gmul (bits : nat) (a b : Z) : Z :=
  match bits with
  | O => 0
  | S bits => Z.lxor (if Z.odd b then a else 0) (gmul bits (xtime a) (b / 2))
  end.

Definition ginv (a : Z) : Z := default 0 (find_first (λ x, gmul 8 a x =? 1) all_bytes).

Definition rotl8 (k a : Z) : Z := Z.lor (Z.land (Z.shiftl a k) 255) (Z.shiftr a (8 - k)).

(** The affine map of the S-box *)
Definition affine (a : Z) : Z :=
  Z.lxor a (Z.lxor (rotl8 1 a) (Z.lxor (rotl8 2 a) (Z.lxor (rotl8 3 a) (Z.lxor (rotl8 4 a) 99)))).

Definition sbox : list Z := Eval vm_compute in (λ a, affine (ginv a)) <$> all_bytes.

Definition inv_sbox : list Z :=
  Eval vm_compute in (λ b, match index_of (Z.eqb b) sbox with Some i => Z.of_nat i | None => 0 end) <$> all_bytes.

Definition sub_byte (a : Z) : Z := nth (Z.to_nat a) sbox 0.
Definition inv_sub_byte (a : Z) : Z := nth (Z.to_nat a) inv_sbox 0.

(** ** The cipher

    A state is its sixteen bytes in the order of the input: byte [4 c + r] is in
    column [c] and row [r]. *)

Definition permute (idx : list nat) (st : list Z) : list Z := (λ i, nth i st 0) <$> idx.

Definition ShiftRows : list Z → list Z :=
  permute [0; 5; 10; 15; 4; 9; 14; 3; 8; 13; 2; 7; 12; 1; 6; 11]%nat.

Definition InvShiftRows : list Z → list Z :=
  permute [0; 13; 10; 7; 4; 1; 14; 11; 8; 5; 2; 15; 12; 9; 6; 3]%nat.

Definition mul3 (a : Z) : Z := Z.lxor (xtime a) a.
Definition mul9 (a : Z) : Z := Z.lxor (xtime (xtime (xtime a))) a.
Definition mul11 (a : Z) : Z := Z.lxor (xtime (xtime (xtime a))) (Z.lxor (xtime a) a).
Definition mul13 (a : Z) : Z := Z.lxor (xtime (xtime (xtime a))) (Z.lxor (xtime (xtime a)) a).
Definition mul14 (a : Z) : Z :=
  Z.lxor (xtime (xtime (xtime a))) (Z.lxor (xtime (xtime a)) (xtime a)).

Definition xor4 (a b c d : Z) : Z := Z.lxor a (Z.lxor b (Z.lxor c d)).

Definition mix_column (a b c d : Z) : list Z :=
  [xor4 (xtime a) (mul3 b) c d; xor4 a (xtime b) (mul3 c) d;
   xor4 a b (xtime c) (mul3 d); xor4 (mul3 a) b c (xtime d)].

Definition inv_mix_column (a b c d : Z) : list Z :=
  [xor4 (mul14 a) (mul11 b) (mul13 c) (mul9 d); xor4 (mul9 a) (mul14 b) (mul11 c) (mul13 d);
   xor4 (mul13 a) (mul9 b) (mul14 c) (mul11 d); xor4 (mul11 a) (mul13 b) (mul9 c) (mul14 d)].

Fixpoint columns (f : Z → Z → Z → Z → list Z) (st : list Z) : list Z :=
  match st with
  | a :: b :: c :: d :: st => f a b c d ++ columns f st
  | _ => []
  end.

Definition MixColumns : list Z → list Z := columns mix_column.
Definition InvMixColumns : list Z → list Z := columns inv_mix_column.

(** ** The key schedule *)

Definition sub_word (w : list Z) : list Z := sub_byte <$> w.

Definition rot_word (w : list Z) : list Z :=
  match w with a :: w => w ++ [a] | [] => [] end.

Fixpoint rcon (j : nat) : Z := match j with O | S O => 1 | S j => xtime (rcon j) end.

(** The word [i] of the schedule, from the words before it *)
Definition next_word (nk i : nat) (ws : list (list Z)) : list Z :=
  let temp := List.last ws [] in
  let temp :=
    if decide (i `mod` nk = 0)%nat then xor_bytes (sub_word (rot_word temp)) [rcon (i / nk); 0; 0; 0]
    else if decide (6 < nk ∧ i `mod` nk = 4)%nat then sub_word temp
    else temp in
  xor_bytes (nth (i - nk) ws []) temp.

Fixpoint expand (steps nk : nat) (ws : list (list Z)) : list (list Z) :=
  match steps with
  | O => ws
  | S steps => expand steps nk (ws ++ [next_word nk (length ws) ws])
  end.

(** [n] pieces of [k] elements *)
Fixpoint pieces {A} (n k : nat) (l : list A) : list (list A) :=
  match n with
  | O => []
  | S n => take k l :: pieces n k (drop k l)
  end.

Definition key_words (key : list Z) : nat := (length key / 4)%nat.

Definition rounds (key : list Z) : nat := (key_words key + 6)%nat.

(** The round keys: one more than there are rounds *)
Definition key_schedule (key : list Z) : list (list Z) :=
  let nk := key_words key in
  let nr := rounds key in
  (λ ws, concat ws) <$> pieces (nr + 1) 4 (expand (4 * (nr + 1) - nk) nk (pieces nk 4 key)).

(** ** Blocks *)

Definition enc_round (st k : list Z) : list Z :=
  xor_bytes (MixColumns (ShiftRows (sub_byte <$> st))) k.

Definition dec_round (st k : list Z) : list Z :=
  inv_sub_byte <$> InvShiftRows (InvMixColumns (xor_bytes st k)).

Definition enc_last (st k : list Z) : list Z := xor_bytes (ShiftRows (sub_byte <$> st)) k.

Definition dec_last (st k : list Z) : list Z := inv_sub_byte <$> InvShiftRows (xor_bytes st k).

(** The round keys are [k0], the middle ones and the last one. *)
Definition split_keys (ks : list (list Z)) : list Z * list (list Z) * list Z :=
  (hd [] ks, removelast (tl ks), List.last ks []).

Definition encrypt_block (key st : list Z) : list Z :=
  let '(k0, ks, kn) := split_keys (key_schedule key) in
  enc_last (fold_left enc_round ks (xor_bytes st k0)) kn.

(** The inverse cipher, its steps grouped by the round they undo *)
Definition decrypt_block (key st : list Z) : list Z :=
  let '(k0, ks, kn) := split_keys (key_schedule key) in
  xor_bytes (fold_left dec_round (rev ks) (dec_last st kn)) k0.

(** FIPS 197, appendix C *)
Example aes128_vector :
  encrypt_block (seqZ 0 16) ((λ i, i * 17) <$> seqZ 0 16) =
    [0x69; 0xc4; 0xe0; 0xd8; 0x6a; 0x7b; 0x04; 0x30; 0xd8; 0xcd; 0xb7; 0x80; 0x70; 0xb4; 0xc5; 0x5a].
Proof. vm_compute. reflexivity. Qed.

Example aes192_vector :
  encrypt_block (seqZ 0 24) ((λ i, i * 17) <$> seqZ 0 16) =
    [0xdd; 0xa9; 0x7c; 0xa4; 0x86; 0x4c; 0xdf; 0xe0; 0x6e; 0xaf; 0x70; 0xa0; 0xec; 0x0d; 0x71; 0x91].
Proof. vm_compute. reflexivity. Qed.

Example aes256_vector :
  encrypt_block (seqZ 0 32) ((λ i, i * 17) <$> seqZ 0 16) =
    [0x8e; 0xa2; 0xb7; 0xca; 0x51; 0x67; 0x45; 0xbf; 0xea; 0xfc; 0x49; 0x90; 0x4b; 0x49; 0x60; 0x89].
Proof. vm_compute. reflexivity. Qed.

(** ** Cipher block chaining *)

Definition BlockSize : nat := 16.

Definition blocks (data : list Z) : list (list Z) := pieces (length data / BlockSize) BlockSize data.

Fixpoint cbc_decrypt (dec : list Z → list Z) (iv : list Z) (cs : list (list Z)) : list (list Z) :=
  match cs with
  | [] => []
  | c :: cs => xor_bytes (dec c) iv :: cbc_decrypt dec c cs
  end.

Fixpoint cbc_encrypt (enc : list Z → list Z) (iv : list Z) (ps : list (list Z)) : list (list Z) :=
  match ps with
  | [] => []
  | p :: ps => let c := enc (xor_bytes p iv) in c :: cbc_encrypt enc c ps
  end.

(** [CryptBlocks] of the mode [cipher.NewCBCDecrypter] gives; the data is whole
    blocks. *)
Definition CryptBlocks (key iv data : list Z) : list Z :=
  concat (cbc_decrypt (decrypt_block key) iv (blocks data)).

Definition CBC_encrypt (key iv data : list Z) : list Z :=
  concat (cbc_encrypt (encrypt_block key) iv (blocks data)).

(** ** Bytes by computation *)

Lemma bytes_forall (P : Z → bool) :
  forallb P all_bytes = true → ∀ a, is_byte a → P a = true.
Proof.
  intros H a Ha. rewrite forallb_forall in H. apply H, list_elem_of_In, elem_of_seqZ.
  unfold is_byte in Ha. lia.
Qed.

Lemma bytes_forall2 (P : Z → Z → bool) :
  forallb (λ a, forallb (P a) all_bytes) all_bytes = true → ∀ a b, is_byte a → is_byte b → P a b = true.
Proof. intros H a b Ha. apply bytes_forall. by apply (bytes_forall (λ a, forallb (P a) all_bytes)). Qed.

Definition byteb (z : Z) : bool := (0 <=? z) && (z <? 256).

Lemma byteb_spec z : byteb z = true → is_byte z.
Proof. unfold byteb, is_byte. rewrite andb_true_iff, Z.leb_le, Z.ltb_lt. done. Qed.

Lemma lxor_byte a b : is_byte a → is_byte b → is_byte (Z.lxor a b).
Proof.
  intros Ha Hb. apply byteb_spec. revert a b Ha Hb.
  apply (bytes_forall2 (λ a b, byteb (Z.lxor a b))). vm_compute. reflexivity.
Qed.

Lemma xtime_byte a : is_byte a → is_byte (xtime a).
Proof. intros Ha. apply byteb_spec. revert a Ha. apply (bytes_forall (λ a, byteb (xtime a))). by vm_compute. Qed.

Lemma xtime_lxor a b : is_byte a → is_byte b → xtime (Z.lxor a b) = Z.lxor (xtime a) (xtime b).
Proof.
  intros Ha Hb. apply Z.eqb_eq. revert a b Ha Hb.
  apply (bytes_forall2 (λ a b, xtime (Z.lxor a b) =? Z.lxor (xtime a) (xtime b))). vm_compute. reflexivity.
Qed.

Lemma sub_byte_byte a : is_byte a → is_byte (sub_byte a).
Proof. intros Ha. apply byteb_spec. revert a Ha. apply (bytes_forall (λ a, byteb (sub_byte a))). by vm_compute. Qed.

Lemma inv_sub_sub a : is_byte a → inv_sub_byte (sub_byte a) = a.
Proof.
  intros Ha. apply Z.eqb_eq. revert a Ha.
  apply (bytes_forall (λ a, inv_sub_byte (sub_byte a) =? a)). by vm_compute.
Qed.

Create HintDb bytes discriminated.
#[export] Hint Resolve lxor_byte xtime_byte sub_byte_byte : bytes.

#[local] Opaque xtime sub_byte inv_sub_byte.

(** ** Each step is undone *)

(** The matrices of the two column maps are inverses over the polynomials: no
    reduction is needed. *)
Lemma inv_mix_mix a b c d : is_byte a → is_byte b → is_byte c → is_byte d →
  match mix_column a b c d with [a'; b'; c'; d'] => inv_mix_column a' b' c' d' | _ => [] end = [a; b; c; d].
Proof.
  intros Ha Hb Hc Hd. unfold mix_column, inv_mix_column, xor4, mul14, mul13, mul11, mul9, mul3.
  repeat (rewrite !xtime_lxor by auto 20 with bytes).
  repeat f_equal; apply Z.bits_inj'; intros n _; rewrite !Z.lxor_spec;
    repeat match goal with |- context [Z.testbit ?x n] => generalize (Z.testbit x n); intros ? end; btauto.
Qed.

Definition is_block (st : list Z) : Prop := length st = BlockSize ∧ Forall is_byte st.

Lemma block_cases (P : list Z → Prop) :
  (∀ a b c d e f g h i j k l m n o p, Forall is_byte [a; b; c; d; e; f; g; h; i; j; k; l; m; n; o; p] →
     P [a; b; c; d; e; f; g; h; i; j; k; l; m; n; o; p]) →
  ∀ st, is_block st → P st.
Proof. intros H st [Hl Hf]. do 16 (destruct st as [|? st]; [done|]). destruct st; [by apply H|done]. Qed.

Lemma xor_bytes_length a b : length (xor_bytes a b) = Nat.min (length a) (length b).
Proof. apply length_zip_with. Qed.

Lemma xor_bytes_bytes a b : Forall is_byte a → Forall is_byte b → Forall is_byte (xor_bytes a b).
Proof.
  intros Ha. revert b. induction Ha as [|x a Hx _ IH]; intros [|y b] Hb; try constructor.
  - apply Forall_cons in Hb as [Hy _]. by apply lxor_byte.
  - apply Forall_cons in Hb as [_ Hb]. by apply IH.
Qed.

Lemma xor_bytes_cancel a k : (length a ≤ length k)%nat → xor_bytes (xor_bytes a k) k = a.
Proof.
  revert k. induction a as [|x a IH]; intros [|y k] Hl; simpl in *; try done; [lia|].
  f_equal; [|apply IH; lia]. by rewrite Z.lxor_assoc, Z.lxor_nilpotent, Z.lxor_0_r.
Qed.

Lemma xor_block st k : is_block st → is_block k → is_block (xor_bytes st k).
Proof.
  intros [Hl Hf] [Hl' Hf']. split; [|by apply xor_bytes_bytes].
  rewrite xor_bytes_length, Hl, Hl'. done.
Qed.

Lemma sub_block st : is_block st → is_block (sub_byte <$> st).
Proof.
  intros [Hl Hf]. split; [by rewrite length_fmap|]. apply Forall_fmap. eapply Forall_impl; [exact Hf|].
  apply sub_byte_byte.
Qed.

Lemma inv_sub_sub_block st : Forall is_byte st → inv_sub_byte <$> (sub_byte <$> st) = st.
Proof.
  intros Hf. rewrite <- list_fmap_compose. rewrite <- (list_fmap_id st) at 2.
  apply list_fmap_ext. intros i x Hx. apply inv_sub_sub. by eapply Forall_lookup_1.
Qed.

#[local] Ltac bytes_of H :=
  repeat match type of H with Forall _ (_ :: _) => apply Forall_cons in H as [? H] end.

#[local] Ltac all_bytes_tac := repeat first [apply Forall_nil_2 | apply Forall_cons_2; [by auto 10 with bytes|]].

Lemma shift_block st : is_block st → is_block (ShiftRows st) ∧ InvShiftRows (ShiftRows st) = st.
Proof.
  revert st. apply block_cases. intros. split; [|done]. bytes_of H. split; [done|]. unfold ShiftRows, permute. simpl. all_bytes_tac.
Qed.

Lemma mix_block st : is_block st → is_block (MixColumns st) ∧ InvMixColumns (MixColumns st) = st.
Proof.
  revert st. apply block_cases. intros a b c d e f g h i j k l m n o p H. bytes_of H.
  unfold InvMixColumns, MixColumns. cbn [columns]. 
  pose proof (inv_mix_mix a b c d) as E1. pose proof (inv_mix_mix e f g h) as E2.
  pose proof (inv_mix_mix i j k l) as E3. pose proof (inv_mix_mix m n o p) as E4.
  unfold mix_column in *. cbn [app columns]. rewrite E1, E2, E3, E4 by done. split; [|done].
  split; [done|]. unfold xor4, mul3. all_bytes_tac.
Qed.

#[local] Opaque ShiftRows InvShiftRows MixColumns InvMixColumns.

Lemma round_undone st k : is_block st → is_block k →
  is_block (enc_round st k) ∧ dec_round (enc_round st k) k = st.
Proof.
  intros Hst Hk. pose proof (sub_block _ Hst) as Hs. destruct (shift_block _ Hs) as [Hh Eh].
  destruct (mix_block _ Hh) as [Hm Em]. split; [by apply xor_block|].
  unfold dec_round, enc_round. rewrite xor_bytes_cancel by (destruct Hm as [-> _], Hk as [-> _]; done).
  rewrite Em, Eh. apply inv_sub_sub_block, Hst.
Qed.

Lemma last_undone st k : is_block st → is_block k →
  is_block (enc_last st k) ∧ dec_last (enc_last st k) k = st.
Proof.
  intros Hst Hk. pose proof (sub_block _ Hst) as Hs. destruct (shift_block _ Hs) as [Hh Eh].
  split; [by apply xor_block|].
  unfold dec_last, enc_last. rewrite xor_bytes_cancel by (destruct Hh as [-> _], Hk as [-> _]; done).
  rewrite Eh. apply inv_sub_sub_block, Hst.
Qed.

Lemma rounds_undone ks st : is_block st → Forall is_block ks →
  is_block (fold_left enc_round ks st) ∧ fold_left dec_round (rev ks) (fold_left enc_round ks st) = st.
Proof.
  intros Hst Hks. revert st Hst. induction Hks as [|k ks Hk _ IH]; intros st Hst; [done|].
  cbn [fold_left rev]. destruct (round_undone st k Hst Hk) as [Hr Er].
  destruct (IH _ Hr) as [Hb Eb]. split; [done|]. rewrite fold_left_app, Eb. exact Er.
Qed.

(** ** The key schedule yields blocks *)

Definition is_word (w : list Z) : Prop := length w = 4%nat ∧ Forall is_byte w.

Lemma pieces_spec {A} (n k : nat) (l : list A) (P : A → Prop) : Forall P l → (length l = n * k)%nat →
  length (pieces n k l) = n ∧ Forall (λ w, length w = k ∧ Forall P w) (pieces n k l) ∧ concat (pieces n k l) = l.
Proof.
  revert l. induction n as [|n IH]; intros l Hl Hn; simpl.
  - simpl in Hn. apply nil_length_inv in Hn as ->. by repeat constructor.
  - assert (length (drop k l) = n * k)%nat as Hd by (rewrite length_drop; lia).
    destruct (IH (drop k l) ltac:(by apply Forall_drop) Hd) as (H1 & H2 & H3).
    split_and!; [by rewrite H1| |by rewrite H3, take_drop].
    constructor; [|done]. split; [rewrite length_take; lia|by apply Forall_take].
Qed.

Lemma rcon_byte j : is_byte (rcon j).
Proof.
  induction j as [|j IH]; [done|]. destruct j as [|j]; [done|].
  change (rcon (S (S j))) with (xtime (rcon (S j))). by apply xtime_byte.
Qed.

Lemma xor_word a b : is_word a → is_word b → is_word (xor_bytes a b).
Proof.
  intros [Hl Hf] [Hl' Hf']. split; [by rewrite xor_bytes_length, Hl, Hl'|by apply xor_bytes_bytes].
Qed.

Lemma sub_word_word w : is_word w → is_word (sub_word w).
Proof.
  intros [Hl Hf]. split; [by unfold sub_word; rewrite length_fmap|]. apply Forall_fmap.
  eapply Forall_impl; [exact Hf|]. apply sub_byte_byte.
Qed.

Lemma rot_word_word w : is_word w → is_word (rot_word w).
Proof.
  intros [Hl Hf]. destruct w as [|a w]; [done|]. split; simpl in *.
  - rewrite length_app. simpl. lia.
  - apply Forall_cons in Hf as [Ha Hw]. apply Forall_app. by rewrite Forall_singleton.
Qed.

Lemma Forall_nth_lt {A} (P : A → Prop) l i d : Forall P l → (i < length l)%nat → P (nth i l d).
Proof.
  intros Hf Hi. rewrite nth_lookup. destruct (lookup_lt_is_Some_2 l i Hi) as [x Hx]. rewrite Hx. simpl.
  by eapply Forall_lookup_1.
Qed.

Lemma Forall_last {A} (P : A → Prop) l d : Forall P l → l ≠ [] → P (List.last l d).
Proof.
  intros Hf Hne. destruct (exists_last Hne) as (l' & x & ->). rewrite last_last.
  apply Forall_app in Hf as [_ Hx]. by apply Forall_cons in Hx as [? _].
Qed.

Lemma next_word_word nk ws : (0 < nk ≤ length ws)%nat → Forall is_word ws →
  is_word (next_word nk (length ws) ws).
Proof.
  intros Hn Hw. assert (is_word (List.last ws [])) as Hlast.
  { apply Forall_last; [done|]. intros ->. simpl in Hn. lia. }
  assert (is_word [rcon (length ws / nk); 0; 0; 0]) as Hr.
  { split; [done|]. apply Forall_cons_2; [apply rcon_byte|]. by apply (bool_decide_unpack _). }
  unfold next_word. apply xor_word; [apply Forall_nth_lt; [done|lia]|].
  repeat case_decide; [apply xor_word; [by apply sub_word_word, rot_word_word|done]|by apply sub_word_word|done].
Qed.

Lemma expand_words steps nk ws : (0 < nk ≤ length ws)%nat → Forall is_word ws →
  Forall is_word (expand steps nk ws) ∧ length (expand steps nk ws) = (length ws + steps)%nat.
Proof.
  revert ws. induction steps as [|steps IH]; intros ws Hn Hw; [by rewrite Nat.add_0_r|].
  cbn [expand]. destruct (IH (ws ++ [next_word nk (length ws) ws])) as [H1 H2].
  - rewrite length_app. simpl. lia.
  - apply Forall_app. split; [done|]. apply Forall_singleton. by apply next_word_word.
  - split; [done|]. rewrite H2, length_app. simpl. lia.
Qed.

(** A key of 128, 192 or 256 bits *)
Definition is_key (key : list Z) : Prop :=
  (length key = 16 ∨ length key = 24 ∨ length key = 32)%nat ∧ Forall is_byte key.

Lemma key_schedule_blocks key : is_key key →
  ∃ k0 ks kn, split_keys (key_schedule key) = (k0, ks, kn) ∧
    is_block k0 ∧ Forall is_block ks ∧ is_block kn.
Proof.
  intros [Hl Hf]. unfold key_schedule. set (nk := key_words key). set (nr := rounds key).
  assert (4 ≤ nk ≤ 8 ∧ length key = nk * 4 ∧ nr = nk + 6)%nat as (Hnk & Hlk & Hnr).
  { unfold nr, rounds. fold nk. unfold nk, key_words. destruct Hl as [->|[->| ->]]; simpl; lia. }
  destruct (pieces_spec nk 4 key is_byte Hf Hlk) as (Hpl & Hpw & _).
  destruct (expand_words (4 * (nr + 1) - nk) nk (pieces nk 4 key)) as [Hw Hwl]; [lia|exact Hpw|].
  destruct (pieces_spec (nr + 1) 4 _ is_word Hw) as (Hrl & Hrw & _); [rewrite Hwl; lia|].
  assert (Forall is_block ((λ ws, concat ws) <$> pieces (nr + 1) 4 (expand (4 * (nr + 1) - nk) nk (pieces nk 4 key)))) as Hb.
  { apply Forall_fmap. eapply Forall_impl; [exact Hrw|]. intros ws [Hws Hwf]. simpl.
    do 4 (destruct ws as [|? ws]; [done|]). destruct ws; [|done].
    repeat match goal with H : Forall is_word (_ :: _) |- _ => apply Forall_cons in H as [[? ?] H] end.
    simpl. split; [rewrite !length_app; simpl; unfold BlockSize; lia|]. by repeat apply Forall_app_2. }
  set (rks := (λ ws, concat ws) <$> _) in *.
  assert (length rks = nr + 1)%nat as Hlr by (unfold rks; by rewrite length_fmap).
  clearbody rks. destruct rks as [|k0 rks]; [simpl in Hlr; lia|].
  apply Forall_cons in Hb as [Hk0 Hb]. destruct rks as [|k1 rks]; [simpl in Hlr; lia|].
  exists k0, (removelast (k1 :: rks)), (List.last (k1 :: rks) []). split_and!; [done|done| |].
  - rewrite (app_removelast_last [] (l:=k1 :: rks)) in Hb by done. by apply Forall_app in Hb as [? _].
  - by apply Forall_last.
Qed.

(** Decryption undoes encryption. *)
Lemma decrypt_encrypt_block key st : is_key key → is_block st →
  is_block (encrypt_block key st) ∧ decrypt_block key (encrypt_block key st) = st.
Proof.
  intros Hkey Hst. destruct (key_schedule_blocks key Hkey) as (k0 & ks & kn & E & H0 & Hks & Hn).
  unfold encrypt_block, decrypt_block. rewrite E. pose proof (xor_block _ _ Hst H0) as Hx.
  destruct (rounds_undone ks _ Hx Hks) as [Hb Eb]. destruct (last_undone _ _ Hb Hn) as [Hl El].
  split; [done|]. rewrite El, Eb. apply xor_bytes_cancel. destruct Hst as [-> _], H0 as [-> _]. done.
Qed.

(** ** Chaining is undone *)

Lemma pieces_concat {A} (k : nat) (ls : list (list A)) :
  Forall (λ w, length w = k) ls → pieces (length ls) k (concat ls) = ls.
Proof.
  induction 1 as [|w ls Hw _ IH]; [done|]. cbn [length pieces concat].
  rewrite take_app_length', drop_app_length' by done. by rewrite IH.
Qed.

Lemma concat_length {A} (k : nat) (ls : list (list A)) :
  Forall (λ w, length w = k) ls → length (concat ls) = (length ls * k)%nat.
Proof. induction 1 as [|w ls Hw _ IH]; [done|]. simpl. rewrite length_app, IH, Hw. lia. Qed.

Lemma blocks_concat (ls : list (list Z)) : Forall is_block ls → blocks (concat ls) = ls.
Proof.
  intros Hl. assert (Forall (λ w : list Z, length w = BlockSize) ls) as Hk
    by (eapply Forall_impl; [exact Hl|]; by intros w [? _]).
  unfold blocks. rewrite (concat_length BlockSize) by done. rewrite Nat.div_mul by done.
  by apply pieces_concat.
Qed.

Lemma cbc_undone key iv ps : is_key key → is_block iv → Forall is_block ps →
  Forall is_block (cbc_encrypt (encrypt_block key) iv ps) ∧
  length (cbc_encrypt (encrypt_block key) iv ps) = length ps ∧
  cbc_decrypt (decrypt_block key) iv (cbc_encrypt (encrypt_block key) iv ps) = ps.
Proof.
  intros Hkey Hiv Hps. revert iv Hiv. induction Hps as [|p ps Hp _ IH]; intros iv Hiv; [done|].
  cbn [cbc_encrypt cbc_decrypt length]. pose proof (xor_block _ _ Hp Hiv) as Hx.
  destruct (decrypt_encrypt_block key _ Hkey Hx) as [He Ed].
  destruct (IH _ He) as (H1 & H2 & H3). split_and!; [by constructor|by rewrite H2|].
  rewrite Ed, H3. f_equal. apply xor_bytes_cancel. destruct Hp as [-> _], Hiv as [-> _]. done.
Qed.

(** Data of whole blocks comes back; encryption keeps its length. *)
Lemma CryptBlocks_undone key iv data :
  is_key key → is_block iv → Forall is_byte data → (length data `mod` BlockSize = 0)%nat →
  CryptBlocks key iv (CBC_encrypt key iv data) = data ∧
  length (CBC_encrypt key iv data) = length data ∧ Forall is_byte (CBC_encrypt key iv data).
Proof.
  intros Hkey Hiv Hd Hm.
  destruct (pieces_spec (length data / BlockSize) BlockSize data is_byte Hd) as (Hl & Hf & Hc).
  { pose proof (Nat.div_mod_eq (length data) BlockSize). lia. }
  assert (Forall is_block (blocks data)) as Hb by exact Hf.
  destruct (cbc_undone key iv (blocks data) Hkey Hiv Hb) as (H1 & H2 & H3).
  unfold CryptBlocks, CBC_encrypt. rewrite blocks_concat by done. rewrite H3. split_and!.
  - exact Hc.
  - rewrite (concat_length BlockSize), H2.
    + rewrite <- Hc at 2. rewrite (concat_length BlockSize); [done|].
      eapply Forall_impl; [exact Hb|]. by intros w [? _].
    + eapply Forall_impl; [exact H1|]. by intros w [? _].
  - apply Forall_concat. eapply Forall_impl; [exact H1|]. by intros w [_ ?].
Qed.

(** ** What is decrypted is whole blocks of bytes *)

Lemma inv_sub_byte_byte a : is_byte a → is_byte (inv_sub_byte a).
Proof. intros Ha. apply byteb_spec. revert a Ha. apply (bytes_forall (λ a, byteb (inv_sub_byte a))). by vm_compute. Qed.

Lemma inv_sub_block st : is_block st → is_block (inv_sub_byte <$> st).
Proof.
  intros [Hl Hf]. split; [by rewrite length_fmap|]. apply Forall_fmap. eapply Forall_impl; [exact Hf|].
  apply inv_sub_byte_byte.
Qed.

Lemma inv_shift_block st : is_block st → is_block (InvShiftRows st).
Proof.
  revert st. apply block_cases. intros. bytes_of H. split; [done|].
  with_strategy transparent [InvShiftRows] unfold InvShiftRows. unfold permute. simpl. all_bytes_tac.
Qed.

Lemma inv_mix_block st : is_block st → is_block (InvMixColumns st).
Proof.
  revert st. apply block_cases. intros. bytes_of H. split; [done|].
  with_strategy transparent [InvMixColumns] unfold InvMixColumns. cbn [columns inv_mix_column app].
  unfold xor4, mul14, mul13, mul11, mul9. all_bytes_tac.
Qed.

Lemma decrypt_block_block key st : is_key key → is_block st → is_block (decrypt_block key st).
Proof.
  intros Hkey Hst. destruct (key_schedule_blocks key Hkey) as (k0 & ks & kn & E & H0 & Hks & Hn).
  unfold decrypt_block. rewrite E. apply xor_block; [|done].
  assert (∀ ks st, Forall is_block ks → is_block st → is_block (fold_left dec_round ks st)) as Hf.
  { clear. intros ks st Hks. revert st. induction Hks as [|k ks Hk _ IH]; intros st Hst; [done|].
    apply IH. by apply inv_sub_block, inv_shift_block, inv_mix_block, xor_block. }
  apply Hf; [by apply Forall_rev|]. by apply inv_sub_block, inv_shift_block, xor_block.
Qed.

Lemma CryptBlocks_bytes key iv data :
  is_key key → is_block iv → Forall is_byte data → (length data `mod` BlockSize = 0)%nat →
  Forall is_byte (CryptBlocks key iv data) ∧ length (CryptBlocks key iv data) = length data.
Proof.
  intros Hkey Hiv Hd Hm.
  destruct (pieces_spec (length data / BlockSize) BlockSize data is_byte Hd) as (Hl & Hf & _).
  { pose proof (Nat.div_mod_eq (length data) BlockSize). lia. }
  assert (∀ cs iv, is_block iv → Forall is_block cs →
    Forall is_block (cbc_decrypt (decrypt_block key) iv cs) ∧
    length (cbc_decrypt (decrypt_block key) iv cs) = length cs) as Hc.
  { clear -Hkey. induction cs as [|c cs IH]; intros iv Hiv; [done|].
    intros [Hc Hcs]%Forall_cons. destruct (IH c Hc Hcs) as [H1 H2]. cbn [cbc_decrypt length].
    split; [|by rewrite H2]. constructor; [|done]. apply xor_block; [|done]. by apply decrypt_block_block. }
  destruct (Hc (blocks data) iv Hiv Hf) as [H1 H2]. unfold CryptBlocks. split.
  - apply Forall_concat. eapply Forall_impl; [exact H1|]. by intros w [_ ?].
  - rewrite (concat_length BlockSize) by (eapply Forall_impl; [exact H1|]; by intros w [? _]).
    rewrite H2. unfold blocks. rewrite Hl. pose proof (Nat.div_mod_eq (length data) BlockSize). lia.
Qed.

(** ** Base64 *)

Definition b64_digit (c : ascii) : option Z :=
  let n := Z.of_nat (nat_of_ascii c) in
  if (65 <=? n) && (n <=? 90) then Some (n - 65)
  else if (97 <=? n) && (n <=? 122) then Some (n - 71)
  else if (48 <=? n) && (n <=? 57) then Some (n + 4)
  else if n =? 43 then Some 62
  else if n =? 47 then Some 63
  else None.

Definition b64_char (d : Z) : ascii :=
  ascii_of_nat (Z.to_nat
    (if d <? 26 then d + 65 else if d <? 52 then d + 71 else if d <? 62 then d - 4
     else if d =? 62 then 43 else 47)).

(** Groups of four characters; padding ends the text. *)
Fixpoint b64_groups (s : list ascii) : option (list Z) :=
  match s with
  | [] => Some []
  | a :: b :: c :: d :: rest =>
      x ← b64_digit a;
      y ← b64_digit b;
      if decide (c = "="%char) then
        if decide (d = "="%char ∧ rest = []) then Some [4 * x + y / 16] else None
      else
        z ← b64_digit c;
        if decide (d = "="%char) then
          if decide (rest = []) then Some [4 * x + y / 16; y `mod` 16 * 16 + z / 4] else None
        else
          w ← b64_digit d;
          l ← b64_groups rest;
          Some (4 * x + y / 16 :: y `mod` 16 * 16 + z / 4 :: z `mod` 4 * 64 + w :: l)
  | _ => None
  end.

Definition not_newline (c : ascii) : Prop := c ≠ "010"%char ∧ c ≠ "013"%char.

#[export] Instance not_newline_dec c : Decision (not_newline c).
Proof. unfold not_newline. apply _. Defined.

(** [base64.StdEncoding.DecodeString]: line breaks are ignored. *)
Definition b64_decode (s : list ascii) : option (list Z) := b64_groups (filter not_newline s).

(** [base64.StdEncoding.EncodeToString] *)
Fixpoint b64_encode (bs : list Z) : list ascii :=
  match bs with
  | [] => []
  | [x] => [b64_char (x / 4); b64_char (x `mod` 4 * 16); "="%char; "="%char]
  | [x; y] => [b64_char (x / 4); b64_char (x `mod` 4 * 16 + y / 16);
               b64_char (y `mod` 16 * 4); "="%char]
  | x :: y :: z :: bs =>
      b64_char (x / 4) :: b64_char (x `mod` 4 * 16 + y / 16) ::
      b64_char (y `mod` 16 * 4 + z / 64) :: b64_char (z `mod` 64) :: b64_encode bs
  end.

(** A printing character of ASCII *)
Definition b64_plain (c : ascii) : Prop := not_newline c ∧ (nat_of_ascii c < 128)%nat.

#[export] Instance b64_plain_dec c : Decision (b64_plain c).
Proof. unfold b64_plain. apply _. Defined.

Lemma b64_digit_char d : 0 ≤ d < 64 →
  b64_digit (b64_char d) = Some d ∧ b64_char d ≠ "="%char ∧ b64_plain (b64_char d).
Proof.
  intros Hd.
  assert (forallb (λ d, bool_decide (b64_digit (b64_char d) = Some d) &&
    bool_decide (b64_char d ≠ "="%char) && bool_decide (b64_plain (b64_char d))) (seqZ 0 64) = true) as H
    by (vm_compute; reflexivity).
  rewrite forallb_forall in H. specialize (H d ltac:(apply list_elem_of_In, elem_of_seqZ; lia)).
  apply andb_true_iff in H as [[H1 H2]%andb_true_iff H3].
  apply bool_decide_eq_true in H1, H2, H3. done.
Qed.

#[local] Opaque b64_char b64_digit.

Lemma list_ind3 {A} (P : list A → Prop) :
  P [] → (∀ x, P [x]) → (∀ x y, P [x; y]) → (∀ x y z l, P l → P (x :: y :: z :: l)) → ∀ l, P l.
Proof.
  intros H0 H1 H2 H3. assert (∀ l x y, P l ∧ P (x :: l) ∧ P (x :: y :: l)) as H.
  { induction l as [|z l IH]; intros x y; [done|]. split_and!; [apply (IH z z)|apply (IH x z)|].
    apply H3, (IH x x). }
  intros l. destruct l as [|x l]; [done|]. apply (H l x x).
Qed.

#[local] Ltac no_newlines :=
  repeat first [assumption | apply Forall_nil_2 |
    apply Forall_cons_2; [first [assumption | by apply (bool_decide_unpack _)]|]].

Lemma b64_encode_groups bs : Forall is_byte bs →
  Forall b64_plain (b64_encode bs) ∧ b64_groups (b64_encode bs) = Some bs.
Proof.
  intros Hb. induction bs as [|x|x y|x y z bs IH] using list_ind3.
  - by split; [constructor|].
  - apply Forall_cons in Hb as [Hx _]. unfold is_byte in Hx. cbn [b64_encode b64_groups].
    destruct (b64_digit_char (x / 4)) as (E1 & _ & N1); [Z.to_euclidean_division_equations; lia|].
    destruct (b64_digit_char (x `mod` 4 * 16)) as (E2 & _ & N2); [Z.to_euclidean_division_equations; lia|].
    split; [no_newlines|]. rewrite E1, E2. simpl. do 2 f_equal.
    Z.to_euclidean_division_equations; lia.
  - apply Forall_cons in Hb as [Hx [Hy _]%Forall_cons]. unfold is_byte in *. cbn [b64_encode b64_groups].
    destruct (b64_digit_char (x / 4)) as (E1 & _ & N1); [Z.to_euclidean_division_equations; lia|].
    destruct (b64_digit_char (x `mod` 4 * 16 + y / 16)) as (E2 & _ & N2);
      [Z.to_euclidean_division_equations; lia|].
    destruct (b64_digit_char (y `mod` 16 * 4)) as (E3 & Q3 & N3); [Z.to_euclidean_division_equations; lia|].
    split; [no_newlines|]. rewrite E1, E2, E3. cbn [mbind option_bind].
    rewrite (decide_False (P:=b64_char (y `mod` 16 * 4) = "="%char)) by done. simpl.
    do 2 f_equal; [|f_equal]; Z.to_euclidean_division_equations; lia.
  - apply Forall_cons in Hb as [Hx [Hy [Hz Hb]%Forall_cons]%Forall_cons]. unfold is_byte in *.
    destruct (IH Hb) as [Hn Hg]. cbn [b64_encode b64_groups].
    destruct (b64_digit_char (x / 4)) as (E1 & _ & N1); [Z.to_euclidean_division_equations; lia|].
    destruct (b64_digit_char (x `mod` 4 * 16 + y / 16)) as (E2 & _ & N2);
      [Z.to_euclidean_division_equations; lia|].
    destruct (b64_digit_char (y `mod` 16 * 4 + z / 64)) as (E3 & Q3 & N3);
      [Z.to_euclidean_division_equations; lia|].
    destruct (b64_digit_char (z `mod` 64)) as (E4 & Q4 & N4); [Z.to_euclidean_division_equations; lia|].
    split; [no_newlines|]. rewrite E1, E2, E3, E4. cbn [mbind option_bind].
    rewrite !decide_False by done. rewrite Hg. simpl.
    do 2 f_equal; [|f_equal; [|f_equal]]; Z.to_euclidean_division_equations; lia.
Qed.

Lemma b64_undone bs : Forall is_byte bs → b64_decode (b64_encode bs) = Some bs.
Proof.
  intros [Hn Hg]%b64_encode_groups. unfold b64_decode. rewrite filter_all; [done|].
  eapply Forall_impl; [exact Hn|]. by intros c [? _].
Qed.

Lemma b64_digit_range c d : b64_digit c = Some d → 0 ≤ d < 64.
Proof.
  with_strategy transparent [b64_digit] unfold b64_digit.
  repeat match goal with |- context [if ?b then _ else _] => destruct b eqn:? end; intros [= <-];
    rewrite ?andb_true_iff, ?Z.leb_le, ?Z.eqb_eq in *; lia.
Qed.

Lemma b64_groups_bytes n s bs : (length s ≤ n)%nat → b64_groups s = Some bs → Forall is_byte bs.
Proof.
  revert s bs. induction n as [|n IH]; intros s bs Hn.
  { destruct s; [|simpl in Hn; lia]. by intros [= <-]. }
  destruct s as [|a [|b [|c [|d rest]]]]; try done; [by intros [= <-]|]. cbn [b64_groups].
  destruct (b64_digit a) as [x|] eqn:Ea; [|done]. destruct (b64_digit b) as [y|] eqn:Eb; [|done].
  apply b64_digit_range in Ea, Eb. cbn [mbind option_bind]. case_decide.
  { case_decide; [|done]. intros [= <-]. apply Forall_singleton. unfold is_byte.
    Z.to_euclidean_division_equations; lia. }
  destruct (b64_digit c) as [z|] eqn:Ec; [|done]. apply b64_digit_range in Ec. cbn [mbind option_bind].
  case_decide.
  { case_decide; [|done]. intros [= <-].
    repeat apply Forall_cons_2; [..|done]; unfold is_byte; Z.to_euclidean_division_equations; lia. }
  destruct (b64_digit d) as [w|] eqn:Ed; [|done]. apply b64_digit_range in Ed. cbn [mbind option_bind].
  destruct (b64_groups rest) as [l|] eqn:El; [|done]. intros [= <-].
  apply IH in El; [|simpl in Hn; lia].
  repeat apply Forall_cons_2; [..|done]; unfold is_byte; Z.to_euclidean_division_equations; lia.
Qed.

Lemma b64_decode_bytes s bs : b64_decode s = Some bs → Forall is_byte bs.
Proof. by apply (b64_groups_bytes _ _ _ (le_n _)). Qed.
