(* ===== verification/Credential.v ===== *)
(** * Credential: internal/controller/credential.go

    The credentials of the controller.  With the type [ram_role_sts] they come
    from a secret whose fields are encrypted with AES under a key it holds
    itself; they are refreshed when they have expired or are five minutes old.
    Times are nanoseconds since the Unix epoch. *)

From S2P Require Import Prelude Effects GoStr Json Time Types RuntimeApi Host Metadata Config Aes.

Definition fiveMinutes : Z := 5 * Minute.

(** ** Decryption *)

(** [l[:n]] *)
Definition slice_to {A} (l : list A) (n : Z) : outcome (list A) :=
  if (0 <=? n) && (n <=? Z.of_nat (length l)) then Ret (take (Z.to_nat n) l)
  else Panic IndexOutOfRange.

Definition pks5UnPadding (origData : list Z) : outcome (list Z) :=
  let length := Z.of_nat (length origData) in
  unpadding ← (match origData with
               | [] => Panic IndexOutOfRange
               | _ => Ret (List.last origData 0)
               end);
  slice_to origData (length - unpadding).

(** [aes.NewCipher] takes keys of three sizes. *)
Definition key_size_ok (keyring : list Z) : bool :=
  bool_decide (length keyring = 16%nat) || bool_decide (length keyring = 24%nat) ||
  bool_decide (length keyring = 32%nat).

(** [decrypt]: data shorter than a block cannot be sliced, and [CryptBlocks]
    panics on data that is not whole blocks. *)
Definition decrypt (s : string) (keyring : list Z) : outcome (list Z) :=
  match b64_decode (chars s) with
  | None => throw (Errorf "failed to decode base64 string, err: %w" []
                     (Some (Errorf "illegal base64 data" [] None)))
  | Some cdata =>
      if negb (key_size_ok keyring) then
        throw (Errorf "failed to new cipher, err:%w" []
                 (Some (Errorf "crypto/aes: invalid key size %d" [Itoa (Z.of_nat (length keyring))] None)))
      else
        iv ← slice_to cdata (Z.of_nat BlockSize);
        let src := drop BlockSize cdata in
        if decide (length src `mod` BlockSize = 0)%nat
        then pks5UnPadding (CryptBlocks keyring iv src)
        else panic (Panicked "crypto/cipher: input not full blocks")
  end.

(** ** The provider *)

(** [credentials.CredentialModel]; the provider sets every field. *)
Record CredentialModel := mkCredentialModel {
  cm_AccessKeyId : string;
  cm_AccessKeySecret : string;
  cm_SecurityToken : string;
  cm_Type : string
}.

Record stsTokenCredential := mkStsTokenCredential {
  sts_secretNs : string;
  sts_SecretName : string;
  sts_sessionCredential : option CredentialModel;
  sts_credentialExpiration : Z;
  sts_lastUpdate : Z
}.

Definition getStsCredential (credential : Credentials) : stsTokenCredential :=
  mkStsTokenCredential (cred_StsSecretNS credential) (cred_StsSecretName credential) None zeroTime zeroTime.

Record EncryptedCredentialInfo := mkEncryptedInfo {
  ei_AccessKeyID : string;
  ei_AccessKeySecret : string;
  ei_SecurityToken : string;
  ei_Expiration : string;
  ei_Keyring : string
}.

Definition encrypted_fields : list (field EncryptedCredentialInfo) := [
  mkField "access.key.id" ei_AccessKeyID (λ x '(mkEncryptedInfo _ b c d e), mkEncryptedInfo x b c d e);
  mkField "access.key.secret" ei_AccessKeySecret (λ x '(mkEncryptedInfo a _ c d e), mkEncryptedInfo a x c d e);
  mkField "security.token" ei_SecurityToken (λ x '(mkEncryptedInfo a b _ d e), mkEncryptedInfo a b x d e);
  mkField "expiration" ei_Expiration (λ x '(mkEncryptedInfo a b c _ e), mkEncryptedInfo a b c x e);
  mkField "keyring" ei_Keyring (λ x '(mkEncryptedInfo a b c d _), mkEncryptedInfo a b c d x)
].

#[export] Instance EncryptedCredentialInfo_FromJson : FromJson EncryptedCredentialInfo := {|
  go_zero := mkEncryptedInfo ε ε ε ε ε;
  decode := decode_struct "controller.EncryptedCredentialInfo" encrypted_fields
|}.

(** An error of a plain function, wrapped *)
Definition wrapErr {A} (format : string) (o : outcome A) : outcome A :=
  match o with Err err => throw (Errorf format [] (Some err)) | o => o end.

(** What [updateCredential] makes of the secret's document *)
Definition resolve (encodeTokenCfg : string) : outcome (CredentialModel * Z) :=
  match Unmarshal (A:=EncryptedCredentialInfo) encodeTokenCfg with
  | inr err => throw (Errorf "error unmarshal token config: %w" [] (Some err))
  | inl akInfo =>
      let keyring := bytes_of (ei_Keyring akInfo) in
      ak ← wrapErr "failed to decode ak, err: %w" (decrypt (ei_AccessKeyID akInfo) keyring);
      sk ← wrapErr "failed to decode sk, err: %w" (decrypt (ei_AccessKeySecret akInfo) keyring);
      token ← wrapErr "failed to decode token, err: %w" (decrypt (ei_SecurityToken akInfo) keyring);
      match time_Parse (ei_Expiration akInfo) with
      | None => throw (Errorf "failed to parse expiration time, err: %w" []
                         (Some (Errorf "parsing time %q" [ei_Expiration akInfo] None)))
      | Some t => Ret (mkCredentialModel (string_of ak) (string_of sk) (string_of token) "ram_role_sts", t)
      end
  end.

(** [updateCredential]; the receiver is assigned only when nothing failed. *)
Definition updateCredential (s : stsTokenCredential) : prog Host stsTokenCredential :=
  stsSecret ← host (GetSecret (sts_secretNs s) (sts_SecretName s));
  match stsSecret with
  | inr err => errorf "failed to get sts secret: %s" [error_string err]
  | inl stsSecret =>
      match sec_Data stsSecret !! "addon.token.config" with
      | None => errorf "sts secret does not contain addon.token.config" []
      | Some encodeTokenCfg =>
          '(model, t) ← moutcome (resolve encodeTokenCfg);
          now ← host Now;
          mret (mkStsTokenCredential (sts_secretNs s) (sts_SecretName s) (Some model) t now)
      end
  end.

Definition needUpdateCredential (s : stsTokenCredential) : prog Host bool :=
  match sts_sessionCredential s with
  | None => mret true
  | Some _ =>
      now ← host Now;
      if sts_credentialExpiration s <? now then mret true
      else
        now ← host Now;
        mret (sts_lastUpdate s <? now - fiveMinutes)
  end.

(** [GetCredential]; the receiver is returned.  An error leaves the receiver as
    it was. *)
Definition GetCredential (s : stsTokenCredential) : prog Host (stsTokenCredential * CredentialModel) :=
  need ← (match sts_sessionCredential s with
          | None => mret true
          | Some _ => needUpdateCredential s
          end);
  s ← (if (need : bool) then
         r ← try (updateCredential s);
         match r with
         | inl s => mret s
         | inr err =>
             now ← host Now;
             if now <? sts_credentialExpiration s then mret s else throw err
         end
       else mret s);
  session ← deref (sts_sessionCredential s);
  mret (s, mkCredentialModel (cm_AccessKeyId session) (cm_AccessKeySecret session)
             (cm_SecurityToken session) "ram_role_sts").

Definition GetAccessKeyId (s : stsTokenCredential) : prog Host (stsTokenCredential * string) :=
  '(s, cred) ← GetCredential s; mret (s, cm_AccessKeyId cred).

Definition GetAccessKeySecret (s : stsTokenCredential) : prog Host (stsTokenCredential * string) :=
  '(s, cred) ← GetCredential s; mret (s, cm_AccessKeySecret cred).

Definition GetSecurityToken (s : stsTokenCredential) : prog Host (stsTokenCredential * string) :=
  '(s, cred) ← GetCredential s; mret (s, cm_SecurityToken cred).

Definition GetBearerToken (s : stsTokenCredential) : option string := None.

Definition GetType (s : stsTokenCredential) : string := "ram_role_sts".

(** ** Decryption undoes encryption *)

Lemma byte_code c : byte (code c) = c.
Proof. unfold byte, code. by rewrite Nat2Z.id, ascii_nat_embedding. Qed.

Lemma code_byte z : is_byte z → code (byte z) = z.
Proof. intros [H1 H2]. unfold byte, code. rewrite nat_ascii_embedding by lia. lia. Qed.

Lemma code_range c : is_byte (code c).
Proof. unfold code, is_byte. pose proof (nat_ascii_bounded c). lia. Qed.

Lemma bytes_of_bytes s : Forall is_byte (bytes_of s).
Proof. apply Forall_fmap, Forall_true. intros c. apply code_range. Qed.

Lemma string_of_bytes_of s : string_of (bytes_of s) = s.
Proof.
  unfold string_of, bytes_of. rewrite <- list_fmap_compose.
  rewrite (list_fmap_ext _ id); [by rewrite list_fmap_id, of_chars_chars|]. intros i c _. apply byte_code.
Qed.

(** PKCS#5 padding to whole blocks *)
Definition pad (data : list Z) : list Z :=
  let k := (BlockSize - length data `mod` BlockSize)%nat in data ++ replicate k (Z.of_nat k).

(** A field of the secret, as its producer encrypts it *)
Definition encrypt (keyring iv plain : list Z) : string :=
  of_chars (b64_encode (iv ++ CBC_encrypt keyring iv (pad plain))).

Lemma pad_length data : (length (pad data) `mod` BlockSize = 0)%nat.
Proof.
  unfold pad. rewrite length_app, length_replicate. set (n := length data).
  pose proof (Nat.div_mod_eq n BlockSize) as E. pose proof (Nat.mod_upper_bound n BlockSize ltac:(done)) as Hb.
  replace (n + (BlockSize - n `mod` BlockSize))%nat with ((n / BlockSize + 1) * BlockSize)%nat by lia.
  by apply Nat.Div0.mod_mul.
Qed.

Lemma pad_undone data : pks5UnPadding (pad data) = Ret data.
Proof.
  unfold pad. set (n := length data). set (k := (BlockSize - n `mod` BlockSize)%nat).
  assert (0 < k)%nat as Hk.
  { pose proof (Nat.mod_upper_bound n BlockSize ltac:(done)). unfold k, BlockSize in *. lia. }
  assert (List.last (data ++ replicate k (Z.of_nat k)) 0 = Z.of_nat k) as El.
  { destruct k as [|k']; [lia|]. rewrite replicate_S_end, (assoc_L (++)). apply last_last. }
  assert (data ++ replicate k (Z.of_nat k) ≠ []) as Hne by (destruct k; [lia|by destruct data]).
  unfold pks5UnPadding. rewrite El.
  destruct (data ++ replicate k (Z.of_nat k)) as [|x l] eqn:E; [done|]. rewrite <- E. simpl.
  unfold slice_to. rewrite length_app, length_replicate. fold n.
  rewrite (proj2 (Z.leb_le _ _)), (proj2 (Z.leb_le _ _)) by lia. simpl. f_equal.
  replace (Z.to_nat (Z.of_nat (n + k) - Z.of_nat k)) with n by lia. by apply take_app_length.
Qed.

Lemma pad_bytes data : Forall is_byte data → Forall is_byte (pad data).
Proof.
  intros Hd. apply Forall_app_2; [done|]. apply Forall_replicate. unfold is_byte, BlockSize. lia.
Qed.

Lemma key_ok keyring : Forall is_byte keyring → key_size_ok keyring = true ↔ is_key keyring.
Proof.
  intros Hb. unfold key_size_ok, is_key. rewrite !orb_true_iff, !bool_decide_eq_true. naive_solver.
Qed.

#[local] Opaque CryptBlocks CBC_encrypt.

(** A field encrypted with AES in CBC mode under a key of 16, 24 or 32 bytes, any
    initialisation vector in front, padded and encoded in base64, is decrypted
    to its plain text. *)
Lemma decrypt_encrypt keyring iv plain :
  is_key keyring → is_block iv → Forall is_byte plain →
  decrypt (encrypt keyring iv plain) keyring = Ret plain.
Proof.
  intros Hkey Hiv Hp. pose proof (pad_bytes plain Hp) as Hpb. pose proof (pad_length plain) as Hpl.
  destruct (CryptBlocks_undone keyring iv (pad plain) Hkey Hiv Hpb Hpl) as (E & El & Eb).
  destruct Hiv as [Hil Hib]. unfold decrypt, encrypt. rewrite chars_of_chars, b64_undone by by apply Forall_app_2.
  rewrite (proj2 (key_ok keyring (proj2 Hkey)) Hkey). cbn [negb]. unfold slice_to at 1.
  rewrite (proj2 (Z.leb_le _ _)), (proj2 (Z.leb_le _ _)) by (rewrite ?length_app, ?Hil; lia).
  cbn [andb mbind outcome_mbind outcome_bind]. rewrite Nat2Z.id, <- Hil, take_app_length, drop_app_length, El.
  rewrite Hil, decide_True by done. rewrite E. apply pad_undone.
Qed.

Definition demo_key : list Z := bytes_of "0123456789abcdef".
Definition demo_iv : list Z := seqZ 0 16.

Lemma demo_key_ok : is_key demo_key.
Proof. split; [by left|apply bytes_of_bytes]. Qed.

Lemma demo_iv_ok : is_block demo_iv.
Proof. split; [done|]. by apply (bool_decide_unpack _); vm_compute. Qed.

(** The encoded text is the one other implementations of AES give. *)
Example encrypt_vector :
  encrypt demo_key demo_iv (bytes_of "LTAI5t") = "AAECAwQFBgcICQoLDA0OD1EhgskCKibf2XMJJKtj8+8=".
Proof. vm_compute. reflexivity. Qed.

(** ** When decryption panics *)

(** What is left of the data once the initialisation vector is taken off *)
Definition plain_of (cdata keyring : list Z) : list Z :=
  CryptBlocks keyring (take BlockSize cdata) (drop BlockSize cdata).

Lemma unpad_cases out : Forall is_byte out →
  match pks5UnPadding out with
  | Ret l => out ≠ [] ∧ List.last out 0 ≤ Z.of_nat (length out) ∧
      l = take (Z.to_nat (Z.of_nat (length out) - List.last out 0)) out
  | Err _ => False
  | Panic _ => out = [] ∨ Z.of_nat (length out) < List.last out 0
  end.
Proof.
  intros Hb. destruct out as [|x out]; [by left|].
  assert (is_byte (List.last (x :: out) 0)) as Hl by by apply Forall_last.
  unfold is_byte in Hl. set (l := x :: out) in *.
  assert (pks5UnPadding l = slice_to l (Z.of_nat (length l) - List.last l 0)) as -> by done.
  unfold slice_to.
  destruct (Z.leb_spec 0 (Z.of_nat (length l) - List.last l 0)); cbn [andb]; [|right; lia].
  rewrite (proj2 (Z.leb_le _ _)) by lia. split_and!; [done|lia|done].
Qed.

(** C30: Decryption of data under a key that the secret holds panics exactly
    when the key has one of the three sizes and the data, decoded, is shorter
    than two blocks, is not whole blocks, or ends in a padding byte larger than
    what there is; other data gives a result or an error. *)
Theorem decrypt_panics_iff s key :
  (∃ f, decrypt s (bytes_of key) = Panic f) ↔
  ∃ cdata, b64_decode (chars s) = Some cdata ∧ is_key (bytes_of key) ∧
    ((length cdata < 32)%nat ∨ (length cdata `mod` BlockSize ≠ 0)%nat ∨
     Z.of_nat (length cdata - BlockSize) < List.last (plain_of cdata (bytes_of key)) 0).
Proof.
  unfold decrypt. destruct (b64_decode (chars s)) as [cdata|] eqn:Ed.
  2: { split; [by intros [f ?]|by intros (? & ? & _)]. }
  pose proof (key_ok _ (bytes_of_bytes key)) as Hk. pose proof (b64_decode_bytes _ _ Ed) as Hcb.
  destruct (key_size_ok (bytes_of key)) eqn:Ek; cbn [negb].
  2: { split; [by intros [f ?]|]. intros (? & _ & Hkey & _). by apply Hk in Hkey. }
  assert (is_key (bytes_of key)) as Hkey by by apply Hk.
  assert ((∃ f, (_ ← slice_to cdata (Z.of_nat BlockSize);
       if decide (length (drop BlockSize cdata) `mod` BlockSize = 0)%nat
       then pks5UnPadding (plain_of cdata (bytes_of key))
       else panic (Panicked "crypto/cipher: input not full blocks")) = Panic f) ↔
     ((length cdata < 32)%nat ∨ (length cdata `mod` BlockSize ≠ 0)%nat ∨
     Z.of_nat (length cdata - BlockSize) < List.last (plain_of cdata (bytes_of key)) 0)) as Hmain.
  - unfold slice_to, BlockSize. destruct (Z.leb_spec (Z.of_nat 16) (Z.of_nat (length cdata)));
      rewrite (proj2 (Z.leb_le 0 (Z.of_nat 16))) by done; cbn [andb mbind outcome_mbind outcome_bind].
    2: { split; [left; lia|eauto]. }
    rewrite length_drop.
    assert ((length cdata - 16) `mod` 16 = length cdata `mod` 16)%nat as Em.
    { replace (length cdata) with ((length cdata - 16) + 1 * 16)%nat at 2 by lia.
      by rewrite Nat.Div0.mod_add. }
    rewrite Em. case_decide as Hm; [|split; [by right; left|by eexists]].
    destruct (CryptBlocks_bytes (bytes_of key) (take BlockSize cdata) (drop BlockSize cdata)) as [Hob Hol].
    + exact Hkey.
    + split; [rewrite length_take; unfold BlockSize; lia|by apply Forall_take].
    + by apply Forall_drop.
    + rewrite length_drop. unfold BlockSize. lia.
    + rewrite length_drop in Hol. fold (plain_of cdata (bytes_of key)) in Hob, Hol.
      pose proof (unpad_cases _ Hob) as Hu. unfold BlockSize in *.
      destruct (pks5UnPadding (plain_of cdata (bytes_of key))) as [l|e|f] eqn:Eu; [|done|].
      * destruct Hu as (Hne & Hle & _). split; [by intros [f ?]|]. intros [Hs|[?|?]]; [|done|lia].
        destruct (plain_of cdata (bytes_of key)) eqn:Ep; [done|]. simpl in Hol. exfalso.
        assert (length cdata < 32 ∧ 16 < length cdata)%nat as [H1 H2] by lia.
        pose proof (Nat.div_mod_eq (length cdata) 16). lia.
      * split; [|eauto]. intros _. destruct Hu as [Hu|Hu]; [left|right; right; lia].
        rewrite Hu in Hol. simpl in Hol. lia.
  - unfold plain_of in Hmain. assert (∀ iv, iv = take BlockSize cdata → slice_to cdata (Z.of_nat BlockSize) = Ret iv ∨
      ∃ f, slice_to cdata (Z.of_nat BlockSize) = Panic f) as Hs.
    { intros iv ->. unfold slice_to. rewrite Nat2Z.id. destruct (_ && _); eauto. }
    destruct (Hs _ eq_refl) as [Es|[f Es]]; rewrite Es in *; cbn [mbind outcome_mbind outcome_bind] in *.
    + rewrite Hmain. naive_solver.
    + split; [|by eexists]. intros _. exists cdata. split_and!; [done..|]. apply Hmain. by eexists.
Qed.

(** A secret whose field is one block long makes the process panic. *)
Example decrypt_short : decrypt "AAECAwQFBgcICQoLDA0ODw==" demo_key = Panic IndexOutOfRange.
Proof. vm_compute. reflexivity. Qed.

(** ** The secret of the STS credentials *)

Definition encrypted_json (i : EncryptedCredentialInfo) : json := JObj [
  ("access.key.id", JStr (ei_AccessKeyID i));
  ("access.key.secret", JStr (ei_AccessKeySecret i));
  ("security.token", JStr (ei_SecurityToken i));
  ("expiration", JStr (ei_Expiration i));
  ("keyring", JStr (ei_Keyring i))
].

(** The three fields of a credential, each encrypted with its own vector *)
Record Sealing := mkSealing { sl_id : list Z; sl_secret : list Z; sl_token : list Z }.

Definition sealed (keyring : string) (ivs : Sealing) (c : CredentialModel) (expiration : string) :
    EncryptedCredentialInfo :=
  let k := bytes_of keyring in
  mkEncryptedInfo (encrypt k (sl_id ivs) (bytes_of (cm_AccessKeyId c)))
    (encrypt k (sl_secret ivs) (bytes_of (cm_AccessKeySecret c)))
    (encrypt k (sl_token ivs) (bytes_of (cm_SecurityToken c))) expiration keyring.

Lemma encrypt_ascii k iv plain : is_key k → is_block iv → Forall is_byte plain →
  ascii_string (encrypt k iv plain).
Proof.
  intros Hk Hiv Hp. unfold ascii_string, encrypt. rewrite chars_of_chars.
  pose proof (pad_bytes plain Hp) as Hpb.
  destruct (CryptBlocks_undone k iv (pad plain) Hk Hiv Hpb (pad_length plain)) as (_ & _ & Eb).
  destruct Hiv as [_ Hib].
  destruct (b64_encode_groups (iv ++ CBC_encrypt k iv (pad plain))) as [Ha _]; [by apply Forall_app_2|].
  eapply Forall_impl; [exact Ha|]. intros c [_ Hc]. unfold code. lia.
Qed.

#[local] Opaque decrypt encrypt time_Parse.

(** C14: What the producer of the secret seals, the provider reads: a document
    whose fields are encrypted with AES in CBC mode under its own key, padded and
    encoded in base64, resolves to the credential it was made from and to the
    time its expiration denotes. *)
Theorem resolve_sealed keyring ivs c expiration t :
  ascii_string keyring → is_key (bytes_of keyring) →
  is_block (sl_id ivs) → is_block (sl_secret ivs) → is_block (sl_token ivs) →
  cm_Type c = "ram_role_sts" → ascii_string expiration → time_Parse expiration = Some t →
  resolve (json_text (encrypted_json (sealed keyring ivs c expiration))) = Ret (c, t).
Proof.
  intros Hka Hk H1 H2 H3 Hty Hea Ht.
  pose proof (λ iv s Hiv, encrypt_ascii (bytes_of keyring) iv (bytes_of s) Hk Hiv (bytes_of_bytes s)) as Ha.
  pose proof (λ iv s Hiv, decrypt_encrypt (bytes_of keyring) iv (bytes_of s) Hk Hiv (bytes_of_bytes s)) as Hd.
  unfold resolve, Unmarshal. rewrite parse_print; [| |done].
  2: { cbn [printable foldr encrypted_json sealed ei_AccessKeyID ei_AccessKeySecret ei_SecurityToken
      ei_Expiration ei_Keyring].
    split_and!; first [done | by apply Ha | by apply (bool_decide_unpack _); vm_compute]. }
  assert (decode (encrypted_json (sealed keyring ivs c expiration)) go_zero =
    (sealed keyring ivs c expiration, None)) as ->.
  { unfold encrypted_json. destruct (sealed keyring ivs c expiration) as [a b d e f].
    cbn [decode EncryptedCredentialInfo_FromJson]. do 5 decode_member by reflexivity. reflexivity. }
  cbn [ei_AccessKeyID ei_AccessKeySecret ei_SecurityToken ei_Expiration ei_Keyring sealed].
  rewrite !Hd by done. simpl. rewrite Ht, !string_of_bytes_of. destruct c; simpl in *. by subst.
Qed.

Definition demo_cred : CredentialModel :=
  mkCredentialModel "LTAI5t" "secret-access-key-01" "STS.token" "ram_role_sts".

Definition demo_sealed : EncryptedCredentialInfo :=
  sealed "0123456789abcdef" (mkSealing demo_iv demo_iv demo_iv) demo_cred "2025-06-01T12:00:00Z".

Lemma resolve_sealed_witness :
  resolve (json_text (encrypted_json demo_sealed)) = Ret (demo_cred, 1748779200000000000).
Proof.
  apply resolve_sealed; [by apply (bool_decide_unpack _); vm_compute|apply demo_key_ok|apply demo_iv_ok..|
    done|by apply (bool_decide_unpack _); vm_compute|reflexivity].
Defined.

(** ** The life of a credential *)

(** The provider has a credential of its type, or has never had one. *)
Definition sts_inv (s : stsTokenCredential) : Prop :=
  match sts_sessionCredential s with
  | None => sts_credentialExpiration s = zeroTime
  | Some c => cm_Type c = "ram_role_sts"
  end.

Lemma getStsCredential_inv credential : sts_inv (getStsCredential credential).
Proof. done. Qed.

Definition reads_clock (ev : event Host) : Prop := ∃ t, ev = Event (S:=Host) Now t.

(** The clock is past the epoch. *)
Definition clock_ok (ev : event Host) : Prop :=
  match ev with Event Now t => 0 ≤ t | _ => True end.

#[export] Instance clock_ok_dec ev : Decision (clock_ok ev).
Proof. destruct ev as [[] r]; apply _. Defined.

(** The credential at hand is used: it has not expired and is not five minutes old. *)
Definition still_fresh (s : stsTokenCredential) (tr : trace Host) : Prop :=
  ∃ t1 t2, tr = [Event (S:=Host) Now t1; Event (S:=Host) Now t2] ∧
    t1 ≤ sts_credentialExpiration s ∧ t2 - fiveMinutes ≤ sts_lastUpdate s.

Lemma needUpdate_exec s tr o c : sts_sessionCredential s = Some c →
  exec (needUpdateCredential s) tr o →
  Forall reads_clock tr ∧ ∃ b, o = Ret b ∧ (b = false → still_fresh s tr).
Proof.
  intros Hs H. unfold needUpdateCredential in H. rewrite Hs in H.
  exec_hcall H as (t1 & tr1 & -> & H). destruct (Z.ltb_spec (sts_credentialExpiration s) t1).
  - destruct H as [-> ->]. split; [repeat constructor; by eexists|]. by exists true.
  - exec_hcall H as (t2 & tr2 & -> & H). destruct H as [-> ->].
    split; [repeat constructor; by eexists|]. eexists. split; [done|].
    intros Hb%Z.ltb_ge. by exists t1, t2.
Qed.

#[local] Opaque resolve.

Lemma updateCredential_exec s tr o :
  exec (updateCredential s) tr o →
  match o with
  | Ret s' => ∃ sec text model t now,
      tr = [Event (S:=Host) (GetSecret (sts_secretNs s) (sts_SecretName s)) (inl sec); Event (S:=Host) Now now] ∧
      sec_Data sec !! "addon.token.config" = Some text ∧ resolve text = Ret (model, t) ∧
      s' = mkStsTokenCredential (sts_secretNs s) (sts_SecretName s) (Some model) t now
  | Err _ => True
  | Panic f => ∃ sec text, tr = [Event (S:=Host) (GetSecret (sts_secretNs s) (sts_SecretName s)) (inl sec)] ∧
      sec_Data sec !! "addon.token.config" = Some text ∧ resolve text = Panic f
  end.
Proof.
  unfold updateCredential. intros H. exec_hcall H as (r & tr1 & -> & H).
  destruct r as [sec|err]; [|by destruct H as [-> ->]].
  destruct (sec_Data sec !! _) as [text|] eqn:Et; [|by destruct H as [-> ->]].
  destruct (resolve text) as [[model t]|e|f] eqn:Er; simpl in H.
  - destruct H as (now & tr2 & -> & -> & ->). by exists sec, text, model, t, now.
  - by destruct H as [-> ->].
  - destruct H as [-> ->]. by exists sec, text.
Qed.

Lemma resolve_type text model t : resolve text = Ret (model, t) → cm_Type model = "ram_role_sts".
Proof.
  with_strategy transparent [resolve] unfold resolve. destruct (Unmarshal text) as [i|]; [|done].
  destruct (decrypt (ei_AccessKeyID i) _); simpl; try done.
  destruct (decrypt (ei_AccessKeySecret i) _); simpl; try done.
  destruct (decrypt (ei_SecurityToken i) _); simpl; try done.
  destruct (time_Parse _); simpl; try done. by intros [= <- _].
Qed.

(** What one request for the credential did *)
Inductive refreshed (s : stsTokenCredential) (tr : trace Host) (s' : stsTokenCredential) : Prop :=
  | Kept : s' = s → still_fresh s tr → refreshed s tr s'
  | Renewed trn tru : tr = trn ++ tru → Forall reads_clock trn →
      exec (updateCredential s) tru (Ret s') → refreshed s tr s'
  | Reused trn tru e now : s' = s → tr = trn ++ tru ++ [Event (S:=Host) Now now] →
      Forall reads_clock trn → exec (updateCredential s) tru (Err e) →
      now < sts_credentialExpiration s → refreshed s tr s'.

#[local] Opaque updateCredential needUpdateCredential.

(** C19: A provider that starts without a credential never dereferences one it
    does not have.  A request answers with the credential it holds, which is
    the one at hand while that is fresh, else the one just resolved from the
    secret, else, when the secret cannot be resolved, the one at hand as long as
    it has not expired; it fails only with the error of the secret and when the
    credential has expired, and panics only where the secret's data does. *)
Theorem GetCredential_refreshes s tr o :
  sts_inv s → Forall clock_ok tr → exec (GetCredential s) tr o →
  match o with
  | Ret (s', c) => sts_inv s' ∧ sts_sessionCredential s' = Some c ∧ refreshed s tr s'
  | Err e => ∃ trn tru now, tr = trn ++ tru ++ [Event (S:=Host) Now now] ∧ Forall reads_clock trn ∧
      exec (updateCredential s) tru (Err e) ∧ sts_credentialExpiration s ≤ now
  | Panic f => ∃ trn tru, tr = trn ++ tru ∧ Forall reads_clock trn ∧
      exec (updateCredential s) tru (Panic f)
  end.
Proof.
  intros Hinv Hclock H. unfold GetCredential in H. apply exec_bind in H as (trn & on & Hn & H).
  assert (Forall reads_clock trn ∧ ∃ b, on = Ret b ∧
    (b = false → still_fresh s trn ∧ is_Some (sts_sessionCredential s))) as (Hrn & b & -> & Hb).
  { destruct (sts_sessionCredential s) as [c|] eqn:Es.
    - destruct (needUpdate_exec s trn on c Es Hn) as (Hr & b & -> & Hf).
      split; [done|]. exists b. split; [done|]. intros ->. eauto.
    - destruct Hn as [-> ->]. split; [done|]. by exists true. }
  destruct H as (tr2 & -> & H). apply Forall_app in Hclock as [_ Hclock].
  assert (∀ s' tr' , sts_inv s' → is_Some (sts_sessionCredential s') →
    exec (S:=Host) (session ← deref (sts_sessionCredential s');
      mret (s', mkCredentialModel (cm_AccessKeyId session) (cm_AccessKeySecret session)
             (cm_SecurityToken session) "ram_role_sts")) tr' o →
    ∃ c, tr' = [] ∧ o = Ret (s', c) ∧ sts_sessionCredential s' = Some c) as Hret.
  { intros s' tr' Hi [c Hc] He. unfold sts_inv in Hi. rewrite Hc in He, Hi. destruct He as [-> ->].
    exists c. split_and!; [done| |by rewrite Hc]. destruct c; simpl in *. by subst. }
  apply exec_bind in H as (tr3 & o3 & H3 & H). destruct b.
  2: { destruct H3 as [-> ->]. destruct H as (tr4 & -> & H). destruct (Hb eq_refl) as [Hf Hsome].
    destruct (Hret s tr4 Hinv Hsome H) as (c & -> & -> & Hc). split_and!; [done..|].
    rewrite !app_nil_r. by apply Kept. }
  apply exec_bind in H3 as (tru & ou & Hu & H3). apply exec_try in Hu as (o1 & Hu & ->).
  destruct o1 as [s1|e|f].
  - destruct H3 as (tr4 & -> & [-> ->]). destruct H as (tr5 & -> & H).
    pose proof (updateCredential_exec _ _ _ Hu) as (sec & text & model & t & now & _ & _ & Hr & Es1).
    apply resolve_type in Hr. assert (sts_inv s1) as Hi1 by by rewrite Es1.
    destruct (Hret s1 tr5 Hi1 ltac:(rewrite Es1; by eexists) H) as (c & -> & -> & Hc).
    split_and!; [done..|]. rewrite !app_nil_r. by eapply Renewed.
  - destruct H3 as (tr4 & -> & H3). exec_hcall H3 as (now & tr5 & -> & H3).
    destruct (Z.ltb_spec now (sts_credentialExpiration s)) as [Hlt|Hge]; destruct H3 as [-> ->].
    + destruct H as (tr6 & -> & H).
      assert (is_Some (sts_sessionCredential s)) as Hsome.
      { unfold sts_inv in Hinv. destruct (sts_sessionCredential s); [by eexists|]. exfalso.
        rewrite !Forall_app in Hclock. destruct Hclock as [[_ Hclock] _].
        apply Forall_cons in Hclock as [Hc _]. simpl in Hc. rewrite Hinv in Hlt. unfold zeroTime, Second in Hlt. lia. }
      destruct (Hret s tr6 Hinv Hsome H) as (c & -> & -> & Hc). split_and!; [done..|].
      rewrite app_nil_r. by eapply Reused.
    + destruct H as [-> ->]. eexists trn, tru, now. done.
  - destruct H3 as [-> ->]. destruct H as [-> ->]. by eexists trn, tru.
Qed.

(** A cluster whose secret is sealed, a day before the credential expires *)
Definition sts_env : Env Host := λ h c,
  match c as c return host_reply c with
  | Now => 1748692800000000000
  | GetSecret ns name =>
      inl (mkSecret ns name {[ "addon.token.config" := json_text (encrypted_json demo_sealed) ]})
  | c => plain_reply c
  end.

Definition fresh_provider : stsTokenCredential :=
  getStsCredential (mkCredentials "ram_role_sts" ε ε "kube-system" "addon.network.token").

Lemma GetCredential_refreshes_witness :
  ∃ s', exec (GetCredential fresh_provider) (run sts_env [] (GetCredential fresh_provider)).2
    (Ret (s', demo_cred)) ∧ sts_inv s' ∧
    refreshed fresh_provider (run sts_env [] (GetCredential fresh_provider)).2 s'.
Proof.
  assert (∃ s', (run sts_env [] (GetCredential fresh_provider)).1 = Ret (s', demo_cred)) as [s' E]
    by (eexists; vm_compute; reflexivity).
  apply run_returns in E. exists s'. split; [exact E|].
  assert (Forall clock_ok (run sts_env [] (GetCredential fresh_provider)).2) as Hc
    by by apply (bool_decide_unpack _); vm_compute.
  destruct (GetCredential_refreshes _ _ _ (getStsCredential_inv _) Hc E) as (H1 & _ & H2).
  split; [exact H1|exact H2].
Defined.
