(* ===== verification/Cert.v ===== *)
(** * Cert: internal/cert/webhook.go

    The certificates of the webhook server.  They are kept in a secret: the
    replica that manages to create it is the one whose certificates all use.
    Each replica writes them to files and puts the authority's certificate in the
    webhook configuration.  [crypto/rsa] and [crypto/x509] are calls; the PEM
    encoding is written out. *)

From S2P Require Import Prelude Effects GoStr Json Time RuntimeApi Host Metadata Aes.

(** ** The standard library *)

(** [filepath.Clean]: the components of a path, the latest first *)
Definition cleanComponent (rooted : bool) (stack : list string) (name : string) : list string :=
  if decide (name = ε ∨ name = ".") then stack
  else if decide (name = "..") then
    match stack with
    | [] => if rooted then [] else [name]
    | top :: rest => if decide (top = "..") then name :: stack else rest
    end
  else name :: stack.

Definition Clean (p : string) : string :=
  let rooted := match p with String "/"%char _ => true | _ => false end in
  let cleaned := Join (reverse (fold_left (cleanComponent rooted) (Split "/" p) [])) "/" in
  if rooted then "/" +:+ cleaned
  else if decide (cleaned = ε) then "." else cleaned.

(** [filepath.Join] of a directory and a name *)
Definition pathJoin (dir name : string) : string :=
  if decide (dir = ε) then Clean name else Clean (dir +:+ "/" +:+ name).

(** Lines of 64 characters, [fuel] of them at most *)
Fixpoint pemLines (fuel : nat) (s : list ascii) : list ascii :=
  match fuel, s with
  | O, _ | _, [] => []
  | S fuel, s => take 64 s ++ newline_char :: pemLines fuel (drop 64 s)
  end.

(** [pem.Encode] of a block without headers *)
Definition pemEncode (type bytes : string) : string :=
  let body := b64_encode (bytes_of bytes) in
  "-----BEGIN " +:+ type +:+ "-----" +:+ String newline_char
    (of_chars (pemLines (length body) body) +:+
     "-----END " +:+ type +:+ "-----" +:+ String newline_char ε).

(** [errors.IsAlreadyExists] of apimachinery *)
Fixpoint IsAlreadyExists (e : error) : bool :=
  match e with
  | ApiError AlreadyExists _ => true
  | ApiError _ _ | MetaError _ _ _ => false
  | Errorf _ _ wrapped => match wrapped with Some w => IsAlreadyExists w | None => false end
  end.

(** ** Definitions *)

Definition serverCertKey : string := "tls.crt".
Definition serverKeyKey : string := "tls.key".
Definition caCertKey : string := "ca.crt".

(** [t1] and [t2] are what [time.Now] says at [NotBefore] and at [NotAfter]. *)
Definition caTemplate (clusterDomain : string) (t1 t2 : Z) : CertTemplate := {|
  ct_SerialNumber := 2021;
  ct_CommonName := ε;
  ct_Organization := [clusterDomain];
  ct_DNSNames := [];
  ct_NotBefore := t1 - Hour;
  ct_NotAfter := AddDate t2 100;
  ct_IsCA := true;
  ct_ExtKeyUsage := [ExtKeyUsageClientAuth; ExtKeyUsageServerAuth];
  ct_KeyUsage := Z.lor KeyUsageDigitalSignature KeyUsageCertSign;
  ct_BasicConstraintsValid := true
|}.

Definition serverCommonName (serviceNamespace serviceName : string) : string :=
  serviceName +:+ "." +:+ serviceNamespace +:+ ".svc".

Definition serverTemplate (serviceNamespace serviceName clusterDomain : string) (t1 t2 : Z) :
    CertTemplate :=
  let commonName := serverCommonName serviceNamespace serviceName in
  let dnsNames := [serviceName; serviceName +:+ "." +:+ serviceNamespace; commonName] in
  {| ct_SerialNumber := 2021;
     ct_CommonName := commonName;
     ct_Organization := [clusterDomain];
     ct_DNSNames := dnsNames;
     ct_NotBefore := t1 - Hour;
     ct_NotAfter := AddDate t2 100;
     ct_IsCA := false;
     ct_ExtKeyUsage := [ExtKeyUsageClientAuth; ExtKeyUsageServerAuth];
     ct_KeyUsage := KeyUsageDigitalSignature;
     ct_BasicConstraintsValid := false |}.

Definition GenerateCerts (serviceNamespace serviceName clusterDomain : string) : prog Host Secret :=
  t1 ← host Now;
  t2 ← host Now;
  let ca := caTemplate clusterDomain t1 t2 in
  caPK ← hcall (host (GenerateKey 4096));
  caBytes ← hcall (host (CreateCertificate ca ca caPK caPK));
  t3 ← host Now;
  t4 ← host Now;
  let cert := serverTemplate serviceNamespace serviceName clusterDomain t3 t4 in
  serverPrivateKey ← hcall (host (GenerateKey 4096));
  serverCertBytes ← hcall (host (CreateCertificate cert ca serverPrivateKey caPK));
  mret (mkSecret ε ε
    (<[caCertKey := pemEncode "CERTIFICATE" caBytes]>
     (<[serverCertKey := pemEncode "CERTIFICATE" serverCertBytes]>
      {[serverKeyKey := pemEncode "RSA PRIVATE KEY" (pk_DER serverPrivateKey)]}))).

(** The three byte slices of [SyncCert]; a missing key is an empty slice. *)
Record Certs := mkCerts { serverCertBytes : string; serverKeyBytes : string; caCertBytes : string }.

Definition certsOf (s : Secret) : Certs :=
  mkCerts (default ε (sec_Data s !! serverCertKey)) (default ε (sec_Data s !! serverKeyKey))
    (default ε (sec_Data s !! caCertKey)).

Definition secretName (name : string) : string := name +:+ "-webhook-cert".

(** The certificates of the secret, which is created when it is missing *)
Definition leaderCerts (ns name domain : string) : prog Host Certs :=
  existSecret ← host (GetSecret ns (secretName name));
  match existSecret with
  | inl existSecret => mret (certsOf existSecret)
  | inr err =>
      if negb (IsNotFound err) then throw (Errorf "error get cert from secret, %w" [] (Some err))
      else
        s ← try (GenerateCerts ns name domain);
        match s with
        | inr err => throw (Errorf "error generate cert, %w" [] (Some err))
        | inl s =>
            let s := mkSecret ns (secretName name) (sec_Data s) in
            err ← host (CreateSecret s);
            match err with
            | inl _ => mret (certsOf s)
            | inr err =>
                if negb (IsAlreadyExists err) then
                  throw (Errorf "error create cert to secret, %w" [] (Some err))
                else
                  secret ← host (GetSecret ns (secretName name));
                  match secret with
                  | inr err => throw (Errorf "error get cert from secret, %w" [] (Some err))
                  | inl secret => mret (certsOf secret)
                  end
            end
        end
  end.

Definition writeCert (certDir key data : string) : prog Host unit :=
  err ← host (WriteFile (pathJoin certDir key) data);
  match err with
  | inr err => throw (Errorf "error create secret file, %w" [] (Some err))
  | inl _ => mret tt
  end.

Definition writeCerts (certDir : string) (c : Certs) : prog Host unit :=
  _ ← hcall (host (MkdirAll certDir));
  _ ← writeCert certDir serverCertKey (serverCertBytes c);
  _ ← writeCert certDir serverKeyKey (serverKeyBytes c);
  writeCert certDir caCertKey (caCertBytes c).

(** A webhook that has a bundle keeps it. *)
Definition withBundle (ca : string) (hook : MutatingWebhook) : MutatingWebhook :=
  if decide (mw_CABundle hook = ε) then mkMutatingWebhook (mw_Name hook) ca else hook.

Definition unbundled (hook : MutatingWebhook) : bool := bool_decide (mw_CABundle hook = ε).

Definition tryPatch (before after : list MutatingWebhook) : prog Host (result bool) :=
  innerErr ← host (PatchWebhookConfig before after);
  mret (inl (match innerErr with inl _ => true | inr _ => false end)).

Section Sync.
Context `{BackoffLib}.

Definition updateWebhook (ns name : string) (c : Certs) : prog Host unit :=
  hooks ← hcall (host (GetWebhookConfig ns name));
  if decide (hooks = []) then errorf "no webhook config found" []
  else
    let patched := withBundle (caCertBytes c) <$> hooks in
    if existsb unbundled hooks then
      '(_, err) ← ExponentialBackoff 3 tt (λ _, pair tt <$> tryPatch hooks patched);
      moutcome (of_result err)
    else mret tt.

Definition SyncCert (ns name domain certDir : string) : prog Host unit :=
  c ← leaderCerts ns name domain;
  if decide (serverCertBytes c = ε ∨ serverKeyBytes c = ε ∨ caCertBytes c = ε)
  then errorf "invalid cert" []
  else
    _ ← writeCerts certDir c;
    updateWebhook ns name c.

End Sync.

(** *** Small inputs *)

Example pem_two_lines :
  pemEncode "X" (of_chars (replicate 49 "a"%char)) =
  "-----BEGIN X-----" +:+ String newline_char
  ("YWFhYWFhYWFhYWFhYWFhYWFhYWFhYWFhYWFhYWFhYWFhYWFhYWFhYWFhYWFhYWFh" +:+ String newline_char
  ("YQ==" +:+ String newline_char ("-----END X-----" +:+ String newline_char ε))).
Proof. vm_compute. reflexivity. Qed.

Example clean_paths :
  pathJoin "/var/lib/certDir/" "tls.crt" = "/var/lib/certDir/tls.crt" ∧
  pathJoin "" "ca.crt" = "ca.crt" ∧ pathJoin "a//./b/.." "x" = "a/x" ∧ Clean "/../.." = "/" ∧ Clean "" = ".".
Proof. vm_compute. repeat split. Qed.

(** ** Generated certificates *)

Definition generated (bits : Z) (k : PrivateKey) : event Host :=
  Event (S:=Host) (GenerateKey bits) (inl k).

Definition signed (template parent : CertTemplate) (pub priv : PrivateKey) (der : string) : event Host :=
  Event (S:=Host) (CreateCertificate template parent pub priv) (inl der).

(** A call that must succeed for the function to return *)
#[local] Tactic Notation "returned" hyp(H) "as" ident(a) ident(tr) :=
  let tr0 := fresh in let o0 := fresh in let H0 := fresh in
  cbv beta in H; apply exec_bind in H as (tr0 & o0 & H0 & H); unfold hcall in H0;
  destruct H0 as ([a|?] & ? & -> & [-> ->]); [|by destruct H]; destruct H as (tr & -> & H).

Lemma pemEncode_nonempty type bytes : pemEncode type bytes ≠ ε.
Proof. done. Qed.

Definition read_clock (t : Z) : event Host := Event (S:=Host) Now t.

(** The certificate is valid at an instant. *)
Definition valid_at (template : CertTemplate) (now : Z) : Prop :=
  ct_NotBefore template ≤ now ≤ ct_NotAfter template.

(** Generating makes a self-signed authority and, with a key of its own, a
    server certificate signed by the authority, for the names of the service:
    the name, the name in its namespace, and the one under [svc] the API server
    dials; the secret holds the two certificates and the server's key in PEM,
    and the authority's key is not kept.  If the clock does not go back in the
    meantime, both are valid from the hour before for a century. *)
Lemma GenerateCerts_chain ns name domain tr s :
  exec (GenerateCerts ns name domain) tr (Ret s) →
  ∃ t1 t2 t3 t4 caPK caBytes serverKey serverBytes,
    let ca := caTemplate domain t1 t2 in let server := serverTemplate ns name domain t3 t4 in
    tr = [read_clock t1; read_clock t2; generated 4096 caPK; signed ca ca caPK caPK caBytes;
          read_clock t3; read_clock t4; generated 4096 serverKey; signed server ca serverKey caPK serverBytes] ∧
    serverCommonName ns name ∈ ct_DNSNames server ∧
    (t1 ≤ t2 ≤ t3 → t3 ≤ t4 →
     ∀ now, t3 - Hour ≤ now ≤ t2 + 36524 * Day → valid_at ca now ∧ valid_at server now) ∧
    certsOf s = mkCerts (pemEncode "CERTIFICATE" serverBytes)
                  (pemEncode "RSA PRIVATE KEY" (pk_DER serverKey)) (pemEncode "CERTIFICATE" caBytes) ∧
    dom (sec_Data s) = {[caCertKey; serverCertKey; serverKeyKey]}.
Proof.
  unfold GenerateCerts. intros H.
  exec_hcall H as (t1 & tr1 & -> & H). exec_hcall H as (t2 & tr2 & -> & H).
  returned H as caPK tr3. returned H as caBytes tr4.
  exec_hcall H as (t3 & tr5 & -> & H). exec_hcall H as (t4 & tr6 & -> & H).
  returned H as serverKey tr7. returned H as serverBytes tr8. destruct H as [-> [= ->]].
  exists t1, t2, t3, t4, caPK, caBytes, serverKey, serverBytes. split_and!.
  - done.
  - right. right. by left.
  - intros H1 H2 now Hnow. unfold valid_at. cbn [ct_NotBefore ct_NotAfter caTemplate serverTemplate].
    pose proof (AddDate_century t2). pose proof (AddDate_century t4). lia.
  - reflexivity.
  - cbn [sec_Data]. rewrite !dom_insert_L, dom_singleton_L. set_solver.
Qed.

(** ** What a replica installs *)

Definition got (ns name : string) (r : result Secret) : event Host :=
  Event (S:=Host) (GetSecret ns (secretName name)) r.

Definition created (s : Secret) (r : result unit) : event Host := Event (S:=Host) (CreateSecret s) r.

Definition patch (before after : list MutatingWebhook) (r : result unit) : event Host :=
  Event (S:=Host) (PatchWebhookConfig before after) r.

(** The generated certificates as the secret that is created *)
Definition named_secret (ns name : string) (s : Secret) : Secret :=
  mkSecret ns (secretName name) (sec_Data s).

(** How a replica came by the secret [s]: it was there, or this replica created
    it, or another one did in the meantime. *)
Inductive cert_source (ns name domain : string) (s : Secret) : trace Host → Prop :=
  | FromSecret : cert_source ns name domain s [got ns name (inl s)]
  | FromCreated err trg s0 : IsNotFound err = true →
      exec (GenerateCerts ns name domain) trg (Ret s0) → s = named_secret ns name s0 →
      cert_source ns name domain s (got ns name (inr err) :: trg ++ [created s (inl tt)])
  | FromLeader err trg s0 err2 : IsNotFound err = true →
      exec (GenerateCerts ns name domain) trg (Ret s0) → IsAlreadyExists err2 = true →
      cert_source ns name domain s
        (got ns name (inr err) :: trg ++ [created (named_secret ns name s0) (inr err2); got ns name (inl s)]).

(** The files of the certificates *)
Definition written (certDir : string) (c : Certs) : trace Host :=
  Event (S:=Host) (MkdirAll certDir) (inl tt) ::
  ((λ '(key, data), Event (S:=Host) (WriteFile (pathJoin certDir key) data) (inl tt)) <$>
   [(serverCertKey, serverCertBytes c); (serverKeyKey, serverKeyBytes c); (caCertKey, caCertBytes c)]).

#[local] Opaque GenerateCerts.

Lemma leaderCerts_ret ns name domain tr c :
  exec (leaderCerts ns name domain) tr (Ret c) →
  ∃ s, c = certsOf s ∧ cert_source ns name domain s tr.
Proof.
  unfold leaderCerts. intros H. exec_hcall H as (r & tr1 & -> & H). destruct r as [s|err].
  { destruct H as [-> [= ->]]. exists s. split; [done|constructor]. }
  destruct (IsNotFound err) eqn:En; [|by destruct H]. cbn [negb] in H.
  apply exec_bind in H as (trg & og & Hg & H). apply exec_try in Hg as (o & Hg & ->).
  destruct o as [s0|e|f]; [| |by destruct H]; destruct H as (tr2 & -> & H); [|by destruct H].
  exec_hcall H as (r & tr3 & -> & H). destruct r as [[]|err2].
  { destruct H as [-> [= ->]]. exists (named_secret ns name s0). split; [done|]. by econstructor. }
  destruct (IsAlreadyExists err2) eqn:Ea; [|by destruct H]. cbn [negb] in H.
  exec_hcall H as (r & tr4 & -> & H). destruct r as [s|err3]; [|by destruct H].
  destruct H as [-> [= ->]]. exists s. split; [done|]. by econstructor.
Qed.

Lemma writeCert_ret {B} certDir key data (f : unit → prog Host B) tr b :
  exec (writeCert certDir key data ≫= f) tr (Ret b) →
  ∃ tr', tr = Event (S:=Host) (WriteFile (pathJoin certDir key) data) (inl tt) :: tr' ∧
    exec (f tt) tr' (Ret b).
Proof. by intros ([[]|err] & tr' & -> & H); [exists tr'|destruct H]. Qed.

Lemma writeCerts_ret certDir c tr : exec (writeCerts certDir c) tr (Ret tt) → tr = written certDir c.
Proof.
  unfold writeCerts. intros H. returned H as u tr1. destruct u.
  apply writeCert_ret in H as (tr2 & -> & H). apply writeCert_ret in H as (tr3 & -> & H).
  assert (exec (writeCert certDir caCertKey (caCertBytes c) ≫= mret) tr3 (Ret tt)) as H'
    by (apply exec_bind; exists tr3, (Ret tt); split; [done|]; exists []; by rewrite app_nil_r).
  apply writeCert_ret in H' as (tr4 & -> & [-> _]). done.
Qed.

(** A patch is tried three times at most. *)
Lemma attempts_patch steps before after tr :
  exec (attempts steps tt (λ _, pair tt <$> tryPatch before after)) tr (Ret (tt, inl tt)) →
  ∃ errs : list error, (length errs < steps)%nat ∧
    tr = ((λ err, patch before after (inr err)) <$> errs) ++ [patch before after (inl tt)].
Proof.
  revert tr. induction steps as [|steps IH]; intros tr H; [by destruct H|].
  destruct H as ([[]|err] & tr' & -> & H).
  - destruct H as [-> _]. exists []. simpl. split; [lia|done].
  - destruct (IH _ H) as (errs & Hl & ->). exists (err :: errs). simpl. split; [lia|done].
Qed.

(** The webhook configuration is read, and patched when a bundle is missing. *)
Definition updated (ns name ca : string) (hooks : list MutatingWebhook) (tr : trace Host) : Prop :=
  hooks ≠ [] ∧ ∃ trp, tr = Event (S:=Host) (GetWebhookConfig ns name) (inl hooks) :: trp ∧
    if existsb unbundled hooks then
      ∃ errs : list error, (length errs < 3)%nat ∧
        trp = ((λ err, patch hooks (withBundle ca <$> hooks) (inr err)) <$> errs) ++
              [patch hooks (withBundle ca <$> hooks) (inl tt)]
    else trp = [].

Section Installed.
Context `{Backoff : BackoffLib}.

Lemma updateWebhook_ret ns name c tr :
  exec (updateWebhook ns name c) tr (Ret tt) → ∃ hooks, updated ns name (caCertBytes c) hooks tr.
Proof.
  unfold updateWebhook. intros H. returned H as hooks tr1. exists hooks.
  destruct (decide (hooks = [])) as [|Hne]; [by destruct H|]. split; [done|]. exists tr1. split; [done|].
  destruct (existsb unbundled hooks); [|by destruct H].
  apply exec_bind in H as (tr2 & o2 & H2 & H). apply backoff_attempts in H2.
  destruct o2 as [[[] [[]|err]]|e|f]; [|by destruct H as (? & _ & [_ ?])|by destruct H..].
  apply attempts_patch in H2 as (errs & Hl & ->). destruct H as (tr3 & -> & [-> _]).
  exists errs. by rewrite app_nil_r.
Qed.

Lemma SyncCert_ret ns name domain certDir tr :
  exec (SyncCert ns name domain certDir) tr (Ret tt) →
  ∃ s trs hooks tru, let c := certsOf s in
    tr = trs ++ written certDir c ++ tru ∧ cert_source ns name domain s trs ∧
    serverCertBytes c ≠ ε ∧ serverKeyBytes c ≠ ε ∧ caCertBytes c ≠ ε ∧
    updated ns name (caCertBytes c) hooks tru.
Proof.
  unfold SyncCert. intros H. apply exec_bind in H as (trs & os & Hs & H).
  destruct os as [c|e|f]; [|by destruct H..]. destruct H as (tr2 & -> & H).
  apply leaderCerts_ret in Hs as (s & -> & Hs). case_decide as Hd; [by destruct H|].
  apply Decidable.not_or in Hd as [Hd1 [Hd2 Hd3]%Decidable.not_or].
  apply exec_bind in H as (trw & ow & Hw & H). destruct ow as [[]|e|f]; [|by destruct H..].
  apply writeCerts_ret in Hw as ->. destruct H as (tru & -> & H).
  apply updateWebhook_ret in H as (hooks & H).
  exists s, trs, hooks, tru. done.
Qed.

(** C18: A replica that returns has written exactly the three files of the
    secret's certificates, each non-empty, before it touched the webhook
    configuration; then every webhook has a bundle, the one it had or else the
    authority of those files, and nothing is patched when none is missing. *)
Theorem SyncCert_installs ns name domain certDir tr :
  exec (SyncCert ns name domain certDir) tr (Ret tt) →
  ∃ s trs hooks tru, let c := certsOf s in
    tr = trs ++ written certDir c ++ tru ∧ cert_source ns name domain s trs ∧
    serverCertBytes c ≠ ε ∧ serverKeyBytes c ≠ ε ∧ caCertBytes c ≠ ε ∧
    updated ns name (caCertBytes c) hooks tru ∧
    Forall (λ hook, mw_CABundle hook ≠ ε) (withBundle (caCertBytes c) <$> hooks) ∧
    Forall2 (λ hook hook', mw_Name hook' = mw_Name hook ∧
        mw_CABundle hook' = if decide (mw_CABundle hook = ε) then caCertBytes c else mw_CABundle hook)
      hooks (withBundle (caCertBytes c) <$> hooks).
Proof.
  intros (s & trs & hooks & tru & -> & Hs & Hd1 & Hd2 & Hd3 & H)%SyncCert_ret.
  exists s, trs, hooks, tru. split_and!; [done..| |].
  - apply Forall_fmap, Forall_true. intros hook. unfold withBundle. cbn. by case_decide.
  - apply Forall2_fmap_r, Forall_Forall2_diag, Forall_true. intros hook. unfold withBundle.
    split; repeat case_decide; done.
Qed.

End Installed.

(** ** Replicas agree *)

(** The API server's life of one secret: nothing deletes or changes it, and a
    creation that fails may have happened all the same. *)
Inductive secret_step (ns name : string) : option Secret → event Host → option Secret → Prop :=
  | StepFound s : secret_step ns name (Some s) (got ns name (inl s)) (Some s)
  | StepMissing err : IsNotFound err = true → secret_step ns name None (got ns name (inr err)) None
  | StepNoAnswer st err : IsNotFound err = false → secret_step ns name st (got ns name (inr err)) st
  | StepCreated d : secret_step ns name None (created (mkSecret ns (secretName name) d) (inl tt))
                      (Some (mkSecret ns (secretName name) d))
  | StepConflict d s' err : IsAlreadyExists err = true →
      secret_step ns name (Some s') (created (mkSecret ns (secretName name) d) (inr err)) (Some s')
  | StepRefused st d err : IsAlreadyExists err = false →
      secret_step ns name st (created (mkSecret ns (secretName name) d) (inr err)) st
  | StepLost d err : IsAlreadyExists err = false →
      secret_step ns name None (created (mkSecret ns (secretName name) d) (inr err)) (Some (mkSecret ns (secretName name) d))
  | StepOther st ev : (∀ n r, ev ≠ got ns n r) → (∀ s r, ev ≠ created s r) → secret_step ns name st ev st.

#[local] Instance Secret_eq_dec : EqDecision Secret.
Proof. solve_decision. Defined.

(** A server that loses nothing, as a function: [None] is that it does not reply so. *)
Definition serve (ns name : string) (st : option Secret) (ev : event Host) : option (option Secret) :=
  match ev with
  | Event (GetSecret ns' name') r =>
      if decide (ns' = ns ∧ name' = secretName name) then
        match r, st with
        | inl s, Some s' => if decide (s = s') then Some st else None
        | inr err, None => if IsNotFound err then Some None else None
        | _, _ => None
        end
      else None
  | Event (CreateSecret s) r =>
      if decide (sec_Namespace s = ns ∧ sec_Name s = secretName name) then
        match r, st with
        | inl _, None => Some (Some s)
        | inr err, Some _ => if IsAlreadyExists err then Some st else None
        | _, _ => None
        end
      else None
  | _ => Some st
  end.

Lemma serve_step ns name st ev st' : serve ns name st ev = Some st' → secret_step ns name st ev st'.
Proof.
  destruct ev as [[] r]; cbn [serve]; try (intros [= <-]; apply StepOther; by intros).
  - case_decide as Hd; [|done]. destruct Hd as [-> ->]. destruct r as [s|err], st as [s'|]; try done.
    + case_decide as Hs; [|done]. intros [= <-]. subst. apply StepFound.
    + destruct (IsNotFound err) eqn:E; [|done]. intros [= <-]. by apply StepMissing.
  - destruct s as [ns' name' d]. cbn [sec_Namespace sec_Name]. case_decide as Hd; [|done]. destruct Hd as [-> ->].
    destruct r as [[]|err], st as [s'|]; try done.
    + intros [= <-]. apply StepCreated.
    + destruct (IsAlreadyExists err) eqn:E; [|done]. intros [= <-]. by apply StepConflict.
Qed.

(** A history of all replicas: each call with the replica that makes it *)
Fixpoint history (ns name : string) (st : option Secret) (G : list (nat * event Host)) (st' : option Secret) : Prop :=
  match G with
  | [] => st = st'
  | (_, ev) :: G => ∃ st1, secret_step ns name st ev st1 ∧ history ns name st1 G st'
  end.

Fixpoint serve_all (ns name : string) (st : option Secret) (G : list (nat * event Host)) : option (option Secret) :=
  match G with
  | [] => Some st
  | (_, ev) :: G => st ← serve ns name st ev; serve_all ns name st G
  end.

Lemma serve_all_history ns name st G st' : serve_all ns name st G = Some st' → history ns name st G st'.
Proof.
  revert st. induction G as [|[i ev] G IH]; intros st; [by intros [= ->]|].
  cbn [serve_all]. intros (st1 & H1 & H)%bind_Some. exists st1. split; [by apply serve_step|by apply IH].
Qed.

Definition of_replica (i : nat) (G : list (nat * event Host)) : trace Host :=
  (filter (λ x, x.1 = i) G).*2.

(** The secret an event shows *)
Definition shown (ns name : string) (ev : event Host) : option Secret :=
  match ev with
  | Event (GetSecret ns' name') (inl s) =>
      if decide (ns' = ns ∧ name' = secretName name) then Some s else None
  | Event (CreateSecret s) (inl _) => Some s
  | _ => None
  end.

Lemma step_keeps ns name s ev st : secret_step ns name (Some s) ev st → st = Some s.
Proof. by inversion 1. Qed.

Lemma history_keeps ns name s G st : history ns name (Some s) G st → st = Some s.
Proof.
  induction G as [|[i ev] G IH]; [done|]. intros (st1 & ->%step_keeps & H). auto.
Qed.

Lemma step_shows ns name st ev st' s :
  secret_step ns name st ev st' → shown ns name ev = Some s → st' = Some s.
Proof.
  intros [s'| | |s'| | | |st1 ev' Hg Hc]; cbn [shown got created]; rewrite ?decide_True by done; try congruence.
  intros Hs. exfalso. destruct ev' as [[] r]; try done; destruct r as [r|err]; try done; cbn [shown] in Hs.
  - case_decide as Hd; [|done]. destruct Hd as [-> ->]. by destruct (Hg name (inl r)).
  - destruct r. by destruct (Hc s0 (inl tt)).
Qed.

Lemma history_shows ns name s st G st' ev :
  history ns name st G st' → ev ∈ G.*2 → shown ns name ev = Some s → st' = Some s.
Proof.
  revert st. induction G as [|[i ev'] G IH]; intros st H Hin Hs; [by apply not_elem_of_nil in Hin|].
  destruct H as (st1 & Hst & H). apply elem_of_cons in Hin as [->|Hin]; [|by eapply IH].
  apply (step_shows _ _ _ _ _ _ Hst) in Hs as ->. by apply history_keeps in H.
Qed.

Lemma source_shows ns name domain s tr :
  cert_source ns name domain s tr → ∃ ev, ev ∈ tr ∧ shown ns name ev = Some s.
Proof.
  assert (shown ns name (got ns name (inl s)) = Some s) as Hs by (cbn; by rewrite decide_True).
  intros [|err trg s0 _ _ ->|err trg s0 err2 _ _ _].
  - eexists. split; [by left|done].
  - eexists. split; [right; apply elem_of_app; right; by left|done].
  - eexists. split; [|exact Hs]. right. apply elem_of_app. right. right. by left.
Qed.

Section Agree.
Context `{Backoff : BackoffLib}.

(** C11: However the calls of any number of replicas interleave, and whichever of
    them creates the secret, replicas that start have written the same
    certificates to their files: those of the secret in the API server. *)
Theorem SyncCert_agree ns name domain st G st' i dir :
  history ns name st G st' →
  exec (SyncCert ns name domain dir) (of_replica i G) (Ret tt) →
  ∃ s, st' = Some s ∧
    (∃ before after, of_replica i G = before ++ written dir (certsOf s) ++ after) ∧
    ∀ j dirj, exec (SyncCert ns name domain dirj) (of_replica j G) (Ret tt) →
      ∃ before after, of_replica j G = before ++ written dirj (certsOf s) ++ after.
Proof.
  intros HG Hi.
  assert (∀ j dirj, exec (SyncCert ns name domain dirj) (of_replica j G) (Ret tt) →
    ∃ s, st' = Some s ∧ ∃ before after, of_replica j G = before ++ written dirj (certsOf s) ++ after) as Hall.
  { intros j dirj (s & trs & hooks & tru & E & Hs & _)%SyncCert_ret. exists s.
    split; [|by exists trs, tru]. apply source_shows in Hs as (ev & Hin & Hs).
    eapply history_shows; [exact HG| |exact Hs].
    assert (ev ∈ of_replica j G) as (x & -> & [_ Hx]%list_elem_of_filter)%list_elem_of_fmap
      by (rewrite E; apply elem_of_app; by left).
    apply list_elem_of_fmap. by exists x. }
  destruct (Hall i dir Hi) as (s & -> & Hw). exists s. split_and!; [done..|].
  intros j dirj Hj. by destruct (Hall j dirj Hj) as (s' & [= <-] & Hw').
Qed.

End Agree.

#[local] Transparent GenerateCerts.

(** ** Two replicas on a concrete cluster *)

Definition k_ns : string := "kube-system".
Definition k_name : string := "erdma-controller".

(** No secret yet, one webhook without a bundle and one with; [loser] says that
    another replica creates the secret first, with the data it finds then. *)
Definition k_env (loser : option (gmap string string)) : Env Host := λ h c,
  match c as c return host_reply c with
  | GetSecret ns name =>
      match h, loser with
      | _ :: _, Some data => inl (mkSecret ns name data)
      | _, _ => inr (ApiError NotFound "secrets not found")
      end
  | CreateSecret _ =>
      match loser with Some _ => inr (ApiError AlreadyExists "secrets already exists") | None => inl tt end
  | GenerateKey _ => inl (mkPrivateKey ("key" +:+ Itoa (Z.of_nat (length h))))
  | CreateCertificate t _ _ _ => inl (ct_CommonName t)
  | GetWebhookConfig _ _ => inl [mkMutatingWebhook "mpod.erdma" ε; mkMutatingWebhook "other" "bundle"]
  | c => plain_reply c
  end.

#[local] Existing Instance plainBackoff.

Definition k_sync (dir : string) : prog Host unit := SyncCert k_ns k_name "cluster.local" dir.

Definition k_tr0 : trace Host := (run (k_env None) [] (k_sync "/certs")).2.

(** The data the first replica creates the secret with *)
Definition k_data : gmap string string :=
  default ∅ (head (omap (λ ev : event Host,
    match ev with Event (CreateSecret s) _ => Some (sec_Data s) | _ => None end) k_tr0)).

Definition k_tr1 : trace Host := (run (k_env (Some k_data)) [] (k_sync "/var/certs")).2.

(** Both find no secret; the second generates certificates of its own in vain. *)
Definition k_G : list (nat * event Host) :=
  ((pair 0%nat) <$> take 1 k_tr0) ++ ((pair 1%nat) <$> take 1 k_tr1) ++
  ((pair 0%nat) <$> drop 1 k_tr0) ++ ((pair 1%nat) <$> drop 1 k_tr1).

Lemma GenerateCerts_chain_witness :
  ∃ s tr, exec (GenerateCerts k_ns k_name "cluster.local") tr (Ret s) ∧ length tr = 8%nat ∧
    dom (sec_Data s) = {[caCertKey; serverCertKey; serverKeyKey]}.
Proof.
  assert (∃ s, (run (k_env None) [] (GenerateCerts k_ns k_name "cluster.local")).1 = Ret s) as (s & E)
    by (eexists; vm_compute; reflexivity).
  apply run_returns in E. exists s. eexists. split; [exact E|]. split; [vm_compute; reflexivity|].
  destruct (GenerateCerts_chain _ _ _ _ _ E) as (t1 & t2 & t3 & t4 & k1 & b1 & k2 & b2 & H). apply H.
Defined.

Lemma SyncCert_installs_witness :
  exec (k_sync "/certs") k_tr0 (Ret tt) ∧ length k_tr0 = 16%nat ∧
  ∃ s trs hooks tru, k_tr0 = trs ++ written "/certs" (certsOf s) ++ tru ∧
    updated k_ns k_name (caCertBytes (certsOf s)) hooks tru.
Proof.
  assert ((run (k_env None) [] (k_sync "/certs")).1 = Ret tt) as E by (vm_compute; reflexivity).
  apply run_returns in E. split; [exact E|]. split; [vm_compute; reflexivity|].
  destruct (SyncCert_installs _ _ _ _ _ E) as (s & trs & hooks & tru & Htr & _ & _ & _ & _ & Hu & _).
  exists s, trs, hooks, tru. split; [exact Htr|exact Hu].
Defined.

Lemma k_history : ∃ s, history k_ns k_name None k_G (Some s).
Proof.
  assert (∃ s, serve_all k_ns k_name None k_G = Some (Some s)) as (s & E) by (eexists; vm_compute; reflexivity).
  exists s. by apply serve_all_history.
Qed.

Lemma SyncCert_agree_witness :
  of_replica 0 k_G = k_tr0 ∧ of_replica 1 k_G = k_tr1 ∧
  ∃ (s : Secret) before after, k_tr1 = before ++ written "/var/certs" (certsOf s) ++ after.
Proof.
  assert (of_replica 0 k_G = k_tr0) as G0 by (vm_compute; reflexivity).
  assert (of_replica 1 k_G = k_tr1) as G1 by (vm_compute; reflexivity).
  split; [exact G0|]. split; [exact G1|].
  assert ((run (k_env None) [] (k_sync "/certs")).1 = Ret tt) as E0 by (vm_compute; reflexivity).
  assert ((run (k_env (Some k_data)) [] (k_sync "/var/certs")).1 = Ret tt) as E1 by (vm_compute; reflexivity).
  apply run_returns in E0. apply run_returns in E1. fold k_tr0 in E0. fold k_tr1 in E1.
  rewrite <- G0 in E0. rewrite <- G1 in E1. rewrite <- G1.
  destruct k_history as (st & HG).
  destruct (SyncCert_agree _ _ _ _ _ _ 0 "/certs" HG E0) as (s & _ & _ & H).
  exists s. exact (H 1%nat "/var/certs" E1).
Defined.

(** A bundle that is already set is kept, even when it is not the authority of
    the files the replica serves. *)
Example SyncCert_stale_bundle :
  match (run (k_env None) [] (k_sync "/certs")).1,
        last (run (k_env None) [] (k_sync "/certs")).2 with
  | Ret tt, Some (Event (PatchWebhookConfig _ [hook; other]) (inl tt)) =>
      mw_CABundle hook = default ε (k_data !! caCertKey) ∧ mw_CABundle other = "bundle"
  | _, _ => False
  end.
Proof. vm_compute. done. Qed.
