(* ===== verification/PodConfig.v ===== *)
(** * PodConfig: internal/deviceplugin/pod_config.go

    What the plugin asks of the container runtime: the client of the runtime
    interface, which speaks one of two versions of the API, the choice of a
    socket, and the configuration of a pod's sandbox.  The two globals
    [criClient] and [dockerClient] are passed and returned.  Deadlines are
    replies like any other; the methods the file only stubs are left out. *)

From S2P Require Import Prelude Effects GoStr Json Url Types RuntimeApi Host Metadata Config Webhook.

(** ** Endpoints *)

(** [parseEndpoint]: protocol and address; the protocol is returned with an
    error too. *)
Definition parseEndpoint (endpoint : string) : string * string * option error :=
  match url_Parse endpoint with
  | None => (ε, ε, Some (Errorf "parse %q" [endpoint] None))
  | Some u =>
      if decide (url_Scheme u = "tcp") then ("tcp", url_Host u, None)
      else if decide (url_Scheme u = "unix") then ("unix", url_Path u, None)
      else if decide (url_Scheme u = ε) then
        (ε, ε, Some (Errorf "using %q as endpoint is deprecated, please consider using full url format"
                       [endpoint] None))
      else (url_Scheme u, ε, Some (Errorf "protocol %q not supported" [url_Scheme u] None))
  end.

Definition parseEndpointWithFallbackProtocol (endpoint fallbackProtocol : string) :
    string * string * option error :=
  match parseEndpoint endpoint with
  | (EmptyString, _, Some _) => parseEndpoint (fallbackProtocol +:+ "://" +:+ endpoint)
  | r => r
  end.

Definition unixProtocol : string := "unix".

(** [GetAddressAndDialer]; the dialer is always [dialUnix]. *)
Definition GetAddressAndDialer (endpoint : string) : outcome string :=
  match parseEndpointWithFallbackProtocol endpoint unixProtocol with
  | (_, _, Some err) => throw err
  | (protocol, addr, None) =>
      if decide (protocol = unixProtocol) then Ret addr
      else errorf "only support unix socket endpoint" []
  end.

(** ** The runtime service *)

(** [remoteRuntimeService]: the address of its connection, and which of its two
    clients are set *)
Record remoteRuntimeService := mkService {
  rs_addr : string;
  rs_timeout : Z;
  rs_v1alpha2 : bool
}.

(** [useV1API] *)
Definition useV1API (r : remoteRuntimeService) : bool := negb (rs_v1alpha2 r).

(** A request over one of the two clients *)
Definition rpc (r : remoteRuntimeService) (api : CriAPI) (req : CriRequest) : prog Host (cri_response req) :=
  hcall (host (CriCall (rs_addr r) api req)).

(** The casts between the two versions of a message: the same memory *)
Definition fromV1alpha2 {A} (from : A) : A := from.

Definition getConnection (endPoint : string) : prog Host string :=
  addr ← moutcome (GetAddressAndDialer endPoint);
  conn ← host (CriDial endPoint addr);
  match conn with
  | inl _ => mret addr
  | inr _ =>
      errorf "connect endpoint '%s', make sure you are running as root and the endpoint has been started"
        [endPoint]
  end.

(** [status.Code(err) == codes.Unimplemented] *)
Fixpoint IsUnimplemented (e : error) : bool :=
  match e with
  | ApiError Unimplemented _ => true
  | ApiError _ _ | MetaError _ _ _ => false
  | Errorf _ _ wrapped => match wrapped with Some w => IsUnimplemented w | None => false end
  end.

(** The older version is used only by a runtime that does not know the newer. *)
Definition determineAPIVersion (addr : string) (timeout : Z) : prog Host remoteRuntimeService :=
  r ← host (CriCall addr RuntimeV1 (RpcVersion ε));
  match r with
  | inl _ => mret (mkService addr timeout false)
  | inr err =>
      if IsUnimplemented err then mret (mkService addr timeout true)
      else throw (Errorf "unable to determine runtime API version: %w" [] (Some err))
  end.

Definition NewRemoteRuntimeService (endpoint : string) (connectionTimeout : Z) :
    prog Host remoteRuntimeService :=
  addr ← getConnection endpoint;
  determineAPIVersion addr connectionTimeout.

(** *** Checks of the responses *)

Definition version_complete (v : VersionResponse) : bool :=
  negb (bool_decide (vr_Version v = ε) || bool_decide (vr_RuntimeName v = ε) ||
        bool_decide (vr_RuntimeApiVersion v = ε) || bool_decide (vr_RuntimeVersion v = ε)).

Definition verifySandboxStatus (status : PodSandboxStatus) : outcome unit :=
  if decide (pss_Id status = ε) then errorf "status.Id is not set" []
  else
    match pss_Metadata status with
    | None => errorf "status.Metadata is not set" []
    | Some metadata =>
        if decide (psm_Name metadata = ε ∨ psm_Namespace metadata = ε ∨ psm_Uid metadata = ε)
        then errorf "metadata.Name, metadata.Namespace or metadata.Uid is not in metadata %q" []
        else if pss_CreatedAt status =? 0 then errorf "status.CreatedAt is not set" []
        else Ret tt
    end.

Definition verifyContainerStatus (status : ContainerStatus) : outcome unit :=
  if decide (cs_Id status = ε) then errorf "status.Id is not set" []
  else
    match cs_Metadata status with
    | None => errorf "status.Metadata is not set" []
    | Some metadata =>
        if decide (cmd_Name metadata = ε) then errorf "metadata.Name is not in metadata %q" []
        else if cs_CreatedAt status =? 0 then errorf "status.CreatedAt is not set" []
        else if decide (default ε (cs_Image status) = ε) then errorf "status.Image is not set" []
        else if decide (cs_ImageRef status = ε) then errorf "status.ImageRef is not set" []
        else Ret tt
    end.

(** *** The methods, one per version *)

Definition versionV1 (r : remoteRuntimeService) (apiVersion : string) : prog Host VersionResponse :=
  typedVersion ← rpc r RuntimeV1 (RpcVersion apiVersion);
  if version_complete typedVersion then mret typedVersion
  else errorf "not all fields are set in VersionResponse (%q)" [].

Definition versionV1alpha2 (r : remoteRuntimeService) (apiVersion : string) : prog Host VersionResponse :=
  typedVersion ← rpc r RuntimeV1alpha2 (RpcVersion apiVersion);
  if version_complete typedVersion then mret (fromV1alpha2 typedVersion)
  else errorf "not all fields are set in VersionResponse (%q)" [].

Definition Version (r : remoteRuntimeService) (apiVersion : string) : prog Host VersionResponse :=
  if useV1API r then versionV1 r apiVersion else versionV1alpha2 r apiVersion.

(** Both conditions are reported. *)
Definition conditions_set (resp : StatusResponse) : bool :=
  match sr_Status resp with Some conditions => (2 <=? length conditions)%nat | None => false end.

Definition statusV1 (r : remoteRuntimeService) (verbose : bool) : prog Host StatusResponse :=
  resp ← rpc r RuntimeV1 (RpcStatus verbose);
  if conditions_set resp then mret resp
  else errorf "RuntimeReady or NetworkReady condition are not set" [].

Definition statusV1alpha2 (r : remoteRuntimeService) (verbose : bool) : prog Host StatusResponse :=
  resp ← rpc r RuntimeV1alpha2 (RpcStatus verbose);
  if conditions_set resp then mret (fromV1alpha2 resp)
  else errorf "RuntimeReady or NetworkReady condition are not set" [].

Definition Status (r : remoteRuntimeService) (verbose : bool) : prog Host StatusResponse :=
  if useV1API r then statusV1 r verbose else statusV1alpha2 r verbose.

(** A status that is present is checked. *)
Definition checkSandbox (res : PodSandboxStatusResponse) : outcome PodSandboxStatusResponse :=
  match psr_Status res with
  | Some status => _ ← verifySandboxStatus status; Ret res
  | None => Ret res
  end.

Definition podSandboxStatusV1 (r : remoteRuntimeService) (podSandBoxID : string) (verbose : bool) :
    prog Host PodSandboxStatusResponse :=
  resp ← rpc r RuntimeV1 (RpcPodSandboxStatus podSandBoxID verbose);
  moutcome (checkSandbox resp).

Definition podSandboxStatusV1alpha2 (r : remoteRuntimeService) (podSandBoxID : string) (verbose : bool) :
    prog Host PodSandboxStatusResponse :=
  resp ← rpc r RuntimeV1alpha2 (RpcPodSandboxStatus podSandBoxID verbose);
  moutcome (checkSandbox (fromV1alpha2 resp)).

Definition PodSandboxStatus_ (r : remoteRuntimeService) (podSandBoxID : string) (verbose : bool) :
    prog Host PodSandboxStatusResponse :=
  if useV1API r then podSandboxStatusV1 r podSandBoxID verbose
  else podSandboxStatusV1alpha2 r podSandBoxID verbose.

Definition podSandboxStatsV1 (r : remoteRuntimeService) (podSandboxID : string) :
    prog Host (option PodSandboxStats) :=
  rpc r RuntimeV1 (RpcPodSandboxStats podSandboxID).

Definition podSandboxStatsV1alpha2 (r : remoteRuntimeService) (podSandboxID : string) :
    prog Host (option PodSandboxStats) :=
  resp ← rpc r RuntimeV1alpha2 (RpcPodSandboxStats podSandboxID);
  mret (fromV1alpha2 resp).

Definition PodSandboxStats_ (r : remoteRuntimeService) (podSandboxID : string) :
    prog Host (option PodSandboxStats) :=
  if useV1API r then podSandboxStatsV1 r podSandboxID else podSandboxStatsV1alpha2 r podSandboxID.

Definition listPodSandboxStatsV1 (r : remoteRuntimeService) (filter : option CriFilter) :
    prog Host (list PodSandboxStats) :=
  rpc r RuntimeV1 (RpcListPodSandboxStats filter).

Definition listPodSandboxStatsV1alpha2 (r : remoteRuntimeService) (filter : option CriFilter) :
    prog Host (list PodSandboxStats) :=
  resp ← rpc r RuntimeV1alpha2 (RpcListPodSandboxStats (fromV1alpha2 filter));
  mret (fromV1alpha2 resp).

Definition ListPodSandboxStats (r : remoteRuntimeService) (filter : option CriFilter) :
    prog Host (list PodSandboxStats) :=
  if useV1API r then listPodSandboxStatsV1 r filter else listPodSandboxStatsV1alpha2 r filter.

Definition listPodSandboxV1 (r : remoteRuntimeService) (filter : option CriFilter) :
    prog Host (list PodSandbox) :=
  rpc r RuntimeV1 (RpcListPodSandbox filter).

Definition listPodSandboxV1alpha2 (r : remoteRuntimeService) (filter : option CriFilter) :
    prog Host (list PodSandbox) :=
  resp ← rpc r RuntimeV1alpha2 (RpcListPodSandbox (fromV1alpha2 filter));
  mret (fromV1alpha2 resp).

Definition ListPodSandbox (r : remoteRuntimeService) (filter : option CriFilter) :
    prog Host (list PodSandbox) :=
  if useV1API r then listPodSandboxV1 r filter else listPodSandboxV1alpha2 r filter.

Definition listContainersV1 (r : remoteRuntimeService) (filter : option CriFilter) :
    prog Host (list CriContainer) :=
  rpc r RuntimeV1 (RpcListContainers filter).

Definition listContainersV1alpha2 (r : remoteRuntimeService) (filter : option CriFilter) :
    prog Host (list CriContainer) :=
  resp ← rpc r RuntimeV1alpha2 (RpcListContainers (fromV1alpha2 filter));
  mret (fromV1alpha2 resp).

Definition ListContainers (r : remoteRuntimeService) (filter : option CriFilter) :
    prog Host (list CriContainer) :=
  if useV1API r then listContainersV1 r filter else listContainersV1alpha2 r filter.

Definition listContainerStatsV1 (r : remoteRuntimeService) (filter : option CriFilter) :
    prog Host (list ContainerStats) :=
  rpc r RuntimeV1 (RpcListContainerStats filter).

Definition listContainerStatsV1alpha2 (r : remoteRuntimeService) (filter : option CriFilter) :
    prog Host (list ContainerStats) :=
  resp ← rpc r RuntimeV1alpha2 (RpcListContainerStats (fromV1alpha2 filter));
  mret (fromV1alpha2 resp).

Definition ListContainerStats (r : remoteRuntimeService) (filter : option CriFilter) :
    prog Host (list ContainerStats) :=
  if useV1API r then listContainerStatsV1 r filter else listContainerStatsV1alpha2 r filter.

Definition checkContainer (res : ContainerStatusResponse) : outcome ContainerStatusResponse :=
  match csr_Status res with
  | Some status => _ ← verifyContainerStatus status; Ret res
  | None => Ret res
  end.

Definition containerStatusV1 (r : remoteRuntimeService) (containerID : string) (verbose : bool) :
    prog Host ContainerStatusResponse :=
  resp ← rpc r RuntimeV1 (RpcContainerStatus containerID verbose);
  moutcome (checkContainer resp).

Definition containerStatusV1alpha2 (r : remoteRuntimeService) (containerID : string) (verbose : bool) :
    prog Host ContainerStatusResponse :=
  resp ← rpc r RuntimeV1alpha2 (RpcContainerStatus containerID verbose);
  moutcome (checkContainer (fromV1alpha2 resp)).

Definition ContainerStatus_ (r : remoteRuntimeService) (containerID : string) (verbose : bool) :
    prog Host ContainerStatusResponse :=
  if useV1API r then containerStatusV1 r containerID verbose
  else containerStatusV1alpha2 r containerID verbose.

(** ** Choosing a runtime *)

(** The globals: [criClient] and whether [dockerClient] is set *)
Record Clients := mkClients {
  cl_criClient : option remoteRuntimeService;
  cl_dockerClient : bool
}.

Definition noClients : Clients := mkClients None false.

Definition dockerShimSocket : string := "/var/run/dockershim.sock".

Definition runtimeEndpoints : list string :=
  [dockerShimSocket; "/run/containerd/containerd.sock"; "/run/k3s/containerd/containerd.sock";
   "/var/run/cri-dockerd.sock"].

(** Ten seconds *)
Definition criTimeout : Z := 10000000000.

(** [initDockerClient]: a client that cannot be made leaves the global nil. *)
Definition initDockerClient (c : Clients) : prog Host (Clients * result unit) :=
  r ← host DockerClient;
  mret (mkClients (cl_criClient c) (match r with inl _ => true | inr _ => false end), r).

Definition missing (r : result unit) : bool :=
  match r with inr err => os_IsNotExist err | inl _ => false end.

(** [criClient, err = NewRemoteRuntimeService(...)]: a failure sets it to nil. *)
Definition assignCriClient (endpoint : string) (c : Clients) : prog Host (Clients * result unit) :=
  r ← try (NewRemoteRuntimeService endpoint criTimeout);
  mret (match r with
        | inl service => (mkClients (Some service) (cl_dockerClient c), inl tt)
        | inr err => (mkClients None (cl_dockerClient c), inr err)
        end).

(** The loop over the candidates: [true] is the return inside it. *)
Fixpoint tryCandidates (eps : list string) (c : Clients) : prog Host (Clients * bool) :=
  match eps with
  | [] => mret (c, false)
  | candidate :: eps =>
      st ← host (Stat candidate);
      if missing st then tryCandidates eps c
      else
        '(c, err) ← assignCriClient candidate c;
        match err with
        | inr _ => tryCandidates eps c
        | inl _ =>
            if decide (candidate = dockerShimSocket) then
              '(c, err) ← initDockerClient c;
              match err with
              | inr _ => tryCandidates eps c
              | inl _ => mret (c, true)
              end
            else mret (c, true)
        end
  end.

Definition initCriClient (eps : list string) (c : Clients) : prog Host (Clients * result unit) :=
  match cl_criClient c with
  | Some _ => mret (c, inl tt)
  | None =>
      env ← host (LookupEnv "RUNTIME_SOCK");
      match env with
      | Some sock =>
          st ← host (Stat sock);
          if missing st then mret (c, inr (Errorf "cannot find cri sock %s" [sock] None))
          else
            '(c, err) ← assignCriClient sock c;
            match err with
            | inr err => mret (c, inr (Errorf "connect cri sock %s error: %w" [sock] (Some err)))
            | inl _ => if decide (sock = dockerShimSocket) then initDockerClient c else mret (c, inl tt)
            end
      | None =>
          '(c, found) ← tryCandidates eps c;
          mret (c, if (found : bool) then inl tt
                   else inr (Errorf "cannot find valid cri sock in %s" [Join eps ","] None))
      end
  end.

(** ** The configuration of a pod *)

Record podConfig := mkPodConfig { pc_Netns : string; pc_SMCR : bool }.

(** The document a runtime gives of a sandbox *)
Record Namespace := mkNamespace { nsp_Type : string; nsp_Path : string }.

#[export] Instance Namespace_FromJson : FromJson Namespace := {|
  go_zero := mkNamespace ε ε;
  decode := decode_struct "deviceplugin.Namespace" [
    mkField "type" nsp_Type (λ x '(mkNamespace _ b), mkNamespace x b);
    mkField "path" nsp_Path (λ x '(mkNamespace a _), mkNamespace a x)]
|}.

Record Linux := mkLinux { lx_Namespaces : list Namespace }.

#[export] Instance Linux_FromJson : FromJson Linux := {|
  go_zero := mkLinux [];
  decode := decode_struct "deviceplugin.Linux" [
    mkField "namespaces" lx_Namespaces (λ x _, mkLinux x)]
|}.

(** [Config] of the sandbox, not of the controller *)
Record SandboxConfig := mkSandboxConfig { sc_Annotations : gmap string string }.

#[export] Instance SandboxConfig_FromJson : FromJson SandboxConfig := {|
  go_zero := mkSandboxConfig ∅;
  decode := decode_struct "deviceplugin.Config" [
    mkField "annotations" sc_Annotations (λ x _, mkSandboxConfig x)]
|}.

Record RuntimeSpec := mkRuntimeSpec { rsp_Linux : Linux }.

#[export] Instance RuntimeSpec_FromJson : FromJson RuntimeSpec := {|
  go_zero := mkRuntimeSpec go_zero;
  decode := decode_struct "deviceplugin.RuntimeSpec" [
    mkField "linux" rsp_Linux (λ x _, mkRuntimeSpec x)]
|}.

Record sandboxInfoSpec := mkSandboxInfoSpec { si_Config : SandboxConfig; si_RuntimeSpec : RuntimeSpec }.

#[export] Instance sandboxInfoSpec_FromJson : FromJson sandboxInfoSpec := {|
  go_zero := mkSandboxInfoSpec go_zero go_zero;
  decode := decode_struct "deviceplugin.sandboxInfoSpec" [
    mkField "config" si_Config (λ x '(mkSandboxInfoSpec _ b), mkSandboxInfoSpec x b);
    mkField "runtimeSpec" si_RuntimeSpec (λ x '(mkSandboxInfoSpec a _), mkSandboxInfoSpec a x)]
|}.

(** [strconv.ParseBool] *)
Definition ParseBool (s : string) : option bool :=
  if decide (s ∈ ["1"; "t"; "T"; "true"; "TRUE"; "True"]) then Some true
  else if decide (s ∈ ["0"; "f"; "F"; "false"; "FALSE"; "False"]) then Some false
  else None.

(** The sandbox of a pod, ready: an item without metadata is dereferenced. *)
Fixpoint findSandbox (ns name : string) (sandboxs : list PodSandbox) : outcome (option PodSandbox) :=
  match sandboxs with
  | [] => Ret None
  | item :: sandboxs =>
      metadata ← deref (psb_Metadata item);
      if bool_decide (psm_Namespace metadata = ns) && bool_decide (psm_Name metadata = name) &&
         match psb_State item with SANDBOX_READY => true | SANDBOX_NOTREADY => false end
      then Ret (Some item)
      else findSandbox ns name sandboxs
  end.

(** The network of the sandbox is the host's. *)
Definition hostNetwork (sbStatus : PodSandboxStatusResponse) : bool :=
  match psr_Status sbStatus with
  | Some {| pss_Linux := Some {| lps_Namespaces := Some {| sns_Options := Some opts |} |} |} =>
      match nso_Network opts with NS_NODE => true | _ => false end
  | _ => false
  end.

(** What the status and the document of the sandbox say *)
Definition sandboxConfig (sbStatus : PodSandboxStatusResponse) : outcome podConfig :=
  match psr_Info sbStatus !! "info" with
  | None => errorf "pod sandbox info not found" []
  | Some sbConfig =>
      match Unmarshal (A:=sandboxInfoSpec) sbConfig with
      | inr err => errorf "failed to parse sandbox info: %v" [error_string err]
      | inl sbSpec =>
          if hostNetwork sbStatus then Ret (mkPodConfig "/proc/1/ns/net" false)
          else
            match find_first (λ item, bool_decide (nsp_Type item = "network"))
                    (lx_Namespaces (rsp_Linux (si_RuntimeSpec sbSpec))) with
            | None => errorf "failed to find network namespace" []
            | Some netns =>
                if decide (nsp_Path netns = ε) then errorf "failed to find network namespace" []
                else
                  match sc_Annotations (si_Config sbSpec) !! PodAnnotationSMCR with
                  | None | Some EmptyString => Ret (mkPodConfig (nsp_Path netns) false)
                  | Some smcConfig =>
                      match ParseBool smcConfig with
                      | Some b => Ret (mkPodConfig (nsp_Path netns) b)
                      | None => errorf "failed to parse pod sandbox info: %s, %v"
                                  [smcConfig; "strconv.ParseBool: parsing: invalid syntax"]
                      end
                  end
            end
      end
  end.

(** The branch for docker *)
Definition dockerConfig (ns name : string) : prog Host podConfig :=
  podSandbox ← host (DockerContainerList
    ["io.kubernetes.docker.type=podsandbox"; "io.kubernetes.pod.name=" +:+ name;
     "io.kubernetes.pod.namespace=" +:+ ns]);
  match podSandbox with
  | inr err => throw (Errorf "get pod sandbox list: %w" [] (Some err))
  | inl [] => errorf "pod sandbox not found" []
  | inl (id :: _) =>
      sandboxInfo ← host (DockerContainerInspect id);
      match sandboxInfo with
      | inr err => throw (Errorf "get pod sandbox inspect: %w" [] (Some err))
      | inl sandboxInfo =>
          match cj_State sandboxInfo with
          | None | Some 0 => errorf "pod sandbox state not expect: %v" []
          | Some pid =>
              let netns := "/proc/" +:+ Itoa pid +:+ "/ns/net" in
              match cj_Config sandboxInfo with
              | None | Some None => mret (mkPodConfig netns false)
              | Some (Some labels) =>
                  match labels !! ("annotation." +:+ PodAnnotationSMCR) with
                  | None => mret (mkPodConfig netns false)
                  | Some smcConfig =>
                      match ParseBool smcConfig with
                      | Some b => mret (mkPodConfig netns b)
                      | None => errorf "pod sandbox state not expect: %v" []
                      end
                  end
              end
          end
      end
  end.

(** The branch for the runtime interface; a nil [criClient] is dereferenced. *)
Definition criConfig (c : Clients) (ns name : string) : prog Host podConfig :=
  client ← deref (cl_criClient c);
  sandboxs ← ListPodSandbox client None;
  sandbox ← moutcome (findSandbox ns name sandboxs);
  match sandbox with
  | None => errorf "pod sandbox not found" []
  | Some sandbox =>
      sbStatus ← PodSandboxStatus_ client (psb_Id sandbox) true;
      moutcome (sandboxConfig sbStatus)
  end.

Definition getPodConfig (c : Clients) (ns name : string) : prog Host podConfig :=
  if cl_dockerClient c then dockerConfig ns name else criConfig c ns name.

(** ** Endpoints *)

(** An absolute path and its [unix://] URL are the same endpoint, whose
    address is the path; an endpoint that is accepted is one whose URL, or whose
    URL with [unix://] in front, has the scheme [unix] and that address as path. *)
Lemma GetAddressAndDialer_paths p :
  (plain_path p → GetAddressAndDialer p = Ret p ∧ GetAddressAndDialer ("unix://" +:+ p) = Ret p) ∧
  (∀ addr, GetAddressAndDialer p = Ret addr →
     ∃ u, (url_Parse p = Some u ∨ url_Parse ("unix://" +:+ p) = Some u) ∧
       url_Scheme u = "unix" ∧ url_Path u = addr).
Proof.
  split.
  - intros Hp. pose proof (url_unix_path p Hp) as Hu.
    assert (parseEndpoint ("unix://" +:+ p) = ("unix", p, None)) as Hpe
      by (unfold parseEndpoint; by rewrite Hu).
    assert (∃ e, parseEndpoint p = (ε, ε, Some e)) as [e He].
    { unfold parseEndpoint. destruct (url_Parse p) as [u|] eqn:Eu; [|by eexists].
      apply (url_bare p u (proj2 Hp)) in Eu. rewrite Eu. simpl. by eexists. }
    unfold GetAddressAndDialer, parseEndpointWithFallbackProtocol.
    change (unixProtocol +:+ "://" +:+ p) with ("unix://" +:+ p). by rewrite He, Hpe.
  - intros addr. unfold GetAddressAndDialer, parseEndpointWithFallbackProtocol.
    change (unixProtocol +:+ "://" +:+ p) with ("unix://" +:+ p).
    assert (∀ q protocol addr', parseEndpoint q = (protocol, addr', None) → protocol = unixProtocol →
      ∃ u, url_Parse q = Some u ∧ url_Scheme u = "unix" ∧ url_Path u = addr') as Hq.
    { intros q protocol addr'. unfold parseEndpoint. destruct (url_Parse q) as [u|]; [|done].
      repeat case_decide; intros [= <- <-]; try done. intros _. by exists u. }
    destruct (parseEndpoint p) as [[protocol addr'] [err|]] eqn:Ep.
    + destruct protocol; [|done].
      destruct (parseEndpoint ("unix://" +:+ p)) as [[protocol addr2] [err2|]] eqn:E2; [done|].
      case_decide as Hd; [|done]. intros [= <-]. destruct (Hq _ _ _ E2 Hd) as (u & Hu & ? & ?). eauto.
    + destruct (decide (protocol = unixProtocol)) as [Hd|Hd].
      * rewrite Hd in *. simpl. intros [= <-]. destruct (Hq _ _ _ Ep eq_refl) as (u & Hu & ? & ?). eauto.
      * destruct protocol; simpl; by rewrite ?decide_False.
Qed.

Lemma GetAddressAndDialer_paths_witness :
  Forall (λ ep, GetAddressAndDialer ep = Ret ep) runtimeEndpoints ∧
  GetAddressAndDialer "tcp://127.0.0.1:3735" = errorf "only support unix socket endpoint" [].
Proof.
  split; [|vm_compute; reflexivity].
  repeat (apply Forall_cons_2; [apply GetAddressAndDialer_paths; by apply (bool_decide_unpack _); vm_compute|]).
  apply Forall_nil_2.
Defined.

#[local] Opaque GetAddressAndDialer.

(** ** Connecting *)

(** A connection to [endpoint] whose version of the API is established: the
    newer one answered, or is not implemented. *)
Definition connected (endpoint : string) (service : remoteRuntimeService) (tr : trace Host) : Prop :=
  GetAddressAndDialer endpoint = Ret (rs_addr service) ∧
  ∃ r, tr = [Event (S:=Host) (CriDial endpoint (rs_addr service)) (inl tt);
             Event (S:=Host) (CriCall (rs_addr service) RuntimeV1 (RpcVersion ε)) r] ∧
    match r with
    | inl _ => rs_v1alpha2 service = false
    | inr err => rs_v1alpha2 service = true ∧ IsUnimplemented err = true
    end.

Lemma GetAddressAndDialer_no_panic ep f : GetAddressAndDialer ep ≠ Panic f.
Proof.
  with_strategy transparent [GetAddressAndDialer] unfold GetAddressAndDialer.
  destruct (parseEndpointWithFallbackProtocol _ _) as [[? ?] [?|]]; [done|]. by case_decide.
Qed.

Lemma NewRemoteRuntimeService_exec endpoint tr o :
  exec (NewRemoteRuntimeService endpoint criTimeout) tr o →
  match o with
  | Ret service => connected endpoint service tr
  | Err _ => True
  | Panic _ => False
  end.
Proof.
  unfold NewRemoteRuntimeService, getConnection. intros H.
  apply exec_bind in H as (tr1 & o1 & H1 & H). apply exec_bind in H1 as (tr2 & o2 & [-> ->] & H1).
  pose proof (GetAddressAndDialer_no_panic endpoint) as Hnp.
  destruct (GetAddressAndDialer endpoint) as [addr|e|f] eqn:Ea.
  - destruct H1 as (tr3 & -> & H1). exec_hcall H1 as (r & tr4 & -> & H1).
    destruct r as [[]|err]; destruct H1 as [-> ->]; [|by destruct H as [-> ->]].
    destruct H as (tr5 & -> & H). unfold determineAPIVersion in H. exec_hcall H as (r & tr6 & -> & H).
    destruct r as [v|err].
    + destruct H as [-> ->]. split; [done|]. by exists (inl v).
    + destruct (IsUnimplemented err) eqn:Ei; destruct H as [-> ->]; [|done]. split; [done|]. by exists (inr err).
  - destruct H1 as [-> ->]. by destruct H as [-> ->].
  - by destruct (Hnp f).
Qed.

#[local] Opaque NewRemoteRuntimeService.

Lemma assignCriClient_exec endpoint c tr o :
  exec (assignCriClient endpoint c) tr o →
  ∃ c' r, o = Ret (c', r) ∧ cl_dockerClient c' = cl_dockerClient c ∧
    match r with
    | inl _ => ∃ service, cl_criClient c' = Some service ∧ connected endpoint service tr
    | inr err => cl_criClient c' = None ∧ exec (NewRemoteRuntimeService endpoint criTimeout) tr (Err err)
    end.
Proof.
  unfold assignCriClient. intros H. apply exec_bind in H as (tr1 & o1 & H1 & H).
  apply exec_try in H1 as (o2 & H1 & ->). pose proof (NewRemoteRuntimeService_exec _ _ _ H1) as Hs.
  destruct o2 as [service|err|f]; [| |done]; destruct H as (tr2 & -> & [-> ->]); rewrite app_nil_r;
    eexists _, _; (split; [done|]); (split; [done|]); [by exists service|done].
Qed.

(** How a candidate was passed over *)
Inductive passed_over (candidate : string) : trace Host → Prop :=
  | PassMissing r : missing r = true → passed_over candidate [Event (S:=Host) (Stat candidate) r]
  | PassDead r tr err : missing r = false → exec (NewRemoteRuntimeService candidate criTimeout) tr (Err err) →
      passed_over candidate (Event (S:=Host) (Stat candidate) r :: tr)
  | PassNoDocker r tr service err : candidate = dockerShimSocket → missing r = false →
      connected candidate service tr →
      passed_over candidate (Event (S:=Host) (Stat candidate) r :: tr ++
        [Event (S:=Host) DockerClient (inr err)]).

(** How one was taken *)
Definition taken (candidate : string) (service : remoteRuntimeService) (tr : trace Host) : Prop :=
  ∃ r trc, missing r = false ∧ connected candidate service trc ∧
    tr = Event (S:=Host) (Stat candidate) r :: trc ++
         (if decide (candidate = dockerShimSocket) then [Event (S:=Host) DockerClient (inl tt)] else []).

#[local] Opaque assignCriClient.

(** What the loop over the candidates did *)
Definition tried (eps : list string) (tr : trace Host) (c' : Clients) (found : bool) : Prop :=
  if found then
    ∃ before candidate rest trs tr' service, eps = before ++ candidate :: rest ∧
      tr = concat trs ++ tr' ∧ Forall2 passed_over before trs ∧ taken candidate service tr' ∧
      c' = mkClients (Some service) (bool_decide (candidate = dockerShimSocket))
  else cl_dockerClient c' = false ∧ ∃ trs, tr = concat trs ∧ Forall2 passed_over eps trs.

Lemma tried_next candidate eps tr1 tr2 c' found :
  passed_over candidate tr1 → tried eps tr2 c' found → tried (candidate :: eps) (tr1 ++ tr2) c' found.
Proof.
  intros Hp Hf. destruct found.
  - destruct Hf as (before & cand & rest & trs & tr' & service & -> & -> & Hb & Ht & ->).
    exists (candidate :: before), cand, rest, (tr1 :: trs), tr', service.
    split_and!; [done|simpl; by rewrite <- app_assoc|by constructor|done|done].
  - destruct Hf as (Hd & trs & -> & Hb). split; [done|]. exists (tr1 :: trs). split; [done|by constructor].
Qed.

Lemma tryCandidates_exec eps c tr o :
  cl_dockerClient c = false → exec (tryCandidates eps c) tr o →
  ∃ c' found, o = Ret (c', found) ∧ tried eps tr c' found.
Proof.
  revert c tr. induction eps as [|candidate eps IH]; intros c tr Hc H.
  { destruct H as [-> ->]. exists c, false. split; [done|]. split; [done|]. exists []. split; [done|constructor]. }
  assert (∀ c1 tr1 tr2, cl_dockerClient c1 = false → passed_over candidate tr1 →
    exec (tryCandidates eps c1) tr2 o →
    ∃ c' found, o = Ret (c', found) ∧ tried (candidate :: eps) (tr1 ++ tr2) c' found) as Hnext.
  { intros c1 tr1 tr2 Hc1 Hp H2. destruct (IH c1 tr2 Hc1 H2) as (c' & found & -> & Hf).
    exists c', found. split; [done|by apply tried_next]. }
  cbn [tryCandidates] in H. exec_hcall H as (st & tr1 & -> & H).
  destruct (missing st) eqn:Em; [by eapply (Hnext c [_]); [done|by constructor|]|].
  apply exec_bind in H as (tra & oa & Ha & H).
  apply assignCriClient_exec in Ha as (c1 & r & -> & Hd1 & Hr). destruct H as (tr2 & -> & H).
  rewrite Hc in Hd1. destruct r as [[]|err].
  2: { destruct Hr as [_ Hr]. change (Event (S:=Host) (Stat candidate) st :: tra ++ tr2) with
         ((Event (S:=Host) (Stat candidate) st :: tra) ++ tr2).
       eapply Hnext; [done|by econstructor|done]. }
  destruct Hr as (service & Hs & Hconn). destruct (decide (candidate = dockerShimSocket)) as [Hcd|Hcd].
  - apply exec_bind in H as (trd & od & Hd & H). unfold initDockerClient in Hd.
    exec_hcall Hd as (rd & tr3 & -> & Hd). destruct Hd as [-> ->]. destruct H as (tr4 & -> & H).
    destruct rd as [[]|err].
    + destruct H as [-> ->]. eexists _, true. split; [done|].
      exists [], candidate, eps, [], (Event (S:=Host) (Stat candidate) st :: tra ++ [Event (S:=Host) DockerClient (inl tt)]), service.
      split_and!; [done..|constructor| |].
      * exists st, tra. split_and!; [done..|]. by rewrite decide_True.
      * rewrite Hs. by rewrite bool_decide_true.
    + replace (Event (S:=Host) (Stat candidate) st :: tra ++ [Event (S:=Host) DockerClient (inr err)] ++ tr4)
        with ((Event (S:=Host) (Stat candidate) st :: tra ++ [Event (S:=Host) DockerClient (inr err)]) ++ tr4)
        by (simpl; by rewrite <- app_assoc).
      eapply Hnext; [|by eapply PassNoDocker|exact H]. done.
  - destruct H as [-> ->]. eexists _, true. split; [done|].
    exists [], candidate, eps, [], (Event (S:=Host) (Stat candidate) st :: tra), service.
    split_and!; [done|simpl; by rewrite app_nil_r|constructor| |].
    + exists st, tra. split_and!; [done..|]. rewrite decide_False by done. by rewrite app_nil_r.
    + destruct c1 as [cri docker]. simpl in *. subst. by rewrite bool_decide_false.
Qed.

#[local] Opaque tryCandidates.

(** Connecting to the container runtime ends with clients or an error.  The
    socket is the one of the environment or else the first candidate that is
    there and answers, over the newest version of the API it knows; the docker
    client is made exactly for the socket of dockershim.  It fails only when the
    socket, or every candidate, is missing, does not answer, or is dockershim's
    without docker. *)
Lemma initCriClient_connects eps tr o :
  exec (initCriClient eps noClients) tr o →
  ∃ env rest c' r, tr = Event (S:=Host) (LookupEnv "RUNTIME_SOCK") env :: rest ∧ o = Ret (c', r) ∧
    match env, r with
    | Some sock, inl _ => ∃ service, taken sock service rest ∧
        c' = mkClients (Some service) (bool_decide (sock = dockerShimSocket))
    | Some sock, inr _ => passed_over sock rest
    | None, inl _ => ∃ before sock after trs tr' service, eps = before ++ sock :: after ∧
        rest = concat trs ++ tr' ∧ Forall2 passed_over before trs ∧ taken sock service tr' ∧
        c' = mkClients (Some service) (bool_decide (sock = dockerShimSocket))
    | None, inr _ => ∃ trs, rest = concat trs ∧ Forall2 passed_over eps trs
    end.
Proof.
  intros H. unfold initCriClient in H. cbn [cl_criClient noClients] in H.
  exec_hcall H as (env & rest & -> & H). exists env, rest. destruct env as [sock|].
  - exec_hcall H as (st & tr1 & -> & H). destruct (missing st) eqn:Em.
    { destruct H as [-> ->]. eexists _, _. split_and!; [done..|]. simpl. by constructor. }
    apply exec_bind in H as (tra & oa & Ha & H).
    apply assignCriClient_exec in Ha as (c1 & r & -> & Hd1 & Hr). destruct H as (tr2 & -> & H).
    destruct r as [[]|err].
    2: { destruct H as [-> ->]. destruct Hr as [_ Hr]. eexists _, _. split_and!; [done..|].
         simpl. rewrite app_nil_r. by econstructor. }
    destruct Hr as (service & Hs & Hconn). destruct (decide (sock = dockerShimSocket)) as [Hcd|Hcd].
    + unfold initDockerClient in H. exec_hcall H as (rd & tr3 & -> & [-> ->]).
      eexists _, _. split_and!; [done..|]. destruct rd as [[]|err]; simpl.
      * exists service. rewrite Hs. split; [|by rewrite bool_decide_true].
        exists st, tra. split_and!; [done..|]. by rewrite decide_True.
      * by eapply PassNoDocker.
    + destruct H as [-> ->]. eexists _, _. split_and!; [done..|]. simpl. exists service.
      split; [exists st, tra; split_and!; [done..|]; by rewrite decide_False|].
      destruct c1 as [cri docker]. simpl in *. subst. by rewrite bool_decide_false.
  - apply exec_bind in H as (tr1 & o1 & H1 & H). apply tryCandidates_exec in H1; [|done].
    destruct H1 as (c' & found & -> & Hf). destruct H as (tr2 & -> & [-> ->]). rewrite app_nil_r.
    eexists _, _. split_and!; [done..|]. destruct found; [done|]. by destruct Hf as [_ Hf].
Qed.


(** A node with containerd whose runtime speaks only the older API *)
Definition containerd_env : Env Host := λ h c,
  match c as c return host_reply c with
  | Stat path => if decide (path = "/run/containerd/containerd.sock") then inl tt
                 else inr (ApiError NotFound "no such file or directory")
  | CriCall _ RuntimeV1 _ => inr (ApiError Unimplemented "unknown service runtime.v1.RuntimeService")
  | c => plain_reply c
  end.

Lemma initCriClient_connects_witness :
  exec (initCriClient runtimeEndpoints noClients)
    (run containerd_env [] (initCriClient runtimeEndpoints noClients)).2
    (Ret (mkClients (Some (mkService "/run/containerd/containerd.sock" criTimeout true)) false, inl tt)) ∧
  length (run containerd_env [] (initCriClient runtimeEndpoints noClients)).2 = 5%nat ∧
  ∃ env rest, (run containerd_env [] (initCriClient runtimeEndpoints noClients)).2 =
    Event (S:=Host) (LookupEnv "RUNTIME_SOCK") env :: rest.
Proof.
  assert ((run containerd_env [] (initCriClient runtimeEndpoints noClients)).1 =
    Ret (mkClients (Some (mkService "/run/containerd/containerd.sock" criTimeout true)) false, inl tt)) as E
    by (vm_compute; reflexivity).
  apply run_returns in E. split; [exact E|]. split; [vm_compute; reflexivity|].
  destruct (initCriClient_connects _ _ _ E) as (env & rest & c' & r & Htr & _). exists env, rest. exact Htr.
Defined.

(** Dockershim without docker, and no other socket: the first call fails but
    leaves [criClient] set, so that a second one reports success without a
    docker client. *)
Definition dockershim_env : Env Host := λ h c,
  match c as c return host_reply c with
  | Stat path => if decide (path = dockerShimSocket) then inl tt
                 else inr (ApiError NotFound "no such file or directory")
  | DockerClient => inr (ApiError Other "invalid host")
  | c => plain_reply c
  end.

Example initCriClient_half_set :
  let first := (run dockershim_env [] (initCriClient runtimeEndpoints noClients)).1 in
  match first with
  | Ret (c, inr _) => cl_dockerClient c = false ∧
      exec (initCriClient runtimeEndpoints c) [] (Ret (c, inl tt))
  | _ => False
  end.
Proof. vm_compute. repeat split. Qed.

(** ** One version of the API *)

(** The requests of a service go to its address over its version. *)
Definition speaks (r : remoteRuntimeService) (ev : event Host) : Prop :=
  match ev with
  | Event (CriCall addr api _) _ =>
      addr = rs_addr r ∧ api = (if rs_v1alpha2 r then RuntimeV1alpha2 else RuntimeV1)
  | _ => False
  end.

Lemma rpc_speaks r api req : api = (if rs_v1alpha2 r then RuntimeV1alpha2 else RuntimeV1) →
  only (speaks r) (rpc r api req).
Proof.
  intros ->. unfold rpc, hcall. apply only_bind; [only_hcall; done|]. intros [a|e]; apply only_done.
Qed.

#[local] Ltac method_speaks r :=
  unfold useV1API; destruct (rs_v1alpha2 r) eqn:E; cbn [negb];
  only_with ltac:(idtac; match goal with |- only _ (rpc _ ?api ?req) => apply (rpc_speaks r api req); by rewrite E end).

Lemma ListPodSandbox_speaks r filter : only (speaks r) (ListPodSandbox r filter).
Proof. unfold ListPodSandbox, listPodSandboxV1, listPodSandboxV1alpha2. method_speaks r. Qed.

Lemma PodSandboxStatus_speaks r id verbose : only (speaks r) (PodSandboxStatus_ r id verbose).
Proof. unfold PodSandboxStatus_, podSandboxStatusV1, podSandboxStatusV1alpha2. method_speaks r. Qed.

(** A sandbox status that says what it must *)
Definition sandbox_verified (status : PodSandboxStatus) : Prop :=
  pss_Id status ≠ ε ∧ pss_CreatedAt status ≠ 0 ∧
  ∃ m, pss_Metadata status = Some m ∧ psm_Name m ≠ ε ∧ psm_Namespace m ≠ ε ∧ psm_Uid m ≠ ε.

Definition container_verified (status : ContainerStatus) : Prop :=
  cs_Id status ≠ ε ∧ cs_CreatedAt status ≠ 0 ∧ cs_ImageRef status ≠ ε ∧
  (∃ m, cs_Metadata status = Some m ∧ cmd_Name m ≠ ε) ∧ ∃ image, cs_Image status = Some image ∧ image ≠ ε.

Lemma verifySandboxStatus_iff status : verifySandboxStatus status = Ret tt ↔ sandbox_verified status.
Proof.
  unfold verifySandboxStatus, sandbox_verified. destruct (pss_Metadata status) as [m|];
    repeat case_decide; try (split; [done|naive_solver]).
  destruct (Z.eqb_spec (pss_CreatedAt status) 0); split; naive_solver.
Qed.

Lemma verifyContainerStatus_iff status : verifyContainerStatus status = Ret tt ↔ container_verified status.
Proof.
  unfold verifyContainerStatus, container_verified.
  destruct (cs_Metadata status) as [m|], (cs_Image status) as [image|]; simpl;
    repeat case_decide; try (split; [done|naive_solver]);
    destruct (Z.eqb_spec (cs_CreatedAt status) 0); repeat case_decide; split; naive_solver.
Qed.

Lemma checkSandbox_ret res res' : checkSandbox res = Ret res' →
  res' = res ∧ ∀ status, psr_Status res = Some status → sandbox_verified status.
Proof.
  unfold checkSandbox. destruct (psr_Status res) as [status|]; [|by intros [= <-]].
  destruct (verifySandboxStatus status) as [[]|e|f] eqn:E; [|done..]. intros [= <-].
  split; [done|]. intros ? [= <-]. by apply verifySandboxStatus_iff.
Qed.

Lemma checkContainer_ret res res' : checkContainer res = Ret res' →
  res' = res ∧ ∀ status, csr_Status res = Some status → container_verified status.
Proof.
  unfold checkContainer. destruct (csr_Status res) as [status|]; [|by intros [= <-]].
  destruct (verifyContainerStatus status) as [[]|e|f] eqn:E; [|done..]. intros [= <-].
  split; [done|]. intros ? [= <-]. by apply verifyContainerStatus_iff.
Qed.

(** A response over either version *)
Lemma rpc_exec r api req tr o :
  exec (rpc r api req) tr o →
  ∃ rep, tr = [Event (S:=Host) (CriCall (rs_addr r) api req) rep] ∧ o = of_result rep.
Proof.
  unfold rpc, hcall. intros H. exec_hcall H as (rep & tr' & -> & H). exists rep.
  destruct rep; by destruct H as [-> ->].
Qed.

Definition version_of (r : remoteRuntimeService) : CriAPI :=
  if rs_v1alpha2 r then RuntimeV1alpha2 else RuntimeV1.

Definition answered (r : remoteRuntimeService) (req : CriRequest) (resp : cri_response req)
    (tr : trace Host) : Prop :=
  tr = [Event (S:=Host) (CriCall (rs_addr r) (version_of r) req) (inl resp)].

Lemma rpc_ret r api req tr resp :
  api = version_of r → exec (rpc r api req) tr (Ret resp) → answered r req resp tr.
Proof. intros -> ([a|e] & -> & [= ->])%rpc_exec. done. Qed.

(** A method that goes on with [k], which makes no request, once answered *)
Lemma method_ret {A} r api req (k : cri_response req → prog Host A) tr a :
  api = version_of r → exec (rpc r api req ≫= k) tr (Ret a) →
  (∀ resp, ∃ o, k resp = Done o) →
  ∃ resp, answered r req resp tr ∧ k resp = Done (Ret a).
Proof.
  intros -> H Hk. apply exec_bind in H as (tr1 & o1 & (rep & -> & ->)%rpc_exec & H).
  destruct rep as [resp|err]; [|by destruct H]. destruct H as (tr2 & -> & H).
  destruct (Hk resp) as [o E]. rewrite E in H. destruct H as [-> ->].
  exists resp. by rewrite app_nil_r.
Qed.

Lemma podSandboxStatus_ret r id verbose tr resp :
  exec (PodSandboxStatus_ r id verbose) tr (Ret resp) →
  answered r (RpcPodSandboxStatus id verbose) resp tr ∧
  ∀ status, psr_Status resp = Some status → sandbox_verified status.
Proof.
  unfold PodSandboxStatus_, useV1API. intros H.
  assert (∃ api, api = version_of r ∧
    exec (x ← rpc r api (RpcPodSandboxStatus id verbose); moutcome (checkSandbox x)) tr (Ret resp))
    as (api & Hv & Hx) by (unfold version_of; destruct (rs_v1alpha2 r); eexists; (split; [done|exact H])).
  apply method_ret in Hx as (x & Ha & Hc); [|done|by eexists].
  injection Hc as Hc. apply checkSandbox_ret in Hc as [-> Hs]. done.
Qed.

Lemma containerStatus_ret r id verbose tr resp :
  exec (ContainerStatus_ r id verbose) tr (Ret resp) →
  answered r (RpcContainerStatus id verbose) resp tr ∧
  ∀ status, csr_Status resp = Some status → container_verified status.
Proof.
  unfold ContainerStatus_, useV1API. intros H.
  assert (∃ api, api = version_of r ∧
    exec (x ← rpc r api (RpcContainerStatus id verbose); moutcome (checkContainer x)) tr (Ret resp))
    as (api & Hv & Hx) by (unfold version_of; destruct (rs_v1alpha2 r); eexists; (split; [done|exact H])).
  apply method_ret in Hx as (x & Ha & Hc); [|done|by eexists].
  injection Hc as Hc. apply checkContainer_ret in Hc as [-> Hs]. done.
Qed.

(** A method that tests the response *)
Lemma tested_ret r req (p : cri_response req → bool) msg tr resp :
  exec (x ← rpc r (version_of r) req; if p x then mret x else errorf msg []) tr (Ret resp) →
  answered r req resp tr ∧ p resp = true.
Proof.
  intros H. apply method_ret in H as (x & Ha & Hc); [|done|intros x; destruct (p x); by eexists].
  destruct (p x) eqn:Ep; [|done]. by injection Hc as <-.
Qed.

(** A method that passes the response on *)
Lemma passed_ret r req tr resp :
  exec (x ← rpc r (version_of r) req; mret (fromV1alpha2 x)) tr (Ret resp) → answered r req resp tr.
Proof. intros H. apply method_ret in H as (x & Ha & [= <-]); [done|done|by eexists]. Qed.

#[local] Ltac pass_on r H :=
  destruct (rs_v1alpha2 r) eqn:E; cbn [negb] in H;
  [apply passed_ret|eapply rpc_ret; [|exact H]]; unfold version_of; by rewrite E.

Lemma listPodSandbox_ret r f tr resp :
  exec (ListPodSandbox r f) tr (Ret resp) → answered r (RpcListPodSandbox f) resp tr.
Proof. unfold ListPodSandbox, useV1API. intros H. pass_on r H. Qed.

(** Whatever the version of the API a service speaks, its methods make one
    request, over that version, and a response that is returned is the
    runtime's, checked: a version is complete, a status has its two conditions,
    a sandbox or a container status has all its required fields. *)
Lemma service_methods r :
  (∀ v tr resp, exec (Version r v) tr (Ret resp) →
     answered r (RpcVersion v) resp tr ∧ version_complete resp = true) ∧
  (∀ b tr resp, exec (Status r b) tr (Ret resp) →
     answered r (RpcStatus b) resp tr ∧ conditions_set resp = true) ∧
  (∀ id b tr resp, exec (PodSandboxStatus_ r id b) tr (Ret resp) →
     answered r (RpcPodSandboxStatus id b) resp tr ∧
     ∀ status, psr_Status resp = Some status → sandbox_verified status) ∧
  (∀ id b tr resp, exec (ContainerStatus_ r id b) tr (Ret resp) →
     answered r (RpcContainerStatus id b) resp tr ∧
     ∀ status, csr_Status resp = Some status → container_verified status) ∧
  (∀ id tr resp, exec (PodSandboxStats_ r id) tr (Ret resp) → answered r (RpcPodSandboxStats id) resp tr) ∧
  (∀ f tr resp, exec (ListPodSandboxStats r f) tr (Ret resp) →
     answered r (RpcListPodSandboxStats f) resp tr) ∧
  (∀ f tr resp, exec (ListPodSandbox r f) tr (Ret resp) → answered r (RpcListPodSandbox f) resp tr) ∧
  (∀ f tr resp, exec (ListContainers r f) tr (Ret resp) → answered r (RpcListContainers f) resp tr) ∧
  (∀ f tr resp, exec (ListContainerStats r f) tr (Ret resp) →
     answered r (RpcListContainerStats f) resp tr).
Proof.
  unfold Version, Status, PodSandboxStats_, ListPodSandboxStats, ListContainers, ListContainerStats, useV1API.
  split_and!.
  - intros v tr resp H. apply tested_ret with (msg := "not all fields are set in VersionResponse (%q)").
    unfold version_of. by destruct (rs_v1alpha2 r).
  - intros b tr resp H. apply tested_ret with (msg := "RuntimeReady or NetworkReady condition are not set").
    unfold version_of. by destruct (rs_v1alpha2 r).
  - intros id b tr resp. apply podSandboxStatus_ret.
  - intros id b tr resp. apply containerStatus_ret.
  - intros id tr resp H. pass_on r H.
  - intros f tr resp H. pass_on r H.
  - intros f tr resp. apply listPodSandbox_ret.
  - intros f tr resp H. pass_on r H.
  - intros f tr resp H. pass_on r H.
Qed.

Definition demo_service : remoteRuntimeService := mkService "/run/containerd/containerd.sock" criTimeout true.

Lemma service_methods_witness :
  answered demo_service (RpcVersion "0.1.0") (plain_cri (RpcVersion "0.1.0"))
    (run plain_env [] (Version demo_service "0.1.0")).2 ∧
  version_complete (plain_cri (RpcVersion "0.1.0")) = true.
Proof. apply (service_methods demo_service). apply run_returns. vm_compute. reflexivity. Defined.

(** ** The configuration found *)

(** A map asks for SMC-R under [key]. *)
Definition asks (m : gmap string string) (key : string) : Prop :=
  ∃ v, m !! key = Some v ∧ ParseBool v = Some true.

(** A ready sandbox of the pod *)
Definition ready_sandbox (ns name : string) (sandbox : PodSandbox) : Prop :=
  psb_State sandbox = SANDBOX_READY ∧
  ∃ m, psb_Metadata sandbox = Some m ∧ psm_Namespace m = ns ∧ psm_Name m = name.

Lemma findSandbox_some ns name sandboxs sandbox :
  findSandbox ns name sandboxs = Ret (Some sandbox) →
  ready_sandbox ns name sandbox ∧
  ∃ before after, sandboxs = before ++ sandbox :: after ∧
    Forall (λ sb, ¬ ready_sandbox ns name sb) before.
Proof.
  induction sandboxs as [|item sandboxs IH]; [done|]. cbn [findSandbox].
  destruct (psb_Metadata item) as [m|] eqn:Em; [|done].
  set (named := λ m, bool_decide (psm_Namespace m = ns) && bool_decide (psm_Name m = name) &&
    match psb_State item with SANDBOX_READY => true | SANDBOX_NOTREADY => false end).
  intros H. change ((if named m then Ret (Some item) else findSandbox ns name sandboxs) = Ret (Some sandbox)) in H.
  assert (named m = true ↔ ready_sandbox ns name item) as Hr.
  { unfold named, ready_sandbox. rewrite !andb_true_iff, !bool_decide_eq_true, Em.
    destruct (psb_State item); naive_solver. }
  destruct (named m) eqn:E.
  - injection H as <-. split; [by apply Hr|]. exists [], sandboxs. by split; [|constructor].
  - destruct (IH H) as (Hs & before & after & -> & Hb). split; [done|].
    exists (item :: before), after. split; [done|]. constructor; [|done]. by intros ?%Hr.
Qed.

(** What the status and the document of a sandbox mean *)
Definition sandbox_means (sbStatus : PodSandboxStatusResponse) (cfg : podConfig) : Prop :=
  ∃ text spec, psr_Info sbStatus !! "info" = Some text ∧ Unmarshal (A:=sandboxInfoSpec) text = inl spec ∧
    if hostNetwork sbStatus then cfg = mkPodConfig "/proc/1/ns/net" false
    else pc_Netns cfg ≠ ε ∧
      (∃ before n after, lx_Namespaces (rsp_Linux (si_RuntimeSpec spec)) = before ++ n :: after ∧
         nsp_Type n = "network" ∧ nsp_Path n = pc_Netns cfg ∧
         Forall (λ n, nsp_Type n ≠ "network") before) ∧
      (pc_SMCR cfg = true ↔ asks (sc_Annotations (si_Config spec)) PodAnnotationSMCR).

Lemma sandboxConfig_ret sbStatus cfg : sandboxConfig sbStatus = Ret cfg → sandbox_means sbStatus cfg.
Proof.
  unfold sandboxConfig. destruct (psr_Info sbStatus !! "info") as [text|] eqn:Ei; [|done].
  destruct (Unmarshal (A:=sandboxInfoSpec) text) as [spec|err] eqn:Eu; [|done].
  intros H. exists text, spec. split_and!; [done..|].
  destruct (hostNetwork sbStatus); [by injection H as <-|].
  destruct (find_first _ _) as [n|] eqn:Ef; [|done]. case_decide as Hp; [done|].
  apply find_first_Some in Ef as (l1 & l2 & El & Hn%bool_decide_eq_true & Hl1).
  assert (∃ b, cfg = mkPodConfig (nsp_Path n) b ∧
    (b = true ↔ asks (sc_Annotations (si_Config spec)) PodAnnotationSMCR)) as (b & -> & Hb).
  { unfold asks. destruct (sc_Annotations (si_Config spec) !! PodAnnotationSMCR) as [v|].
    2: { injection H as <-. exists false. split; [done|]. naive_solver. }
    destruct v as [|c v].
    { injection H as <-. exists false. split; [done|]. split; [done|]. intros (v & [= <-] & ?). done. }
    destruct (ParseBool (String c v)) as [b|] eqn:Ep; [|done]. injection H as <-. exists b.
    split; [done|]. split; [intros ->; eauto|]. intros (v' & [= <-] & Hv). congruence. }
  cbn [pc_Netns pc_SMCR]. split_and!; [done| |exact Hb].
  exists l1, n, l2. split_and!; [done..|].
  eapply Forall_impl; [exact Hl1|]. by intros x ?%bool_decide_eq_false.
Qed.

(** What docker says of a sandbox *)
Definition docker_means (info : ContainerJSON) (cfg : podConfig) : Prop :=
  ∃ pid, cj_State info = Some pid ∧ pid ≠ 0 ∧ pc_Netns cfg = "/proc/" +:+ Itoa pid +:+ "/ns/net" ∧
    (pc_SMCR cfg = true ↔ ∃ labels, cj_Config info = Some (Some labels) ∧
       asks labels ("annotation." +:+ PodAnnotationSMCR)).

(** The labels docker is asked for: a sandbox, of this pod *)
Definition sandbox_labels (ns name : string) : list string :=
  ["io.kubernetes.docker.type=podsandbox"; "io.kubernetes.pod.name=" +:+ name;
   "io.kubernetes.pod.namespace=" +:+ ns].

#[local] Opaque sandboxConfig Itoa.

Lemma dockerConfig_ret ns name tr cfg :
  exec (dockerConfig ns name) tr (Ret cfg) →
  ∃ id ids info,
    tr = [Event (S:=Host) (DockerContainerList (sandbox_labels ns name)) (inl (id :: ids));
          Event (S:=Host) (DockerContainerInspect id) (inl info)] ∧
    docker_means info cfg.
Proof.
  unfold dockerConfig. fold (sandbox_labels ns name). intros H. exec_hcall H as (r & tr1 & -> & H).
  destruct r as [[|id ids]|err]; [by destruct H| |by destruct H].
  exec_hcall H as (r & tr2 & -> & H). destruct r as [info|err]; [|by destruct H].
  assert (tr2 = [] ∧ docker_means info cfg) as [-> Hm].
  { unfold docker_means, asks. destruct (cj_State info) as [pid|]; [|by destruct H].
    destruct (decide (pid = 0)) as [->|Hpid]; [by destruct H|].
    assert (exec (S:=Host) (match cj_Config info with
      | None | Some None => mret (mkPodConfig ("/proc/" +:+ Itoa pid +:+ "/ns/net") false)
      | Some (Some labels) =>
          match labels !! ("annotation." +:+ PodAnnotationSMCR) with
          | None => mret (mkPodConfig ("/proc/" +:+ Itoa pid +:+ "/ns/net") false)
          | Some smcConfig =>
              match ParseBool smcConfig with
              | Some b => mret (mkPodConfig ("/proc/" +:+ Itoa pid +:+ "/ns/net") b)
              | None => errorf "pod sandbox state not expect: %v" []
              end
          end
      end) tr2 (Ret cfg)) as H' by by destruct pid.
    clear H. destruct (cj_Config info) as [[labels|]|].
    - destruct (labels !! _) as [v|] eqn:El.
      + destruct (ParseBool v) as [b|] eqn:Ev; destruct H' as [-> [= ->]]. split; [done|].
        exists pid. split_and!; [done..|]. cbn [pc_SMCR]. split.
        * intros ->. eauto.
        * intros (? & [= <-] & v' & Hv & Ht). congruence.
      + destruct H' as [-> [= ->]]. split; [done|]. exists pid. split_and!; [done..|]. split; [done|].
        intros (? & [= <-] & v' & Hv & Ht). congruence.
    - destruct H' as [-> [= ->]]. split; [done|]. exists pid. split_and!; [done..|]. naive_solver.
    - destruct H' as [-> [= ->]]. split; [done|]. exists pid. split_and!; [done..|]. naive_solver. }
  by exists id, ids, info.
Qed.

(** C20: The configuration of a pod is that of a sandbox the runtime lists as
    the pod's.  For the runtime interface it is the first listed sandbox of the
    pod that is ready: with the host's network namespace and no SMC-R, whatever
    the annotation, when the sandbox uses the host's network; otherwise with
    the sandbox's first network namespace, and SMC-R exactly when the annotation
    asks for it.  For docker it is the first container listed under the
    labels of a sandbox of the pod, ready or not, provided it has a process: the
    namespace is the one of the process, and SMC-R exactly when the label asks for
    it. *)
Theorem getPodConfig_says c ns name tr cfg :
  exec (getPodConfig c ns name) tr (Ret cfg) →
  if cl_dockerClient c then
    ∃ id ids info, tr = [
        Event (S:=Host) (DockerContainerList ["io.kubernetes.docker.type=podsandbox";
          "io.kubernetes.pod.name=" +:+ name; "io.kubernetes.pod.namespace=" +:+ ns]) (inl (id :: ids));
        Event (S:=Host) (DockerContainerInspect id) (inl info)] ∧
      docker_means info cfg
  else
    ∃ client before sandbox after status trl trs, cl_criClient c = Some client ∧ tr = trl ++ trs ∧
      answered client (RpcListPodSandbox None) (before ++ sandbox :: after) trl ∧
      answered client (RpcPodSandboxStatus (psb_Id sandbox) true) status trs ∧
      ready_sandbox ns name sandbox ∧ Forall (λ sb, ¬ ready_sandbox ns name sb) before ∧
      sandbox_means status cfg.
Proof.
  unfold getPodConfig. intros H. destruct (cl_dockerClient c); [by apply dockerConfig_ret|].
  unfold criConfig in H. destruct (cl_criClient c) as [client|]; [|by destruct H].
  apply exec_bind in H as (tr0 & o0 & [-> ->] & tr1 & -> & H).
  apply exec_bind in H as (trl & ol & Hl & H). destruct ol as [sandboxs|e|f]; [|by destruct H..].
  apply listPodSandbox_ret in Hl. destruct H as (tr2 & -> & H).
  apply exec_bind in H as (tr3 & o3 & [-> ->] & H).
  destruct (findSandbox ns name sandboxs) as [[sandbox|]|e|f] eqn:Ef; [| |by destruct H..].
  2: { destruct H as (tr4 & _ & H). by destruct H. }
  apply findSandbox_some in Ef as (Hrd & before & after & -> & Hb). destruct H as (tr4 & -> & H).
  apply exec_bind in H as (trs & os & Hs & H). destruct os as [status|e|f]; [|by destruct H..].
  apply podSandboxStatus_ret in Hs as [Hs _]. destruct H as (tr5 & -> & [-> Hc]).
  symmetry in Hc. apply sandboxConfig_ret in Hc. rewrite !app_nil_r. simpl.
  exists client, before, sandbox, after, status, trl, trs. done.
Qed.

(** The document of a sandbox whose pod asks for SMC-R *)
Definition demo_info : string := json_text (JObj [
  ("config", JObj [("metadata", JObj [("name", JStr "web")]);
                   ("annotations", JObj [(PodAnnotationSMCR, JStr "true")])]);
  ("runtimeSpec", JObj [("linux", JObj [("namespaces", JArr [
     JObj [("type", JStr "pid")];
     JObj [("type", JStr "network"); ("path", JStr "/var/run/netns/cni-1")]])])])]).

Definition demo_sandbox : PodSandbox :=
  mkPodSandbox "sb-1" (Some (mkSandboxMetadata "web" "uid-1" "default")) SANDBOX_READY.

Definition demo_status : PodSandboxStatusResponse :=
  mkSandboxStatusResponse
    (Some (mkSandboxStatus "sb-1" (psb_Metadata demo_sandbox) 1 None)) {[ "info" := demo_info ]}.

Definition demo_cri (req : CriRequest) : cri_response req :=
  match req with
  | RpcListPodSandbox _ => [demo_sandbox]
  | RpcPodSandboxStatus _ _ => demo_status
  | req => plain_cri req
  end.

Definition sandbox_reply (c : HostCall) : host_reply c :=
  match c with
  | CriCall _ _ req => inl (demo_cri req)
  | c => plain_reply c
  end.

Definition sandbox_env : Env Host := λ _ c, sandbox_reply c.

Definition demo_clients : Clients := mkClients (Some demo_service) false.

Lemma getPodConfig_says_witness :
  exec (getPodConfig demo_clients "default" "web")
    (run sandbox_env [] (getPodConfig demo_clients "default" "web")).2
    (Ret (mkPodConfig "/var/run/netns/cni-1" true)) ∧
  ∃ status, sandbox_means status (mkPodConfig "/var/run/netns/cni-1" true).
Proof.
  assert ((run sandbox_env [] (getPodConfig demo_clients "default" "web")).1 =
    Ret (mkPodConfig "/var/run/netns/cni-1" true)) as E by (vm_compute; reflexivity).
  apply run_returns in E. split; [exact E|].
  destruct (getPodConfig_says _ _ _ _ _ E)
    as (client & before & sandbox & after & status & trl & trs & _ & _ & _ & _ & _ & _ & H).
  exists status. exact H.
Defined.
