(* ===== verification/RuntimeService.v ===== *)
(** * RuntimeService: the runtime service of pod_config.go as an interface

    The kubelet's interface of a container runtime has methods that read and
    methods that act.  [remoteRuntimeService] implements the reading ones
    (PodConfig); of the others it has the methods below, which ask the runtime
    for nothing. *)

From S2P Require Import Prelude Effects GoStr Types RuntimeApi Host PodConfig.

Section Methods.

(** A message that is not looked at *)
Context {Message : Type}.
Implicit Type r : remoteRuntimeService.

(** ** The methods without a request *)

Definition Attach r (_ : Message) : prog Host (option Message) := mret None.

Definition CheckpointContainer r (_ : Message) : prog Host unit := mret tt.

Definition ContainerStats_ r (_ : string) : prog Host (option ContainerStats) := mret None.

Definition CreateContainer r (_ : string) (_ _ : Message) : prog Host string := mret ε.

Definition Exec_ r (_ : Message) : prog Host (option Message) := mret None.

(** [stdout] and [stderr] *)
Definition ExecSync r (_ : string) (_ : list string) (_ : Z) : prog Host (string * string) := mret (ε, ε).

Definition GetContainerEvents r : prog Host unit := mret tt.

Definition PortForward r (_ : Message) : prog Host (option Message) := mret None.

Definition RemoveContainer r (_ : string) : prog Host unit := mret tt.

Definition RemovePodSandbox r (_ : string) : prog Host unit := mret tt.

Definition ReopenContainerLog r (_ : string) : prog Host unit := mret tt.

Definition RunPodSandbox r (_ : Message) (_ : string) : prog Host string := mret ε.

Definition StartContainer r (_ : string) : prog Host unit := mret tt.

Definition StopContainer r (_ : string) (_ : Z) : prog Host unit := mret tt.

Definition StopPodSandbox r (_ : string) : prog Host unit := mret tt.

Definition UpdateContainerResources r (_ : string) (_ : Message) : prog Host unit := mret tt.

Definition UpdateRuntimeConfig r (_ : Message) : prog Host unit := mret tt.

(** ** The interface *)

(** A call of the interface with its arguments *)
Inductive RuntimeCall :=
  | CallVersion (apiVersion : string)
  | CallStatus (verbose : bool)
  | CallPodSandboxStatus (podSandBoxID : string) (verbose : bool)
  | CallPodSandboxStats (podSandboxID : string)
  | CallListPodSandboxStats (filter : option CriFilter)
  | CallListPodSandbox (filter : option CriFilter)
  | CallListContainers (filter : option CriFilter)
  | CallListContainerStats (filter : option CriFilter)
  | CallContainerStatus (containerID : string) (verbose : bool)
  | CallAttach (req : Message)
  | CallCheckpointContainer (options : Message)
  | CallContainerStats (containerID : string)
  | CallCreateContainer (podSandboxID : string) (config sandboxConfig : Message)
  | CallExec (req : Message)
  | CallExecSync (containerID : string) (cmd : list string) (timeout : Z)
  | CallGetContainerEvents
  | CallPortForward (req : Message)
  | CallRemoveContainer (containerID : string)
  | CallRemovePodSandbox (podSandboxID : string)
  | CallReopenContainerLog (containerID : string)
  | CallRunPodSandbox (config : Message) (runtimeHandler : string)
  | CallStartContainer (containerID : string)
  | CallStopContainer (containerID : string) (timeout : Z)
  | CallStopPodSandbox (podSandboxID : string)
  | CallUpdateContainerResources (containerID : string) (resources : Message)
  | CallUpdateRuntimeConfig (config : Message).

(** The call, its result forgotten *)
Definition invoke r (c : RuntimeCall) : prog Host unit :=
  let done_ A (p : prog Host A) := _ ← p; mret tt in
  match c with
  | CallVersion v => done_ _ (Version r v)
  | CallStatus b => done_ _ (Status r b)
  | CallPodSandboxStatus id b => done_ _ (PodSandboxStatus_ r id b)
  | CallPodSandboxStats id => done_ _ (PodSandboxStats_ r id)
  | CallListPodSandboxStats f => done_ _ (ListPodSandboxStats r f)
  | CallListPodSandbox f => done_ _ (ListPodSandbox r f)
  | CallListContainers f => done_ _ (ListContainers r f)
  | CallListContainerStats f => done_ _ (ListContainerStats r f)
  | CallContainerStatus id b => done_ _ (ContainerStatus_ r id b)
  | CallAttach req => done_ _ (Attach r req)
  | CallCheckpointContainer o => CheckpointContainer r o
  | CallContainerStats id => done_ _ (ContainerStats_ r id)
  | CallCreateContainer id c s => done_ _ (CreateContainer r id c s)
  | CallExec req => done_ _ (Exec_ r req)
  | CallExecSync id cmd t => done_ _ (ExecSync r id cmd t)
  | CallGetContainerEvents => GetContainerEvents r
  | CallPortForward req => done_ _ (PortForward r req)
  | CallRemoveContainer id => RemoveContainer r id
  | CallRemovePodSandbox id => RemovePodSandbox r id
  | CallReopenContainerLog id => ReopenContainerLog r id
  | CallRunPodSandbox c h => done_ _ (RunPodSandbox r c h)
  | CallStartContainer id => StartContainer r id
  | CallStopContainer id t => StopContainer r id t
  | CallStopPodSandbox id => StopPodSandbox r id
  | CallUpdateContainerResources id res => UpdateContainerResources r id res
  | CallUpdateRuntimeConfig c => UpdateRuntimeConfig r c
  end.

(** The request a call makes of the runtime, if any *)
Definition asks (c : RuntimeCall) : option CriRequest :=
  match c with
  | CallVersion v => Some (RpcVersion v)
  | CallStatus b => Some (RpcStatus b)
  | CallPodSandboxStatus id b => Some (RpcPodSandboxStatus id b)
  | CallPodSandboxStats id => Some (RpcPodSandboxStats id)
  | CallListPodSandboxStats f => Some (RpcListPodSandboxStats f)
  | CallListPodSandbox f => Some (RpcListPodSandbox f)
  | CallListContainers f => Some (RpcListContainers f)
  | CallListContainerStats f => Some (RpcListContainerStats f)
  | CallContainerStatus id b => Some (RpcContainerStatus id b)
  | _ => None
  end.

(** ** What a call does *)

(** The one request of a call *)
Definition asked r (req : CriRequest) (tr : trace Host) : Prop :=
  ∃ rep, tr = [Event (S:=Host) (CriCall (rs_addr r) (version_of r) req) rep].

Lemma rpc_asked {A} r api req (k : cri_response req → prog Host A) :
  api = version_of r → (∀ resp, ∃ o, k resp = Done o) →
  triple (rpc r api req ≫= k) (λ tr _, asked r req tr).
Proof.
  intros -> Hk tr o H. apply exec_bind in H as (tr1 & o1 & (rep & -> & ->)%rpc_exec & H).
  destruct rep as [resp|err]; [|destruct H as [-> _]; by exists (inr err)].
  destruct H as (tr2 & -> & H). destruct (Hk resp) as [o' E]. rewrite E in H. destruct H as [-> _].
  by exists (inl resp).
Qed.

Lemma rpc_asked_ret r api req : api = version_of r → triple (rpc r api req) (λ tr _, asked r req tr).
Proof. intros -> tr o (rep & -> & _)%rpc_exec. by exists rep. Qed.

Lemma invoke_result {A} (p : prog Host A) Q :
  triple p (λ tr _, Q tr) → triple (_ ← p; mret tt) (λ tr _, Q tr).
Proof.
  intros Hp tr o (tr1 & o1 & H1 & H)%exec_bind. apply Hp in H1.
  destruct o1; [destruct H as (tr2 & -> & [-> _]); by rewrite app_nil_r|by destruct H as [-> _]..].
Qed.

#[local] Ltac asks_once r :=
  match goal with |- context [asked r ?req] =>
    apply (invoke_result _ (asked r req));
    unfold Version, Status, PodSandboxStatus_, PodSandboxStats_, ListPodSandboxStats, ListPodSandbox,
      ListContainers, ListContainerStats, ContainerStatus_, useV1API;
    destruct (rs_v1alpha2 r) eqn:E; cbn [negb];
    first [ eapply (rpc_asked r _ req); [unfold version_of; by rewrite E|]; intros resp; cbv beta;
            repeat case_match; by eexists
          | apply (rpc_asked_ret r _ req); unfold version_of; by rewrite E ]
  end.

Lemma invoke_asks r c :
  triple (invoke r c) (λ tr o, match asks c with
    | Some req => asked r req tr
    | None => tr = [] ∧ o = Ret tt
    end).
Proof.
  destruct c; cbn [invoke asks]; try (by intros tr o [-> ->]); asks_once r.
Qed.
(** A client of the service: its calls, until one fails *)
Definition session r (calls : list RuntimeCall) : prog Host unit :=
  for_each calls tt (λ c _, invoke r c).

Definition requested (ev : event Host) : option CriRequest :=
  match ev with Event (CriCall _ _ req) _ => Some req | _ => None end.

(** Whatever is asked of the service, and in whatever order, the
    runtime is only ever asked to report: each reading call makes its one
    request, over the version of the connection, and a call that would act on a
    container or a sandbox makes none and succeeds. *)
Lemma session_reads r calls tr o :
  exec (session r calls) tr o →
  Forall (speaks r) tr ∧
  ∃ l1 l2, calls = l1 ++ l2 ∧ omap requested tr = omap asks l1 ∧ length tr = length (omap asks l1) ∧
    (o = Ret tt ∧ l2 = [] ∨ (∀ u, o ≠ Ret u) ∧ ∃ c, last l1 = Some c ∧ asks c ≠ None).
Proof.
  revert tr; induction calls as [|c calls IH]; intros tr H.
  - destruct H as [-> ->]. split; [constructor|]. exists [], []. by split_and!; [..|left].
  - apply exec_bind in H as (tr1 & o1 & H1 & H). apply invoke_asks in H1.
    assert (Forall (speaks r) tr1 ∧ omap requested tr1 = omap asks [c] ∧ length tr1 = length (omap asks [c]) ∧
            ((∀ u, o1 ≠ Ret u) → asks c ≠ None)) as (Hs1 & Hr1 & Hl1 & Hc).
    { simpl. destruct (asks c) as [req|]; [|by destruct H1 as [-> ->]; split_and!; [constructor|..|naive_solver]].
      destruct H1 as [rep ->]. split_and!; [repeat constructor|done..]. }
    destruct o1 as [[]|e|f].
    + destruct H as (tr2 & -> & H). destruct (IH _ H) as (Hs2 & l1 & l2 & -> & Hr2 & Hl2 & Ho).
      split; [by apply Forall_app|]. exists (c :: l1), l2. split; [done|].
      change (c :: l1) with ([c] ++ l1). rewrite !omap_app, !length_app, Hr1, Hr2, Hl1, Hl2.
      split_and!; [done..|]. destruct Ho as [?|[Hn (c' & Hc' & Ha)]]; [by left|right].
      split; [done|]. exists c'. split; [|done]. simpl. by rewrite last_cons, Hc'.
    + destruct H as [-> ->]. split; [done|]. exists [c], calls. split_and!; [done..|].
      right. split; [done|]. exists c. split; [done|]. by apply Hc.
    + destruct H as [-> ->]. split; [done|]. exists [c], calls. split_and!; [done..|].
      right. split; [done|]. exists c. split; [done|]. by apply Hc.
Qed.

End Methods.

(** A service of containerd that is told to remove a container and asked for
    its version: one request is made. *)
Definition s_session : prog Host unit :=
  session demo_service [CallRemoveContainer (Message := unit) "c-1"; CallVersion "0.1.0"; CallStopContainer "c-1" 30].

Lemma session_reads_witness :
  Forall (speaks demo_service) (run plain_env [] s_session).2 ∧
  length (run plain_env [] s_session).2 = 1%nat ∧ (run plain_env [] s_session).1 = Ret tt.
Proof.
  assert ((run plain_env [] s_session).1 = Ret tt) as E by (vm_compute; reflexivity).
  destruct (session_reads _ _ _ _ (run_returns plain_env _ _ E)) as [H _].
  split; [exact H|]. split; [vm_compute; reflexivity|exact E].
Defined.
