(* ===== verification/Startup.v ===== *)
(** * Startup: cmd/controller/main.go and what it builds

    The start of the controller's process: configuration, certificates, the
    manager, the client of the cloud with its credential ([getCredential] of
    internal/controller/credential.go, [NewEriClient] of eri.go), the two
    controllers and the webhook, in the order of [main].  controller-runtime and
    the SDK are calls; [os.Exit(1)] ends the process. *)

From S2P Require Import Prelude Effects GoStr Types RuntimeApi Host Metadata Config EriClient.
From S2P Require Import Credential Cert.

(** ** Definitions *)

(** [credentials.Credential]: one of the SDK, or the STS provider *)
Inductive CloudCredential :=
  | SdkCredential (cfg : CredentialConfig)
  | StsCredential (s : stsTokenCredential).

Definition newSdkCredential (cfg : CredentialConfig) : prog Host CloudCredential :=
  _ ← hcall (host (NewSdkCredential cfg)); mret (SdkCredential cfg).

Definition getCredential (config : Config) (credential : Credentials) : prog Host CloudCredential :=
  stsEndpoint ← hcall (host (GetEndpointRules "sts" (cfg_Region config) "vpc"));
  let credType := cred_Type credential in
  if decide (credType = ε ∨ credType = "access_key") then
    newSdkCredential (mkCredentialConfig "access_key" (Some (cred_AccessKeyID credential))
      (Some (cred_AccessKeySecret credential)) (Some stsEndpoint) false)
  else if decide (credType = "oidc_role_arn") then
    newSdkCredential (mkCredentialConfig "oidc_role_arn" None None (Some stsEndpoint) false)
  else if decide (credType = "ecs_ram_role") then
    newSdkCredential (mkCredentialConfig "ecs_ram_role" None None None true)
  else if decide (credType = "ram_role_sts") then
    mret (StsCredential (getStsCredential credential))
  else errorf "unsupported credential type: %s" [credType].

(** The credential as the client of the cloud is given it *)
Definition credentialRef (c : CloudCredential) : CredentialConfig + string * string :=
  match c with
  | SdkCredential cfg => inl cfg
  | StsCredential s => inr (sts_secretNs s, sts_SecretName s)
  end.

Definition NewEriClient (config : Config) (credential : Credentials) : prog Host EriClient :=
  cred ← getCredential config credential;
  public ← Getenv "PUBLIC_NETWORK";
  let network := if decide (public = "true") then "public" else "vpc" in
  ecsEndpoint ← hcall (host (GetEndpointRules "ecs" (cfg_Region config) network));
  _ ← hcall (host (NewEcsClient (mkEcsConfig (cfg_Region config) "AlibabaCloud/ERdma-Controller/0.1"
         (credentialRef cred) "regional" network ecsEndpoint)));
  mret (mkEriClient (cfg_Region config) (cfg_ManageNonOwnedERIs config)).

(** The flags of the process; nothing reads [enableHTTP2]. *)
Record ControllerFlags := mkControllerFlags {
  cf_metricsAddr : string;
  cf_probeAddr : string;
  cf_enableLeaderElection : bool;
  cf_secureMetrics : bool;
  cf_enableHTTP2 : bool;
  cf_configPath : string;
  cf_credentialPath : string
}.

Definition defaultControllerFlags : ControllerFlags :=
  mkControllerFlags "0" ":8081" true true false ε ε.

(** [os.Exit(1)] when a step fails *)
Definition orExit {A} (msg : string) (p : prog Host A) : prog Host A :=
  r ← try p; match r with inl a => mret a | inr _ => panic (Fatal msg) end.

Section Main.
Context `{BackoffLib}.

(** The webhook is enabled: [*config.EnableWebhook] *)
Definition webhookEnabled (c : Config) : bool :=
  match cfg_EnableWebhook c with Some b => b | None => false end.

(** The certificates of the webhook server, whose directory is returned *)
Definition prepareWebhook (c : Config) : prog Host (option string) :=
  if webhookEnabled c then
    err ← try (SyncCert (cfg_ControllerNamespace c) (cfg_ControllerName c) (cfg_ClusterDomain c) (cfg_CertDir c));
    match err with
    | inr err => panic (Panicked (error_string err))
    | inl _ => mret (Some (cfg_CertDir c))
    end
  else mret None.

Definition managerOptions (f : ControllerFlags) (webhookServer : option string) : ManagerOptions :=
  mkManagerOptions (cf_metricsAddr f) (cf_secureMetrics f) (cf_secureMetrics f) webhookServer
    (cf_probeAddr f) (cf_enableLeaderElection f) "26dc1c71.alibabacloud.com".

(** The controllers and checks of the manager, and its run *)
Definition runManager (webhookServer : option string) : prog Host unit :=
  _ ← orExit "unable to create controller ERdmaDevice" (hcall (host (SetupController "ERdmaDevice")));
  _ ← orExit "unable to create controller Node" (hcall (host (SetupController "Node")));
  _ ← orExit "unable to set up health check" (hcall (host (AddCheck "healthz")));
  _ ← orExit "unable to set up ready check" (hcall (host (AddCheck "readyz")));
  _ ← (match webhookServer with
       | Some _ => host (RegisterWebhook "/mutating")
       | None => mret tt
       end);
  orExit "problem running manager" (hcall (host ManagerStart)).

(** [main]; what the reconcilers were given is returned. *)
Definition controllerMain (f : ControllerFlags) : prog Host (Config * EriClient) :=
  '(_, c, credential) ← orExit "cannot init config"
    (InitConfig (cf_configPath f) (cf_credentialPath f) None);
  _ ← orExit "unable to get kubeconfig" (hcall (host GetRestConfig));
  _ ← orExit "unable to init k8s client" (hcall (host NewK8sClient));
  webhookServer ← prepareWebhook c;
  _ ← orExit "unable to get kubeconfig" (hcall (host GetRestConfig));
  _ ← orExit "unable to start manager" (hcall (host (NewManager (managerOptions f webhookServer))));
  eriClient ← orExit "cannot start eri client" (NewEriClient c credential);
  _ ← runManager webhookServer;
  mret (c, eriClient).

End Main.

(** ** The client of the cloud *)

Definition supported : list string := [ε; "access_key"; "oidc_role_arn"; "ecs_ram_role"; "ram_role_sts"].

(** A credential is the one the type of the credentials calls for: an empty type
    is [access_key], keys are given only to that one, the program's own provider
    is for [ram_role_sts], and the endpoint is that of the region. *)
Record sdk_fits (credential : Credentials) (endpoint : string) (cfg : CredentialConfig) : Prop := {
  sf_type : cc_Type cfg = if decide (cred_Type credential = ε) then "access_key" else cred_Type credential;
  sf_sts : cc_Type cfg ≠ "ram_role_sts";
  sf_keys : if decide (cc_Type cfg = "access_key")
            then cc_AccessKeyId cfg = Some (cred_AccessKeyID credential) ∧
                 cc_AccessKeySecret cfg = Some (cred_AccessKeySecret credential)
            else cc_AccessKeyId cfg = None ∧ cc_AccessKeySecret cfg = None;
  sf_endpoint : if cc_EnableIMDSv2 cfg then cc_Type cfg = "ecs_ram_role" else cc_STSEndpoint cfg = Some endpoint
}.

Definition credential_fits (config : Config) (credential : Credentials) (cred : CloudCredential)
    (tr : trace Host) : Prop :=
  cred_Type credential ∈ supported ∧
  ∃ endpoint tr', tr = Event (S:=Host) (GetEndpointRules "sts" (cfg_Region config) "vpc") (inl endpoint) :: tr' ∧
    match cred with
    | SdkCredential cfg => tr' = [Event (S:=Host) (NewSdkCredential cfg) (inl tt)] ∧ sdk_fits credential endpoint cfg
    | StsCredential s => tr' = [] ∧ cred_Type credential = "ram_role_sts" ∧
        sts_secretNs s = cred_StsSecretNS credential ∧ sts_SecretName s = cred_StsSecretName credential ∧
        sts_sessionCredential s = None
    end.

Lemma getCredential_post config credential tr o :
  exec (getCredential config credential) tr o →
  match o with
  | Ret cred => credential_fits config credential cred tr
  | Err _ => True
  | Panic _ => False
  end.
Proof.
  intros H. apply exec_bind in H as (tr1 & o1 & H1 & H).
  destruct H1 as ([endpoint|err] & tr2 & -> & [-> ->]); [|by destruct H as [_ ->]].
  destruct H as (tr' & -> & H). cbn [app]. cbv beta zeta in H.
  assert (∀ cfg, exec (newSdkCredential cfg) tr' o → cred_Type credential ∈ supported →
    sdk_fits credential endpoint cfg →
    match o with
    | Ret cred => credential_fits config credential cred
        (Event (S:=Host) (GetEndpointRules "sts" (cfg_Region config) "vpc") (inl endpoint) :: tr')
    | Err _ => True
    | Panic _ => False
    end) as Hsdk.
  { intros cfg ([[]|err] & tr2 & -> & Hc) Hs Hf; destruct Hc as [-> ->]; [|done]. split; [done|]. eauto. }
  unfold supported in *. destruct (decide (cred_Type credential = ε ∨ cred_Type credential = "access_key")) as [Hd|Hd1].
  { eapply Hsdk; [exact H|set_solver|]. destruct Hd as [E|E]; split; cbn; rewrite ?E; done. }
  destruct (decide (cred_Type credential = "oidc_role_arn")) as [Hd|Hd2].
  { eapply Hsdk; [exact H|set_solver|]. split; cbn; rewrite ?Hd; done. }
  destruct (decide (cred_Type credential = "ecs_ram_role")) as [Hd|Hd3].
  { eapply Hsdk; [exact H|set_solver|]. split; cbn; rewrite ?Hd; done. }
  destruct (decide (cred_Type credential = "ram_role_sts")) as [Hd|Hd4]; destruct H as [-> ->]; [|done].
  split; [unfold supported; set_solver|]. eexists _, []. done.
Qed.

#[local] Opaque getCredential.

(** The client of the cloud is for the region of the configuration, on the
    public network exactly when the environment says so, with the credential
    the type of the credentials calls for: the file's keys only for
    [access_key], which an empty type means, and the program's own provider,
    for the configured secret, only for [ram_role_sts].  An unknown type is an
    error, and nothing panics. *)
Lemma NewEriClient_configured config credential tr o :
  exec (NewEriClient config credential) tr o →
  match o with
  | Ret e => e = mkEriClient (cfg_Region config) (cfg_ManageNonOwnedERIs config) ∧
      ∃ cred trc public cfg,
        tr = trc ++ [Event (S:=Host) (LookupEnv "PUBLIC_NETWORK") public;
          Event (S:=Host) (GetEndpointRules "ecs" (cfg_Region config) (ec_Network cfg)) (inl (ec_Endpoint cfg));
          Event (S:=Host) (NewEcsClient cfg) (inl tt)] ∧
        credential_fits config credential cred trc ∧ ec_Credential cfg = credentialRef cred ∧
        ec_RegionId cfg = cfg_Region config ∧
        ec_Network cfg = if decide (public = Some "true") then "public" else "vpc"
  | Err _ => True
  | Panic _ => False
  end.
Proof.
  unfold NewEriClient. intros H. apply exec_bind in H as (trc & oc & Hc & H). apply getCredential_post in Hc.
  destruct oc as [cred|e|f]; [|by destruct H as [_ ->]|done]. destruct H as (tr1 & -> & H).
  apply exec_bind in H as (tr2 & o2 & H2 & H). destruct H2 as (public & tr3 & -> & [-> ->]).
  destruct H as (tr4 & -> & H). cbv beta zeta in H. unfold id in H.
  apply exec_bind in H as (tr5 & o5 & H5 & H). destruct H5 as ([endpoint|err] & tr6 & -> & [-> ->]); [|by destruct H as [_ ->]].
  destruct H as (tr7 & -> & H). apply exec_bind in H as (tr8 & o8 & H8 & H).
  destruct H8 as ([[]|err] & tr9 & -> & [-> ->]); [|by destruct H as [_ ->]].
  destruct H as (tr10 & -> & [-> ->]). split; [done|].
  match goal with |- context [NewEcsClient ?cfg] => exists cred, trc, public, cfg end. split; [done|]. cbn [ec_Credential ec_RegionId ec_Network]. split_and!; [done..|].
  destruct public as [p|]; [|done]. cbn [default id]. repeat case_decide; naive_solver.
Qed.

#[local] Transparent getCredential.

(** ** The process *)

Section Starts.
Context `{Backoff : BackoffLib}.

(** What the webhook needs before the manager is made: the certificates are in
    the directory its server reads. *)
Definition webhook_ready (c : Config) (webhookServer : option string) (tr : trace Host) : Prop :=
  if webhookEnabled c then
    webhookServer = Some (cfg_CertDir c) ∧
    ∃ s before after, let certs := certsOf s in
      tr = before ++ written (cfg_CertDir c) certs ++ after ∧
      serverCertBytes certs ≠ ε ∧ serverKeyBytes certs ≠ ε ∧ caCertBytes certs ≠ ε
  else webhookServer = None ∧ tr = [].

Lemma orExit_exec {A} msg (p : prog Host A) tr o :
  exec (orExit msg p) tr o →
  match o with Ret a => exec p tr (Ret a) | Err _ => False | Panic _ => True end.
Proof.
  intros H. apply exec_bind in H as (tr1 & o1 & H1 & H). apply exec_try in H1 as (o2 & H1 & ->).
  destruct o2 as [a|e|g]; [|by destruct H as (tr2 & -> & [_ ->])|by destruct H as [_ ->]].
  destruct H as (tr2 & -> & [-> ->]). by rewrite app_nil_r.
Qed.

Lemma prepareWebhook_exec c tr o :
  exec (prepareWebhook c) tr o →
  match o with Ret w => webhook_ready c w tr | Err _ => False | Panic _ => True end.
Proof.
  unfold prepareWebhook, webhook_ready. destruct (webhookEnabled c); [|by intros [-> ->]].
  intros H. apply exec_bind in H as (tr1 & o1 & H1 & H). apply exec_try in H1 as (o2 & H1 & ->).
  destruct o2 as [[]|e|g]; [|by destruct H as (tr2 & -> & [_ ->])|by destruct H as [_ ->]].
  destruct H as (tr2 & -> & [-> ->]). rewrite app_nil_r. split; [done|].
  apply SyncCert_ret in H1 as (s & trs & hooks & tru & -> & _ & ? & ? & ? & _). by exists s, trs, tru.
Qed.

(** A step of [main], after which it goes on with [f] *)
Lemma exec_then {A B} (Q : trace Host → A → Prop) (p : prog Host A) (f : A → prog Host B) tr o :
  (∀ tr' o', exec p tr' o' → match o' with Ret a => Q tr' a | Err _ => False | Panic _ => True end) →
  exec (p ≫= f) tr o →
  (∃ x, o = Panic x) ∨ ∃ tr1 a tr2, tr = tr1 ++ tr2 ∧ Q tr1 a ∧ exec (f a) tr2 o.
Proof.
  intros Hp H. apply exec_bind in H as (tr1 & o1 & H1 & H). apply Hp in H1.
  destruct o1 as [a|e|x]; [|done|left; by exists x; destruct H].
  destruct H as (tr2 & -> & H). right. eauto 6.
Qed.

Definition managed (webhookServer : option string) : trace Host :=
  [Event (S:=Host) (SetupController "ERdmaDevice") (inl tt); Event (S:=Host) (SetupController "Node") (inl tt);
   Event (S:=Host) (AddCheck "healthz") (inl tt); Event (S:=Host) (AddCheck "readyz") (inl tt)] ++
  (match webhookServer with Some _ => [Event (S:=Host) (RegisterWebhook "/mutating") tt] | None => [] end) ++
  [Event (S:=Host) ManagerStart (inl tt)].

Lemma runManager_exec w tr o :
  exec (runManager w) tr o →
  match o with Ret _ => tr = managed w | Err _ => False | Panic _ => True end.
Proof.
  unfold runManager, orExit, hcall, managed. intros H.
  do 4 (destruct H as ([[]|?] & ? & -> & H); [|by destruct H as [_ ->]]).
  destruct w as [dir|]; [destruct H as ([] & ? & -> & H)|];
    (destruct H as ([[]|?] & ? & -> & H); [|by destruct H as [_ ->]]); by destruct H as [-> ->].
Qed.

(** A call of [main] that must succeed *)
Lemma exit_call {B} msg (ev : result unit → event Host) (p : prog Host (result unit)) (f : unit → prog Host B) tr o :
  (∀ tr' o', exec p tr' o' → ∃ r, tr' = [ev r] ∧ o' = Ret r) →
  exec (orExit msg (hcall p) ≫= f) tr o →
  (∃ x, o = Panic x) ∨ ∃ tr2, tr = ev (inl tt) :: tr2 ∧ exec (f tt) tr2 o.
Proof.
  intros Hp H. apply (exec_then (λ tr' _, tr' = [ev (inl tt)])) in H
    as [?|(tr1 & [] & tr2 & -> & -> & H)]; [by left|right; eauto|].
  intros tr' o' Hx%orExit_exec. destruct o' as [[]|e|x]; [|done..].
  apply exec_bind in Hx as (tr1 & o1 & H1 & Hx). apply Hp in H1 as (r & -> & ->).
  destruct Hx as (tr2 & -> & Hx). destruct r as [[]|err]; [|by destruct Hx]. by destruct Hx as [-> _].
Qed.

#[local] Opaque InitConfig SyncCert NewEriClient runManager prepareWebhook.

(** C15: The process runs its manager to the end only in one way: the
    configuration was read; when the webhook is enabled its certificates were
    written to the directory the manager's webhook server reads before the
    manager was made; the client of the cloud was built from that configuration;
    both controllers and the checks were set up, the webhook was registered
    exactly when it is enabled, and only then the manager was started.  Any
    failure ends the process. *)
Theorem controllerMain_starts f tr o :
  exec (controllerMain f) tr o →
  match o with
  | Ret (c, eriClient) => ∃ cache credential webhookServer tri trw tre,
      exec (InitConfig (cf_configPath f) (cf_credentialPath f) None) tri (Ret (cache, c, credential)) ∧
      webhook_ready c webhookServer trw ∧
      exec (NewEriClient c credential) tre (Ret eriClient) ∧
      tr = tri ++ [Event (S:=Host) GetRestConfig (inl tt); Event (S:=Host) NewK8sClient (inl tt)] ++ trw ++
           [Event (S:=Host) GetRestConfig (inl tt);
            Event (S:=Host) (NewManager (managerOptions f webhookServer)) (inl tt)] ++ tre ++ managed webhookServer
  | Err _ => False
  | Panic _ => True
  end.
Proof.
  unfold controllerMain. intros H.
  apply (exec_then (λ tr a, exec (InitConfig (cf_configPath f) (cf_credentialPath f) None) tr (Ret a))) in H
    as [[x ->]|(tri & [[cache c] credential] & tr1 & -> & Hi & H)]; [done| |by intros ??; apply orExit_exec].
  apply (exit_call _ (Event (S:=Host) GetRestConfig)) in H as [[x ->]|(tr2 & -> & H)];
    [done| |by intros ?? (r & ? & -> & [-> ->]); eauto].
  apply (exit_call _ (Event (S:=Host) NewK8sClient)) in H as [[x ->]|(tr3 & -> & H)];
    [done| |by intros ?? (r & ? & -> & [-> ->]); eauto].
  apply (exec_then (λ tr w, webhook_ready c w tr)) in H
    as [[x ->]|(trw & webhookServer & tr4 & -> & Hw & H)]; [done| |by intros ??; apply prepareWebhook_exec].
  apply (exit_call _ (Event (S:=Host) GetRestConfig)) in H as [[x ->]|(tr5 & -> & H)];
    [done| |by intros ?? (r & ? & -> & [-> ->]); eauto].
  apply (exit_call _ (Event (S:=Host) (NewManager (managerOptions f webhookServer)))) in H as [[x ->]|(tr6 & -> & H)];
    [done| |by intros ?? (r & ? & -> & [-> ->]); eauto].
  apply (exec_then (λ tr e, exec (NewEriClient c credential) tr (Ret e))) in H
    as [[x ->]|(tre & eriClient & tr7 & -> & He & H)]; [done| |by intros ??; apply orExit_exec].
  apply (exec_then (λ tr _, tr = managed webhookServer)) in H
    as [[x ->]|(trm & [] & tr8 & -> & -> & H)]; [done| |by intros ??; apply runManager_exec].
  destruct H as [-> ->]. exists cache, credential, webhookServer, tri, trw, tre.
  split_and!; [done..|]. by rewrite app_nil_r.
Qed.

#[local] Transparent InitConfig SyncCert NewEriClient runManager prepareWebhook.

End Starts.

(** ** A controller on a concrete cluster *)

(** The chart's configuration, no credentials file, no secret yet *)
Definition u_env : Env Host := λ h c,
  match c as c return host_reply c with
  | ReadFile path => chart_env h (ReadFile path)
  | HttpDo method url header => chart_env h (HttpDo method url header)
  | c => k_env None h c
  end.

#[local] Existing Instance plainBackoff.

Definition u_keys : Credentials := mkCredentials ε "LTAI5t" "secret" ε ε.

Definition u_config : Config :=
  mkConfig "cn-beijing" true ε ε ε ε None None ε None ∅ 0.

Lemma NewEriClient_configured_witness :
  (run plain_env [] (NewEriClient u_config u_keys)).1 = Ret (mkEriClient "cn-beijing" true) ∧
  ∃ cred trc, credential_fits u_config u_keys cred trc.
Proof.
  assert ((run plain_env [] (NewEriClient u_config u_keys)).1 = Ret (mkEriClient "cn-beijing" true)) as E
    by (vm_compute; reflexivity).
  split; [exact E|].
  destruct (NewEriClient_configured _ _ _ _ (run_returns plain_env _ _ E))
    as (_ & cred & trc & public & cfg & _ & Hf & _).
  exists cred, trc. exact Hf.
Defined.

Lemma controllerMain_starts_witness :
  ∃ c, (run u_env [] (controllerMain defaultControllerFlags)).1 = Ret (c, mkEriClient "cn-beijing" false) ∧
    last (run u_env [] (controllerMain defaultControllerFlags)).2 = Some (Event (S:=Host) ManagerStart (inl tt)) ∧
    ∃ w trw, webhook_ready c w trw.
Proof.
  assert (∃ c, (run u_env [] (controllerMain defaultControllerFlags)).1 = Ret (c, mkEriClient "cn-beijing" false))
    as (c & E) by (eexists; vm_compute; reflexivity).
  exists c. split; [exact E|]. split; [vm_compute; reflexivity|].
  destruct (controllerMain_starts _ _ _ (run_returns u_env _ _ E))
    as (cache & credential & w & tri & trw & tre & _ & Hw & _).
  exists w, trw. exact Hw.
Defined.
