(* ===== verification/Expose.v ===== *)
(** * Expose: which local devices a node exposes

    [checkExpose] of internal/drivers/utils_linux.go, with the regular
    expressions its validation needs. *)

From S2P Require Import Prelude Effects GoStr Types.

(** ** Regular expressions *)

Inductive re :=
  | Empty
  | Eps
  | Cls (p : ascii → bool)
  | Cat (r1 r2 : re)
  | Alt (r1 r2 : re)
  | Star (r : re).

Fixpoint nullable (r : re) : bool :=
  match r with
  | Empty | Cls _ => false
  | Eps | Star _ => true
  | Cat r1 r2 => nullable r1 && nullable r2
  | Alt r1 r2 => nullable r1 || nullable r2
  end.

Fixpoint deriv (c : ascii) (r : re) : re :=
  match r with
  | Empty | Eps => Empty
  | Cls p => if p c then Eps else Empty
  | Cat r1 r2 =>
      if nullable r1 then Alt (Cat (deriv c r1) r2) (deriv c r2) else Cat (deriv c r1) r2
  | Alt r1 r2 => Alt (deriv c r1) (deriv c r2)
  | Star r => Cat (deriv c r) (Star r)
  end.

(** The whole string matches. *)
Fixpoint re_match (r : re) (s : list ascii) : bool :=
  match s with
  | [] => nullable r
  | c :: s => re_match (deriv c r) s
  end.

Definition Plus (r : re) : re := Cat r (Star r).
Definition Chr (c : ascii) : re := Cls (λ x, bool_decide (x = c)).

(** ** Definitions *)

(** The Perl classes [\w] and [\s] of package regexp *)
Definition is_word (c : ascii) : bool :=
  let n := nat_of_ascii c in
  ((48 <=? n)%nat && (n <=? 57)%nat) || ((65 <=? n)%nat && (n <=? 90)%nat) ||
  ((97 <=? n)%nat && (n <=? 122)%nat) || (n =? 95)%nat.

Definition is_re_space (c : ascii) : bool :=
  let n := nat_of_ascii c in
  (n =? 9)%nat || (n =? 10)%nat || (n =? 12)%nat || (n =? 13)%nat || (n =? 32)%nat.

(** The pattern of [checkExpose]: an instance id (or any instance), white space, and
    device names separated by slashes. *)
Definition pattern : re :=
  Cat (Chr "i") (Cat (Chr "-") (Cat (Alt (Plus (Cls is_word)) (Chr "*"))
    (Cat (Plus (Cls is_re_space))
      (Cat (Plus (Cls is_word)) (Star (Cat (Chr "/") (Plus (Cls is_word)))))))).

Definition MatchString (s : string) : bool := re_match pattern (chars s).

(** The devices an entry lists. *)
Definition entryDevices (exposeInfo : string) : outcome (list string) :=
  rest ← index (SplitN2 " " exposeInfo) 1; Ret (Split "/" (TrimSpace rest)).

(** The loop of [checkExpose] over the entries that are left. *)
Fixpoint exposeLoop (instanceID rdmaDevice : string) (entries : list string)
    (isMatched : bool) (unMatchExposeERIs : list string) : outcome bool :=
  match entries with
  | [] =>
      if negb isMatched
      then Ret (existsb (λ dev, bool_decide (dev = "erdma_*") || bool_decide (dev = rdmaDevice))
                  unMatchExposeERIs)
      else Ret false
  | exposeInfo :: entries =>
      if negb (MatchString exposeInfo) then errorf "invalid format %s" [exposeInfo]
      else
        id ← index (SplitN2 " " exposeInfo) 0;
        found ← (if decide (instanceID = id) then
                   exposeERIs ← entryDevices exposeInfo;
                   Ret (true, existsb (λ dev, bool_decide (dev = rdmaDevice)) exposeERIs)
                 else Ret (isMatched, false));
        let '(isMatched, found) := found in
        if (found : bool) then Ret true
        else
          unMatchExposeERIs ← (if decide (id = "i-*") then entryDevices exposeInfo
                               else Ret unMatchExposeERIs);
          exposeLoop instanceID rdmaDevice entries isMatched unMatchExposeERIs
  end.

Definition checkExpose (instanceID : string) (exposedLocalERIs : list string)
    (rdmaDevice : string) : outcome bool :=
  if decide (exposedLocalERIs = [ε]) then Ret true
  else exposeLoop instanceID rdmaDevice exposedLocalERIs false [].

(** ** The meaning of a regular expression *)

Inductive matches : re → list ascii → Prop :=
  | m_eps : matches Eps []
  | m_cls p c : p c = true → matches (Cls p) [c]
  | m_cat r1 r2 s1 s2 : matches r1 s1 → matches r2 s2 → matches (Cat r1 r2) (s1 ++ s2)
  | m_alt_l r1 r2 s : matches r1 s → matches (Alt r1 r2) s
  | m_alt_r r1 r2 s : matches r2 s → matches (Alt r1 r2) s
  | m_star_nil r : matches (Star r) []
  | m_star_app r s1 s2 : matches r s1 → matches (Star r) s2 → matches (Star r) (s1 ++ s2).

#[export] Hint Constructors matches : go.

Lemma nullable_matches r : nullable r = true ↔ matches r [].
Proof.
  induction r; simpl; split; intros H; try discriminate; try (by inversion H); auto with go.
  - apply andb_true_iff in H as [H1 H2]. apply (m_cat _ _ [] []); tauto.
  - inversion H as [| |? ? s1 s2 H1 H2 E1 E2| | | |]; subst.
    apply app_nil in E2 as [-> ->]. apply andb_true_iff. tauto.
  - apply orb_true_iff in H as [H|H]; [apply m_alt_l|apply m_alt_r]; tauto.
  - apply orb_true_iff. inversion H; subst; tauto.
Qed.

Lemma star_cons r c s :
  matches (Star r) (c :: s) → ∃ s1 s2, s = s1 ++ s2 ∧ matches r (c :: s1) ∧ matches (Star r) s2.
Proof.
  intros H. remember (Star r) as r' eqn:Er. remember (c :: s) as l eqn:El. revert s El.
  induction H as [| | | | | |r0 s1 s2 H1 _ H2 IH2]; intros s0 El; try discriminate.
  injection Er as ->. destruct s1 as [|c1 s1]; simpl in El; [by apply IH2|].
  injection El as -> <-. by exists s1, s2.
Qed.

Lemma deriv_matches r c s : matches (deriv c r) s ↔ matches r (c :: s).
Proof.
  revert s; induction r as [| |p|r1 IH1 r2 IH2|r1 IH1 r2 IH2|r IH]; intros s; simpl.
  - split; intros H; inversion H.
  - split; intros H; inversion H.
  - split; intros H.
    + destruct (p c) eqn:Hp; inversion H; subst; auto with go.
    + inversion H as [|? ? Hp| | | | |]; subst. rewrite Hp. constructor.
  - assert (matches (Cat (deriv c r1) r2) s →  matches (Cat r1 r2) (c :: s)) as Hl.
    { intros H. inversion H as [| |? ? s1 s2 H1 H2| | | |]; subst.
      apply (m_cat _ _ (c :: s1) s2); [by apply IH1|done]. }
    assert (matches (Cat r1 r2) (c :: s) →
      matches (Cat (deriv c r1) r2) s ∨ (nullable r1 = true ∧ matches (deriv c r2) s)) as Hr.
    { intros H. inversion H as [| |? ? s1 s2 H1 H2 E1 E2| | | |]; subst.
      destruct s1 as [|c1 s1]; simpl in E2.
      - right. rewrite nullable_matches, IH2, <- E2. done.
      - left. injection E2 as -> <-. constructor; [by apply IH1|done]. }
    destruct (nullable r1) eqn:Hn.
    + split.
      * intros H. inversion H; subst; [by apply Hl|].
        apply (m_cat _ _ [] (c :: s)); [by apply nullable_matches|by apply IH2].
      * intros H. destruct (Hr H) as [?|[_ ?]]; auto with go.
    + split; [done|]. intros H. by destruct (Hr H) as [?|[? _]].
  - split; intros H; inversion H; subst; (by apply m_alt_l, IH1) || (by apply m_alt_r, IH2).
  - split; intros H.
    + inversion H as [| |? ? s1 s2 H1 H2| | | |]; subst.
      apply (m_star_app _ (c :: s1) s2); [by apply IH|done].
    + apply star_cons in H as (s1 & s2 & -> & H1 & H2). constructor; [by apply IH|done].
Qed.

Lemma re_match_matches r s : re_match r s = true ↔ matches r s.
Proof.
  revert r; induction s as [|c s IH]; intros r; simpl; [apply nullable_matches|].
  by rewrite IH, deriv_matches.
Qed.

Lemma matches_plus p s :
  matches (Plus (Cls p)) s ↔ s ≠ [] ∧ Forall (λ c, p c = true) s.
Proof.
  unfold Plus. split.
  - intros H. inversion H as [| |? ? s1 s2 H1 H2| | | |]; subst. inversion H1 as [|? c Hc| | | | |]; subst.
    split; [done|]. constructor; [done|]. clear H H1 Hc. remember (Star (Cls p)) as r eqn:Er.
    induction H2 as [| | | | | |r0 s1 s2' Hr1 _ Hr2 IH]; try discriminate; [constructor|].
    injection Er as ->. inversion Hr1 as [|? c' Hc'| | | | |]; subst. simpl. constructor; auto.
  - intros [Hne Hs]. destruct s as [|c s]; [done|]. apply Forall_cons in Hs as [Hc Hs].
    apply (m_cat _ _ [c] s); [by constructor|]. clear Hne Hc c.
    induction Hs as [|c s Hc _ IH]; [constructor|]. apply (m_star_app _ [c] s); [by constructor|done].
Qed.

(** ** What the entries mean *)

(** An entry of the option: an instance, or any instance, and its devices. *)
Record Entry := mkEntry { en_id : string; en_devs : list string }.

Definition word (s : string) : Prop := s ≠ ε ∧ Forall (λ c, is_word c = true) (chars s).

(** The form the pattern accepts: the device names are words, so that the
    documented [erdma_*] is none. *)
Definition wf_entry (e : Entry) : Prop :=
  (en_id e = "i-*" ∨ ∃ w, en_id e = "i-" +:+ w ∧ word w) ∧
  en_devs e ≠ [] ∧ Forall word (en_devs e).

(** How an entry is written. *)
Definition entry_string (e : Entry) : string := en_id e +:+ " " +:+ Join (en_devs e) "/".

Definition lists (rdmaDevice : string) (e : Entry) : bool :=
  existsb (λ dev, bool_decide (dev = rdmaDevice)) (en_devs e).

Definition for_instance (instanceID : string) (e : Entry) : bool := bool_decide (en_id e = instanceID).

(** The instance's own entries decide; without any, the last entry for any
    instance does. *)
Definition exposes (entries : list Entry) (instanceID rdmaDevice : string) : bool :=
  if existsb (for_instance instanceID) entries
  then existsb (λ e, for_instance instanceID e && lists rdmaDevice e) entries
  else match last (List.filter (for_instance "i-*") entries) with
       | Some e => lists rdmaDevice e
       | None => false
       end.

Lemma word_char_not c : is_word c = false → ∀ s, word s → c ∉ chars s.
Proof. intros Hc s [_ Hs] Hin. rewrite Forall_forall in Hs. rewrite (Hs c Hin) in Hc. done. Qed.

Lemma Join_chars devs : Forall word devs → Forall (λ c, is_word c = true ∨ c = "/"%char) (chars (Join devs "/")).
Proof.
  induction 1 as [|d devs [_ Hd] _ IH]; [constructor|].
  assert (Forall (λ c, is_word c = true ∨ c = "/"%char) (chars d)) as Hd'.
  { eapply Forall_impl; [exact Hd|]. auto. }
  destruct devs as [|d' devs]; [done|].
  change (Join (d :: d' :: devs) "/") with (d +:+ "/" +:+ Join (d' :: devs) "/").
  rewrite !chars_app. apply Forall_app. split; [done|]. simpl. constructor; [by right|done].
Qed.

Lemma entry_split e : wf_entry e → SplitN2 " " (entry_string e) = [en_id e; Join (en_devs e) "/"].
Proof.
  intros [Hid _]. apply SplitN2_app. destruct Hid as [->|(w & -> & Hw)].
  - by apply has_char_false.
  - rewrite chars_app, not_elem_of_app. split; [by apply has_char_false|].
    by apply word_char_not.
Qed.

Lemma entry_devices e : wf_entry e → entryDevices (entry_string e) = Ret (en_devs e).
Proof.
  intros He. unfold entryDevices. rewrite entry_split by done. destruct He as (_ & Hne & Hd).
  simpl. unfold TrimSpace. rewrite TrimChars_none.
  - rewrite Split_Join; [done|done|]. eapply Forall_impl; [exact Hd|]. intros d. by apply word_char_not.
  - eapply Forall_impl; [by apply Join_chars|]. intros c [Hc| ->]; [|done].
    unfold is_word, is_space in *. destruct (nat_of_ascii c) as [|n] eqn:En; [done|]. 
    rewrite !orb_true_iff, !andb_true_iff, !Nat.leb_le, Nat.eqb_eq in Hc.
    apply orb_false_iff. rewrite andb_false_iff, !Nat.leb_gt, Nat.eqb_neq. lia.
Qed.

Lemma matches_join devs : devs ≠ [] → Forall word devs →
  matches (Cat (Plus (Cls is_word)) (Star (Cat (Chr "/") (Plus (Cls is_word))))) (chars (Join devs "/")).
Proof.
  intros Hne Hd. destruct devs as [|d devs]; [done|]. clear Hne.
  apply Forall_cons in Hd as [Hd Hds].
  assert (∀ w, word w → matches (Plus (Cls is_word)) (chars w)) as Hw.
  { intros w [Hn Hc]. apply matches_plus. split; [by destruct w|done]. }
  assert (matches (Star (Cat (Chr "/") (Plus (Cls is_word))))
    (devs ≫= λ d, "/"%char :: chars d)) as Hstar.
  { clear Hd. induction Hds as [|d' devs Hd' _ IH]; [constructor|]. rewrite bind_cons.
    apply m_star_app; [|done]. apply (m_cat _ _ ["/"%char]); [by constructor|by apply Hw]. }
  assert (chars (Join (d :: devs) "/") = chars d ++ (devs ≫= λ d, "/"%char :: chars d)) as ->.
  { clear. revert d. induction devs as [|d' devs IH]; intros d; [simpl; by rewrite app_nil_r|].
    change (Join (d :: d' :: devs) "/") with (d +:+ "/" +:+ Join (d' :: devs) "/").
    rewrite !chars_app, IH, bind_cons. done. }
  apply m_cat; [by apply Hw|done].
Qed.

Lemma entry_matches e : wf_entry e → MatchString (entry_string e) = true.
Proof.
  intros (Hid & Hne & Hd). apply re_match_matches. unfold entry_string.
  assert (∃ rest, chars (en_id e) = "i"%char :: "-"%char :: rest ∧
    matches (Alt (Plus (Cls is_word)) (Chr "*")) rest) as (rest & E & Hr).
  { destruct Hid as [->|(w & -> & [Hn Hw])].
    - exists ["*"%char]. split; [done|]. apply m_alt_r. by constructor.
    - exists (chars w). rewrite chars_app. split; [done|]. apply m_alt_l, matches_plus.
      split; [by destruct w|done]. }
  rewrite !chars_app, E. unfold pattern.
  apply (m_cat _ _ ["i"%char]); [by constructor|]. apply (m_cat _ _ ["-"%char]); [by constructor|].
  apply m_cat; [done|]. apply (m_cat _ _ [" "%char]); [|by apply matches_join].
  apply matches_plus. split; [done|by repeat constructor].
Qed.

Lemma exposeLoop_spec instanceID rdmaDevice entries isMatched unMatch :
  Forall wf_entry entries →
  exposeLoop instanceID rdmaDevice (entry_string <$> entries) isMatched unMatch =
    Ret (if isMatched || existsb (for_instance instanceID) entries
         then existsb (λ e, for_instance instanceID e && lists rdmaDevice e) entries
         else existsb (λ dev, bool_decide (dev = "erdma_*") || bool_decide (dev = rdmaDevice))
                (match last (List.filter (for_instance "i-*") entries) with
                 | Some e => en_devs e
                 | None => unMatch
                 end)).
Proof.
  intros Hwf. revert isMatched unMatch.
  induction Hwf as [|e entries He _ IH]; intros isMatched unMatch.
  - simpl. by destruct isMatched.
  - rewrite fmap_cons. simpl. rewrite (entry_matches e He), (entry_split e He), (entry_devices e He).
    unfold for_instance at 1 3. simpl.
    assert (∀ m un, (unMatchExposeERIs ← (if decide (en_id e = "i-*") then Ret (en_devs e) else Ret un);
       exposeLoop instanceID rdmaDevice (entry_string <$> entries) m unMatchExposeERIs) =
      Ret (if m || existsb (for_instance instanceID) entries
           then existsb (λ e, for_instance instanceID e && lists rdmaDevice e) entries
           else existsb (λ dev, bool_decide (dev = "erdma_*") || bool_decide (dev = rdmaDevice))
             (match last (List.filter (for_instance "i-*") (e :: entries)) with
              | Some e => en_devs e
              | None => un
              end))) as Hrest.
    { intros m un. simpl. unfold for_instance at 3. destruct (decide (en_id e = "i-*")) as [Hw|Hw].
      - rewrite bool_decide_true by done. change (mbind ?f (Ret ?a)) with (f a). cbv beta.
        rewrite IH. rewrite last_cons. by destruct (last _).
      - rewrite bool_decide_false by done. change (mbind ?f (Ret ?a)) with (f a). cbv beta. by rewrite IH. }
    destruct (decide (instanceID = en_id e)) as [->|Hne].
    + rewrite bool_decide_true by done. rewrite orb_true_r. simpl. fold (lists rdmaDevice e).
      destruct (lists rdmaDevice e); [done|]. etrans; [apply Hrest|]. done.
    + rewrite bool_decide_false by done. simpl. etrans; [apply Hrest|]. done.
Qed.

Lemma checkExpose_wf instanceID rdmaDevice entries :
  Forall wf_entry entries →
  checkExpose instanceID (entry_string <$> entries) rdmaDevice =
    Ret (exposes entries instanceID rdmaDevice).
Proof.
  intros Hwf. unfold checkExpose. rewrite decide_False.
  2: { destruct entries as [|e [|e' entries]]; try discriminate. simpl. intros [= E].
       apply (f_equal chars) in E. unfold entry_string in E. rewrite !chars_app in E.
       apply app_nil in E as [_ E]. discriminate. }
  rewrite exposeLoop_spec by done. f_equal. unfold exposes. simpl.
  destruct (existsb (for_instance instanceID) entries); [done|].
  destruct (last (List.filter _ entries)) as [e|] eqn:Hl; [|done].
  assert (e ∈ entries) as Hin.
  { apply last_Some_elem_of in Hl. by apply elem_of_filter_bool in Hl as [? _]. }
  rewrite Forall_forall in Hwf. destruct (Hwf e Hin) as (_ & _ & Hd). unfold lists.
  induction Hd as [|d devs Hd _ IHd]; simpl; [done|]. rewrite IHd.
  rewrite (bool_decide_false (d = "erdma_*")); [done|].
  intros ->. apply (word_char_not "*" eq_refl "erdma_*" Hd). by apply has_char_true.
Qed.

(** An entry the pattern does not accept ends the loop, unless the device was
    found before it. *)
Lemma exposeLoop_invalid instanceID rdmaDevice entries bad rest isMatched unMatch :
  Forall wf_entry entries → MatchString bad = false →
  exposeLoop instanceID rdmaDevice ((entry_string <$> entries) ++ bad :: rest) isMatched unMatch =
    if existsb (λ e, for_instance instanceID e && lists rdmaDevice e) entries
    then Ret true else errorf "invalid format %s" [bad].
Proof.
  intros Hwf Hbad. revert isMatched unMatch.
  induction Hwf as [|e entries He _ IH]; intros isMatched unMatch; [simpl; by rewrite Hbad|].
  rewrite fmap_cons. simpl. rewrite (entry_matches e He), (entry_split e He), (entry_devices e He).
  unfold for_instance at 1. simpl.
  destruct (decide (instanceID = en_id e)) as [->|Hne].
  - rewrite bool_decide_true by done. simpl. fold (lists rdmaDevice e).
    destruct (lists rdmaDevice e); [done|]. by case_decide; apply IH.
  - rewrite bool_decide_false by done. simpl. by case_decide; apply IH.
Qed.

(** C34: Entries in the form the code accepts (an instance or [i-*], one space,
    device names joined by slashes) are read by this rule: a device is exposed on
    an instance if and only if one of the instance's own entries lists it or,
    when it has none, the last of the entries for any instance does.  The entry
    [i-* erdma_*], which the documentation gives for all devices, is not of this
    form: a list with it is refused, unless an entry of the instance before it
    lists the device.  The option left empty exposes every device. *)
Theorem checkExpose_exposes instanceID rdmaDevice entries :
  Forall wf_entry entries →
  checkExpose instanceID (entry_string <$> entries) rdmaDevice =
    Ret (exposes entries instanceID rdmaDevice) ∧
  (∀ rest, checkExpose instanceID ((entry_string <$> entries) ++ "i-* erdma_*" :: rest) rdmaDevice =
    if existsb (λ e, for_instance instanceID e && lists rdmaDevice e) entries then Ret true
    else Err (Errorf "invalid format %s" ["i-* erdma_*"] None)) ∧
  checkExpose instanceID [ε] rdmaDevice = Ret true.
Proof.
  intros Hwf. split_and!; [by apply checkExpose_wf| |done]. intros rest.
  unfold checkExpose. rewrite decide_False by (by destruct entries as [|e [|e' entries]]).
  by apply exposeLoop_invalid.
Qed.

Lemma checkExpose_exposes_witness :
  checkExpose "i-1" ["i-* erdma_0"; "i-1 erdma_0/erdma_1"] "erdma_1" = Ret true ∧
  checkExpose "i-2" ["i-* erdma_0"; "i-1 erdma_0/erdma_1"] "erdma_1" = Ret false ∧
  checkExpose "i-2" ["i-* erdma_0"; "i-1 erdma_0/erdma_1"; "i-* erdma_*"] "erdma_1" =
    Err (Errorf "invalid format %s" ["i-* erdma_*"] None).
Proof.
  set (entries := [mkEntry "i-*" ["erdma_0"]; mkEntry "i-1" ["erdma_0"; "erdma_1"]]).
  assert (Forall wf_entry entries) as Hwf.
  { assert (word "erdma_0" ∧ word "erdma_1" ∧ word "1") as (W0 & W1 & W)
      by (split_and!; (split; [discriminate|repeat (constructor; [reflexivity|]); constructor])).
    constructor; [|constructor; [|constructor]].
    - split; [left; reflexivity|]. split; [discriminate|]. repeat constructor; apply W0.
    - split; [right; exists "1"; split; [reflexivity|exact W]|]. split; [discriminate|].
      constructor; [exact W0|constructor; [exact W1|constructor]]. }
  destruct (checkExpose_exposes "i-1" "erdma_1" entries Hwf) as (H1 & _).
  destruct (checkExpose_exposes "i-2" "erdma_1" entries Hwf) as (H2 & H3 & _).
  split; [exact H1|]. split; [exact H2|exact (H3 [])].
Defined.
