(* ===== verification/RdmaUtils.v ===== *)
(** * RdmaUtils: RDMA devices on the node

    The rest of internal/drivers/utils_linux.go: finding the RDMA device of a
    network device, its files and NUMA node, the SMC-R network ids, and the
    local discovery of ERIs. *)

From S2P Require Import Prelude Effects GoStr Types Host Metadata Expose DevicePlugin.

(** ** Hardware addresses *)

Definition hex_digit (n : Z) : ascii :=
  ascii_of_nat (Z.to_nat (if n <? 10 then 48 + n else 87 + n)).

Definition hex2 (b : Z) : string := String (hex_digit (b / 16)) (String (hex_digit (b mod 16)) ε).

(** [net.HardwareAddr.String] *)
Definition HardwareAddr_String (a : list Z) : string := Join (hex2 <$> a) ":".

Definition parseERdmaLinkHwAddr (guid : string) : outcome (list Z) :=
  let guidSlice := Split ":" guid in
  if negb (length guidSlice =? 8)%nat then errorf "invalid rdma guid: %s" [guid]
  else
    bytes ← mapM (λ s, match ParseUint16_8 s with
                       | Some v => Ret v
                       | None => errorf "invalid rdma guid: %s, err: %v" [guid; "parsing " +:+ s]
                       end) guidSlice;
    let hwAddrSlice := reverse bytes in
    Ret (take 3 hwAddrSlice ++ drop 5 hwAddrSlice).

(** The loop over the RDMA links, which returns at the first match. *)
Definition findRdmaLink (rdmaLinks : list RdmaLink) (hwAddr : list Z) (found : option RdmaLink) :
    prog Host (option RdmaLink) :=
  for_each rdmaLinks found (λ rl found,
    match found with
    | Some rl => mret (Some rl)
    | None =>
        rdmaHwAddr ← moutcome (parseERdmaLinkHwAddr (rl_NodeGuid rl));
        mret (if decide (HardwareAddr_String rdmaHwAddr = HardwareAddr_String hwAddr)
              then Some rl else None)
    end).

Definition GetERdmaFromLink (link : Link) : prog Host RdmaLink :=
  r ← host RdmaLinkList;
  match r with
  | inr err => errorf "error list rdma links, %v" [error_string err]
  | inl rdmaLinks =>
      let linkHwAddr := default [] (lk_HardwareAddr link) in
      (* erdma guid first byte is ^= 0x2 *)
      first ← index linkHwAddr 0;
      let new_linkHwAddr := Z.lxor first 2 :: tail linkHwAddr in
      found ← findRdmaLink rdmaLinks new_linkHwAddr None;
      match found with
      | Some rl => mret rl
      | None => errorf "cannot found rdma link for %s" [lk_Name link]
      end
  end.

(** ** Files of a device *)

Definition verbsDir : string := "/sys/class/infiniband_verbs/".

Definition GetERdmaDevPathsFromRdmaLink (rdmaLink : RdmaLink) : prog Host (list string) :=
  r ← host (ReadDir verbsDir);
  match r with
  | inr err => errorf "read dir /sys/class/infiniband_verbs/ failed: %v" [error_string err]
  | inl ibUverbsDevs =>
      devPaths ← for_each ibUverbsDevs [] (λ ibUverbsDev devPaths,
        let ibDevPath := verbsDir +:+ ibUverbsDev +:+ "/ibdev" in
        st ← host (Stat ibDevPath);
        match st with
        | inr _ => mret devPaths
        | inl _ =>
            devName ← host (ReadFile ibDevPath);
            mret match devName with
            | inl devName =>
                if decide (Trim newline_char devName = rl_Name rdmaLink)
                then devPaths ++ ["/dev/infiniband/" +:+ ibUverbsDev] else devPaths
            | inr _ => devPaths
            end
        end);
      if decide (devPaths = []) then errorf "can not find dev path for %s" [rl_Name rdmaLink]
      else
        st ← host (Stat "/dev/infiniband/rdma_cm");
        mret match st with
        | inl _ => devPaths ++ ["/dev/infiniband/rdma_cm"]
        | inr _ => devPaths
        end
  end.

(** A failure returns the number -1 beside the error, which no caller reads. *)
Definition GetERDMANumaNode (info : RdmaLink) : prog Host Z :=
  r ← host (ReadFile ("/sys/class/infiniband/" +:+ rl_Name info +:+ "/device/numa_node"));
  match r with
  | inr err => errorf "failed to get numa node for %s: %v" [rl_Name info; error_string err]
  | inl numaStr =>
      match Atoi (Trim newline_char numaStr) with
      | None => errorf "failed to parse numa node for %s: %v" [rl_Name info; Trim newline_char numaStr]
      | Some numa => mret (if numa <? 0 then 0 else numa)
      end
  end.

(** ** SMC-R network ids *)

Definition smcPnet : string := "smc_pnet".

Definition ConfigSMCPnetForDevice (info : option ERdmaDeviceInfo) : prog Host unit :=
  r ← host (Exec [smcPnet; "-s"]);
  let '(output, err) := r in
  match err with
  | Some err =>
      errorf "failed to get smc-pnet stat: %v, output: %v" [error_string err; output]
  | None =>
      pnet ← moutcome (PNetIDFromDevice info);
      if Contains output pnet then mret tt
      else
        pnet ← moutcome (PNetIDFromDevice info);
        dev ← deref info;
        r ← host (Exec [smcPnet; "-a"; pnet; "-D"; info_Name dev]);
        let '(output, err) := r in
        match err with
        | Some err =>
            errorf "failed to config smc-pnet rdma device: %v, output: %v" [error_string err; output]
        | None => mret tt
        end
  end.

(** [ConfigForNetDevice] and [ConfigForNetnsNetDevice]: the second runs the same
    commands in a network namespace. *)
Definition configNetDevice (prefix : list string) (pnet netDevice : string) : prog Host unit :=
  r ← host (Exec (prefix ++ [smcPnet; "-s"]));
  let '(output, err) := r in
  match err with
  | Some err =>
      errorf "failed to get smc-pnet stat for net device: %v, output: %v" [error_string err; output]
  | None =>
      if Contains output netDevice then mret tt
      else
        r ← host (Exec (prefix ++ [smcPnet; "-a"; pnet; "-I"; netDevice]));
        let '(output, err) := r in
        match err with
        | Some err =>
            errorf "failed to config smc-pnet net device: %v, output: %v" [error_string err; output]
        | None => mret tt
        end
  end.

Definition ConfigForNetDevice (pnet netDevice : string) : prog Host unit :=
  configNetDevice [] pnet netDevice.

Definition ConfigForNetnsNetDevice (pnet netDevice netns : string) : prog Host unit :=
  configNetDevice ["nsenter"; "-n/proc/1/root/" +:+ netns; "--"] pnet netDevice.

(** ** Local discovery *)

Definition instanceIDAddr : string := "http://100.100.100.200/latest/meta-data/instance-id".

Section Discovery.
Context `{BackoffLib}.

Definition localERI (instanceID : string) (link : Link) (rdmadevice : string) : ERI := {|
  eri_ID := rdmadevice;
  eri_IsPrimaryENI := bool_decide (lk_Name link = "eth0");
  eri_MAC := HardwareAddr_String (default [] (lk_HardwareAddr link));
  eri_InstanceID := instanceID;
  eri_CardIndex := -1;
  eri_QueuePair := -1;
  eri_JumboFrame := false;
  eri_JumboFrameMTU := 0
|}.

(** One link of the loop of [SelectERIs]. *)
Definition selectLink (instanceID : string) (exposedLocalERIs : list string) (link : Link)
    (selectEriList : list ERI) : prog Host (list ERI) :=
  if negb (lk_IsDevice link) then mret selectEriList
  else if bool_decide (lk_HardwareAddr link = None) then mret selectEriList
  else
    rdmaLink ← try (GetERdmaFromLink link);
    match rdmaLink with
    | inr _ => mret selectEriList
    | inl rdmaLink =>
        isExposed ← moutcome (checkExpose instanceID exposedLocalERIs (rl_Name rdmaLink));
        mret (if (isExposed : bool)
              then selectEriList ++ [localERI instanceID link (rl_Name rdmaLink)]
              else selectEriList)
    end.

(** [SelectERIs]; the metadata cache is passed and returned. *)
Definition SelectLocalERIs (exposedLocalERIs : list string) (cache : option string) :
    prog Host (option string * list ERI) :=
  '(cache, id) ← GetStrFromMetadata instanceIDAddr cache;
  let instanceID := match id with inl id => id | inr _ => ε end in
  r ← host LinkList;
  match r with
  | inr err => errorf "list link failed: %v" [error_string err]
  | inl links =>
      eris ← for_each links [] (selectLink instanceID exposedLocalERIs);
      mret (cache, eris)
  end.

End Discovery.

(** ** Bytes and their digits *)

Definition byte (b : Z) : Prop := 0 ≤ b < 256.

(** A property of a byte, checked on all of them. *)
Lemma byte_forall (p : Z → bool) :
  forallb p (seqZ 0 256) = true → ∀ b, byte b → p b = true.
Proof.
  intros H b Hb. rewrite forallb_forall in H. apply H, list_elem_of_In, elem_of_seqZ. unfold byte in Hb. lia.
Qed.

Lemma ParseUint16_hex2 b : byte b → ParseUint16_8 (hex2 b) = Some b.
Proof.
  intros Hb. apply (bool_decide_eq_true (ParseUint16_8 (hex2 b) = Some b)).
  revert b Hb. apply byte_forall. vm_compute. reflexivity.
Qed.

Lemma hex2_inj_bytes b1 b2 : byte b1 → byte b2 → hex2 b1 = hex2 b2 → b1 = b2.
Proof. intros H1 H2 E. apply (f_equal ParseUint16_8) in E. rewrite !ParseUint16_hex2 in E by done. congruence. Qed.

Lemma hex2_no_colon b : byte b → ":"%char ∉ chars (hex2 b).
Proof.
  intros Hb. apply has_char_false. revert b Hb.
  assert (∀ b, byte b → negb (has_char ":" (hex2 b)) = true) as H
    by (apply byte_forall; vm_compute; reflexivity).
  intros b Hb. by apply negb_true_iff, H.
Qed.

Lemma hex2_join bytes :
  bytes ≠ [] → Forall byte bytes → Split ":" (Join (hex2 <$> bytes) ":") = hex2 <$> bytes.
Proof.
  intros Hne Hb. apply Split_Join; [by destruct bytes|]. apply Forall_fmap.
  eapply Forall_impl; [exact Hb|]. apply hex2_no_colon.
Qed.

Lemma hex2_fmap_inj a b : Forall byte a → Forall byte b → hex2 <$> a = hex2 <$> b → a = b.
Proof.
  intros Ha. revert b; induction Ha as [|x a Hx _ IH]; intros [|y b] Hb E; try discriminate; [done|].
  rewrite !fmap_cons in E. apply Forall_cons in Hb as [Hy Hb]. injection E as E1 E2 E.
  f_equal; [|by apply IH]. apply hex2_inj_bytes; [done..|]. unfold hex2. by f_equal; [|f_equal].
Qed.

(** Two addresses are printed alike only if they are equal. *)
Lemma HardwareAddr_String_inj a b :
  a ≠ [] → b ≠ [] → Forall byte a → Forall byte b →
  HardwareAddr_String a = HardwareAddr_String b → a = b.
Proof.
  intros Na Nb Ha Hb E. apply (f_equal (Split ":")) in E. unfold HardwareAddr_String in E.
  rewrite !hex2_join in E by done. by apply hex2_fmap_inj.
Qed.

(** ** The device of a link *)

(** A MAC address; the GUID an eRDMA device derives from it, with the two bytes
    [x] and [y] in the middle, printed from its last byte. *)
Definition mac_ok (mac : list Z) : Prop := length mac = 6%nat ∧ Forall byte mac.

Definition guid_of (mac : list Z) (x y : Z) : string :=
  HardwareAddr_String (reverse (take 3 mac ++ [x; y] ++ drop 3 mac)).

Lemma parse_guid mac x y :
  mac_ok mac → byte x → byte y → parseERdmaLinkHwAddr (guid_of mac x y) = Ret mac.
Proof.
  intros [Hl Hb] Hx Hy. unfold parseERdmaLinkHwAddr, guid_of, HardwareAddr_String.
  set (bytes := reverse (take 3 mac ++ [x; y] ++ drop 3 mac)).
  assert (length bytes = 8%nat) as Hlen.
  { unfold bytes. rewrite length_reverse, !length_app, length_take, length_drop, Hl. reflexivity. }
  assert (Forall byte bytes) as Hbytes.
  { apply Forall_reverse. rewrite !Forall_app. rewrite <- (take_drop 3 mac), Forall_app in Hb.
    destruct Hb. split_and!; [done| |done]. rewrite !Forall_cons. by split_and!. }
  rewrite hex2_join by (try done; by intros ->). rewrite length_fmap, Hlen. simpl.
  assert (mapM (λ s, match ParseUint16_8 s with
      | Some v => Ret v
      | None => errorf "invalid rdma guid: %s, err: %v"
          [Join (hex2 <$> bytes) ":"; "parsing " +:+ s]
      end) (hex2 <$> bytes) = Ret bytes) as ->.
  { generalize (Join (hex2 <$> bytes) ":"). clear -Hbytes. intros g.
    induction Hbytes as [|b bytes Hb _ IH]; [done|]. rewrite fmap_cons. cbn [mapM].
    rewrite ParseUint16_hex2 by done. simpl. by rewrite IH. }
  simpl. unfold bytes. rewrite reverse_involutive.
  destruct mac as [|m0 [|m1 [|m2 [|m3 [|m4 [|m5 [|]]]]]]]; try discriminate. reflexivity.
Qed.

(** An eRDMA device: its name, the MAC of its network device, and the middle
    bytes of its GUID. *)
Record ErdmaDev := mkErdmaDev { ed_name : string; ed_mac : list Z; ed_x : Z; ed_y : Z }.

Definition flip_mac (mac : list Z) : list Z :=
  match mac with [] => [] | b :: mac => Z.lxor b 2 :: mac end.

Definition rdma_of (d : ErdmaDev) : RdmaLink :=
  mkRdmaLink (ed_name d) (guid_of (flip_mac (ed_mac d)) (ed_x d) (ed_y d)) true.

Definition ed_ok (d : ErdmaDev) : Prop := mac_ok (ed_mac d) ∧ byte (ed_x d) ∧ byte (ed_y d).

Lemma flip_byte b : byte b → byte (Z.lxor b 2).
Proof.
  intros Hb. apply (bool_decide_eq_true (0 ≤ Z.lxor b 2 ∧ Z.lxor b 2 < 256)).
  revert b Hb. apply byte_forall. vm_compute. reflexivity.
Qed.

Lemma flip_mac_ok mac : mac_ok mac → mac_ok (flip_mac mac).
Proof.
  intros [Hl Hb]. destruct Hb as [|b mac Hb Hm]; [done|]. split; [done|].
  constructor; [by apply flip_byte|done].
Qed.

Lemma flip_mac_inj a b : flip_mac a = flip_mac b → a = b.
Proof.
  destruct a as [|x a], b as [|y b]; try done. intros [= E ->]. f_equal.
  apply (f_equal (λ z, Z.lxor z 2)) in E. by rewrite !Z.lxor_assoc, !Z.lxor_nilpotent, !Z.lxor_0_r in E.
Qed.

(** The comparison the loop makes for one RDMA device. *)
Lemma same_mac d mac :
  ed_ok d → mac_ok mac →
  HardwareAddr_String (flip_mac (ed_mac d)) = HardwareAddr_String (flip_mac mac) ↔ ed_mac d = mac.
Proof.
  intros (Hd%flip_mac_ok & _ & _) Hm%flip_mac_ok. split; [|by intros ->]. intros E.
  destruct Hd as [Ld Bd], Hm as [Lm Bm].
  assert (∀ l : list Z, length l = 6%nat → l ≠ []) as Hn by (by intros []).
  apply HardwareAddr_String_inj in E; [by apply flip_mac_inj|by apply Hn|by apply Hn|done|done].
Qed.

Lemma find_rdma_loop devs mac found :
  Forall ed_ok devs → mac_ok mac →
  findRdmaLink (rdma_of <$> devs) (flip_mac mac) found =
  (mret (match found with
         | Some rl => Some rl
         | None => rdma_of <$> find_first (λ d, bool_decide (ed_mac d = mac)) devs
         end) : prog Host (option RdmaLink)).
Proof.
  intros Hdevs Hm. revert found; induction Hdevs as [|d devs Hd _ IH]; intros found.
  - by destruct found.
  - rewrite fmap_cons. destruct found as [rl|]; [apply (IH (Some rl))|].
    pose proof (same_mac d mac Hd Hm) as Hs. destruct Hd as (Hd & Hx & Hy).
    assert (parseERdmaLinkHwAddr (rl_NodeGuid (rdma_of d)) = Ret (flip_mac (ed_mac d))) as Hp
      by (apply parse_guid; [by apply flip_mac_ok|done..]).
    unfold findRdmaLink in *. cbn [for_each]. rewrite Hp.
    change (mbind ?f (mbind ?g (moutcome (Ret ?a)))) with (mbind f (g a)). cbv beta.
    change (mbind ?f (mret ?a)) with (f a). cbv beta. simpl find_first.
    case_decide as Hc.
    + rewrite bool_decide_true by by apply Hs. apply (IH (Some (rdma_of d))).
    + rewrite bool_decide_false by (intros E; by apply Hc, Hs). apply (IH None).
Qed.

(** The RDMA device of a network device is the first one whose GUID was
    derived from the network device's MAC address; no other is ever taken, and
    a link none was derived from is an error. *)
Lemma GetERdmaFromLink_finds link mac devs o :
  lk_HardwareAddr link = Some mac → mac_ok mac → Forall ed_ok devs →
  exec (GetERdmaFromLink link) [Event (S:=Host) RdmaLinkList (inl (rdma_of <$> devs))] o →
  o = match find_first (λ d, bool_decide (ed_mac d = mac)) devs with
      | Some d => Ret (rdma_of d)
      | None => Err (Errorf "cannot found rdma link for %s" [lk_Name link] None)
      end.
Proof.
  intros Hm Hmac Hdevs H. unfold GetERdmaFromLink in H.
  exec_hcall H as (r & tr' & E & H). apply (inj2 cons) in E as [Er <-].
  apply Event_inj in Er as <-. cbv beta iota zeta in H. rewrite Hm in H.
  destruct mac as [|b0 mac']; [by destruct Hmac|].
  change (exec (found ← findRdmaLink (rdma_of <$> devs) (flip_mac (b0 :: mac')) None;
    match found with
    | Some rl => mret rl
    | None => errorf "cannot found rdma link for %s" [lk_Name link]
    end : prog Host RdmaLink) [] o) in H.
  rewrite (find_rdma_loop devs _ None Hdevs Hmac) in H.
  by destruct (find_first _ devs); destruct H as [_ ->].
Qed.

(** ** Network ids *)

Lemma pnet_chars mac :
  Forall byte mac →
  chars (RemoveAll ":" (ToUpper (HardwareAddr_String mac))) =
    mac ≫= λ b, [upper (hex_digit (b / 16)); upper (hex_digit (b mod 16))].
Proof.
  intros Hb. unfold RemoveAll, ToUpper, HardwareAddr_String. rewrite !chars_of_chars.
  induction Hb as [|b mac Hb _ IH]; [done|].
  assert (filter (λ x, x ≠ ":"%char) (upper <$> chars (hex2 b)) =
    [upper (hex_digit (b / 16)); upper (hex_digit (b mod 16))]) as Hh.
  { apply (bool_decide_eq_true (filter (λ x, x ≠ ":"%char) (upper <$> chars (hex2 b)) = _)).
    revert b Hb. apply (byte_forall (λ b, bool_decide (filter (λ x, x ≠ ":"%char) (upper <$> chars (hex2 b)) =
      [upper (hex_digit (b / 16)); upper (hex_digit (b mod 16))]))). vm_compute. reflexivity. }
  rewrite bind_cons. destruct mac as [|b' mac].
  - rewrite app_nil_r. exact Hh.
  - change (Join (hex2 <$> b :: b' :: mac) ":") with (hex2 b +:+ ":" +:+ Join (hex2 <$> b' :: mac) ":").
    rewrite !chars_app, !fmap_app, !filter_app, IH, Hh. done.
Qed.

(** The SMC-R network id of a device is twelve characters derived from its
    MAC address alone, and devices with different MAC addresses never share one. *)
Lemma PNetIDFromDevice_inj d1 d2 mac1 mac2 pnet1 pnet2 :
  mac_ok mac1 → mac_ok mac2 →
  info_MAC d1 = HardwareAddr_String mac1 → info_MAC d2 = HardwareAddr_String mac2 →
  PNetIDFromDevice (Some d1) = Ret pnet1 → PNetIDFromDevice (Some d2) = Ret pnet2 →
  String.length pnet1 = 12%nat ∧ (pnet1 = pnet2 ↔ mac1 = mac2).
Proof.
  intros [L1 B1] [L2 B2] E1 E2 [= <-] [= <-]. rewrite E1, E2. split.
  - assert (∀ s, String.length s = length (chars s)) as Hlen by (induction s; simpl; congruence).
    rewrite Hlen, pnet_chars by done. clear -L1.
    destruct mac1 as [|m0 [|m1 [|m2 [|m3 [|m4 [|m5 [|]]]]]]]; try discriminate. reflexivity.
  - split; [|by intros ->]. intros E. apply (f_equal chars) in E. rewrite !pnet_chars in E by done.
    clear -B1 B2 E. revert mac2 B2 E. induction B1 as [|x a Hx _ IH]; intros [|y b] B2 E; try discriminate; [done|].
    rewrite !bind_cons in E. apply Forall_cons in B2 as [Hy B2]. injection E as H1 H2 E.
    f_equal; [|by apply IH]. clear IH E.
    assert (∀ b, byte b → ParseUint16_8 (String (upper (hex_digit (b / 16)))
      (String (upper (hex_digit (b mod 16))) ε)) = Some b) as Hp.
    { intros z Hz. apply (bool_decide_eq_true (_ = Some z)). revert z Hz.
      apply (byte_forall (λ z, bool_decide (ParseUint16_8 (String (upper (hex_digit (z / 16)))
        (String (upper (hex_digit (z mod 16))) ε)) = Some z))). vm_compute. reflexivity. }
    pose proof (Hp x Hx) as Px. rewrite H1, H2, (Hp y Hy) in Px. congruence.
Qed.

(** ** Two devices *)

Definition r_mac0 : list Z := [0; 22; 62; 0; 0; 1].
Definition r_mac1 : list Z := [0; 22; 62; 0; 0; 2].

Lemma r_mac0_ok : mac_ok r_mac0.
Proof. split; [reflexivity|]. repeat (constructor; [split; vm_compute; congruence|]). constructor. Defined.

Lemma r_mac1_ok : mac_ok r_mac1.
Proof. split; [reflexivity|]. repeat (constructor; [split; vm_compute; congruence|]). constructor. Defined.

Definition r_devs : list ErdmaDev := [mkErdmaDev "erdma_0" r_mac0 255 254; mkErdmaDev "erdma_1" r_mac1 255 254].

Lemma r_devs_ok : Forall ed_ok r_devs.
Proof.
  assert (byte 255 ∧ byte 254) as [B1 B2] by (split; split; vm_compute; congruence).
  constructor; [|constructor; [|constructor]]; (split; [|split; [exact B1|exact B2]]);
    [exact r_mac0_ok|exact r_mac1_ok].
Defined.

Definition r_env : Env Host := λ h c,
  match c as c return host_reply c with
  | RdmaLinkList => inl (rdma_of <$> r_devs)
  | c => plain_reply c
  end.

Definition r_link : Link := mkLink "eth1" 3 1500 true (Some r_mac1) true.

Lemma GetERdmaFromLink_finds_witness :
  exec (GetERdmaFromLink r_link) [Event (S:=Host) RdmaLinkList (inl (rdma_of <$> r_devs))]
    (run r_env [] (GetERdmaFromLink r_link)).1 ∧
  (run r_env [] (GetERdmaFromLink r_link)).1 = Ret (rdma_of (mkErdmaDev "erdma_1" r_mac1 255 254)).
Proof.
  pose proof (run_exec r_env [] (GetERdmaFromLink r_link)) as H.
  assert ((run r_env [] (GetERdmaFromLink r_link)).2 = [Event (S:=Host) RdmaLinkList (inl (rdma_of <$> r_devs))])
    as E by (vm_compute; reflexivity).
  rewrite E in H. split; [exact H|].
  rewrite (GetERdmaFromLink_finds r_link r_mac1 r_devs _ eq_refl r_mac1_ok r_devs_ok H). reflexivity.
Defined.

Definition r_info0 : ERdmaDeviceInfo := mkERdmaDeviceInfo "erdma_0" "00:16:3e:00:00:01" [] 0 0.
Definition r_info1 : ERdmaDeviceInfo := mkERdmaDeviceInfo "erdma_1" "00:16:3e:00:00:02" [] 0 0.

Lemma PNetIDFromDevice_inj_witness :
  PNetIDFromDevice (Some r_info0) = Ret "00163E000001" ∧
  ("00163E000001" = "00163E000002" ↔ r_mac0 = r_mac1).
Proof.
  assert (PNetIDFromDevice (Some r_info0) = Ret "00163E000001") as E0 by reflexivity.
  assert (PNetIDFromDevice (Some r_info1) = Ret "00163E000002") as E1 by reflexivity.
  split; [exact E0|].
  exact (proj2 (PNetIDFromDevice_inj r_info0 r_info1 r_mac0 r_mac1 _ _ r_mac0_ok r_mac1_ok
    eq_refl eq_refl E0 E1)).
Defined.
