(* ===== verification/PreStart.v ===== *)
(** * PreStart: the hook before a container starts

    [PreStartContainer] of internal/deviceplugin/deviceplugin.go: the pod that
    holds the first requested id is looked up, its configuration is asked of the
    container runtime, and when it wants SMC-R its network namespace is set up
    with commands of the host.  The clients of the runtime are the ones
    [initCriClient] left. *)

From S2P Require Import Prelude Effects GoStr Types RuntimeApi Host DevicePlugin PluginServer.
From S2P Require Import PodConfig RdmaUtils.

(** ** Definitions *)

Definition remountSysctl : list string :=
  ["bash"; "-c"; "mount | grep ' /proc/sys ' | grep rw || mount -o remount,rw /proc/sys"].

Definition nsenterSysctl (netns sysctl : string) : list string :=
  ["nsenter"; "-n/proc/1/root/" +:+ netns; "sysctl"; "-w"; sysctl].

(** The closure [configSysctl] *)
Definition configSysctl (netns sysctl : string) : prog Host unit :=
  r ← host (Exec (nsenterSysctl netns sysctl));
  let '(output, err) := r in
  match err with
  | Some err => errorf "can not exec nsenter %s, err: %v" [output; error_string err]
  | None => mret tt
  end.

(** The device of the last id that names one; the map has nil for others. *)
Definition requestedDevice (m : ERDMADevicePlugin) (devIDs : list string) :
    outcome (option ERdmaDeviceInfo) :=
  for_each devIDs None (λ devID erdmaInfo,
    let devPath := Split "/" devID in
    if decide (length devPath ≤ 1)%nat then Ret erdmaInfo
    else name ← index devPath 0; Ret (dp_devices m !! name)).

Definition configSMCR (m : ERDMADevicePlugin) (devIDs : list string) (podConfig : podConfig) :
    prog Host unit :=
  r ← host (Exec remountSysctl);
  let '(ensureSysctlFSRW, err) := r in
  match err with
  | Some err =>
      errorf "can not ensure sysctl fs rw permission %s, err: %v" [ensureSysctlFSRW; error_string err]
  | None =>
      err ← try (configSysctl (pc_Netns podConfig) "net.smc.tcp2smc=1");
      match err with
      | inr err =>
          throw (Errorf "SMC-R is not supported on this kernel (net.smc.tcp2smc unavailable, e.g. removed on Alibaba Cloud Linux 4): %w"
                   [] (Some err))
      | inl _ =>
          _ ← configSysctl (pc_Netns podConfig) "net.ipv6.conf.all.disable_ipv6=1";
          erdmaInfo ← moutcome (requestedDevice m devIDs);
          pnet ← moutcome (PNetIDFromDevice erdmaInfo);
          ConfigForNetnsNetDevice pnet "eth0" (pc_Netns podConfig)
      end
  end.

(** [PreStartContainer]; [order] is that of the map of [getDevPod]. *)
Definition PreStartContainer (m : ERDMADevicePlugin) (c : Clients) (devIDs : list string)
    (order : list nat) : prog Host unit :=
  match devIDs with
  | [] => mret tt
  | devID :: _ =>
      found ← getDevPod devID order;
      match found with
      | None => errorf "can not find pod %s" ["/"]
      | Some (ns, name) =>
          podConfig ← try (getPodConfig c ns name);
          match podConfig with
          | inr err =>
              errorf "can not get pod config %s, err, %v" [ns +:+ "/" +:+ name; error_string err]
          | inl podConfig => if pc_SMCR podConfig then configSMCR m devIDs podConfig else mret tt
          end
      end
  end.

(** ** The commands *)

(** What is run in the namespace [netns] for the network id [pnet]. *)
Definition smcCommands (netns pnet : string) : list (list string) :=
  let nsenter := ["nsenter"; "-n/proc/1/root/" +:+ netns; "--"] in
  [remountSysctl;
   nsenterSysctl netns "net.smc.tcp2smc=1";
   nsenterSysctl netns "net.ipv6.conf.all.disable_ipv6=1";
   nsenter ++ [smcPnet; "-s"];
   nsenter ++ [smcPnet; "-a"; pnet; "-I"; "eth0"]].

(** The device of the last id that names one *)
Definition lastDevice (m : ERDMADevicePlugin) (devIDs : list string) : option ERdmaDeviceInfo :=
  name ← last (omap named devIDs); dp_devices m !! name.

Lemma requestedDevice_last m devIDs : requestedDevice m devIDs = Ret (lastDevice m devIDs).
Proof.
  induction devIDs as [|devID devIDs IH] using rev_ind; [done|].
  unfold requestedDevice, lastDevice in *. rewrite for_each_app, IH. cbn [mbind outcome_mbind outcome_bind for_each].
  rewrite omap_app. change (omap named [devID]) with (match named devID with Some b => [b] | None => [] end).
  destruct (named devID) as [name|] eqn:E; unfold named in E;
    destruct (Split "/" devID) as [|? [|? ?]]; simplify_eq; cbn; rewrite ?app_nil_r, ?last_snoc; done.
Qed.

(** The commands [cmds] were run one after another, as long as they succeeded;
    the rest [k] says how the run went on after all of them. *)
Fixpoint runs (cmds : list (list string)) (k : trace Host → Prop) (failed : Prop) (tr : trace Host) : Prop :=
  match cmds with
  | [] => k tr
  | cmd :: cmds => ∃ output err tr', tr = Event (S:=Host) (Exec cmd) (output, err) :: tr' ∧
      match err with
      | Some _ => tr' = [] ∧ failed
      | None => runs cmds k failed tr'
      end
  end.

(** How the setting up of SMC-R goes: the first command that fails ends it with
    an error; the network id is needed after three of them; the last command is
    run unless the interface is listed already. *)
Definition smc_post (m : ERDMADevicePlugin) (devIDs : list string) (netns : string)
    (tr : trace Host) (o : outcome unit) : Prop :=
  let failed := ∃ e, o = Err e in
  runs (take 3 (smcCommands netns ε)) (λ tr,
    match lastDevice m devIDs with
    | None => tr = [] ∧ o = Panic NilDeref
    | Some d => ∃ output err tr',
        tr = Event (S:=Host) (Exec (["nsenter"; "-n/proc/1/root/" +:+ netns; "--"; smcPnet; "-s"])) (output, err) :: tr' ∧
        match err with
        | Some _ => tr' = [] ∧ failed
        | None =>
            if Contains output "eth0" then tr' = [] ∧ o = Ret tt
            else runs (drop 4 (smcCommands netns (RemoveAll ":" (ToUpper (info_MAC d)))))
                   (λ tr, tr = [] ∧ o = Ret tt) failed tr'
        end
    end) failed tr.

Lemma configSysctl_exec netns sysctl tr o :
  exec (configSysctl netns sysctl) tr o →
  ∃ output err, tr = [Event (S:=Host) (Exec (nsenterSysctl netns sysctl)) (output, err)] ∧
    match err with Some _ => ∃ e, o = Err e | None => o = Ret tt end.
Proof.
  unfold configSysctl. intros H. exec_hcall H as (r & tr' & -> & H).
  destruct r as [output err]. exists output, err. destruct err; destruct H as [-> ->]; eauto.
Qed.

Lemma configSMCR_post m devIDs cfg : triple (configSMCR m devIDs cfg) (smc_post m devIDs (pc_Netns cfg)).
Proof.
  intros tr o H. unfold configSMCR in H. exec_hcall H as (r & tr1 & -> & H).
  destruct r as [output0 [err|]]; cbn beta iota in H.
  { destruct H as [-> ->]. exists output0, (Some err), []. eauto. }
  apply exec_bind in H as (tr2 & o2 & H2 & H). apply exec_try in H2 as (o3 & H2 & ->).
  apply configSysctl_exec in H2 as (output1 & err1 & -> & H2).
  exists output0, None. eexists. split; [done|]. destruct err1 as [err1|]; cbn [runs].
  { destruct H2 as [e ->]. destruct H as (tr3 & -> & [-> ->]).
    exists output1, (Some err1), []. rewrite ?app_nil_r. split_and!; [done..|eauto]. }
  subst o3. destruct H as (tr3 & -> & H). apply exec_bind in H as (tr4 & o4 & H4 & H).
  apply configSysctl_exec in H4 as (output2 & err2 & -> & H4).
  exists output1, None. eexists. split; [done|]. cbn [take smcCommands runs]. destruct err2 as [err2|].
  { destruct H4 as [e ->]. destruct H as [-> ->].
    exists output2, (Some err2), []. rewrite ?app_nil_r. split_and!; [done..|eauto]. }
  subst o4. destruct H as (tr5 & -> & H). exists output2, None. eexists. split; [done|].
  rewrite requestedDevice_last in H. destruct (lastDevice m devIDs) as [d|]; [|by destruct H].
  cbn [moutcome prog_moutcome mbind prog_mbind prog_bind PNetIDFromDevice deref outcome_moutcome
    outcome_mbind outcome_bind] in H.
  unfold ConfigForNetnsNetDevice, configNetDevice in H. exec_hcall H as (r & tr6 & -> & H).
  destruct r as [output3 [err3|]]; cbn beta iota in H.
  { destruct H as [-> ->]. exists output3, (Some err3), []. eauto. }
  exists output3, None. eexists. split; [done|]. destruct (Contains output3 "eth0"); [done|].
  exec_hcall H as (r & tr7 & -> & H). cbn [drop smcCommands runs].
  destruct r as [output4 [err4|]]; destruct H as [-> ->]; exists output4.
  - exists (Some err4), []. eauto.
  - exists None, []. eauto.
Qed.

(** ** The hook *)

(** No command is run. *)
Definition commandless (ev : event Host) : Prop :=
  match ev with Event (Exec _) _ => False | _ => True end.

Lemma speaks_commandless r {A} (p : prog Host A) : only (speaks r) p → only commandless p.
Proof. apply only_mono. by intros [[]]. Qed.

Lemma getPodConfig_commandless c ns name : only commandless (getPodConfig c ns name).
Proof.
  unfold getPodConfig. destruct (cl_dockerClient c).
  - unfold dockerConfig. apply only_bind; [by only_hcall|].
    intros [[|id ids]|err]; try apply only_done. apply only_bind; [by only_hcall|].
    intros [[st cf]|err]; [|apply only_done]. cbn [cj_State cj_Config].
    destruct st as [[]|]; try apply only_done; destruct cf as [[labels|]|]; try apply only_done;
      destruct (labels !! _); try apply only_done; destruct (ParseBool _); apply only_done.
  - unfold criConfig. destruct (cl_criClient c) as [client|]; [|apply only_done].
    apply only_bind; [apply only_done|]. intros client'. apply only_bind.
    { apply (speaks_commandless client'), ListPodSandbox_speaks. }
    intros sandboxs. apply only_bind; [apply only_done|]. intros [sandbox|]; [|apply only_done].
    apply only_bind; [apply (speaks_commandless client'), PodSandboxStatus_speaks|].
    intros status. apply only_done.
Qed.

#[local] Opaque getDevPod getPodConfig configSMCR.

(** C12: Commands are run only for a pod that wants SMC-R, the pod the kubelet says
    holds the first requested id, and in the network namespace its configuration
    names: the kernel settings first, each only when the one before succeeded,
    then the network id of the device of the last id on [eth0]; the hook succeeds
    only when all of them did, and panics only when that device is not one of the
    plugin's or the pod's configuration could not be read. *)
Theorem PreStartContainer_runs m c devIDs order tr o :
  exec (PreStartContainer m c devIDs order) tr o →
  match devIDs with
  | [] => tr = [] ∧ o = Ret tt
  | devID :: _ => ∃ trp op tr', tr = trp ++ tr' ∧ exec (getDevPod devID order) trp op ∧
      match op with
      | Ret (Some (ns, name)) => ∃ prs pr trc oc trs, trp = [Event (S:=Host) ListPodResources (inl prs)] ∧
          pr ∈ prs ∧ pr_Namespace pr = ns ∧ pr_Name pr = name ∧ devID ∈ podDeviceIDs pr ∧
          tr' = trc ++ trs ∧ exec (getPodConfig c ns name) trc oc ∧ Forall commandless trc ∧
          match oc with
          | Ret cfg => if pc_SMCR cfg then smc_post m devIDs (pc_Netns cfg) trs o else trs = [] ∧ o = Ret tt
          | Err _ => trs = [] ∧ ∃ e, o = Err e
          | Panic f => trs = [] ∧ o = Panic f
          end
      | Ret None | Err _ => tr' = [] ∧ ∃ e, o = Err e
      | Panic f => tr' = [] ∧ o = Panic f
      end
  end.
Proof.
  unfold PreStartContainer. intros H. destruct devIDs as [|devID devIDs]; [by destruct H|].
  apply exec_bind in H as (trp & op & Hp & H). exists trp, op.
  destruct op as [[[ns name]|]|e|f].
  - destruct H as (tr1 & -> & H). exists tr1. split_and!; [done..|].
    apply getDevPod_finds in Hp as (prs & -> & Hp & _). destruct (Hp _ eq_refl) as (pr & Hpr & [= -> ->] & Hin).
    set (ns := pr_Namespace pr) in *. set (name := pr_Name pr) in *. exists prs, pr.
    apply exec_bind in H as (trc & oc & Hc & H). apply exec_try in Hc as (oc' & Hc & ->).
    pose proof (getPodConfig_commandless c ns name _ _ Hc) as Hs. cbn beta in Hs.
    destruct oc' as [cfg|e|f]; exists trc.
    + destruct H as (trs & -> & H). exists (Ret cfg), trs. split_and!; [done..|].
      destruct (pc_SMCR cfg); [by apply configSMCR_post in H|done].
    + destruct H as (trs & -> & [-> ->]). exists (Err e), []. split_and!; eauto.
    + destruct H as [-> ->]. exists (Panic f), []. rewrite app_nil_r. done.
  - destruct H as (tr1 & -> & [-> ->]). exists []. eauto.
  - destruct H as [-> ->]. exists []. rewrite app_nil_r. eauto.
  - destruct H as [-> ->]. exists []. rewrite app_nil_r. eauto.
Qed.

#[local] Transparent getDevPod getPodConfig configSMCR.

(** ** A pod on a concrete node *)

Definition h_devIDs : list string := ["erdma_0/3"; "malformed"].

Definition h_plugin : ERDMADevicePlugin := p_plugin true.

(** The kubelet reports that the pod [default/web] holds the id; the runtime's
    sandbox of it asks for SMC-R; every command succeeds. *)
Definition h_env : Env Host := λ h call,
  match call as c return host_reply c with
  | ListPodResources =>
      inl [mkPodResources "default" "web" [[mkContainerDevices "aliyun/erdma" ["erdma_0/3"]]]]
  | c => sandbox_reply c
  end.

Lemma PreStartContainer_runs_witness :
  (run h_env [] (PreStartContainer h_plugin demo_clients h_devIDs [])).1 = Ret tt ∧
  omap (λ ev : event Host, match ev with Event (Exec args) _ => Some args | _ => None end)
    (run h_env [] (PreStartContainer h_plugin demo_clients h_devIDs [])).2 =
    smcCommands "/var/run/netns/cni-1" "00163E000001" ∧
  ∃ trp op tr', (run h_env [] (PreStartContainer h_plugin demo_clients h_devIDs [])).2 = trp ++ tr' ∧
    exec (getDevPod "erdma_0/3" []) trp op.
Proof.
  assert ((run h_env [] (PreStartContainer h_plugin demo_clients h_devIDs [])).1 = Ret tt) as E
    by (vm_compute; reflexivity).
  split; [exact E|]. split; [vm_compute; reflexivity|].
  apply run_returns in E.
  destruct (PreStartContainer_runs _ _ _ _ _ _ E) as (trp & op & tr' & Etr & Hp & _).
  exists trp, op, tr'. split; [exact Etr|exact Hp].
Defined.
