(* ===== verification/SmcrInit.v ===== *)
(** * SmcrInit: cmd/smcr_init/main.go

    The init container the webhook adds to an SMC-R pod: it runs in the pod's
    network namespace, turns the kernel's settings on through [/proc/sys] and
    gives the pod's interface the network id the device plugin put in the
    environment.  [log.Fatal] ends the process. *)

From S2P Require Import Prelude Effects GoStr Types Host DevicePlugin RdmaUtils.

(** ** Definitions *)

Definition tcp2smcPath : string := "/proc/sys/net/smc/tcp2smc".
Definition disableIpv6Path : string := "/proc/sys/net/ipv6/conf/all/disable_ipv6".

(** A call whose error is fatal *)
Definition orFatal (msg : string) (p : prog Host (result unit)) : prog Host unit :=
  r ← p; match r with inl _ => mret tt | inr _ => panic (Fatal msg) end.

Definition smcrInitMain : prog Host unit :=
  pnetid ← Getenv SMCRPNETEnv;
  if decide (pnetid = ε) then panic (Fatal "smcr pnetid is empty")
  else
    _ ← orFatal "SMC-R is not supported on this kernel: /proc/sys/net/smc/tcp2smc is unavailable (e.g. removed on Alibaba Cloud Linux 4): %v"
          (host (Stat tcp2smcPath));
    _ ← orFatal "error setting tcp2smc" (host (WriteFile tcp2smcPath "1"));
    _ ← orFatal "error setting disable_ipv6" (host (WriteFile disableIpv6Path "1"));
    orFatal "error config smcr pnet" (try (ConfigForNetDevice pnetid "eth0")).

(** ** What the container did *)

Definition settings : trace Host :=
  [Event (S:=Host) (Stat tcp2smcPath) (inl tt); Event (S:=Host) (WriteFile tcp2smcPath "1") (inl tt);
   Event (S:=Host) (WriteFile disableIpv6Path "1") (inl tt)].

(** The listing of smc_pnet names the interface, under whatever network id, and
    it is left at that; or it does not, and the interface is given the id. *)
Definition configured (pnet netDevice : string) (tr : trace Host) : Prop :=
  ∃ output, let listed := Event (S:=Host) (Exec [smcPnet; "-s"]) (output, None) in
    if Contains output netDevice then tr = [listed]
    else ∃ output', tr = [listed;
           Event (S:=Host) (Exec [smcPnet; "-a"; pnet; "-I"; netDevice]) (output', None)].

(** The listing failed, or the interface is not listed and giving it the id failed. *)
Definition unconfigured (pnet netDevice : string) (tr : trace Host) : Prop :=
  (∃ output err, tr = [Event (S:=Host) (Exec [smcPnet; "-s"]) (output, Some err)]) ∨
  ∃ output output' err, Contains output netDevice = false ∧
    tr = [Event (S:=Host) (Exec [smcPnet; "-s"]) (output, None);
          Event (S:=Host) (Exec [smcPnet; "-a"; pnet; "-I"; netDevice]) (output', Some err)].

(** The calls up to and including the first that failed *)
Inductive stopped (pnet : string) : trace Host → Prop :=
  | no_kernel_support err : stopped pnet [Event (S:=Host) (Stat tcp2smcPath) (inr err)]
  | no_tcp2smc err : stopped pnet
      [Event (S:=Host) (Stat tcp2smcPath) (inl tt); Event (S:=Host) (WriteFile tcp2smcPath "1") (inr err)]
  | no_disable_ipv6 err : stopped pnet
      [Event (S:=Host) (Stat tcp2smcPath) (inl tt); Event (S:=Host) (WriteFile tcp2smcPath "1") (inl tt);
       Event (S:=Host) (WriteFile disableIpv6Path "1") (inr err)]
  | no_pnet tr : unconfigured pnet "eth0" tr → stopped pnet (settings ++ tr).

Lemma ConfigForNetDevice_exec pnet netDevice tr o :
  exec (ConfigForNetDevice pnet netDevice) tr o →
  match o with
  | Ret _ => configured pnet netDevice tr
  | Err _ => unconfigured pnet netDevice tr
  | Panic _ => False
  end.
Proof.
  unfold ConfigForNetDevice, configNetDevice, configured, unconfigured. intros H.
  exec_hcall H as (r & tr1 & -> & H). destruct r as [output [err|]].
  { destruct H as [-> ->]. left. by exists output, err. }
  destruct (Contains output netDevice) eqn:E.
  { destruct H as [-> ->]. exists output. by rewrite E. }
  exec_hcall H as (r & tr2 & -> & H). destruct r as [output' [err|]]; destruct H as [-> ->].
  - right. by exists output, output', err.
  - exists output. rewrite E. by exists output'.
Qed.

(** What the plugin gives a container as [SMCR_PNET] is the id of a device of it. *)
Lemma Allocate_env m reqs responses r :
  wf m → Forall (known m) reqs.*1 → Allocate m reqs = Ret responses → r ∈ responses →
  ∃ name d pnet, dp_devices m !! name = Some d ∧ PNetIDFromDevice (Some d) = Ret pnet ∧
    car_Envs r !! SMCRPNETEnv = Some pnet.
Proof.
  intros Hwf Hk H Hr. pose proof (allocate_loop m reqs ∅ [] Hwf Hk) as Hl. unfold Allocate in H.
  destruct (for_each _ _ _) as [[occ rs']| |]; simplify_eq/=.
  destruct Hl as (rs & -> & Hrs & _). apply list_elem_of_omap in Hr as (r' & Hr & E). simpl in E. subst r'.
  apply list_elem_of_lookup in Hr as [i Hi]. destruct (Forall2_lookup_r _ _ _ _ _ Hrs Hi) as (share & _ & Hs).
  destruct Hs as (paths & _ & _ & _ & name & d & pnet & _ & Hd & Hp & ->).
  exists name, d, pnet. by rewrite lookup_singleton_eq.
Qed.

#[local] Opaque ConfigForNetDevice.

(** C29: The init container succeeds exactly when a network id is in its
    environment and every step succeeds: the kernel has the setting, both
    settings are made, and then the listing of smc_pnet names the interface
    (under whatever id) or the interface is given the id.  Otherwise it ends with
    a fatal error right after the step that failed, before any step when there is
    no id.  In the environment the plugin gave the container, the id is that of a
    device of the plugin. *)
Theorem smcrInitMain_configures tr o :
  exec smcrInitMain tr o →
  ∃ rep rest, tr = Event (S:=Host) (LookupEnv SMCRPNETEnv) rep :: rest ∧
    match o with
    | Ret _ => ∃ pnet trc, rep = Some pnet ∧ pnet ≠ ε ∧ rest = settings ++ trc ∧ configured pnet "eth0" trc ∧
        ∀ m reqs responses r, wf m → Forall (known m) reqs.*1 → Allocate m reqs = Ret responses →
          r ∈ responses → rep = car_Envs r !! SMCRPNETEnv →
          ∃ name d, dp_devices m !! name = Some d ∧ PNetIDFromDevice (Some d) = Ret pnet
    | Err _ => False
    | Panic f => (∃ msg, f = Fatal msg) ∧
        (default ε rep = ε ∧ rest = [] ∨ ∃ pnet, rep = Some pnet ∧ pnet ≠ ε ∧ stopped pnet rest)
    end.
Proof.
  unfold smcrInitMain. intros H. apply exec_bind in H as (tr1 & o1 & H1 & H).
  destruct H1 as (rep & tr2 & -> & [-> ->]). destruct H as (rest & -> & H). exists rep, rest. split; [done|].
  cbv beta in H. destruct (decide (default ε rep = ε)) as [He|He].
  { destruct H as [-> ->]. split; [by eexists|by left]. }
  destruct rep as [pnet|]; [|done]. cbn [default] in *.
  assert (∀ tr', stopped pnet tr' → default ε (Some pnet) = ε ∧ tr' = [] ∨
    ∃ pnet', Some pnet = Some pnet' ∧ pnet' ≠ ε ∧ stopped pnet' tr') as Hst by (right; eauto).
  destruct H as ([[]|err] & tr3 & -> & H).
  2: { destruct H as [-> ->]. split; [by eexists|]. apply Hst. constructor. }
  destruct H as ([[]|err] & tr4 & -> & H).
  2: { destruct H as [-> ->]. split; [by eexists|]. apply Hst. constructor. }
  destruct H as ([[]|err] & tr5 & -> & H).
  2: { destruct H as [-> ->]. split; [by eexists|]. apply Hst. constructor. }
  change (exec (orFatal "error config smcr pnet" (try (ConfigForNetDevice pnet "eth0"))) tr5 o) in H.
  apply exec_bind in H as (tr6 & o6 & H6 & H). apply exec_try in H6 as (o7 & H7 & ->).
  apply ConfigForNetDevice_exec in H7. destruct o7 as [[]|e|f]; [| |done]; destruct H as (tr8 & -> & [-> ->]).
  - exists pnet, tr6. rewrite app_nil_r. split_and!; [done..|].
    intros m reqs responses r Hwf Hk Ha Hr E.
    destruct (Allocate_env m reqs responses r Hwf Hk Ha Hr) as (name & d & pnet' & Hd & Hp & E').
    rewrite E' in E. injection E as ->. eauto.
  - split; [by eexists|]. apply Hst. rewrite app_nil_r. by apply (no_pnet pnet tr6).
Qed.

#[local] Transparent ConfigForNetDevice.

(** ** An init container on a concrete node *)

(** The environment of the second container of the plugin's example *)
Definition n_env : Env Host := λ h c,
  match c as c return host_reply c with
  | LookupEnv name => if decide (name = SMCRPNETEnv) then Some "00163E000001" else None
  | c => plain_reply c
  end.

Lemma smcrInitMain_configures_witness :
  (run n_env [] smcrInitMain).1 = Ret tt ∧
  ∃ trc, drop 1 (run n_env [] smcrInitMain).2 = settings ++ trc ∧ configured "00163E000001" "eth0" trc ∧
    ∃ name d, dp_devices (p_plugin false) !! name = Some d ∧ PNetIDFromDevice (Some d) = Ret "00163E000001".
Proof.
  assert ((run n_env [] smcrInitMain).1 = Ret tt) as E by (vm_compute; reflexivity).
  split; [exact E|]. apply run_returns in E.
  destruct (smcrInitMain_configures _ _ E) as (rep & rest & Htr & pnet & trc & Hrep & _ & Hrest & Hc & Hm).
  assert (∃ responses r, Allocate (p_plugin false) p_reqs = Ret (r :: responses) ∧
    car_Envs r !! SMCRPNETEnv = Some "00163E000001") as (responses & r & Ha & He)
    by (eexists _, _; split; vm_compute; reflexivity).
  exists trc. pose proof (f_equal head Htr) as Hh.
  change (Some (Event (S:=Host) (LookupEnv SMCRPNETEnv) (Some "00163E000001")) =
          Some (Event (S:=Host) (LookupEnv SMCRPNETEnv) rep)) in Hh.
  apply (inj Some), Event_inj in Hh. rewrite Hrep in Hh. injection Hh as <-.
  rewrite Htr. split; [exact Hrest|]. split; [exact Hc|].
  apply (Hm (p_plugin false) p_reqs (r :: responses) r (p_wf false) (p_known false) Ha); [by left|by rewrite He].
Defined.
