(* ===== verification/NetDev.v ===== *)
(** * NetDev: internal/drivers/netdev.go

    Configuring the network device of a secondary ENI: address, routes and
    MTU, from what the metadata server says.  Addresses are IPv4, the only
    family the code asks the kernel and the metadata server for. *)

From S2P Require Import Prelude Effects GoStr Types Host Metadata.

(** ** Parsing *)

(** One field of a dotted quad: up to three digits, no leading zero, at most 255 *)
Definition parseOctet (s : string) : option Z :=
  v ← parse_digits 10 digit_of (chars s);
  if bool_decide (length (chars s) ≤ 3)%nat &&
     negb (bool_decide (head (chars s) = Some "0"%char) && bool_decide (1 < length (chars s))%nat) &&
     (v <=? 255)
  then Some v else None.

(** [net.ParseIP] on IPv4 text *)
Definition ParseIP (s : string) : option IP :=
  match Split "." s with
  | [a; b; c; d] =>
      a ← parseOctet a; b ← parseOctet b; c ← parseOctet c; d ← parseOctet d;
      Some (16777216 * a + 65536 * b + 256 * c + d)
  | _ => None
  end.

(** [ip.Mask(net.CIDRMask(ones, 32))] *)
Definition Mask (ip : IP) (ones : Z) : IP := ip - ip mod 2 ^ (32 - ones).

(** The network of [net.ParseCIDR] on IPv4 text: the length of the prefix is a
    decimal of at most 32. *)
Definition ParseCIDR (s : string) : option IPNet :=
  match Split "/" s with
  | [ip; ones] =>
      ip ← ParseIP ip; n ← parse_digits 10 digit_of (chars ones);
      if n <=? 32 then Some (mkIPNet (Mask ip n) n) else None
  | _ => None
  end.

(** ** Definitions *)

Definition ipUrl (mac : string) : string :=
  "http://100.100.100.200/latest/meta-data/network/interfaces/macs/" +:+ mac +:+ "/primary-ip-address".
Definition cidrURL (mac : string) : string :=
  "http://100.100.100.200/latest/meta-data/network/interfaces/macs/" +:+ mac +:+ "/vswitch-cidr-block".
Definition gatewayURL (mac : string) : string :=
  "http://100.100.100.200/latest/meta-data/network/interfaces/macs/" +:+ mac +:+ "/gateway".

Definition defaultMetric : Z := 200.
Definition metricAddition : Z := 1.

(** [route] of netdev.go *)
Record route := mkroute { destination : option IPNet; gateway : option IP; metric : Z }.

Record netConf := mknetConf { ipAddr : IPNet; conf_routes : list route }.

Definition defaultJumboFrameMTU : Z := 8500.

Definition jumboMTU (eri : ERI) : Z :=
  if 0 <? eri_JumboFrameMTU eri then eri_JumboFrameMTU eri else defaultJumboFrameMTU.

(** [nr.Dst.String()] of a possibly nil network: a nil [*IPNet] prints as [<nil>]. *)
Definition dst_String (dst : option IPNet) : string :=
  match dst with Some n => IPNet_String n | None => "<nil>" end.

(** Whether a route of the kernel is for the destination [dst]: the test both
    [selectMetric] and the last loop of [ensureRoutes] make. *)
Definition sameDestination (dst : option IPNet) (nr : Route) : bool :=
  (bool_decide (dst = None) && bool_decide (rt_Dst nr = None)) ||
  (bool_decide (dst = None) && bool_decide (dst_String (rt_Dst nr) = "0.0.0.0/0")) ||
  match rt_Dst nr, dst with
  | Some a, Some b => bool_decide (IPNet_String a = IPNet_String b)
  | _, _ => false
  end.

(** The closure [selectMetric] of [genRoutesForAddr] *)
Definition selectMetric (existRoutes : list Route) (dst : option IPNet) : Z :=
  let existMetric :=
    fold_left (λ existMetric nr,
      if sameDestination dst nr && (existMetric <? rt_Priority nr)
      then rt_Priority nr else existMetric) existRoutes 0 in
  let metric := int64 (existMetric + metricAddition) in
  if metric <? defaultMetric then defaultMetric else metric.

Definition genRoutesForAddr (gw : IP) (cidr : IPNet) : prog Host (list route) :=
  existRoutes ← hcall (host (RouteList4 None));
  mret [mkroute (Some cidr) None (selectMetric existRoutes (Some cidr));
        mkroute None (Some gw) (selectMetric existRoutes None)].

Definition ensureMTU (link : Link) (mtu : Z) : prog Host unit :=
  if decide (lk_MTU link = mtu) then mret tt
  else hcall (host (LinkSetMTU (lk_Name link) mtu)).

Definition ensureUpLink (link : Link) : prog Host unit :=
  hcall (host (LinkSetUp (lk_Name link))).

Definition ensureAddress (link : Link) (conf : netConf) : prog Host unit :=
  addrs ← hcall (host (AddrList4 (lk_Name link)));
  if existsb (λ a, bool_decide (IP_String (ad_IP a) = IP_String (net_IP (ipAddr conf)))) addrs
  then mret tt
  else
    _ ← hcall (host (AddrAdd (lk_Name link) (ipAddr conf)));
    (* remove the automatically created route, best effort *)
    _ ← host (RouteDel (mkRoute
          (Some (mkIPNet (Mask (net_IP (ipAddr conf)) (net_Ones (ipAddr conf))) (net_Ones (ipAddr conf))))
          None (lk_Index link) 0 false));
    mret tt.

(** The route added for [r]; the scope is set except where a route is created
    for a gateway. *)
Definition routeFor (link : Link) (r : route) (scopeLink : bool) : Route :=
  mkRoute (destination r) (gateway r) (lk_Index link) (metric r) scopeLink.

(** A call whose error is wrapped in a message *)
Definition wcall (msg : string) (c : prog Host (result unit)) : prog Host unit :=
  r ← c; match r with inl _ => mret tt | inr err => errorf msg [error_string err] end.

(** The loop that moves a route to its metric, for the kernel's routes that
    [same] accepts; it tells whether there was one. *)
Definition moveRoutes (link : Link) (nlRoutes : list Route) (r : route) (same : Route → bool)
    (delMsg addMsg : string) : prog Host bool :=
  for_each nlRoutes false (λ nr found,
    if same nr then
      if decide (metric r = rt_Priority nr) then mret true
      else
        _ ← wcall delMsg (host (RouteDel nr));
        _ ← wcall addMsg (host (RouteAdd (routeFor link r true)));
        mret true
    else mret found).

Definition ensureRoutes (link : Link) (routes : list route) : prog Host unit :=
  r ← host (RouteList4 (Some (lk_Name link)));
  match r with
  | inr err => errorf "list route failed: %v" [error_string err]
  | inl nlRoutes =>
      match find_first (λ r, bool_decide (gateway r = None)) routes with
      | None => errorf "no direct route found" []
      | Some directRoute =>
          found ← moveRoutes link nlRoutes directRoute
            (λ nr, bool_decide (rt_Dst nr ≠ None) &&
                   bool_decide (dst_String (rt_Dst nr) = dst_String (destination directRoute)))
            "delete direct route failed: %v" "update direct route failed: %v";
          _ ← (if (found : bool) then mret tt
               else wcall "create direct route failed: %v"
                      (host (RouteAdd (routeFor link directRoute true))));
          for_each routes tt (λ r _,
            if bool_decide (gateway r = None) then mret tt
            else
              found ← moveRoutes link nlRoutes r (sameDestination (destination r))
                "delete route failed: %v" "update route failed: %v";
              if (found : bool) then mret tt
              else wcall "create route failed: %v" (host (RouteAdd (routeFor link r false))))
      end
  end.

Definition hasNonLinkLocalAddr (link : Link) : prog Host bool :=
  addrs ← host (AddrListAll (lk_Name link));
  mret match addrs with
  | inr _ => false
  | inl addrs => existsb (λ a, negb (ad_LinkLocal a)) addrs
  end.

Section Conf.
Context `{BackoffLib}.

(** The token cache of the metadata client is passed and returned, on every path. *)
Definition getNetConfFromMetadata (mac : string) (cache : option string) :
    prog Host (option string * result netConf) :=
  '(cache, addr) ← GetStrFromMetadata (ipUrl mac) cache;
  match addr with
  | inr err => mret (cache, inr err)
  | inl addr =>
  match ParseIP addr with
  | None => mret (cache, inr (Errorf "invalid ip address: %s" [addr] None))
  | Some ip =>
  '(cache, cidr) ← GetStrFromMetadata (cidrURL mac) cache;
  match cidr with
  | inr err => mret (cache, inr err)
  | inl cidr =>
  match ParseCIDR cidr with
  | None => mret (cache, inr (Errorf "invalid cidr: %s" [cidr] None))
  | Some ipNet =>
  '(cache, gw) ← GetStrFromMetadata (gatewayURL mac) cache;
  match gw with
  | inr err => mret (cache, inr err)
  | inl gw =>
  match ParseIP gw with
  | None => mret (cache, inr (Errorf "invalid gateway address: %s" [gw] None))
  | Some gw =>
      routes ← try (genRoutesForAddr gw ipNet);
      match routes with
      | inr err => mret (cache, inr err)
      | inl routes => mret (cache, inl (mknetConf (mkIPNet ip (net_Ones ipNet)) routes))
      end
  end end end end end end.

(** The address and the routes; the link goes down again when either fails. *)
Definition configureLink (link : Link) (conf : netConf) : prog Host unit :=
  r ← try (_ ← ensureAddress link conf; ensureRoutes link (conf_routes conf));
  match r with
  | inl _ => mret tt
  | inr err => _ ← host (LinkSetDown (lk_Name link)); throw err
  end.

(** A link that is down, or has no address yet, is configured. *)
Definition bringUp (link : Link) (eri : ERI) (conf : netConf) : prog Host unit :=
  _ ← (if eri_JumboFrame eri then ensureMTU link (jumboMTU eri) else mret tt);
  _ ← ensureUpLink link;
  configureLink link conf.

(** A link in use only has its MTU set; an address that is not the expected one
    is only logged. *)
Definition checkUp (link : Link) (eri : ERI) : prog Host unit :=
  _ ← (if eri_JumboFrame eri then ensureMTU link (jumboMTU eri) else mret tt);
  _ ← hcall (host (AddrList4 (lk_Name link)));
  mret tt.

Definition EnsureNetDevice (link : Link) (eri : ERI) (cache : option string) :
    prog Host (option string * result unit) :=
  if eri_IsPrimaryENI eri then mret (cache, inl tt)
  else
    '(cache, conf) ← getNetConfFromMetadata (eri_MAC eri) cache;
    match conf with
    | inr err => mret (cache, inr err)
    | inl conf =>
        down ← (if negb (lk_OperUp link) then mret true
                else negb <$> hasNonLinkLocalAddr link);
        r ← try (if (down : bool) then bringUp link eri conf else checkUp link eri);
        mret (cache, r)
    end.

End Conf.

(** ** Metrics *)

Section Metric.
Variable dst : option IPNet.

Let best (existMetric : Z) (nr : Route) : Z :=
  if sameDestination dst nr && (existMetric <? rt_Priority nr) then rt_Priority nr else existMetric.

Lemma fold_best l m0 :
  let m := fold_left best l m0 in
  m0 ≤ m ∧ (∀ nr, nr ∈ l → sameDestination dst nr = true → rt_Priority nr ≤ m) ∧
  (m = m0 ∨ ∃ nr, nr ∈ l ∧ sameDestination dst nr = true ∧ m = rt_Priority nr).
Proof.
  revert m0; induction l as [|x l IH]; intros m0; simpl.
  - split_and!; [lia|intros nr Hn; by apply not_elem_of_nil in Hn|by left].
  - destruct (IH (best m0 x)) as (H1 & H2 & H3).
    assert (m0 ≤ best m0 x ∧ (sameDestination dst x = true → rt_Priority x ≤ best m0 x) ∧
            (best m0 x = m0 ∨ sameDestination dst x = true ∧ best m0 x = rt_Priority x)) as (B1 & B2 & B3).
    { unfold best. destruct (sameDestination dst x); simpl; [|by split_and!; [lia| |left]].
      destruct (Z.ltb_spec m0 (rt_Priority x)); split_and!; auto; lia. }
    split_and!; [lia| |].
    + intros nr [->|Hn]%elem_of_cons Hs; [specialize (B2 Hs); lia|by apply H2].
    + destruct H3 as [->|(nr & Hn & Hs & ->)]; [destruct B3 as [->|[Hs ->]]; [by left|]|];
        right; eexists; rewrite elem_of_cons; eauto.
Qed.

End Metric.

(** The metric of a route of a secondary ENI is at least 200 and higher than
    that of every route of the kernel for the same destination, so traffic keeps
    using the routes already there; it is no higher than that requires. *)
Lemma selectMetric_ranks existRoutes dst :
  Forall (λ nr, 0 ≤ rt_Priority nr < 4294967296) existRoutes →
  let m := selectMetric existRoutes dst in
  defaultMetric ≤ m ∧
  (∀ nr, nr ∈ existRoutes → sameDestination dst nr = true → rt_Priority nr < m) ∧
  (m = defaultMetric ∨
   ∃ nr, nr ∈ existRoutes ∧ sameDestination dst nr = true ∧ m = rt_Priority nr + metricAddition).
Proof.
  intros Hp. unfold selectMetric. destruct (fold_best dst existRoutes 0) as (H1 & H2 & H3).
  set (b := fold_left _ existRoutes 0) in *.
  assert (b < 4294967296) as Hb.
  { destruct H3 as [->|(nr & Hn & _ & ->)]; [lia|]. rewrite Forall_forall in Hp. by apply Hp. }
  unfold metricAddition, defaultMetric. rewrite int64_id by lia.
  destruct (Z.ltb_spec (b + 1) 200); (split_and!; [lia| |]).
  - intros nr Hn Hs. specialize (H2 nr Hn Hs). lia.
  - by left.
  - intros nr Hn Hs. specialize (H2 nr Hn Hs). lia.
  - destruct H3 as [->|(nr & Hn & Hs & ->)]; [lia|]. right. by exists nr.
Qed.

(** ** Routes

    What the kernel promises: a table of the link's routes, listed as it is, to
    which a successful [RouteAdd] adds a route whose destination and metric are
    not taken, and from which a successful [RouteDel] removes the route it is
    given.  [kernel_run] checks the replies of a trace against the table. *)

#[export] Instance IPNet_eq_dec : EqDecision IPNet.
Proof. solve_decision. Defined.

#[export] Instance Route_eq_dec : EqDecision Route.
Proof. solve_decision. Defined.

(** The kernel's name of a destination: nil is the default route. *)
Definition dst_key (dst : option IPNet) : string :=
  match dst with Some n => IPNet_String n | None => "0.0.0.0/0" end.

Definition forDst (dst : option IPNet) (nr : Route) : bool :=
  bool_decide (dst_key (rt_Dst nr) = dst_key dst).

Definition clash (x y : Route) : bool := forDst (rt_Dst x) y && bool_decide (rt_Priority y = rt_Priority x).

Definition kernel_step (link : Link) (T : list Route) (ev : event Host) : option (list Route) :=
  match ev with
  | Event c rep =>
      match c as c return host_reply c → option (list Route) with
      | RouteAdd x => λ rep, match rep with
          | inl _ => if existsb (clash x) T then None else Some (x :: T)
          | inr _ => Some T end
      | RouteDel x => λ rep, match rep with
          | inl _ => if decide (x ∈ T) then Some (filter (λ y, y ≠ x) T) else None
          | inr _ => Some T end
      | RouteList4 (Some name) => λ rep, match rep with
          | inl l => if decide (name = lk_Name link ∧ l ≠ T) then None else Some T
          | inr _ => Some T end
      | _ => λ _, Some T
      end rep
  end.

Fixpoint kernel_run (link : Link) (T : list Route) (tr : trace Host) : option (list Route) :=
  match tr with
  | [] => Some T
  | ev :: tr => T' ← kernel_step link T ev; kernel_run link T' tr
  end.

Lemma kernel_run_app link T tr1 tr2 T' :
  kernel_run link T (tr1 ++ tr2) = Some T' ↔
  ∃ T1, kernel_run link T tr1 = Some T1 ∧ kernel_run link T1 tr2 = Some T'.
Proof.
  revert T; induction tr1 as [|ev tr1 IH]; intros T; simpl; [naive_solver|].
  destruct (kernel_step link T ev) as [T2|]; simpl; [apply IH|naive_solver].
Qed.

#[local] Opaque IPNet_String.

(** Both tests of the source compare destinations as the kernel names them. *)
Lemma sameDestination_forDst dst nr :
  (∀ n, dst = Some n → IPNet_String n ≠ "0.0.0.0/0") → sameDestination dst nr = forDst dst nr.
Proof.
  intros H. unfold sameDestination, forDst, dst_String, dst_key. destruct dst as [n|], (rt_Dst nr) as [n'|]; simpl.
  - done.
  - rewrite bool_decide_eq_false_2; [done|]. intros E. by apply (H n).
  - rewrite orb_false_r. done.
  - done.
Qed.

Lemma filter_bool_eq {A} (p : A → bool) l : List.filter p l = filter (λ y, p y = true) l.
Proof.
  induction l as [|x l IH]; [done|]. simpl List.filter. destruct (p x) eqn:Hx.
  - rewrite filter_cons_True by done. by f_equal.
  - rewrite filter_cons_False by congruence. done.
Qed.

(** *** Moving a route *)

Section Move.
Variables (link : Link) (r : route) (same : Route → bool) (delMsg addMsg : string).
Hypothesis same_dst : ∀ nr, same nr = forDst (destination r) nr.

Let body (nr : Route) (found : bool) : prog Host bool :=
  if same nr then
    if decide (metric r = rt_Priority nr) then mret true
    else
      _ ← wcall delMsg (host (RouteDel nr));
      _ ← wcall addMsg (host (RouteAdd (routeFor link r true)));
      mret true
  else mret found.

(** What a step that moves [nr] needs of the table, and does to it. *)
Definition moved (nr : Route) (T T' : list Route) : Prop :=
  nr ∈ T ∧ rt_Priority nr ≠ metric r ∧
  (∀ y, y ∈ T → y ≠ nr → forDst (destination r) y = true → rt_Priority y ≠ metric r) ∧
  T' = routeFor link r true :: filter (λ y, y ≠ nr) T.

Lemma clash_new y : clash (routeFor link r true) y = true ↔
  forDst (destination r) y = true ∧ rt_Priority y = metric r.
Proof.
  unfold clash, routeFor. cbn [rt_Dst rt_Priority]. rewrite andb_true_iff, bool_decide_eq_true. done.
Qed.

Lemma move_step nr found tr found' T T' :
  same nr = true → exec (body nr found) tr (Ret found') → kernel_run link T tr = Some T' →
  found' = true ∧ (rt_Priority nr = metric r ∧ T' = T ∨ moved nr T T').
Proof.
  intros Hs H HT. unfold body in H. rewrite Hs in H.
  destruct (decide (metric r = rt_Priority nr)) as [Em|Em].
  - destruct H as [-> [= ->]]. injection HT as ->. auto.
  - destruct H as (rep & tr1 & -> & H). destruct rep as [[]|err]; [|by destruct H].
    destruct H as (rep & tr2 & -> & H). destruct rep as [[]|err]; [|by destruct H].
    destruct H as [-> [= ->]]. split; [done|right].
    cbn [kernel_run kernel_step] in HT. destruct (decide (nr ∈ T)) as [Hin|]; [|done]. cbn [mbind option_bind] in HT.
    destruct (existsb _ _) eqn:Hc; [done|]. injection HT as <-. split_and!; [done|congruence| |done].
    intros y Hy Hne Hd Hp. apply not_true_iff_false in Hc. apply Hc, existsb_exists.
    exists y. split; [|by apply clash_new]. apply list_elem_of_In, list_elem_of_filter. done.
Qed.

(** Routes for other destinations are skipped. *)
Lemma move_same l found tr o :
  exec (for_each l found body) tr o → exec (for_each (List.filter same l) found body) tr o.
Proof.
  revert found tr; induction l as [|x l IH]; intros found tr H; [done|].
  cbn [for_each List.filter] in *. destruct (same x) eqn:Hx.
  - cbn [for_each]. apply exec_bind in H as (tr1 & o1 & H1 & H). apply exec_bind.
    exists tr1, o1. split; [done|]. destruct o1; [|done..].
    destruct H as (tr2 & -> & H). eauto.
  - assert (body x found = mret found) as E by (unfold body; by rewrite Hx). rewrite E in H. by apply IH.
Qed.

(** After a successful loop the destination has one route, with the right metric. *)
Definition settled (T T' : list Route) : Prop :=
  (∃ x, filter (λ y, forDst (destination r) y = true) T' = [x] ∧ rt_Priority x = metric r ∧
        (x ∈ T ∨ ∃ scopeLink, x = routeFor link r scopeLink)) ∧
  filter (λ y, forDst (destination r) y ≠ true) T' = filter (λ y, forDst (destination r) y ≠ true) T ∧
  (length (filter (λ y, forDst (destination r) y = true) T) ≤ 1)%nat.

Lemma forDst_new b : forDst (destination r) (routeFor link r b) = true.
Proof. unfold forDst, routeFor. cbn [rt_Dst]. by apply bool_decide_eq_true. Qed.

Lemma moved_settled x T T' :
  filter (λ y, forDst (destination r) y = true) T = [x] → moved x T T' → settled T T'.
Proof.
  intros Hf (Hin & Hne & _ & ->).
  assert (Forall (λ y, y = x) (filter (λ y, forDst (destination r) y = true) T)) as Hx
    by (rewrite Hf; by repeat constructor).
  rewrite Forall_forall in Hx. split_and!; [| |by rewrite Hf].
  - exists (routeFor link r true). split_and!; [|done|right; by eexists].
    rewrite filter_cons_True by apply forDst_new. f_equal.
    apply elem_of_nil_inv. intros y Hy.
    apply list_elem_of_filter in Hy as [Hd Hy]. apply list_elem_of_filter in Hy as [Hn Hy].
    apply Hn, Hx, list_elem_of_filter. done.
  - rewrite filter_cons_False by (rewrite forDst_new; intros Hn; by apply Hn).
    rewrite list_filter_filter. apply list_filter_iff. intros y. split; [tauto|].
    intros Hd. split; [done|]. intros ->. apply Hd.
    assert (x ∈ filter (λ y, forDst (destination r) y = true) T) as Hxx by (rewrite Hf; set_solver).
    by apply list_elem_of_filter in Hxx as [? _].
Qed.

Lemma created_settled scopeLink T :
  List.filter (forDst (destination r)) T = [] → settled T (routeFor link r scopeLink :: T).
Proof.
  intros Hf. assert (Forall (λ y, forDst (destination r) y ≠ true) T) as HT.
  { apply Forall_forall. intros y Hy Hd.
    assert (y ∈ List.filter (forDst (destination r)) T) as Hin by (by apply elem_of_filter_bool).
    rewrite Hf in Hin. by apply not_elem_of_nil in Hin. }
  split_and!; [| |by rewrite <- filter_bool_eq, Hf; simpl; lia].
  - exists (routeFor link r scopeLink). rewrite filter_cons_True by apply forDst_new.
    split_and!; [|done|right; by eexists].
    f_equal. apply elem_of_nil_inv. intros y [Hd Hy]%list_elem_of_filter.
    rewrite Forall_forall in HT. by apply (HT y).
  - rewrite filter_cons_False; [done|]. rewrite forDst_new. intros Hn. by apply Hn.
Qed.

(** Of two routes for the destination at most one can be passed over or moved. *)
Lemma move_two x1 x2 T T1 T2 :
  forDst (destination r) x1 = true → forDst (destination r) x2 = true →
  x1 ∈ T → x2 ∈ T → rt_Priority x1 ≠ rt_Priority x2 →
  (rt_Priority x1 = metric r ∧ T1 = T ∨ moved x1 T T1) →
  (rt_Priority x2 = metric r ∧ T2 = T1 ∨ moved x2 T1 T2) → False.
Proof.
  intros Hd1 Hd2 Hi1 Hi2 Hp [[E1 ->]|M1] [[E2 E]|M2].
  - congruence.
  - destruct M2 as (_ & _ & Hb & _). apply (Hb x1); [done|congruence|done..].
  - destruct M1 as (_ & _ & Hb & _). apply (Hb x2); [done|congruence|done..].
  - destruct M1 as (_ & _ & _ & ->), M2 as (_ & Hp2 & Hb & _). apply (Hb (routeFor link r true)).
    + by left.
    + intros <-. by apply Hp2.
    + apply forDst_new.
    + done.
Qed.

Lemma moveRoutes_settled nlRoutes tr found T T' :
  List.filter same nlRoutes = List.filter (forDst (destination r)) T →
  NoDup (rt_Priority <$> List.filter (forDst (destination r)) T) →
  exec (moveRoutes link nlRoutes r same delMsg addMsg) tr (Ret found) →
  kernel_run link T tr = Some T' →
  if found then settled T T'
  else T' = T ∧ List.filter (forDst (destination r)) T = [].
Proof.
  intros Hl Hnd H HT. unfold moveRoutes in H. fold body in H. apply move_same in H. rewrite Hl in H.
  pose proof (filter_bool_eq (forDst (destination r)) T) as Ef.
  destruct (List.filter (forDst (destination r)) T) as [|x1 [|x2 rest]] eqn:ES.
  - destruct H as [-> [= ->]]. injection HT as ->. done.
  - apply exec_bind in H as (tr1 & o1 & H1 & H).
    assert (x1 ∈ T ∧ forDst (destination r) x1 = true) as [Hi Hd]
      by (apply elem_of_filter_bool; rewrite ES; set_solver).
    destruct o1 as [f1|e|f1]; [|by destruct H..]. destruct H as (tr2 & -> & [-> [= ->]]).
    rewrite app_nil_r in HT. rewrite <- same_dst in Hd.
    destruct (move_step _ _ _ _ _ _ Hd H1 HT) as [-> [[Hp ->]|M]].
    + split_and!; [|done|by rewrite <- Ef; simpl; lia]. exists x1. by split_and!; [by rewrite <- Ef| |left].
    + by eapply moved_settled.
  - exfalso.
    apply exec_bind in H as (tr1 & o1 & H1 & H).
    destruct o1 as [f1|e|f1]; [|by destruct H..]. destruct H as (tr2 & -> & H).
    apply exec_bind in H as (tr3 & o3 & H3 & H).
    destruct o3 as [f3|e|f3]; [|by destruct H..]. destruct H as (tr4 & -> & _).
    apply kernel_run_app in HT as (T1 & HT1 & HT). apply kernel_run_app in HT as (T2 & HT2 & _).
    assert (x1 ∈ T ∧ forDst (destination r) x1 = true) as [Hi1 Hd1]
      by (apply elem_of_filter_bool; rewrite ES; set_solver).
    assert (x2 ∈ T ∧ forDst (destination r) x2 = true) as [Hi2 Hd2]
      by (apply elem_of_filter_bool; rewrite ES; set_solver).
    apply (move_two x1 x2 T T1 T2); [done..| | |].
    + rewrite !fmap_cons in Hnd. apply NoDup_cons in Hnd as [Hnd _]. intros E. apply Hnd. rewrite E. by left.
    + rewrite <- same_dst in Hd1. by destruct (move_step _ _ _ _ _ _ Hd1 H1 HT1).
    + rewrite <- same_dst in Hd2. by destruct (move_step _ _ _ _ _ _ Hd2 H3 HT2).
Qed.

End Move.

(** *** Configuring the routes *)

(** No two routes of the table have the same destination and metric. *)
Definition routes_ok (T : list Route) : Prop :=
  NoDup ((λ y, (dst_key (rt_Dst y), rt_Priority y)) <$> T).

Lemma routes_ok_filter dst T :
  routes_ok T → NoDup (rt_Priority <$> List.filter (forDst dst) T).
Proof.
  unfold routes_ok. induction T as [|x T IH]; [constructor|].
  rewrite fmap_cons. cbn [List.filter]. intros [Hx HT]%NoDup_cons. specialize (IH HT).
  destruct (forDst dst x) eqn:Hd; [|done]. rewrite fmap_cons. apply NoDup_cons. split; [|done].
  intros Hin. apply Hx. apply list_elem_of_fmap in Hin as (y & Hp & [Hy Hdy]%elem_of_filter_bool).
  apply list_elem_of_fmap. exists y. split; [|done].
  unfold forDst in Hd, Hdy. apply bool_decide_eq_true in Hd, Hdy. congruence.
Qed.

(** Settling one destination leaves the routes of another alone. *)
Lemma settled_other link r T T' dst :
  dst_key dst ≠ dst_key (destination r) → settled link r T T' →
  filter (λ y, forDst dst y = true) T' = filter (λ y, forDst dst y = true) T.
Proof.
  intros Hne (_ & E & _). apply (f_equal (filter (λ y, forDst dst y = true))) in E.
  rewrite !list_filter_filter in E.
  assert (∀ y, forDst dst y = true ∧ forDst (destination r) y ≠ true ↔ forDst dst y = true) as Hiff.
  { intros y. split; [by intros [? _]|]. intros Hd. split; [done|].
    unfold forDst in *. rewrite !bool_decide_eq_true in *. congruence. }
  etransitivity; [|etransitivity; [exact E|]]; [symmetry|]; by apply list_filter_iff.
Qed.

(** Moving the routes of a destination, or creating the one that is missing. *)
Lemma ensure_one link r nlRoutes same scopeLink dm am cm tr T T' :
  (∀ nr, same nr = forDst (destination r) nr) →
  List.filter (forDst (destination r)) nlRoutes = List.filter (forDst (destination r)) T →
  NoDup (rt_Priority <$> List.filter (forDst (destination r)) T) →
  exec (found ← moveRoutes link nlRoutes r same dm am;
        if (found : bool) then mret tt
        else wcall cm (host (RouteAdd (routeFor link r scopeLink)))) tr (Ret tt) →
  kernel_run link T tr = Some T' → settled link r T T'.
Proof.
  intros Hsame Hl Hnd H HT. apply exec_bind in H as (tr1 & o1 & H1 & H).
  destruct o1 as [found|e|f]; [|by destruct H..]. destruct H as (tr2 & -> & H).
  apply kernel_run_app in HT as (T1 & HT1 & HT2).
  apply (moveRoutes_settled _ _ _ _ _ Hsame _ _ _ T T1) in H1; [|by rewrite <- Hl; apply List.filter_ext|done..].
  destruct found.
  - destruct H as [-> _]. by injection HT2 as <-.
  - destruct H1 as [-> Hf]. destruct H as (rep & tr3 & -> & H). destruct rep as [[]|err]; [|by destruct H].
    destruct H as [-> _]. cbn [kernel_run kernel_step] in HT2. destruct (existsb _ _); [done|].
    injection HT2 as <-. by apply created_settled.
Qed.

(** A run that succeeds settles the network's route, then the default route. *)
Lemma ensureRoutes_settled link cidr gw m1 m2 T tr T' :
  IPNet_String cidr ≠ "0.0.0.0/0" → routes_ok T →
  let direct := mkroute (Some cidr) None m1 in
  let default := mkroute None (Some gw) m2 in
  exec (ensureRoutes link [direct; default]) tr (Ret tt) →
  kernel_run link T tr = Some T' →
  ∃ T1, settled link direct T T1 ∧ settled link default T1 T'.
Proof.
  intros Hcidr Hok direct default H HT. unfold ensureRoutes in H.
  exec_hcall H as (rep & tr1 & -> & H). destruct rep as [nlRoutes|err]; [|by destruct H].
  cbn [kernel_run kernel_step] in HT. destruct (decide _) as [|Hl]; [done|]. cbn [mbind option_bind] in HT.
  assert (nlRoutes = T) as -> by (destruct (decide (nlRoutes = T)); [done|exfalso; apply Hl; done]).
  clear Hl. change (find_first _ [direct; default]) with (Some direct) in H. cbv beta iota in H.
  apply exec_bind in H as (tr2 & o2 & H2 & H). destruct o2 as [found|e|f]; [|by destruct H..].
  destruct H as (tr3 & -> & H). apply exec_bind in H as (tr4 & o4 & H4 & H).
  destruct o4 as [[]|e|f]; [|by destruct H..]. destruct H as (tr5 & -> & H).
  rewrite app_assoc in HT. apply kernel_run_app in HT as (T1 & HT1 & HT).
  assert (settled link direct T T1) as S1.
  { eapply (ensure_one link direct T _ true); [|done| |apply exec_bind; by eexists _, (Ret found); eauto|exact HT1].
    - intros nr. unfold forDst, direct. cbn [destination dst_key]. destruct (rt_Dst nr); [done|].
      cbn [dst_key dst_String]. symmetry. by apply bool_decide_eq_false_2.
    - by apply routes_ok_filter. }
  assert (dst_key None ≠ dst_key (Some cidr)) as Hkeys by (cbn [dst_key]; congruence).
  pose proof (settled_other link direct T T1 None Hkeys S1) as E1.
  assert (List.filter (forDst None) T1 = List.filter (forDst None) T) as E1' by (by rewrite !filter_bool_eq).
  apply exec_bind in H as (tr6 & o6 & [-> ->] & tr7 & -> & H).
  apply exec_bind in H as (tr8 & o8 & H8 & H). destruct o8 as [[]|e|f]; [|by destruct H..].
  destruct H as (tr9 & -> & [-> _]). rewrite !app_nil_l, app_nil_r in HT.
  change (bool_decide (gateway default = None)) with false in H8. cbv beta iota in H8.
  exists T1. split; [done|].
  eapply (ensure_one link default T _ false); [|by symmetry| |exact H8|exact HT].
  - intros nr. apply sameDestination_forDst. done.
  - change (destination default) with (@None IPNet). rewrite E1'. by apply routes_ok_filter.
Qed.

Lemma filter_comm {A} (P Q : A → Prop) `{∀ x, Decision (P x), ∀ x, Decision (Q x)} (l : list A) :
  filter P (filter Q l) = filter Q (filter P l).
Proof. rewrite !list_filter_filter. apply list_filter_iff. tauto. Qed.

(** The only element of a list that satisfies [P], found in another. *)
Lemma filter_only_elem {A} (P : A → Prop) `{∀ x, Decision (P x)} (l : list A) x :
  filter P l = [x] → ∀ l' : list A, x ∈ l' → x ∈ filter P l'.
Proof.
  intros Hf l' Hx. apply list_elem_of_filter. split; [|done].
  assert (x ∈ filter P l) as Hin by (rewrite Hf; by left). by apply list_elem_of_filter in Hin as [? _].
Qed.

(** C22: When [ensureRoutes] succeeds the link has exactly one route to the
    VSwitch and one default route, with the metrics that were chosen, each one
    that was there or the one configured, and its other routes are untouched; and
    it can only succeed when there was at most one route to each of the two. *)
Theorem ensureRoutes_converges link cidr gw m1 m2 T tr T' :
  IPNet_String cidr ≠ "0.0.0.0/0" → routes_ok T →
  let direct := mkroute (Some cidr) None m1 in
  let default := mkroute None (Some gw) m2 in
  exec (ensureRoutes link [direct; default]) tr (Ret tt) →
  kernel_run link T tr = Some T' →
  (∀ r, r ∈ [direct; default] → ∃ x,
     filter (λ y, forDst (destination r) y = true) T' = [x] ∧ rt_Priority x = metric r ∧
     (x ∈ T ∨ ∃ scopeLink, x = routeFor link r scopeLink) ∧
     (length (filter (λ y, forDst (destination r) y = true) T) ≤ 1)%nat) ∧
  filter (λ y, forDst (Some cidr) y ≠ true ∧ forDst None y ≠ true) T' =
  filter (λ y, forDst (Some cidr) y ≠ true ∧ forDst None y ≠ true) T.
Proof.
  intros Hcidr Hok direct default H HT.
  destruct (ensureRoutes_settled _ _ _ _ _ _ _ _ Hcidr Hok H HT) as (T1 & S1 & S2).
  assert (dst_key None ≠ dst_key (Some cidr)) as Hkeys by (cbn [dst_key]; congruence).
  pose proof (settled_other link direct T T1 None Hkeys S1) as E1.
  pose proof (settled_other link default T1 T' (Some cidr) (not_eq_sym Hkeys) S2) as E2.
  split.
  - intros r [->|[->|[]%not_elem_of_nil]%elem_of_cons]%elem_of_cons.
    + destruct S1 as [(x & Hf & Hp & Hx) [_ Hl]]. exists x. split_and!; [|done..].
      rewrite <- Hf. exact E2.
    + destruct S2 as [(x & Hf & Hp & Hx) [_ Hl]]. exists x. split_and!; [done..| |].
      2: exact (eq_ind _ (λ l, (length l ≤ 1)%nat) Hl _ E1).
      destruct Hx as [Hx|Hx]; [|by right]. left.
      assert (x ∈ filter (λ y, forDst None y = true) T1) as Hin by exact (filter_only_elem _ _ _ Hf T1 Hx).
      rewrite E1 in Hin. by apply list_elem_of_filter in Hin as [_ ?].
  - destruct S1 as [_ [F1 _]], S2 as [_ [F2 _]].
    change (filter (λ y, forDst None y ≠ true) T' = filter (λ y, forDst None y ≠ true) T1) in F2.
    change (filter (λ y, forDst (Some cidr) y ≠ true) T1 = filter (λ y, forDst (Some cidr) y ≠ true) T) in F1.
    rewrite <- !(list_filter_filter (λ y, forDst (Some cidr) y ≠ true) (λ y, forDst None y ≠ true)).
    by rewrite F2, !(filter_comm (λ y, forDst (Some cidr) y ≠ true)), F1.
Qed.

#[local] Transparent IPNet_String.

(** ** The device as a whole *)

(** The calls that, accepted, change the kernel's configuration. *)
Definition changes (ev : event Host) : bool :=
  match ev with
  | Event c rep =>
      match c as c return host_reply c → bool with
      | AddrAdd _ _ | RouteAdd _ | RouteDel _ | LinkSetMTU _ _ | LinkSetUp _ | LinkSetDown _ =>
          λ rep, match rep with inl _ => true | inr _ => false end
      | _ => λ _, false
      end rep
  end.

(** The only change made to a device in use: its MTU, when jumbo frames are on. *)
Definition quiet (link : Link) (eri : ERI) (ev : event Host) : Prop :=
  changes ev = true →
  eri_JumboFrame eri = true ∧ lk_MTU link ≠ jumboMTU eri ∧
  ev = Event (S:=Host) (LinkSetMTU (lk_Name link) (jumboMTU eri)) (inl tt).

(** The answer to a listing of the link's addresses in which every one is
    link-local, or which failed. *)
Definition unaddressed (link : Link) (ev : event Host) : Prop :=
  ∃ rep, ev = Event (S:=Host) (AddrListAll (lk_Name link)) rep ∧
  match rep with inl addrs => Forall (λ a, ad_LinkLocal a = true) addrs | inr _ => True end.

Lemma quiet_still link eri ev : changes ev = false → quiet link eri ev.
Proof. unfold quiet. congruence. Qed.

Lemma asked_still url header ev : asked url header ev → changes ev = false.
Proof. by intros [rep ->]. Qed.

Lemma ensureMTU_quiet link eri :
  triple (if eri_JumboFrame eri then ensureMTU link (jumboMTU eri) else mret tt)
    (λ tr o, Forall (quiet link eri) tr ∧ ∃ r, o = of_result r).
Proof.
  destruct (eri_JumboFrame eri) eqn:Hj.
  - unfold ensureMTU. destruct (decide _) as [|Hne]; intros tr o H.
    + destruct H as [-> ->]. split; [constructor|by exists (inl tt)].
    + destruct H as (rep & tr' & -> & H). destruct rep as [[]|err]; destruct H as [-> ->];
        (split; [constructor; [|constructor]; unfold quiet|]); [done|by exists (inl tt)|done|by exists (inr err)].
  - intros tr o [-> ->]. split; [constructor|by exists (inl tt)].
Qed.

Section Device.
Context `{Backoff : BackoffLib}.

Lemma GetStr_still url cache :
  triple (GetStrFromMetadata url cache) (λ tr o,
    Forall (λ ev, changes ev = false) tr ∧ ∃ cache' r, o = Ret (cache', r)).
Proof.
  intros tr o Hx. unfold GetStrFromMetadata in Hx. apply exec_bind in Hx as (tr1 & o1 & H1 & Hx).
  apply (getRounds_answer 1) in H1 as (cache' & r & -> & _ & Hf & _). destruct Hx as (tr2 & -> & Hx).
  assert (Forall (λ ev, changes ev = false) tr1) as Hs.
  { eapply Forall_impl; [exact Hf|]. intros ev [Ha|[? Ha]]; by eapply asked_still. }
  destruct r as [body|err]; destruct Hx as [-> ->]; rewrite app_nil_r; eauto.
Qed.

Lemma getNetConf_still mac cache :
  triple (getNetConfFromMetadata mac cache) (λ tr o,
    Forall (λ ev, changes ev = false) tr ∧ ∃ cache' r, o = Ret (cache', r)).
Proof.
  assert (∀ url cache k,
    (∀ p, triple (k p) (λ tr o, Forall (λ ev, changes ev = false) tr ∧
                               ∃ (cache' : option string) (r : result netConf), o = Ret (cache', r))) →
    triple (GetStrFromMetadata url cache ≫= k) (λ tr o,
      Forall (λ ev, changes ev = false) tr ∧ ∃ cache' r, o = Ret (cache', r))) as Hq.
  { intros url c k Hk. apply triple_bind. eapply triple_mono; [apply GetStr_still|].
    intros tr _ (Hf & c' & r & ->). cbn [after]. eapply triple_mono; [apply Hk|].
    intros tr' o [Hf' Ho]. split; [by apply Forall_app|done]. }
  assert (∀ (c : option string) (r : result netConf),
    triple (mret (c, r)) (λ tr o, Forall (λ ev : event Host, changes ev = false) tr ∧
                               ∃ cache' r, o = Ret (cache', r))) as Hr.
  { intros c r tr o [-> ->]. split; [apply Forall_nil_2|eauto]. }
  apply Hq. intros [c1 [addr|err]]; [|apply Hr].
  destruct (ParseIP addr); [|apply Hr]. apply Hq. intros [c2 [cidr|err]]; [|apply Hr].
  destruct (ParseCIDR cidr) as [ipNet|]; [|apply Hr]. apply Hq. intros [c3 [gw|err]]; [|apply Hr].
  destruct (ParseIP gw); [|apply Hr]. apply triple_bind, triple_try.
  intros tr o Hx. unfold genRoutesForAddr in Hx. destruct Hx as (rep & tr' & -> & Hx).
  destruct rep as [l|err]; destruct Hx as [-> ->]; cbn [after]; (eapply triple_mono; [apply Hr|]);
    intros tr2 o2 [Hf Ho]; (split; [by apply Forall_cons|done]).
Qed.

(** *** The programs of this file never panic *)

Definition calm {A} (p : prog Host A) : Prop := triple p (λ _ o, ∃ r, o = of_result r).

Lemma calm_ret {A} (a : A) : calm (mret a).
Proof. intros tr o [-> ->]. by exists (inl a). Qed.

Lemma calm_throw {A} e : calm (throw e : prog Host A).
Proof. intros tr o [-> ->]. by exists (inr e). Qed.

Lemma calm_bind {A B} (p : prog Host A) (f : A → prog Host B) :
  calm p → (∀ a, calm (f a)) → calm (p ≫= f).
Proof.
  intros Hp Hf. apply triple_bind. eapply triple_mono; [apply Hp|].
  intros tr _ [[a|e] ->]; cbn [of_result after]; [apply Hf|by exists (inr e)].
Qed.

Lemma calm_host c : calm (host c).
Proof. intros tr o (r & tr' & -> & -> & ->). by exists (inl r). Qed.

Lemma calm_for_each {A St} (l : list A) (s : St) body :
  (∀ x s, calm (body x s)) → calm (for_each l s body).
Proof. intros H. revert s; induction l; intros s; [apply calm_ret|]. by apply calm_bind. Qed.

Lemma calm_try {A} (p : prog Host A) : calm p → calm (try p).
Proof.
  intros H. apply triple_try. eapply triple_mono; [apply H|]. intros tr _ [[a|e] ->]; by eexists (inl _).
Qed.

Ltac calm :=
  repeat first
    [ progress intros
    | apply calm_ret | apply calm_throw | apply calm_bind | apply calm_for_each
    | match goal with
      | |- calm (host ?c) => apply (calm_host c)
      | |- calm (match ?x with _ => _ end) => destruct x
      | |- calm (if ?x then _ else _) => destruct x
      end ].

Lemma configure_calm link conf : calm (_ ← ensureAddress link conf; ensureRoutes link (conf_routes conf)).
Proof. unfold ensureAddress, ensureRoutes, moveRoutes, wcall, hcall, errorf. calm. Qed.

(** A device that is brought up stays so only when it could be configured. *)
Definition brought (link : Link) (eri : ERI) (tr : trace Host) (r : result unit) : Prop :=
  ∃ tr1 tr2, tr = tr1 ++ Event (S:=Host) (LinkSetUp (lk_Name link)) (inl tt) :: tr2 ∧
    Forall (quiet link eri) tr1 ∧
    (r = inl tt ∨ ∃ rep, last tr2 = Some (Event (S:=Host) (LinkSetDown (lk_Name link)) rep)).

Lemma configureLink_down link conf :
  triple (configureLink link conf) (λ tr o, ∃ r, o = of_result r ∧
    (r = inl tt ∨ ∃ rep, last tr = Some (Event (S:=Host) (LinkSetDown (lk_Name link)) rep))).
Proof.
  intros tr o H. unfold configureLink in H. apply exec_bind in H as (tr1 & o1 & H1 & H).
  apply exec_try in H1 as (o2 & H1 & ->). apply configure_calm in H1 as [[[]|err] ->]; cbn [of_result] in H.
  - destruct H as (tr2 & -> & [-> ->]). exists (inl tt). auto.
  - destruct H as (tr2 & -> & H). destruct H as (rep & tr3 & -> & [-> ->]).
    exists (inr err). split; [done|]. right. exists rep. by rewrite last_snoc.
Qed.

#[local] Opaque ensureMTU.

Lemma bringUp_post link eri conf :
  triple (bringUp link eri conf) (λ tr o, ∃ r, o = of_result r ∧
    (Forall (quiet link eri) tr ∨ brought link eri tr r)).
Proof.
  intros tr o H. unfold bringUp in H. apply exec_bind in H as (tr1 & o1 & H1 & H).
  apply ensureMTU_quiet in H1 as [Hq [[[]|err] ->]]; cbn [of_result] in H.
  - destruct H as (tr2 & -> & H). destruct H as (rep & tr3 & -> & H). destruct rep as [[]|err].
    + apply configureLink_down in H as (r & -> & Hr). exists r. split; [done|]. right. by exists tr1, tr3.
    + destruct H as [-> ->]. exists (inr err). split; [done|]. left.
      apply Forall_app. split; [done|]. by apply Forall_singleton, quiet_still.
  - destruct H as [-> ->]. exists (inr err). auto.
Qed.

Lemma checkUp_post link eri :
  triple (checkUp link eri) (λ tr o, (∃ r, o = of_result r) ∧ Forall (quiet link eri) tr).
Proof.
  intros tr o H. unfold checkUp in H. apply exec_bind in H as (tr1 & o1 & H1 & H).
  apply ensureMTU_quiet in H1 as [Hq [[[]|err] ->]]; cbn [of_result] in H.
  - destruct H as (tr2 & -> & H). destruct H as (rep & tr3 & -> & H).
    assert (tr3 = [] ∧ ∃ r, o = of_result r) as [-> Hr].
    { destruct rep as [l|err]; destruct H as [-> ->]; (split; [done|]); [by exists (inl tt)|by exists (inr err)]. }
    split; [done|]. apply Forall_app. split; [done|]. by apply Forall_singleton, quiet_still.
  - destruct H as [-> ->]. split; [by exists (inr err)|done].
Qed.

#[local] Transparent ensureMTU.
#[local] Opaque getNetConfFromMetadata bringUp checkUp.

(** Configuring a device always answers: with nothing, or with an error. *)
Lemma EnsureNetDevice_ret link eri cache tr o :
  exec (EnsureNetDevice link eri cache) tr o → ∃ cache' r, o = Ret (cache', r).
Proof.
  intros H. unfold EnsureNetDevice in H. destruct (eri_IsPrimaryENI eri); [destruct H as [-> ->]; eauto|].
  apply exec_bind in H as (tr1 & o1 & H1 & H). apply getNetConf_still in H1 as (_ & c1 & r1 & ->).
  destruct H as (tr2 & -> & H). destruct r1 as [conf|err]; [|destruct H as [-> ->]; eauto].
  apply exec_bind in H as (tr3 & o3 & H3 & H).
  assert (∃ down, o3 = Ret down) as [down ->].
  { destruct (negb (lk_OperUp link)); [destruct H3 as [-> ->]; eauto|].
    destruct H3 as (rep & tr' & -> & [-> ->]). eauto. }
  destruct H as (tr4 & -> & H). apply exec_bind in H as (tr5 & o5 & H5 & H).
  apply exec_try in H5 as (o6 & H5 & ->).
  assert (∃ r, o6 = of_result r) as [r ->].
  { destruct down; [apply bringUp_post in H5 as (r & -> & _); eauto|apply checkUp_post in H5 as [[r ->] _]; eauto]. }
  destruct r; destruct H as (tr6 & -> & [-> ->]); eauto.
Qed.

(** C21: A primary ENI is left alone.  A device that is up and has an address
    that is not link-local keeps its configuration but for its MTU, so traffic on
    it is not disrupted; any other device is brought up and configured, and it
    is taken down again whenever configuring it fails. *)
Theorem EnsureNetDevice_safe link eri cache tr o :
  exec (EnsureNetDevice link eri cache) tr o →
  ∃ cache' r, o = Ret (cache', r) ∧
    (eri_IsPrimaryENI eri = true → tr = [] ∧ r = inl tt) ∧
    (Forall (quiet link eri) tr ∨
     brought link eri tr r ∧ (lk_OperUp link = false ∨ Exists (unaddressed link) tr)).
Proof.
  intros H. unfold EnsureNetDevice in H. destruct (eri_IsPrimaryENI eri).
  { destruct H as [-> ->]. exists cache, (inl tt). split_and!; [done..|]. left. apply Forall_nil_2. }
  apply exec_bind in H as (tr1 & o1 & H1 & H). apply getNetConf_still in H1 as (Hs & c1 & r1 & ->).
  assert (Forall (quiet link eri) tr1) as Hq1
    by (eapply Forall_impl; [exact Hs|]; intros; by apply quiet_still).
  destruct H as (tr2 & -> & H). destruct r1 as [conf|err].
  2: { destruct H as [-> ->]. exists c1, (inr err). rewrite app_nil_r. split_and!; [done..|]. by left. }
  apply exec_bind in H as (tr3 & o3 & H3 & H).
  assert (∃ down, o3 = Ret down ∧ Forall (quiet link eri) tr3 ∧
            (down = true → lk_OperUp link = false ∨ Exists (unaddressed link) tr3)) as (down & -> & Hq3 & Hd).
  { destruct (lk_OperUp link); cbn [negb] in H3; [|destruct H3 as [-> ->]; exists true; auto].
    destruct H3 as (rep & tr' & -> & [-> ->]). eexists. split; [done|]. split.
    - by apply Forall_singleton, quiet_still.
    - intros Hdown. right. left. exists rep. split; [done|]. destruct rep as [addrs|]; [|done].
      apply Forall_forall. intros a Ha. apply negb_true_iff in Hdown.
      destruct (ad_LinkLocal a) eqn:Hl; [done|]. exfalso. apply not_true_iff_false in Hdown. apply Hdown.
      apply existsb_exists. exists a. rewrite <- list_elem_of_In. by rewrite Hl. }
  destruct H as (tr4 & -> & H). apply exec_bind in H as (tr5 & o5 & H5 & H).
  apply exec_try in H5 as (o6 & H5 & ->).
  assert (∃ r, o6 = of_result r ∧ (Forall (quiet link eri) tr5 ∨ brought link eri tr5 r ∧ down = true))
    as (r & -> & Hr).
  { destruct down.
    - apply bringUp_post in H5 as (r & -> & Hr). exists r. tauto.
    - apply checkUp_post in H5 as [[r ->] Hq5]. exists r. auto. }
  assert (tr4 = tr5 ∧ o = Ret (c1, r)) as [-> ->].
  { destruct r; destruct H as (tr6 & -> & [-> ->]); by rewrite app_nil_r. }
  exists c1, r. split_and!; [done..|]. destruct Hr as [Hq5|[(ta & tb & -> & Hqa & Hlast) Hdown]].
  - left. by rewrite !Forall_app.
  - right. split.
    + exists (tr1 ++ tr3 ++ ta), tb. split_and!; [by rewrite <- !(assoc_L (++))|by rewrite !Forall_app|done].
    + destruct (Hd Hdown) as [Hdn|Hun]; [by left|right]. rewrite !Exists_app. auto.
Qed.

#[local] Transparent getNetConfFromMetadata bringUp checkUp.

End Device.

(** ** A device on a concrete host *)

Definition d_cidr : IPNet := mkIPNet 167772160 24. (* 10.0.0.0/24 *)
Definition d_gw : IP := 167772413. (* 10.0.0.253 *)
Definition d_link : Link := mkLink "eth1" 3 1500 false (Some []) true.
Definition d_eri : ERI := mkERI "eni-1" false "00:16:3e:00:00:01" "i-1" 0 8 true 0.

(** The kernel's own route to the network of the address, and one elsewhere. *)
Definition d_auto : Route := mkRoute (Some d_cidr) None 3 0 true.
Definition d_other : Route := mkRoute (Some (mkIPNet 3232235776 24)) None 3 100 true.
Definition d_table : list Route := [d_auto; d_other].

(** The metadata server knows the ENI; the device has no address; the table of
    the link is [table], and other links have a default route of metric 100. *)
Definition d_env (table : list Route) (fails : bool) : Env Host := λ h c,
  match c as c return host_reply c with
  | RouteList4 (Some _) => inl table
  | RouteList4 None => inl (mkRoute None (Some 167837949) 2 100 false :: table)
  | RouteAdd r => if fails then inr (ApiError Other "operation not permitted") else inl tt
  | HttpDo _ url _ =>
      inl (200, inl (if decide (url = tokenURL) then "token"
                     else if decide (url = ipUrl "00:16:3e:00:00:01") then "10.0.0.7"
                     else if decide (url = cidrURL "00:16:3e:00:00:01") then "10.0.0.0/24"
                     else "10.0.0.253"))
  | c => plain_reply c
  end.

Lemma selectMetric_ranks_witness :
  selectMetric d_table (Some d_cidr) = 200 ∧
  selectMetric [mkRoute (Some d_cidr) None 3 300 true] (Some d_cidr) = 301 ∧
  rt_Priority d_auto < selectMetric d_table (Some d_cidr).
Proof.
  split; [vm_compute; reflexivity|]. split; [vm_compute; reflexivity|].
  destruct (selectMetric_ranks d_table (Some d_cidr)) as (_ & H & _).
  - repeat (constructor; [split; vm_compute; congruence|]). constructor.
  - apply (H d_auto); [left|vm_compute; reflexivity].
Defined.

Definition d_routes : list route :=
  [mkroute (Some d_cidr) None 200; mkroute None (Some d_gw) 200].

Lemma ensureRoutes_converges_witness :
  ∃ T', kernel_run d_link d_table (run (d_env d_table false) [] (ensureRoutes d_link d_routes)).2 = Some T' ∧
    length T' = 3%nat ∧
    ∃ x, filter (λ y, forDst None y = true) T' = [x] ∧ rt_Priority x = 200.
Proof.
  eexists. split; [vm_compute; reflexivity|]. split; [reflexivity|].
  assert ((run (d_env d_table false) [] (ensureRoutes d_link d_routes)).1 = Ret tt) as E
    by (vm_compute; reflexivity).
  destruct (ensureRoutes_converges d_link d_cidr d_gw 200 200 d_table _
    [routeFor d_link (mkroute None (Some d_gw) 200) false;
     routeFor d_link (mkroute (Some d_cidr) None 200) true; d_other]
    ltac:(vm_compute; discriminate)
    ltac:(apply (bool_decide_eq_true (NoDup _)); vm_compute; reflexivity)
    (run_returns _ _ _ E) ltac:(vm_compute; reflexivity)) as [H _].
  destruct (H (mkroute None (Some d_gw) 200) ltac:(right; left)) as (x & Hf & Hp & _).
  exists x. split; [exact Hf|exact Hp].
Defined.

#[local] Existing Instance plainBackoff.

(** The device is brought up, its routes cannot be added, and it goes down again. *)
Lemma EnsureNetDevice_safe_witness :
  brought d_link d_eri (run (d_env d_table true) [] (EnsureNetDevice d_link d_eri None)).2
    (inr (Errorf "update direct route failed: %v" ["operation not permitted"] None)).
Proof.
  assert ((run (d_env d_table true) [] (EnsureNetDevice d_link d_eri None)).1 =
    Ret (Some "token", inr (Errorf "update direct route failed: %v" ["operation not permitted"] None))) as E
    by (vm_compute; reflexivity).
  destruct (EnsureNetDevice_safe d_link d_eri None _ _ (run_returns _ _ _ E))
    as (cache & r & Er & _ & [Hq|[Hb _]]); injection Er as <- <-; [exfalso|exact Hb].
  assert (Event (S:=Host) (LinkSetUp "eth1") (inl tt) ∈
    (run (d_env d_table true) [] (EnsureNetDevice d_link d_eri None)).2) as Hin.
  { apply (list_elem_of_lookup_2 _ 6%nat). vm_compute. reflexivity. }
  rewrite Forall_forall in Hq. destruct (Hq _ Hin eq_refl) as (_ & _ & Hne). discriminate Hne.
Defined.
