(* ===== verification/Drivers.v ===== *)
(** * Drivers: installing the driver and probing devices

    internal/drivers/{driver,default,compat,ofed,utils}.go and the command
    helpers of utils_linux.go.  A command that is run on the node is either run
    in the host's namespaces or, on a container-optimised OS, in the agent's. *)

From S2P Require Import Prelude Effects GoStr Types Host Metadata DevicePlugin RdmaUtils NetDev.

(** ** Running commands *)

Definition execError (err : error) (output : string) : error :=
  Errorf "exec error: %v, output: %s" [error_string err; output] None.

(** A command line, and its combined output unless it failed *)
Definition command (args : list string) : prog Host (result string) :=
  r ← host (Exec args);
  let '(output, err) := r in
  mret match err with Some err => inr (execError err output) | None => inl output end.

Definition hostExec (cmd : string) : prog Host (result string) :=
  command ["nsenter"; "-t"; "1"; "-m"; "-C"; "--"; "bash"; "-c"; cmd].

Definition containerExec (cmd : string) : prog Host (result string) :=
  command ["bash"; "-c"; cmd].

Definition isContainerOS : prog Host bool :=
  r ← host (Exec ["uname"; "-r"]);
  let '(output, err) := r in
  mret match err with Some _ => false | None => Contains output "lifsea" end.

Definition nodeExec : prog Host (string → prog Host (result string)) :=
  containerOS ← isContainerOS;
  mret (if (containerOS : bool) then containerExec else hostExec).

Definition succeeded {A} (r : result A) : bool := match r with inl _ => true | inr _ => false end.

Definition driverExists : prog Host bool :=
  containerOS ← isContainerOS;
  if (containerOS : bool) then succeeded <$> containerExec "modinfo erdma"
  else succeeded <$> hostExec "stat /bin/eadm && modinfo erdma".

Definition loadNvidiaPeermem (exec : string → prog Host (result string)) : prog Host unit :=
  r ← exec "modinfo nvidia_peermem > /dev/null 2>&1";
  match r with
  | inr _ => mret tt
  | inl _ => _ ← exec "modprobe nvidia_peermem"; mret tt
  end.

Definition EnsureSMCR (exec : string → prog Host (result string)) : prog Host unit :=
  _ ← hcall (exec "modprobe smc"); mret tt.

(** ** Installing *)

Definition defaultErdmaInstallerVersion : string := "latest".

Definition installScript : string :=
"ERDMA_PPID=$(awk '/PPid:/{print $2}' /proc/self/status); if [ -d /sys/fs/cgroup/cpu/ ]; then echo $ERDMA_PPID > /sys/fs/cgroup/cpu/tasks 2>/dev/null || true; echo $ERDMA_PPID > /sys/fs/cgroup/memory/tasks 2>/dev/null || true; else mkdir -p /sys/fs/cgroup/erdma-installer 2>/dev/null || true; echo $ERDMA_PPID > /sys/fs/cgroup/erdma-installer/cgroup.procs 2>/dev/null || true; fi; cd /tmp && rm -f erdma_installer-1.4.6.tar.gz &&
wget 'http://mirrors.cloud.aliyuncs.com/erdma/erdma_installer-%s.tar.gz' -O erdma_installer.tar.gz && tar -xzvf erdma_installer.tar.gz && cd erdma_installer &&
if command -v yum >/dev/null 2>&1; then yum install -y kernel-devel-$(uname -r) gcc-c++ dkms cmake; elif command -v dnf >/dev/null 2>&1; then dnf install -y kernel-devel-$(uname -r) gcc-c++ dkms cmake; elif command -v apt >/dev/null 2>&1; then apt update && apt install -y debhelper autotools-dev dkms libnl-3-dev libnl-route-3-dev cmake; else echo 'no supported package manager (yum/dnf/apt) found' >&2; exit 1; fi &&
ERDMA_CM_NO_BOUND_IF=1 %s ./install.sh --batch".

Definition getInstallScript (compat : bool) (installerVersion : string) : string :=
  let installerVersion :=
    if decide (installerVersion = ε) then defaultErdmaInstallerVersion else installerVersion in
  if compat then render installScript [installerVersion; "ERDMA_FORCE_MAD_ENABLE=1"] ε
  else render installScript [installerVersion; ε] ε.

(** [compat] is only logged. *)
Definition containerOSDriverInstall (compat : bool) : prog Host unit :=
  r ← host (Exec ["/usr/bin/bash"; "-c"; "yum install -y kernel-modules-$(uname -r)"]);
  let '(output, err) := r in
  match err with Some err => throw (execError err output) | None => mret tt end.

Definition gpuInstallScript : string :=
"
cd /tmp && rm -f env_setup.sh && wget http://mirrors.cloud.aliyuncs.com/erdma/env_setup.sh && bash env_setup.sh --egs
".

(** The commands that load the module without and with compatibility mode. *)
Definition modeOff : string :=
  "if [ -f /sys/module/erdma/parameters/compat_mode ] && [ " +:+ dquote +:+ "Y" +:+ dquote +:+ " == $(cat /sys/module/erdma/parameters/compat_mode) ]; then rmmod erdma &&  modprobe erdma compat_mode=N; else modprobe erdma compat_mode=N; fi".

Definition modeOn : string :=
  "if [ -f /sys/module/erdma/parameters/compat_mode ] && [ " +:+ dquote +:+ "N" +:+ dquote +:+ " == $(cat /sys/module/erdma/parameters/compat_mode) ]; then rmmod erdma && modprobe erdma compat_mode=Y; else modprobe erdma compat_mode=Y; fi".

(** The drivers registered on Linux; the version is the only state of one. *)
Inductive ERdmaDriver :=
  | DefaultDriver (erdmaInstallerVersion : string)
  | CompatDriver (erdmaInstallerVersion : string)
  | OFEDDriver.

Definition driver_Name (d : ERdmaDriver) : string :=
  match d with DefaultDriver _ => "default" | CompatDriver _ => "compat" | OFEDDriver => "ofed" end.

Definition SetERdmaInstallerVersion (d : ERdmaDriver) (version : string) : ERdmaDriver :=
  match d with
  | DefaultDriver _ => DefaultDriver version
  | CompatDriver _ => CompatDriver version
  | OFEDDriver => OFEDDriver
  end.

(** A command whose failure ends the function with a message *)
Definition orFail {A} (msg : string) (c : prog Host (result A)) : prog Host A :=
  r ← c; match r with inl a => mret a | inr err => errorf msg [error_string err] end.

(** The first part of [Install] of the default and the compat driver: the
    installer runs when the driver is missing. *)
Definition installMissing (compat : bool) (version : string) : prog Host unit :=
  exist ← driverExists;
  if (exist : bool) then mret tt
  else
    containerOS ← isContainerOS;
    if (containerOS : bool) then containerOSDriverInstall compat
    else _ ← hcall (hostExec (getInstallScript compat version)); mret tt.

Definition DefaultDriver_Install (erdmaInstallerVersion : string) : prog Host unit :=
  _ ← installMissing false erdmaInstallerVersion;
  execMethod ← nodeExec;
  _ ← orFail "install erdma driver failed: %v" (execMethod modeOff);
  EnsureSMCR execMethod.

Definition CompatDriver_Install (erdmaInstallerVersion : string) : prog Host unit :=
  _ ← installMissing true erdmaInstallerVersion;
  execMethod ← nodeExec;
  _ ← orFail "install erdma driver failed: %v" (execMethod modeOn);
  _ ← loadNvidiaPeermem execMethod;
  EnsureSMCR execMethod.

Definition OFEDDriver_Install : prog Host unit :=
  execMethod ← nodeExec;
  exist ← driverExists;
  _ ← (if (exist : bool) then mret tt
       else _ ← hcall (execMethod gpuInstallScript); mret tt);
  _ ← orFail "install erdma driver failed: %v" (execMethod modeOn);
  _ ← orFail "install erdma driver failed: %v" (execMethod "modprobe erdma");
  loadNvidiaPeermem execMethod.

(** The method of the interface *)
Definition Install (d : ERdmaDriver) : prog Host unit :=
  match d with
  | DefaultDriver version => DefaultDriver_Install version
  | CompatDriver version => CompatDriver_Install version
  | OFEDDriver => OFEDDriver_Install
  end.

(** ** Choosing a driver *)

Definition defaultGPUDriver : string := "ofed".
Definition defaultDriver : string := "default".

(** The registry after the [init] functions of the package *)
Definition drivers : gmap string ERdmaDriver :=
  {[ "default" := DefaultDriver ε; "compat" := CompatDriver ε; "ofed" := OFEDDriver ]}.

(** [GetDriver]; the order is that of the range over the registry. *)
Definition GetDriver (drivers : gmap string ERdmaDriver) (name erdmaInstallerVersion : string)
    (order : list nat) : prog Host ERdmaDriver :=
  let chosen := λ d, mret (SetERdmaInstallerVersion d erdmaInstallerVersion) in
  let any :=
    match reorder order (map_to_list drivers).*2 with
    | driver :: _ => chosen driver
    | [] => panic (Panicked "no erdma driver found")
    end in
  if decide (name ≠ ε) then
    match drivers !! name with
    | None => panic (Panicked (render "no erdma driver named %q found" [dquote +:+ name +:+ dquote] ε))
    | Some driver => chosen driver
    end
  else
    r ← hostExec "which nvidia-smi";
    match drivers !! (if succeeded r then defaultGPUDriver else defaultDriver) with
    | Some driver => chosen driver
    | None => any
    end.

(** ** Probing a device *)

(** What each driver's devices are capable of *)
Definition driver_Capabilities (d : ERdmaDriver) : Z :=
  match d with
  | DefaultDriver _ => Z.lor (Z.lor ERDMA_CAP_VERBS ERDMA_CAP_RDMA_CM) ERDMA_CAP_SMC_R
  | CompatDriver _ => Z.lor (Z.lor ERDMA_CAP_VERBS ERDMA_CAP_OOB) ERDMA_CAP_SMC_R
  | OFEDDriver => Z.lor ERDMA_CAP_VERBS ERDMA_CAP_OOB
  end.

Section Probe.
Context `{BackoffLib}.

Definition linkMAC (link : Link) : string := HardwareAddr_String (default [] (lk_HardwareAddr link)).

(** What is learnt of the link of the ERI, once it is configured *)
Definition probeLink (caps : Z) (link : Link) (eri : ERI) : prog Host ERdmaDeviceInfo :=
  rdmaLink ← orFail "get erdma link failed: %v" (try (GetERdmaFromLink link));
  devPaths ← orFail "get erdma dev paths failed: %v" (try (GetERdmaDevPathsFromRdmaLink rdmaLink));
  numa ← orFail "get erdma dev numa failed: %v" (try (GetERDMANumaNode rdmaLink));
  mret (mkERdmaDeviceInfo (rl_Name rdmaLink) (eri_MAC eri) devPaths numa caps).

(** What the three [ProbeDevice] methods have in common: all but the
    capabilities.  The metadata cache is passed and returned. *)
Definition probeWith (caps : Z) (eri : ERI) (cache : option string) :
    prog Host (option string * result ERdmaDeviceInfo) :=
  r ← host LinkList;
  match r with
  | inr err => mret (cache, inr (Errorf "list link failed: %v" [error_string err] None))
  | inl links =>
      match find_first (λ link, lk_IsDevice link && bool_decide (linkMAC link = eri_MAC eri)) links with
      | None => mret (cache, inr (Errorf "erdma device not found" [] None))
      | Some link =>
          '(cache, r) ← EnsureNetDevice link eri cache;
          match r with
          | inr err => mret (cache, inr (Errorf "ensure net device failed: %v" [error_string err] None))
          | inl _ =>
              r ← try (probeLink caps link eri);
              mret (cache, r)
          end
      end
  end.

Definition DefaultDriver_ProbeDevice :=
  probeWith (Z.lor (Z.lor ERDMA_CAP_VERBS ERDMA_CAP_RDMA_CM) ERDMA_CAP_SMC_R).

Definition CompatDriver_ProbeDevice :=
  probeWith (Z.lor (Z.lor ERDMA_CAP_VERBS ERDMA_CAP_OOB) ERDMA_CAP_SMC_R).

Definition OFEDDriver_ProbeDevice := probeWith (Z.lor ERDMA_CAP_VERBS ERDMA_CAP_OOB).

(** The method of the interface *)
Definition ProbeDevice (d : ERdmaDriver) (eri : ERI) (cache : option string) :
    prog Host (option string * result ERdmaDeviceInfo) :=
  match d with
  | DefaultDriver _ => DefaultDriver_ProbeDevice eri cache
  | CompatDriver _ => CompatDriver_ProbeDevice eri cache
  | OFEDDriver => OFEDDriver_ProbeDevice eri cache
  end.

End Probe.

(** ** What an installation runs *)

(** A command that must succeed, or one whose failure is accepted. *)
Inductive step :=
  | Must (args : list string)
  | May (args : list string) (ok : bool).

Definition step_done (s : step) : list string * bool :=
  match s with Must args => (args, true) | May args ok => (args, ok) end.

Definition host_args (cmd : string) : list string :=
  ["nsenter"; "-t"; "1"; "-m"; "-C"; "--"; "bash"; "-c"; cmd].

Definition node_args (containerOS : bool) (cmd : string) : list string :=
  if containerOS then ["bash"; "-c"; cmd] else host_args cmd.

Definition check_args (containerOS : bool) : list string :=
  node_args containerOS (if containerOS then "modinfo erdma" else "stat /bin/eadm && modinfo erdma").

Definition os_installer_args (compat : bool) (version : string) (containerOS : bool) : list string :=
  if containerOS then ["/usr/bin/bash"; "-c"; "yum install -y kernel-modules-$(uname -r)"]
  else host_args (getInstallScript compat version).

Definition installer_args (d : ERdmaDriver) (containerOS : bool) : list string :=
  match d with
  | DefaultDriver version => os_installer_args false version containerOS
  | CompatDriver version => os_installer_args true version containerOS
  | OFEDDriver => node_args containerOS gpuInstallScript
  end.

Definition peermem_plan (node : string → list string) (present ok : bool) : list step :=
  May (node "modinfo nvidia_peermem > /dev/null 2>&1") present ::
  if present then [May (node "modprobe nvidia_peermem") ok] else [].

(** The installer, when the driver is missing; the module in the driver's mode;
    what the driver adds to that. *)
Definition install_plan (d : ERdmaDriver) (containerOS present peermem loaded : bool) : list step :=
  let node := node_args containerOS in
  May (check_args containerOS) present ::
  (if present then [] else [Must (installer_args d containerOS)]) ++
  match d with
  | DefaultDriver _ => [Must (node modeOff); Must (node "modprobe smc")]
  | CompatDriver _ =>
      [Must (node modeOn)] ++ peermem_plan node peermem loaded ++ [Must (node "modprobe smc")]
  | OFEDDriver =>
      [Must (node modeOn); Must (node "modprobe erdma")] ++ peermem_plan node peermem loaded
  end.

Definition uname_args : list string := ["uname"; "-r"].

(** The kernel's name is the same each time it is asked for. *)
Definition uname_says (containerOS : bool) (ev : event Host) : Prop :=
  ∀ output err, ev = Event (S:=Host) (Exec uname_args) (output, err) →
    containerOS = match err with Some _ => false | None => Contains output "lifsea" end.

(** The commands of a trace, other than [uname], and whether each succeeded *)
Definition command_of (ev : event Host) : list (list string * bool) :=
  match ev with
  | Event c rep =>
      match c as c return host_reply c → list (list string * bool) with
      | Exec args => λ rep,
          if decide (args = uname_args) then []
          else [(args, match snd rep with Some _ => false | None => true end)]
      | _ => λ _, []
      end rep
  end.

Definition commands (tr : trace Host) : list (list string * bool) := tr ≫= command_of.

Lemma commands_app tr1 tr2 : commands (tr1 ++ tr2) = commands tr1 ++ commands tr2.
Proof. apply bind_app. Qed.

(** *** Following a plan *)

Section Plan.
Variable os : bool.

(** [p] runs one of the plans [P] relates to the value it returns, or stops with
    an error at a command of such a plan that had to succeed. *)
Definition follows {A} (p : prog Host A) (P : list step → A → Prop) : Prop :=
  ∀ tr o, exec p tr o → Forall (uname_says os) tr →
  match o with
  | Ret a => ∃ plan, P plan a ∧ commands tr = step_done <$> plan
  | Err _ => ∃ pre args post a, P (pre ++ Must args :: post) a ∧
               commands tr = (step_done <$> pre) ++ [(args, false)]
  | Panic _ => False
  end.

Lemma follows_ret {A} (a : A) : follows (mret a) (λ plan a', plan = [] ∧ a' = a).
Proof. intros tr o [-> ->] _. by exists []. Qed.

Lemma follows_mono {A} (p : prog Host A) (P Q : list step → A → Prop) :
  follows p P → (∀ plan a, P plan a → Q plan a) → follows p Q.
Proof.
  intros H HPQ tr o Hx Hu. specialize (H tr o Hx Hu). destruct o as [a|e|f]; [| |done].
  - destruct H as (plan & HP & Hc). eauto.
  - destruct H as (pre & args & post & a & HP & Hc). eauto 8.
Qed.

Lemma follows_bind {A B} (p : prog Host A) (f : A → prog Host B) P Q :
  follows p P → (∀ plan a, P plan a → follows (f a) (Q a)) →
  (∀ plan a, P plan a → ∃ plan b, Q a plan b) →
  follows (p ≫= f) (λ plan b, ∃ plan1 plan2 a, plan = plan1 ++ plan2 ∧ P plan1 a ∧ Q a plan2 b).
Proof.
  intros Hp Hf Hne tr o Hx Hu. apply exec_bind in Hx as (tr1 & o1 & H1 & Hx). destruct o1 as [a|e|x].
  - destruct Hx as (tr2 & -> & H2). apply Forall_app in Hu as [Hu1 Hu2].
    destruct (Hp _ _ H1 Hu1) as (plan1 & HP & Hc1). specialize (Hf plan1 a HP _ _ H2 Hu2).
    rewrite commands_app, Hc1. destruct o as [b|e|x]; [| |done].
    + destruct Hf as (plan2 & HQ & ->). exists (plan1 ++ plan2). rewrite fmap_app. eauto 8.
    + destruct Hf as (pre & args & post & b & HQ & ->). exists (plan1 ++ pre), args, post, b.
      rewrite fmap_app, <- !(assoc_L (++)). eauto 8.
  - destruct Hx as [-> ->]. destruct (Hp _ _ H1 Hu) as (pre & args & post & a & HP & Hc).
    destruct (Hne _ a HP) as (plan2 & b & HQ). exists pre, args, (post ++ plan2), b. split; [|done].
    exists (pre ++ Must args :: post), plan2, a. by rewrite <- (assoc_L (++)).
  - destruct Hx as [-> ->]. by apply (Hp _ _ H1 Hu).
Qed.

Lemma follows_isContainerOS : follows isContainerOS (λ plan a, plan = [] ∧ a = os).
Proof.
  intros tr o ((output & err) & tr' & -> & [-> ->]) Hu. apply Forall_cons in Hu as [Hu _].
  exists []. split; [|done]. split; [done|]. symmetry. by apply Hu.
Qed.

(** A command, whatever its result. *)
Lemma follows_command args :
  args ≠ uname_args →
  follows (command args) (λ plan r, plan = [May args (succeeded r)]).
Proof.
  intros Hne tr o ((output & err) & tr' & -> & [-> ->]) _. cbn [of_result].
  exists [May args (succeeded (match err with Some err => inr (execError err output) | None => inl output end))].
  split; [done|]. unfold commands. cbn [mbind list_bind app]. unfold command_of.
  rewrite decide_False by done. by destruct err.
Qed.

(** A command whose failure ends the function. *)
Lemma follows_must {A} args (k : result string → prog Host A) (g : string → A) :
  args ≠ uname_args →
  (∀ output, k (inl output) = mret (g output)) → (∀ err, ∃ err', k (inr err) = throw err') →
  follows (command args ≫= k) (λ plan _, plan = [Must args]).
Proof.
  intros Hne Hok Hbad tr o H Hu. apply exec_bind in H as (tr1 & o1 & H1 & H).
  destruct H1 as ((output & err) & tr' & -> & [-> ->]).
  assert (commands [Event (S:=Host) (Exec args) (output, err)] =
    [(args, match err with Some _ => false | None => true end)]) as Hc.
  { unfold commands. cbn [mbind list_bind app]. unfold command_of. by rewrite decide_False. }
  destruct H as (tr2 & -> & H). destruct err as [err|].
  - destruct (Hbad (execError err output)) as [err' E]. rewrite E in H. destruct H as [-> ->].
    exists [], args, [], (g ε). by rewrite app_nil_r.
  - rewrite Hok in H. destruct H as [-> ->]. exists [Must args]. by rewrite app_nil_r.
Qed.

Lemma follows_orFail msg args :
  args ≠ uname_args → follows (orFail msg (command args)) (λ plan _, plan = [Must args]).
Proof. intros Hne. apply (follows_must args _ id); [done|done|]. intros err. by eexists. Qed.

Lemma follows_hcall args :
  args ≠ uname_args → follows (hcall (command args)) (λ plan _, plan = [Must args]).
Proof. intros Hne. apply (follows_must args _ id); [done|done|]. intros err. by eexists. Qed.

(** A command that must succeed, and whose output is not used *)
Lemma follows_hcall_tt args :
  args ≠ uname_args →
  follows (_ ← hcall (command args); mret tt) (λ plan _, plan = [Must args]).
Proof.
  intros Hne. eapply follows_mono.
  - apply (follows_bind _ _ _ (λ _ plan a', plan = [] ∧ a' = tt) (follows_hcall args Hne));
      intros pl0 a _; [apply follows_ret|by exists [], tt].
  - intros plan [] (p1 & p2 & a & -> & -> & -> & _). done.
Qed.

Lemma exec_args cmd : (if os then containerExec else hostExec) cmd = command (node_args os cmd).
Proof. by destruct os. Qed.

Lemma node_args_ne cmd : node_args os cmd ≠ uname_args.
Proof. by destruct os. Qed.

Lemma follows_nodeExec :
  follows nodeExec (λ plan a, plan = [] ∧ a = if os then containerExec else hostExec).
Proof.
  eapply follows_mono.
  - apply (follows_bind _ _ _ (λ (c : bool) plan a, plan = [] ∧ a = if c then containerExec else hostExec)
      follows_isContainerOS); intros pl0 c _; [apply follows_ret|eauto].
  - intros plan a (p1 & p2 & c & -> & [-> ->] & -> & ->). done.
Qed.

Lemma follows_driverExists :
  follows driverExists (λ plan present, plan = [May (check_args os) present]).
Proof.
  eapply follows_mono.
  - eapply (follows_bind _ _ _ (λ (c : bool) plan present, plan = [May (check_args c) present])
      follows_isContainerOS).
    + intros pl0 c _. assert (∀ args, args ≠ uname_args →
        follows (succeeded <$> command args) (λ plan present, plan = [May args present])) as Hs.
      { intros args Hne. change (succeeded <$> command args) with (r ← command args; mret (succeeded r)).
        eapply follows_mono.
        - apply (follows_bind (command args) (λ r, mret (succeeded r)) _
            (λ r plan a, plan = [] ∧ a = succeeded r) (follows_command _ Hne));
            intros pl1 r _; [apply follows_ret|eauto].
        - intros ? a (p1 & p2 & r & -> & -> & -> & ->). done. }
      destruct c; by apply Hs.
    + intros pl0 c _. by exists [May (check_args c) true], true.
  - intros plan present (p1 & p2 & c & -> & [-> ->] & ->). done.
Qed.

Lemma follows_peermem node :
  (∀ cmd, node cmd ≠ uname_args) →
  follows (loadNvidiaPeermem (λ cmd, command (node cmd)))
    (λ plan _, ∃ present ok, plan = peermem_plan node present ok).
Proof.
  intros Hne. eapply follows_mono.
  - eapply (follows_bind _ _ _ (λ (r : result string) plan _, ∃ ok, plan = if succeeded r
      then [May (node "modprobe nvidia_peermem") ok] else []) (follows_command _ (Hne _))).
    + intros pl0 [output|err] _.
      * eapply follows_mono.
        -- apply (follows_bind _ _ _ (λ _ plan a', plan = [] ∧ a' = tt) (follows_command _ (Hne _)));
             intros pl1 r _; [apply follows_ret|by exists [], tt].
        -- intros plan a (p1 & p2 & r & -> & -> & -> & _). by eexists.
      * eapply follows_mono; [apply follows_ret|]. intros plan a [-> _]. by exists true.
    + intros pl1 r _. by exists (if succeeded r then [May (node "modprobe nvidia_peermem") true] else []), tt, true.
  - intros plan a (p1 & p2 & r & -> & -> & ok & ->). exists (succeeded r), ok.
    unfold peermem_plan. by destruct (succeeded r).
Qed.

(** Two commands in a row, and the same as a bind whose value is known *)
Lemma follows_seq {A B} (p : prog Host A) (q : prog Host B) P Q :
  follows p (λ plan _, P plan) → follows q (λ plan _, Q plan) → (∃ plan, Q plan) → inhabited B →
  follows (p ≫= λ _, q) (λ plan _, ∃ plan1 plan2, plan = plan1 ++ plan2 ∧ P plan1 ∧ Q plan2).
Proof.
  intros Hp Hq [plan HQ] [b]. eapply follows_mono.
  - apply (follows_bind _ _ _ (λ _ plan _, Q plan) Hp); [intros _ _ _; exact Hq|]. eauto.
  - intros pl _ (p1 & p2 & _ & -> & H1 & H2). eauto.
Qed.

Lemma follows_node {B} (f : (string → prog Host (result string)) → prog Host B) (Q : list step → Prop) :
  follows (f (if os then containerExec else hostExec)) (λ plan _, Q plan) → (∃ plan, Q plan) → inhabited B →
  follows (nodeExec ≫= f) (λ plan _, Q plan).
Proof.
  intros Hf [plan HQ] [b]. eapply follows_mono.
  - apply (follows_bind _ _ _ (λ _ plan _, Q plan) follows_nodeExec); [by intros ? ? [_ ->]|eauto].
  - by intros pl _ (p1 & p2 & _ & -> & [-> _] & H2).
Qed.

Lemma follows_EnsureSMCR :
  follows (EnsureSMCR (if os then containerExec else hostExec))
    (λ plan _, plan = [Must (node_args os "modprobe smc")]).
Proof. unfold EnsureSMCR. rewrite exec_args. apply follows_hcall_tt, node_args_ne. Qed.

Lemma follows_load msg cmd :
  follows (orFail msg ((if os then containerExec else hostExec) cmd))
    (λ plan _, plan = [Must (node_args os cmd)]).
Proof. rewrite exec_args. apply follows_orFail, node_args_ne. Qed.

Lemma follows_peermem_node :
  follows (loadNvidiaPeermem (if os then containerExec else hostExec))
    (λ plan _, ∃ present ok, plan = peermem_plan (node_args os) present ok).
Proof.
  pose proof (follows_peermem (node_args os) node_args_ne) as H. by destruct os.
Qed.

Lemma follows_installMissing compat version :
  follows (installMissing compat version)
    (λ plan _, ∃ present, plan = May (check_args os) present ::
       (if present then [] else [Must (os_installer_args compat version os)])).
Proof.
  eapply follows_mono.
  - eapply (follows_bind _ _ _ (λ (present : bool) plan _,
      plan = if present then [] else [Must (os_installer_args compat version os)]) follows_driverExists).
    + intros pl0 [] _; [eapply follows_mono; [apply follows_ret|by intros ? ? []]|].
      eapply follows_mono.
      * apply (follows_bind _ _ _ (λ (c : bool) plan _, plan = [Must (os_installer_args compat version c)])
          follows_isContainerOS); [|intros pl1 c _; by exists [Must (os_installer_args compat version c)], tt].
        intros pl1 [] _; [|by apply follows_hcall_tt].
        intros tr o H Hu. apply (follows_must ["/usr/bin/bash"; "-c"; "yum install -y kernel-modules-$(uname -r)"]
          (λ r, match r with inl _ => mret tt | inr err => throw err end) (λ _, tt)); [done|done|by eexists| |done].
        destruct H as ((output & err) & tr' & -> & H). eexists (output, err), tr'. split; [done|].
        by destruct err.
      * intros plan a (p1 & p2 & c & -> & [-> ->] & ->). done.
    + intros pl0 present _. by exists (if present then [] else [Must (os_installer_args compat version os)]), tt.
  - intros plan a (p1 & p2 & present & -> & -> & ->). by exists present.
Qed.

End Plan.

(** The plans of the three drivers, part by part *)
Lemma Install_default_follows os version :
  follows os (Install (DefaultDriver version)) (λ plan _, ∃ present,
    plan = install_plan (DefaultDriver version) os present true true).
Proof.
  eapply follows_mono.
  - eapply (follows_seq _ _ _ _ _ (follows_installMissing os false version));
      [eapply (follows_node os (λ execMethod, _ ← orFail _ (execMethod modeOff); EnsureSMCR execMethod));
         [eapply (follows_seq _ _ _ _ _ (follows_load os _ _) (follows_EnsureSMCR os)); [by eexists|done]
         |by eexists; eexists _, _|done]
      |by eexists; eexists _, _|done].
  - intros plan _ (p1 & p2 & -> & (present & ->) & p3 & p4 & -> & -> & ->).
    exists present. by destruct present.
Qed.

Lemma Install_compat_follows os version :
  follows os (Install (CompatDriver version)) (λ plan _, ∃ present peermem loaded,
    plan = install_plan (CompatDriver version) os present peermem loaded).
Proof.
  eapply follows_mono.
  - eapply (follows_seq _ _ _ _ _ (follows_installMissing os true version));
      [eapply (follows_node os (λ execMethod, _ ← orFail _ (execMethod modeOn);
                 _ ← loadNvidiaPeermem execMethod; EnsureSMCR execMethod));
         [eapply (follows_seq _ _ _ _ _ (follows_load os _ _));
            [eapply (follows_seq _ _ _ _ _ (follows_peermem_node os) (follows_EnsureSMCR os)); [by eexists|done]
            |by eexists; eexists _, _; split; [done|split; [by exists true, true|done]]|done]
         |eexists; eexists _, _; split; [done|split; [done|]]; eexists _, _; split; [done|split; [by exists true, true|done]]
         |done]
      |eexists; eexists _, _; split; [done|split; [done|]]; eexists _, _; split; [done|split; [by exists true, true|done]]
      |done].
  - intros plan _ (p1 & p2 & -> & (present & ->) & p3 & p4 & -> & -> & p5 & p6 & -> & (peermem & ok & ->) & ->).
    exists present, peermem, ok. by destruct present.
Qed.

(** What the OFED driver runs once it knows whether the driver is there *)
Lemma ofed_rest_follows os (present : bool) :
  follows os
    (_ ← (if present then mret tt
          else _ ← hcall ((if os then containerExec else hostExec) gpuInstallScript); mret tt);
     _ ← orFail "install erdma driver failed: %v" ((if os then containerExec else hostExec) modeOn);
     _ ← orFail "install erdma driver failed: %v" ((if os then containerExec else hostExec) "modprobe erdma");
     loadNvidiaPeermem (if os then containerExec else hostExec))
    (λ plan _, ∃ peermem ok,
       plan = (if present then [] else [Must (node_args os gpuInstallScript)]) ++
         [Must (node_args os modeOn); Must (node_args os "modprobe erdma")] ++
         peermem_plan (node_args os) peermem ok).
Proof.
  assert (follows os (if present then mret tt
      else _ ← hcall ((if os then containerExec else hostExec) gpuInstallScript); mret tt)
    (λ plan _, plan = if present then [] else [Must (node_args os gpuInstallScript)])) as H1.
  { destruct present; [eapply follows_mono; [apply follows_ret|by intros ? ? []]|].
    rewrite exec_args. apply follows_hcall_tt, node_args_ne. }
  eapply follows_mono.
  - eapply (follows_seq _ _ _ _ _ H1);
      [eapply (follows_seq _ _ _ _ _ (follows_load os _ _));
         [eapply (follows_seq _ _ _ _ _ (follows_load os _ _) (follows_peermem_node os));
            [eexists; by exists true, true|done]
         |eexists; eexists _, _; split; [done|split; [done|by exists true, true]]|done]
      |eexists; eexists _, _; split; [done|split; [done|]]; eexists _, _; split; [done|split; [done|by exists true, true]]
      |done].
  - intros plan _ (p1 & p2 & -> & -> & p3 & p4 & -> & -> & p5 & p6 & -> & -> & (peermem & ok & ->)).
    by exists peermem, ok.
Qed.

Lemma Install_ofed_follows os :
  follows os (Install OFEDDriver) (λ plan _, ∃ present peermem loaded,
    plan = install_plan OFEDDriver os present peermem loaded).
Proof.
  apply follows_node; [|by eexists; exists true, true, true|done].
  eapply follows_mono.
  - eapply (follows_bind _ _ _ _ _ (follows_driverExists os)).
    + intros pl0 present _. apply ofed_rest_follows.
    + intros pl0 present _. eexists _, tt. by exists true, true.
  - intros plan _ (p1 & p2 & present & -> & -> & peermem & ok & ->).
    exists present, peermem, ok. by destruct present.
Qed.

Lemma Install_follows os d :
  follows os (Install d) (λ plan _, ∃ present peermem loaded,
    plan = install_plan d os present peermem loaded).
Proof.
  destruct d as [version|version|].
  - eapply follows_mono; [apply Install_default_follows|]. intros plan _ [present ->]. by exists present, true, true.
  - apply Install_compat_follows.
  - apply Install_ofed_follows.
Qed.

(** C32: An installation runs one fixed plan of commands on the node: the
    installer only when the driver is missing, the module in the mode of the
    driver, SMC-R or the GPU's peer-memory module as the driver asks; when it
    fails, it fails with a command of the plan that has to succeed, and runs
    nothing more.  It never panics. *)
Theorem Install_plan os d tr o :
  exec (Install d) tr o → Forall (uname_says os) tr →
  match o with
  | Ret _ => ∃ present peermem loaded,
      commands tr = step_done <$> install_plan d os present peermem loaded
  | Err _ => ∃ present peermem loaded pre args post,
      install_plan d os present peermem loaded = pre ++ Must args :: post ∧
      commands tr = (step_done <$> pre) ++ [(args, false)]
  | Panic _ => False
  end.
Proof.
  intros H Hu. pose proof (Install_follows os d tr o H Hu) as Hf. destruct o as [a|e|f]; [| |done].
  - destruct Hf as (plan & (present & peermem & loaded & ->) & Hc). eauto.
  - destruct Hf as (pre & args & post & a & (present & peermem & loaded & E) & Hc). eauto 10.
Qed.

(** ** What a probe finds *)

Lemma parse_calm guid : match parseERdmaLinkHwAddr guid with Panic _ => False | _ => True end.
Proof.
  unfold parseERdmaLinkHwAddr. destruct (negb _); [done|].
  set (f := λ s, match ParseUint16_8 s with Some v => Ret v | None => _ end).
  assert (∀ l, match mapM f l with Panic _ => False | _ => True end) as Hm.
  { induction l as [|s l IH]; [exact I|]. change (mapM f (s :: l)) with (v ← f s; k ← mapM f l; mret (v :: k)).
    assert (match f s with Panic _ => False | _ => True end) as Hs
      by (unfold f; by destruct (ParseUint16_8 s)).
    destruct (f s) as [v|e|x]; [|exact I|exact Hs].
    change (mbind ?k (Ret ?a)) with (k a). cbv beta. destruct (mapM f l); [exact I..|exact IH]. }
  specialize (Hm (Split ":" guid)). by destruct (mapM f _).
Qed.

(** The RDMA device [rl] was derived from the hardware address [hw]. *)
Definition derived (rl : RdmaLink) (hw : list Z) : Prop :=
  ∃ addr, parseERdmaLinkHwAddr (rl_NodeGuid rl) = Ret addr ∧
    HardwareAddr_String addr = HardwareAddr_String hw.

Lemma findRdmaLink_post rls hw found :
  triple (findRdmaLink rls hw found) (λ tr o, tr = [] ∧
    match o with
    | Ret (Some rl) => found = Some rl ∨ rl ∈ rls ∧ derived rl hw
    | Panic _ => False
    | _ => True
    end).
Proof.
  revert found; induction rls as [|x rls IH]; intros found tr o H.
  - destruct H as [-> ->]. split; [done|]. destruct found; [by left|done].
  - unfold findRdmaLink in H. cbn [for_each] in H.
    apply exec_bind in H as (tr1 & o1 & H1 & H).
    assert (tr1 = [] ∧ match o1 with
      | Ret (Some rl) => found = Some rl ∨ rl ∈ x :: rls ∧ derived rl hw
      | Panic _ => False | _ => True end) as [-> Ho1].
    { destruct found as [rl|]; [destruct H1 as [-> ->]; auto|].
      pose proof (parse_calm (rl_NodeGuid x)) as Hc.
      destruct (parseERdmaLinkHwAddr (rl_NodeGuid x)) as [addr|e|f] eqn:Hp; [| |done].
      - destruct H1 as [-> ->]. split; [done|]. destruct (decide _) as [E|]; [|done].
        right. split; [by left|]. by exists addr.
      - by destruct H1 as [-> ->]. }
    destruct o1 as [found'|e|f]; [|by destruct H as [-> ->]|done].
    destruct H as (tr2 & -> & H). apply IH in H as [-> Ho]. split; [done|].
    destruct o as [[rl|]|e|f]; [|done..]. destruct Ho as [->|[Hin Hd]]; [done|].
    right. split; [by right|done].
Qed.

(** The address an eRDMA device derives its GUID from. *)
Definition guid_addr (link : Link) : list Z :=
  match default [] (lk_HardwareAddr link) with [] => [] | b :: mac => Z.lxor b 2 :: mac end.

Lemma GetERdmaFromLink_post link :
  triple (GetERdmaFromLink link) (λ tr o,
    match o with
    | Ret rl => ∃ rls, tr = [Event (S:=Host) RdmaLinkList (inl rls)] ∧ rl ∈ rls ∧ derived rl (guid_addr link)
    | Err _ => True
    | Panic _ => default [] (lk_HardwareAddr link) = []
    end).
Proof.
  intros tr o H. unfold GetERdmaFromLink in H. exec_hcall H as (rep & tr1 & -> & H).
  destruct rep as [rls|err]; [|by destruct H as [-> ->]]. unfold guid_addr.
  destruct (default [] (lk_HardwareAddr link)) as [|b mac]; [by destruct H as [-> ->]|].
  change (exec (found ← findRdmaLink rls (Z.lxor b 2 :: mac) None;
    match found with
    | Some rl => mret rl
    | None => errorf "cannot found rdma link for %s" [lk_Name link]
    end) tr1 o) in H.
  apply exec_bind in H as (tr2 & o2 & H2 & H). apply findRdmaLink_post in H2 as [-> Ho2].
  destruct o2 as [found|e|f]; [|by destruct H as [-> ->]|done].
  destruct H as (tr3 & -> & H). destruct found as [rl|]; destruct H as [-> ->]; [|done].
  destruct Ho2 as [?|Hin]; [done|]. by exists rls.
Qed.

Definition devInfiniband (path : string) : Prop := ∃ name, path = "/dev/infiniband/" +:+ name.

Definition ibdev (dev : string) : string := verbsDir +:+ dev +:+ "/ibdev".

Definition rdma_cm : string := "/dev/infiniband/rdma_cm".

(** What is read of a verbs device, and the file it adds: its own when its
    [ibdev] file names the RDMA device *)
Inductive looked_at (rl : RdmaLink) (dev : string) : trace Host → list string → Prop :=
  | no_ibdev err : looked_at rl dev [Event (S:=Host) (Stat (ibdev dev)) (inr err)] []
  | not_read err : looked_at rl dev
      [Event (S:=Host) (Stat (ibdev dev)) (inl tt); Event (S:=Host) (ReadFile (ibdev dev)) (inr err)] []
  | of_other text : Trim newline_char text ≠ rl_Name rl → looked_at rl dev
      [Event (S:=Host) (Stat (ibdev dev)) (inl tt); Event (S:=Host) (ReadFile (ibdev dev)) (inl text)] []
  | of_device text : Trim newline_char text = rl_Name rl → looked_at rl dev
      [Event (S:=Host) (Stat (ibdev dev)) (inl tt); Event (S:=Host) (ReadFile (ibdev dev)) (inl text)]
      ["/dev/infiniband/" +:+ dev].

(** The verbs devices that are listed, each looked at, and then rdma_cm *)
Definition device_files (rl : RdmaLink) (tr : trace Host) (paths : list string) : Prop :=
  ∃ devs looks cm,
    tr = Event (S:=Host) (ReadDir verbsDir) (inl devs) :: mjoin looks.*1 ++
         [Event (S:=Host) (Stat rdma_cm) cm] ∧
    Forall2 (λ dev look, looked_at rl dev look.1 look.2) devs looks ∧
    mjoin looks.*2 ≠ [] ∧
    paths = mjoin looks.*2 ++ match cm with inl _ => [rdma_cm] | inr _ => [] end.

Lemma looked_at_infiniband rl dev tr files : looked_at rl dev tr files → Forall devInfiniband files.
Proof. destruct 1; repeat constructor. by eexists. Qed.

Lemma device_files_infiniband rl tr paths :
  device_files rl tr paths → paths ≠ [] ∧ Forall devInfiniband paths.
Proof.
  intros (devs & looks & cm & _ & Hl & Hne & ->). split; [by destruct (mjoin looks.*2)|].
  apply Forall_app. split.
  - clear Hne. induction Hl as [|dev look devs looks Hd _ IH]; [constructor|].
    apply (Forall_app_2 _ look.2); [by eapply looked_at_infiniband|done].
  - destruct cm; repeat constructor. by exists "rdma_cm".
Qed.

Lemma mjoin_snoc {A} (ll : list (list A)) l : mjoin (ll ++ [l]) = mjoin ll ++ l.
Proof. rewrite join_app. simpl. by rewrite app_nil_r. Qed.

Lemma GetERdmaDevPaths_post rl :
  triple (GetERdmaDevPathsFromRdmaLink rl) (λ tr o,
    match o with
    | Ret paths => device_files rl tr paths
    | Err _ => True
    | Panic _ => False
    end).
Proof.
  intros tr o H. unfold GetERdmaDevPathsFromRdmaLink in H. exec_hcall H as (rep & tr1 & -> & H).
  destruct rep as [names|err]; [|by destruct H as [-> ->]].
  apply exec_bind in H as (tr2 & o2 & H2 & H).
  set (seen := λ l1 tr (paths : list string), ∃ looks, tr = mjoin looks.*1 ∧ paths = mjoin looks.*2 ∧
    Forall2 (λ dev look, looked_at rl dev look.1 look.2) l1 looks).
  assert (∃ paths, o2 = Ret paths ∧ seen names tr2 paths) as (paths & -> & looks & -> & -> & Hl).
  { refine (triple_for_each _ _ _ seen (λ tr o, ∃ paths, o = Ret paths ∧ seen names tr paths)
      _ _ _ _ _ H2).
    - exists []. by split_and!.
    - intros l1 dev l2 tr paths _ (looks & -> & -> & Hl) tr3 o3 H3. fold (ibdev dev) in H3.
      assert (∃ files, o3 = Ret (mjoin looks.*2 ++ files) ∧ looked_at rl dev tr3 files) as (files & -> & Hf).
      { destruct H3 as ([[]|err] & tr4 & -> & H3); [|destruct H3 as [-> ->]; exists []].
        2: { rewrite app_nil_r. split; [done|constructor]. }
        destruct H3 as ([text|err] & tr5 & -> & [-> ->]); [|exists []].
        2: { rewrite app_nil_r. split; [done|constructor]. }
        destruct (decide _); [exists ["/dev/infiniband/" +:+ dev]|exists []; rewrite app_nil_r];
          (split; [done|by constructor]). }
      exists (looks ++ [(tr3, files)]). rewrite !fmap_app. simpl. rewrite (mjoin_snoc looks.*1), (mjoin_snoc looks.*2).
      split_and!; [done..|]. by apply Forall2_app; [|constructor].
    - intros tr' paths Hs. by exists paths. }
  destruct H as (tr3 & -> & H). destruct (decide (mjoin looks.*2 = [])); [by destruct H as [-> ->]|].
  destruct H as (cm & tr4 & -> & [-> ->]). exists names, looks, cm. split_and!; [done..|].
  destruct cm; [done|by rewrite app_nil_r].
Qed.

Lemma GetERDMANumaNode_post rl :
  triple (GetERDMANumaNode rl) (λ _ o,
    match o with Ret numa => 0 ≤ numa | Err _ => True | Panic _ => False end).
Proof.
  intros tr o H. unfold GetERDMANumaNode in H. exec_hcall H as (rep & tr1 & -> & H).
  destruct rep as [s|err]; [|by destruct H as [-> ->]].
  destruct (Atoi _) as [numa|]; destruct H as [-> ->]; [|done].
  destruct (Z.ltb_spec numa 0); lia.
Qed.

Lemma orFail_try {A} msg (p : prog Host A) (Q : trace Host → outcome A → Prop) :
  triple p Q →
  triple (orFail msg (try p)) (λ tr o,
    match o with Ret a => Q tr (Ret a) | Err _ => True | Panic f => Q tr (Panic f) end).
Proof.
  intros Hp tr o H. apply exec_bind in H as (tr1 & o1 & H1 & H). apply exec_try in H1 as (o2 & H1 & ->).
  apply Hp in H1. destruct o2 as [a|e|f]; cbn in H.
  - destruct H as (tr2 & -> & [-> ->]). by rewrite app_nil_r.
  - by destruct H as (tr2 & -> & [-> ->]).
  - by destruct H as [-> ->].
Qed.

Section Probes.
Context `{Backoff : BackoffLib}.

#[local] Opaque GetERdmaFromLink GetERdmaDevPathsFromRdmaLink GetERDMANumaNode.

(** The device that is found for the ERI, once its link is configured *)
Lemma probeLink_post caps link eri :
  triple (probeLink caps link eri) (λ tr o,
    match o with
    | Ret info => info_MAC info = eri_MAC eri ∧ info_Capabilities info = caps ∧ 0 ≤ info_NUMA info ∧
        ∃ rls rl trf trn, tr = Event (S:=Host) RdmaLinkList (inl rls) :: trf ++ trn ∧ rl ∈ rls ∧
          derived rl (guid_addr link) ∧ info_Name info = rl_Name rl ∧
          device_files rl trf (info_DevPaths info)
    | Err _ => True
    | Panic _ => default [] (lk_HardwareAddr link) = []
    end).
Proof.
  intros tr o H. unfold probeLink in H. apply exec_bind in H as (tr1 & o1 & H1 & H).
  unfold orFail at 1 in H1. apply exec_bind in H1 as (tr2 & o2 & H2 & H1).
  apply exec_try in H2 as (o3 & H2 & ->). apply GetERdmaFromLink_post in H2.
  destruct o3 as [rl|e|f]; cbn in H1.
  2: { destruct H1 as (tr3 & -> & [-> ->]). by destruct H as [-> ->]. }
  2: { destruct H1 as [-> ->]. by destruct H as [-> ->]. }
  destruct H1 as (tr3 & -> & [-> ->]). destruct H2 as (rls & -> & Hin & Hd).
  destruct H as (tr4 & -> & H). apply exec_bind in H as (tr5 & o5 & H5 & H).
  apply (orFail_try _ _ _ (GetERdmaDevPaths_post rl)) in H5.
  destruct o5 as [paths|e|f]; [|by destruct H as [-> ->]|done].
  destruct H as (tr6 & -> & H). apply exec_bind in H as (tr7 & o7 & H7 & H).
  apply (orFail_try _ _ _ (GetERDMANumaNode_post rl)) in H7.
  destruct o7 as [numa|e|f]; [|by destruct H as [-> ->]|done].
  destruct H as (tr8 & -> & [-> ->]). cbn [info_MAC info_Capabilities info_NUMA info_DevPaths info_Name].
  split_and!; [done..|]. by eexists rls, rl, tr5, _.
Qed.

#[local] Transparent GetERdmaFromLink GetERdmaDevPathsFromRdmaLink GetERDMANumaNode.
#[local] Opaque EnsureNetDevice probeLink.

Lemma ProbeDevice_with d eri cache : ProbeDevice d eri cache = probeWith (driver_Capabilities d) eri cache.
Proof. by destruct d. Qed.

(** A probe answers with an error, or ends as the probing of the link does. *)
Lemma ProbeDevice_inv d eri cache tr o :
  exec (ProbeDevice d eri cache) tr o →
  (∃ cache' err, o = Ret (cache', inr err)) ∨
  ∃ links link cache' tr2 tr3 o3,
    tr = Event (S:=Host) LinkList (inl links) :: tr2 ++ tr3 ∧
    find_first (λ l, lk_IsDevice l && bool_decide (linkMAC l = eri_MAC eri)) links = Some link ∧
    exec (probeLink (driver_Capabilities d) link eri) tr3 o3 ∧
    o = match o3 with
        | Ret info => Ret (cache', inl info) | Err e => Ret (cache', inr e) | Panic f => Panic f
        end.
Proof.
  rewrite ProbeDevice_with. intros H. unfold probeWith in H. exec_hcall H as (rep & tr1 & -> & H).
  destruct rep as [links|err]; [|destruct H as [-> ->]; eauto].
  destruct (find_first _ links) as [link|] eqn:Hl; [|destruct H as [-> ->]; eauto].
  apply exec_bind in H as (tr2 & o2 & H2 & H). apply EnsureNetDevice_ret in H2 as (c2 & r2 & ->).
  destruct H as (tr3 & -> & H). destruct r2 as [[]|err]; [|destruct H as [-> ->]; eauto].
  apply exec_bind in H as (tr4 & o4 & H4 & H). apply exec_try in H4 as (o5 & H4 & ->).
  right. exists links, link, c2, tr2, tr4, o5. split; [|split; [done|split; [done|]]].
  - destruct o5; cbn in H; [destruct H as (? & -> & [-> _])..|by destruct H as [-> _]]; by rewrite app_nil_r.
  - destruct o5; cbn in H; [by destruct H as (? & _ & [_ ->])..|by destruct H as [_ ->]].
Qed.

(** C31: A probe answers for the first network device with the ERI's MAC address,
    after configuring it: what it returns bears that address, the driver's
    capabilities, a NUMA node that is not negative, the name of an RDMA device
    derived from that network device, and the files of this RDMA device, at least
    one: those of exactly the verbs devices the node lists whose [ibdev] file
    names it, in order, and rdma_cm where it exists.  It never panics for an ERI
    that has an address. *)
Theorem ProbeDevice_finds d eri cache tr o :
  exec (ProbeDevice d eri cache) tr o →
  (∀ f, o = Panic f → eri_MAC eri = ε) ∧
  ∀ cache' info, o = Ret (cache', inl info) →
    info_MAC info = eri_MAC eri ∧ info_Capabilities info = driver_Capabilities d ∧
    0 ≤ info_NUMA info ∧ info_DevPaths info ≠ [] ∧ Forall devInfiniband (info_DevPaths info) ∧
    ∃ links link rls rl, head tr = Some (Event (S:=Host) LinkList (inl links)) ∧
      find_first (λ l, lk_IsDevice l && bool_decide (linkMAC l = eri_MAC eri)) links = Some link ∧
      Event (S:=Host) RdmaLinkList (inl rls) ∈ tr ∧ rl ∈ rls ∧
      derived rl (guid_addr link) ∧ info_Name info = rl_Name rl ∧
      ∃ before trf after, tr = before ++ trf ++ after ∧ device_files rl trf (info_DevPaths info).
Proof.
  intros H. apply ProbeDevice_inv in H as [(c & err & ->)|(links & link & c & tr2 & tr3 & o3 & -> & Hl & H & ->)]; [done|].
  apply probeLink_post in H. destruct o3 as [info|e|f]; [| done |].
  - split; [done|]. intros ? ? [= <- <-].
    destruct H as (? & ? & ? & rls & rl & trf & trn & -> & Hin & Hd & Hn & Hf).
    destruct (device_files_infiniband _ _ _ Hf). split_and!; [done..|].
    exists links, link, rls, rl. split_and!; [done..| |done|done|done|]; [set_solver|].
    exists (Event (S:=Host) LinkList (inl links) :: tr2 ++ [Event (S:=Host) RdmaLinkList (inl rls)]), trf, trn.
    split; [|done]. simpl. by rewrite <- (assoc_L (++)).
  - split; [|done]. intros ? [= <-].
    apply find_first_Some in Hl as (l1 & l2 & _ & Hm & _). apply andb_true_iff in Hm as [_ Hm].
    apply bool_decide_eq_true in Hm. rewrite <- Hm. unfold linkMAC. by rewrite H.
Qed.

#[local] Transparent EnsureNetDevice probeLink.

End Probes.

(** ** A concrete node *)

(** An ordinary kernel, no driver yet, an RDMA device whose NUMA node is unknown. *)
Definition i_env : Env Host := λ h c,
  match c as c return host_reply c with
  | Exec args =>
      if decide (args = uname_args) then ("5.10.134-16.al8.x86_64", None)
      else if decide (args = check_args false) then (ε, Some (ApiError Other "exit status 1"))
      else (ε, None)
  | LinkList => inl [mkLink "lo" 1 65536 true (Some [0; 0; 0; 0; 0; 0]) true;
                     mkLink "eth0" 2 1500 true (Some r_mac0) true]
  | RdmaLinkList => inl (rdma_of <$> r_devs)
  | ReadDir _ => inl ["uverbs0"]
  | ReadFile path =>
      if decide (path = "/sys/class/infiniband/erdma_0/device/numa_node")
      then inl ("-1" +:+ String newline_char ε) else inl ("erdma_0" +:+ String newline_char ε)
  | c => plain_reply c
  end.

Lemma run_says {A} (env : Env Host) output (p : prog Host A) h :
  (∀ h, env h (Exec uname_args) = (output, None)) →
  Forall (uname_says (Contains output "lifsea")) (run env h p).2.
Proof.
  intros He. revert h; induction p as [o|c k IH]; intros h; [constructor|].
  cbn [run]. specialize (IH (env h c) (h ++ [Event c (env h c)])).
  destruct (run env _ (k (env h c))) as [o tr]. constructor; [|exact IH].
  intros output' err E. assert (c = Exec uname_args) as ->.
  { exact (f_equal (λ ev : event Host, match ev with Event c _ => c end) E). }
  apply (Event_inj (S:=Host)) in E. rewrite He in E. by injection E as <- <-.
Qed.

Lemma Install_plan_witness :
  (run i_env [] (Install (DefaultDriver ε))).1 = Ret tt ∧
  ∃ present, commands (run i_env [] (Install (DefaultDriver ε))).2 =
    step_done <$> install_plan (DefaultDriver ε) false present true true ∧ present = false.
Proof.
  assert ((run i_env [] (Install (DefaultDriver ε))).1 = Ret tt) as E by (vm_compute; reflexivity).
  split; [exact E|].
  destruct (Install_plan false (DefaultDriver ε) _ _ (run_returns i_env _ _ E)
    (run_says i_env "5.10.134-16.al8.x86_64" _ [] ltac:(intros h; vm_compute; reflexivity)))
    as (present & peermem & loaded & Hc).
  exists present. split; [exact Hc|]. destruct present; [|reflexivity].
  exfalso. revert Hc. vm_compute. discriminate.
Defined.

Definition i_eri : ERI := mkERI "eni-p" true "00:16:3e:00:00:01" "i-1" 0 8 false 0.

#[local] Existing Instance plainBackoff.

Definition i_info : ERdmaDeviceInfo :=
  mkERdmaDeviceInfo "erdma_0" "00:16:3e:00:00:01"
    ["/dev/infiniband/uverbs0"; "/dev/infiniband/rdma_cm"] 0 7.

Lemma ProbeDevice_finds_witness :
  (run i_env [] (ProbeDevice (DefaultDriver ε) i_eri None)).1 = Ret (None, inl i_info) ∧
  info_Capabilities i_info = driver_Capabilities (DefaultDriver ε) ∧
  ∃ rls rl trf, Event (S:=Host) RdmaLinkList (inl rls) ∈ (run i_env [] (ProbeDevice (DefaultDriver ε) i_eri None)).2 ∧
    rl ∈ rls ∧ info_Name i_info = rl_Name rl ∧ device_files rl trf (info_DevPaths i_info).
Proof.
  assert ((run i_env [] (ProbeDevice (DefaultDriver ε) i_eri None)).1 = Ret (None, inl i_info)) as E
    by (vm_compute; reflexivity).
  split; [exact E|].
  destruct (proj2 (ProbeDevice_finds _ _ _ _ _ (run_returns i_env _ _ E)) _ _ eq_refl)
    as (_ & Hc & _ & _ & _ & links & link & rls & rl & _ & _ & Hin & Hrl & _ & Hn &
        before & trf & after & _ & Hf).
  split; [exact Hc|]. exists rls, rl, trf.
  split; [exact Hin|]. split; [exact Hrl|]. split; [exact Hn|exact Hf].
Defined.
