(* ===== verification/Stacks.v ===== *)
(** * Stacks: the signal handler of internal/agent/agent.go

    [stackTriger] logs the stacks of all goroutines when the agent is sent
    SIGUSR1: it doubles a buffer until [runtime.Stack] leaves room in it. *)

From S2P Require Import Prelude Effects GoStr.

(** ** Definitions *)

(** [runtime.Stack] writes as much of the stacks as fits, and returns how much;
    [size] is the whole of them. *)
Definition runtime_Stack (size len : Z) : Z := Z.min size len.

(** The loop, with the number of calls made so far: the stacks may have another
    size at each.  [None] is that the fuel is used up.  [make] panics for a
    negative length; that it also does above the address space of the machine
    (2^48 bytes) is left out. *)
Fixpoint stackLoop (fuel : nat) (sizes : nat → Z) (calls : nat) (stackSize len bufferLen : Z) :
    option (outcome (Z * Z * nat)) :=
  if stackSize =? len then
    match fuel with
    | O => None
    | S fuel =>
        if bufferLen <? 0 then Some (Panic (Panicked "makeslice: len out of range"))
        else
          let len := bufferLen in
          let stackSize := runtime_Stack (sizes calls) len in
          let bufferLen := int64 (bufferLen * 2) in
          stackLoop fuel sizes (S calls) stackSize len bufferLen
    end
  else Some (Ret (stackSize, len, calls)).

(** One signal: how much was written, the buffer's length, and the calls made *)
Definition stackTriger (fuel : nat) (sizes : nat → Z) : option (outcome (Z * Z * nat)) :=
  stackLoop fuel sizes 0 0 0 16384.

(** ** Termination *)

Lemma int64_double n : 0 ≤ n < 48 → int64 (2 ^ (14 + n) * 2) = 2 ^ (14 + (n + 1)).
Proof.
  intros Hn. replace (2 ^ (14 + n) * 2) with (2 ^ (14 + (n + 1))).
  - apply int64_id. split; [pose proof (Z.pow_pos_nonneg 2 (14 + (n + 1))); lia|].
    apply (Z.le_lt_trans _ (2 ^ 62)); [apply Z.pow_le_mono_r; lia|reflexivity].
  - replace (14 + (n + 1)) with (14 + n + 1) by lia. rewrite (Z.pow_add_r 2 (14 + n) 1) by lia. lia.
Qed.

(** The loop from its [n]th doubling on *)
Lemma stackLoop_ends sizes m n len fuel : (∀ k, 0 ≤ sizes k < 2 ^ 62) →
  n = 48 - Z.of_nat m → 0 ≤ n → (m < fuel)%nat →
  ∃ j, (j ≤ m)%nat ∧
    stackLoop fuel sizes (Z.to_nat n) len len (2 ^ (14 + n)) =
      Some (Ret (sizes (Z.to_nat n + j)%nat, 2 ^ (14 + n + Z.of_nat j), (Z.to_nat n + j + 1)%nat)) ∧
    sizes (Z.to_nat n + j)%nat < 2 ^ (14 + n + Z.of_nat j) ∧
    ∀ i, (i < j)%nat → 2 ^ (14 + n + Z.of_nat i) ≤ sizes (Z.to_nat n + i)%nat.
Proof.
  intros Hs. revert n len fuel. induction m as [|m IH]; intros n len [|fuel] Hn H0 Hf; try lia;
    cbn [stackLoop]; rewrite Z.eqb_refl; (destruct (Z.ltb_spec (2 ^ (14 + n)) 0);
      [pose proof (Z.pow_pos_nonneg 2 (14 + n)); lia|]); cbv zeta; unfold runtime_Stack;
    pose proof (Hs (Z.to_nat n)) as Hsz.
  - assert (n = 48) as -> by lia. exists 0%nat. rewrite !Nat.add_0_r, !Z.add_0_r in *.
    change (14 + 48) with 62. rewrite Z.min_l by lia. split; [lia|]. split; [|split; [lia|lia]].
    rewrite Nat.add_1_r. destruct fuel; simpl; (destruct (Z.eqb_spec (sizes (Z.to_nat 48)) (2 ^ 62)); [lia|done]).
  - destruct (Z.lt_ge_cases (sizes (Z.to_nat n)) (2 ^ (14 + n))) as [Hlt|Hge].
    + exists 0%nat. rewrite !Nat.add_0_r, !Z.add_0_r, Z.min_l by lia. split; [lia|]. split; [|split; [lia|lia]].
      rewrite Nat.add_1_r. destruct fuel; simpl; (destruct (Z.eqb_spec (sizes (Z.to_nat n)) (2 ^ (14 + n))); [lia|done]).
    + rewrite Z.min_r, int64_double by lia.
      destruct (IH (n + 1) (2 ^ (14 + n)) fuel) as (j & Hj & E & Hlt & Hall); [lia..|].
      replace (Z.to_nat (n + 1)) with (S (Z.to_nat n)) in * by lia.
      exists (S j). replace (Z.to_nat n + S j)%nat with (S (Z.to_nat n) + j)%nat by lia.
      replace (14 + n + Z.of_nat (S j)) with (14 + (n + 1) + Z.of_nat j) by lia.
      split; [lia|]. split; [exact E|]. split; [done|]. intros [|i] Hi; [by rewrite Nat.add_0_r, Z.add_0_r|].
      replace (Z.to_nat n + S i)%nat with (S (Z.to_nat n) + i)%nat by lia.
      replace (14 + n + Z.of_nat (S i)) with (14 + (n + 1) + Z.of_nat i) by lia. apply Hall. lia.
Qed.

(** C38: The handler ends after at most 49 calls, without a panic, however the
    stacks grow between them, as long as they fit in memory: it has then the
    whole of the stacks, in a buffer of less than twice what they measured at the
    call before, and every call but the last filled its buffer. *)
Theorem stackTriger_ends sizes fuel :
  (∀ k, 0 ≤ sizes k < 2 ^ 62) → (49 ≤ fuel)%nat →
  ∃ j, (j < 49)%nat ∧ stackTriger fuel sizes = Some (Ret (sizes j, 16384 * 2 ^ Z.of_nat j, (j + 1)%nat)) ∧
    sizes j < 16384 * 2 ^ Z.of_nat j ∧
    (∀ i, (i < j)%nat → 16384 * 2 ^ Z.of_nat i ≤ sizes i) ∧
    (j ≠ 0%nat → 16384 * 2 ^ Z.of_nat j ≤ 2 * sizes (j - 1)%nat).
Proof.
  intros Hs Hf. destruct (stackLoop_ends sizes 48 0 0 fuel Hs) as (j & Hj & E & Hlt & Hall); [lia..|].
  assert (∀ i, 2 ^ (14 + 0 + Z.of_nat i) = 16384 * 2 ^ Z.of_nat i) as Hp.
  { intros i. rewrite Z.add_0_r, Z.pow_add_r by lia. reflexivity. }
  rewrite Hp in E, Hlt. simpl Z.to_nat in *. exists j. split; [lia|]. split; [exact E|]. split; [exact Hlt|].
  assert (∀ i, (i < j)%nat → 16384 * 2 ^ Z.of_nat i ≤ sizes i) as Hfull.
  { intros i Hi. rewrite <- Hp. by apply Hall. }
  split; [done|]. intros H0. specialize (Hfull (j - 1)%nat ltac:(lia)).
  replace (Z.of_nat j) with (Z.of_nat (j - 1) + 1) by lia. rewrite Z.pow_add_r by lia. lia.
Qed.

(** Stacks of forty thousand bytes need a second doubling. *)
Lemma stackTriger_ends_witness :
  stackTriger 49 (λ _, 40000) = Some (Ret (40000, 65536, 3%nat)) ∧ ∃ j, stackTriger 49 (λ _, 40000) =
    Some (Ret (40000, 16384 * 2 ^ Z.of_nat j, (j + 1)%nat)) ∧ (j < 49)%nat.
Proof.
  split; [vm_compute; reflexivity|].
  destruct (stackTriger_ends (λ _, 40000) 49) as (j & Hj & E & _); [intros k; lia|lia|].
  exists j. split; [exact E|exact Hj].
Defined.
