(* ===== verification/Agent.v ===== *)
(** * Agent: internal/agent/agent.go and internal/k8s/k8s.go

    The agent of a node: it waits for the node's [ERdmaDevice], or finds the
    local ERIs, installs the driver, probes every device, sets the SMC-R
    network ids as well as it can, and serves the device plugin. *)

From S2P Require Import Prelude Effects GoStr Types Host Metadata DevicePlugin PluginServer RdmaUtils.
From S2P Require Import NetDev PodConfig Drivers.

(** ** Definitions *)

(** [Agent]; of the Kubernetes client only the node's name is kept. *)
Record Agent := mkAgent {
  ag_nodeName : string;
  ag_driver : ERdmaDriver;
  ag_allocAllDevices : bool;
  ag_devicepluginPreStart : bool;
  ag_localERIDiscovery : bool;
  ag_exposedLocalERIs : list string;
  ag_jumboFrameMTU : Z
}.

(** [NewKubernetes]: the node's name; a missing configuration ends the process. *)
Definition NewKubernetes : prog Host string :=
  restConfig ← host GetRestConfig;
  match restConfig with
  | inr _ => panic (Fatal "unable to get kubeconfig")
  | inl _ =>
      _ ← hcall (host NewK8sClient);
      nodeName ← Getenv "NODE_NAME";
      if decide (nodeName = ε) then errorf "failed to get NODE_NAME" [] else mret nodeName
  end.

(** [NewAgent]; [order] is that of the map of drivers. *)
Definition NewAgent (preferDriver : string)
    (allocAllDevice devicepluginPreStart localERIDiscovery : bool)
    (exposedLocalERIs erdmaInstallerVersion : string) (jumboFrameMTU : Z) (order : list nat) :
    prog Host Agent :=
  nodeName ← NewKubernetes;
  driver ← GetDriver drivers preferDriver erdmaInstallerVersion order;
  mret (mkAgent nodeName driver allocAllDevice devicepluginPreStart localERIDiscovery
          (Split "," exposedLocalERIs) jumboFrameMTU).

(** [WaitEriInfo]: the first device the API server lists for the node.  The
    list is asked for once a minute for as long as it is empty; [None] is that
    it is still empty after [polls] times. *)
Fixpoint WaitEriInfo (polls : nat) (nodeName : string) : prog Host (option ERdmaDevice) :=
  match polls with
  | O => mret None
  | S polls =>
      r ← host (ListERdmaDevices nodeName);
      match r with
      | inr err =>
          errorf "failed to wait erdma devices, %v"
            [error_string (Errorf "failed to list erdma devices, %v" [error_string err] None)]
      | inl [] => WaitEriInfo polls nodeName
      | inl (device :: _) => mret (Some device)
      end
  end.

Section Run.
Context `{BackoffLib}.

Definition localDeviceInfo (item : ERI) : DeviceInfo :=
  mkDeviceInfo (eri_InstanceID item) (eri_MAC item) (eri_IsPrimaryENI item) (eri_ID item)
    (eri_CardIndex item) (eri_QueuePair item).

(** The object made up from the local ERIs *)
Definition localDevice (eris : list ERI) : ERdmaDevice :=
  mkERdmaDevice (mkObjectMeta ε ∅ [] [] None)
    (mkERdmaDeviceSpec (localDeviceInfo <$> eris) false) (mkERdmaDeviceStatus []).

(** Every local ERI is exposed when the option is not given. *)
Definition exposesAll (exposedLocalERIs : list string) : bool :=
  bool_decide (exposedLocalERIs = [ε]).

(** The device to serve, and whether requests get all of it *)
Definition eriInfos (polls : nat) (a : Agent) (cache : option string) :
    prog Host (option (option string * bool * ERdmaDevice)) :=
  if negb (ag_localERIDiscovery a) then
    found ← WaitEriInfo polls (ag_nodeName a);
    mret match found with
         | Some device => Some (cache, ag_allocAllDevices a, device)
         | None => None
         end
  else
    let allocAllDevices :=
      if negb (exposesAll (ag_exposedLocalERIs a)) then true else ag_allocAllDevices a in
    '(cache, eris) ← orFail "LocalERIDiscovery: select eri failed: %v"
      (try (SelectLocalERIs (ag_exposedLocalERIs a) cache));
    mret (Some (cache, allocAllDevices, localDevice eris)).

Definition eriOfDevice (device : ERdmaDevice) (jumboFrameMTU : Z) (info : DeviceInfo) : ERI :=
  mkERI (dev_ID info) (dev_IsPrimaryENI info) (dev_MAC info) (dev_InstanceID info)
    (dev_NetworkCardIndex info) 0 (spec_JumboFrame (device_Spec device)) jumboFrameMTU.

Definition probeDevices (a : Agent) (device : ERdmaDevice) (cache : option string) :
    prog Host (option string * list ERdmaDeviceInfo) :=
  for_each (spec_Devices (device_Spec device)) (cache, []) (λ info s,
    '(cache, r) ← ProbeDevice (ag_driver a) (eriOfDevice device (ag_jumboFrameMTU a) info) s.1;
    match r with
    | inr err => errorf "probe device failed, err: %v" [error_string err]
    | inl deviceInfo => mret (cache, s.2 ++ [deviceInfo])
    end).

(** The SMC-R network ids are an acceleration only: a failure is logged. *)
Definition configPnets (erdmaDevices : list ERdmaDeviceInfo) : prog Host unit :=
  for_each erdmaDevices tt (λ deviceInfo _,
    if cap_has (info_Capabilities deviceInfo) ERDMA_CAP_SMC_R
    then _ ← try (ConfigSMCPnetForDevice (Some deviceInfo)); mret tt
    else mret tt).

(** [NewERDMADevicePlugin] with the calls it makes, its server and the clients
    of the container runtime, which are made only for the hook *)
Definition newPlugin (a : Agent) (allocAllDevices : bool) (devices : list ERdmaDeviceInfo)
    (c : Clients) : prog Host (Clients * ERDMADevicePlugin * Server) :=
  let allocRdmaCM := bool_decide (driver_Name (ag_driver a) = "default") in
  '(c, cri) ← (if ag_devicepluginPreStart a then initCriClient runtimeEndpoints c
               else mret (c, inl tt));
  match cri with
  | inr err => errorf "new erdma device plugin failed, err: %v" [error_string err]
  | inl _ =>
      now ← host Now;
      hasRdmaCM ← (if allocRdmaCM
                   then succeeded <$> host (Stat ("/proc/1/root" +:+ rdmaCMDevice))
                   else mret false);
      plugin ← moutcome (NewERDMADevicePlugin devices allocAllDevices (ag_devicepluginPreStart a)
                           allocRdmaCM cri hasRdmaCM);
      mret (c, plugin, newServer (now / 1000000000) (ag_devicepluginPreStart a))
  end.

(** [Run]: [polls] bounds the waiting, [ticks] the serving; [None] is that the
    device has not appeared yet. *)
Definition Run (polls ticks : nat) (a : Agent) (cache : option string) :
    prog Host (option (Clients * ERDMADevicePlugin * Server)) :=
  infos ← eriInfos polls a cache;
  match infos with
  | None => mret None
  | Some (cache, allocAllDevices, device) =>
      _ ← orFail "install eri driver failed, err: %v" (try (Install (ag_driver a)));
      '(cache, erdmaDevices) ← probeDevices a device cache;
      _ ← configPnets erdmaDevices;
      '(clients, plugin, server) ← newPlugin a allocAllDevices erdmaDevices noClients;
      server ← Serve ticks server;
      mret (Some (clients, plugin, server))
  end.

(** The flags of cmd/agent/main.go *)
Record AgentFlags := mkAgentFlags {
  fl_preferDriver : string;
  fl_allocAllDevices : bool;
  fl_devicepluginPreStart : bool;
  fl_localERIDiscovery : bool;
  fl_exposedLocalERIs : string;
  fl_erdmaInstallerVersion : string;
  fl_jumboFrameMTU : Z
}.

Definition defaultAgentFlags : AgentFlags := mkAgentFlags ε false false false ε "1.5.9" 8500.

(** [panic(err)] *)
Definition orPanic {A} (p : prog Host A) : prog Host A :=
  r ← try p; match r with inl a => mret a | inr err => panic (Panicked (error_string err)) end.

Definition agentMain (polls ticks : nat) (f : AgentFlags) (order : list nat) :
    prog Host (option (Clients * ERDMADevicePlugin * Server)) :=
  eriAgent ← orPanic (NewAgent (fl_preferDriver f) (fl_allocAllDevices f) (fl_devicepluginPreStart f)
    (fl_localERIDiscovery f) (fl_exposedLocalERIs f) (fl_erdmaInstallerVersion f) (fl_jumboFrameMTU f) order);
  orPanic (Run polls ticks eriAgent None).

End Run.

(** ** What the agent serves *)

(** The device [info] was found for the entry [d] of the object. *)
Definition probed (a : Agent) (d : DeviceInfo) (info : ERdmaDeviceInfo) : Prop :=
  info_MAC info = dev_MAC d ∧ info_Capabilities info = driver_Capabilities (ag_driver a) ∧
  info_DevPaths info ≠ [].

(** The messages of the agent's own errors *)
Definition agent_errors : list string :=
  ["failed to wait erdma devices, %v"; "LocalERIDiscovery: select eri failed: %v";
   "install eri driver failed, err: %v"; "probe device failed, err: %v";
   "new erdma device plugin failed, err: %v"].

Definition agent_error (e : error) : Prop :=
  ∃ msg args, e = Errorf msg args None ∧ msg ∈ agent_errors.

Lemma WaitEriInfo_post polls nodeName :
  triple (WaitEriInfo polls nodeName) (λ tr o,
    match o with
    | Ret (Some d) => ∃ rest, Event (S:=Host) (ListERdmaDevices nodeName) (inl (d :: rest)) ∈ tr
    | Ret None => length tr = polls
    | Err e => agent_error e
    | Panic _ => False
    end).
Proof.
  induction polls as [|polls IH]; intros tr o H; [by destruct H as [-> ->]|].
  cbn [WaitEriInfo] in H. exec_hcall H as (rep & tr' & -> & H). destruct rep as [[|d rest]|err].
  - apply IH in H. destruct o as [[d|]|e|f]; [|simpl; lia|done..].
    destruct H as [rest Hin]. exists rest. by right.
  - destruct H as [-> ->]. exists rest. by left.
  - destruct H as [-> ->]. eexists _, _. split; [done|]. by left.
Qed.

Lemma orFail_error {A} msg (p : prog Host (result A)) tr e :
  (∀ tr' e', ¬ exec p tr' (Err e')) → exec (orFail msg p) tr (Err e) →
  ∃ args, e = Errorf msg args None.
Proof.
  intros Hp H. apply exec_bind in H as (tr1 & o1 & H1 & H). destruct o1 as [[a|err]|e1|f].
  - by destruct H as (tr2 & -> & [_ ?]).
  - destruct H as (tr2 & -> & [-> [= ->]]). by eexists.
  - by destruct (Hp _ _ H1).
  - by destruct H.
Qed.

Lemma try_no_error {A} (p : prog Host A) tr e : ¬ exec (try p) tr (Err e).
Proof. intros (o & _ & E)%exec_try. by destruct o. Qed.

(** Installing and setting up SMC-R never panic. *)
Lemma command_panics P args : panics P (command args).
Proof. unfold command. panics_with ltac:(by panics_hcall). Qed.

Lemma isContainerOS_panics P : panics P isContainerOS.
Proof. unfold isContainerOS. panics_with ltac:(by panics_hcall). Qed.

Lemma nodeExec_panics P {A} (f : (string → prog Host (result string)) → prog Host A) :
  panics P (f containerExec) → panics P (f hostExec) → panics P (nodeExec ≫= f).
Proof.
  intros Hc Hh tr o H. apply exec_bind in H as (tr1 & o1 & H1 & H).
  apply exec_bind in H1 as (tr2 & o2 & H2 & H1). pose proof (isContainerOS_panics P _ _ H2) as Hp.
  destruct o2 as [os|e|f']; [|by destruct H1 as [-> ->]; destruct H as [_ ->]..].
  destruct H1 as (tr3 & -> & [-> ->]). destruct H as (tr4 & -> & H). destruct os; [by apply Hc in H|by apply Hh in H].
Qed.

Lemma Install_panics d : panics (λ _, False) (Install d).
Proof.
  destruct d; unfold Install, DefaultDriver_Install, CompatDriver_Install, OFEDDriver_Install, installMissing,
    driverExists, EnsureSMCR, loadNvidiaPeermem, containerOSDriverInstall, orFail, hcall;
    panics_with ltac:(first [panics_hcall|apply isContainerOS_panics|apply command_panics
      |apply nodeExec_panics; panics_with ltac:(first [apply isContainerOS_panics|apply command_panics])]).
Qed.

Lemma ConfigSMCPnetForDevice_panics info : panics (λ _, False) (ConfigSMCPnetForDevice (Some info)).
Proof. unfold ConfigSMCPnetForDevice. panics_with ltac:(first [panics_hcall|by apply panics_outcome]). Qed.

Section Served.
Context `{Backoff : BackoffLib}.

#[local] Opaque WaitEriInfo SelectLocalERIs ProbeDevice Install Serve ConfigSMCPnetForDevice.

Lemma eriInfos_post polls a cache :
  triple (eriInfos polls a cache) (λ tr o,
    match o with
    | Ret (Some (_, all, d)) =>
        all = ag_allocAllDevices a ||
              (ag_localERIDiscovery a && negb (exposesAll (ag_exposedLocalERIs a))) ∧
        (ag_localERIDiscovery a = false →
         ∃ rest, Event (S:=Host) (ListERdmaDevices (ag_nodeName a)) (inl (d :: rest)) ∈ tr)
    | Ret None => ag_localERIDiscovery a = false ∧ length tr = polls
    | Err e => agent_error e
    | Panic _ => ag_localERIDiscovery a = true
    end).
Proof.
  intros tr o H. unfold eriInfos in H. destruct (ag_localERIDiscovery a); cbn [negb] in H.
  - apply exec_bind in H as (tr1 & o1 & H1 & H). destruct o1 as [[c eris]|e|f]; [| |by destruct H as [-> ->]].
    + destruct H as (tr2 & -> & [-> ->]). split; [|done].
      destruct (exposesAll _), (ag_allocAllDevices a); done.
    + destruct H as [-> ->]. apply orFail_error in H1 as [args ->]; [|by intros ??; apply try_no_error].
      eexists _, _. split; [done|]. right; by left.
  - apply exec_bind in H as (tr1 & o1 & H1 & H). apply WaitEriInfo_post in H1.
    destruct o1 as [[d|]|e|f]; [| |by destruct H as [-> ->]|done].
    + destruct H as (tr2 & -> & [-> ->]). rewrite app_nil_r, andb_false_l, orb_false_r. auto.
    + destruct H as (tr2 & -> & [-> ->]). by rewrite app_nil_r.
Qed.

Lemma probeDevices_post a device cache :
  triple (probeDevices a device cache) (λ _ o,
    match o with
    | Ret (_, infos) => Forall2 (probed a) (spec_Devices (device_Spec device)) infos
    | Err e => agent_error e
    | Panic _ => ∃ d, d ∈ spec_Devices (device_Spec device) ∧ dev_MAC d = ε
    end).
Proof.
  apply (triple_for_each _ _ _ (λ done_ _ s, Forall2 (probed a) done_ s.2)); [constructor| |].
  - intros l1 d l2 tr [c infos] El Hinfos tr' o H. cbn [fst snd] in *.
    apply exec_bind in H as (tr1 & o1 & H1 & H).
    apply ProbeDevice_inv in H1 as [(c1 & err & ->)|(links & link & c1 & tr2 & tr3 & o3 & _ & Hl & H3 & ->)].
    + destruct H as (tr2 & -> & [-> ->]). eexists _, _. split; [done|]. do 3 right. by left.
    + apply probeLink_post in H3. destruct o3 as [info|e|f].
      * destruct H as (tr4 & -> & [-> ->]). cbn [snd]. apply Forall2_app; [done|].
        destruct H3 as (Hm & Hc & _ & rls & rl & trf & trn & _ & _ & _ & _ & Hf).
        destruct (device_files_infiniband _ _ _ Hf) as [Hp _]. by repeat constructor.
      * destruct H as (tr4 & -> & [-> ->]). eexists _, _. split; [done|]. do 3 right. by left.
      * destruct H as [-> ->]. exists d. split; [rewrite El; set_solver|].
        apply find_first_Some in Hl as (_ & _ & _ & Hm%andb_true_iff & _). destruct Hm as [_ Hm%bool_decide_eq_true].
        change (linkMAC link = dev_MAC d) in Hm. rewrite <- Hm. unfold linkMAC. by rewrite H3.
  - intros tr [c infos] H. exact H.
Qed.

Lemma configPnets_post infos : triple (configPnets infos) (λ _ o, o = Ret tt).
Proof.
  induction infos as [|info infos IH]; intros tr o H; [by destruct H as [-> ->]|].
  apply exec_bind in H as (tr1 & o1 & H1 & H). assert (o1 = Ret tt) as ->.
  { destruct (cap_has _ _); [|by destruct H1 as [_ ->]].
    apply exec_bind in H1 as (tr2 & o2 & H2 & H1). apply exec_try in H2 as (o3 & H2 & ->).
    apply ConfigSMCPnetForDevice_panics in H2.
    destruct o3; [by destruct H1 as (? & _ & [_ ->])..|done]. }
  destruct H as (tr2 & -> & H). by apply IH in H.
Qed.

(** The client a successful connection leaves *)
Lemma initCriClient_set eps tr o : exec (initCriClient eps noClients) tr o →
  ∃ c r, o = Ret (c, r) ∧ (r = inl tt → is_Some (cl_criClient c)).
Proof.
  unfold initCriClient. cbn [cl_criClient noClients]. intros H. exec_hcall H as (env & tr1 & -> & H).
  destruct env as [sock|].
  - exec_hcall H as (st & tr2 & -> & H). destruct (missing st).
    { destruct H as [_ ->]. by eexists _, _. }
    apply exec_bind in H as (tr3 & o3 & H3 & H).
    apply assignCriClient_exec in H3 as (c & r & -> & _ & Hr). destruct H as (tr4 & -> & H).
    destruct r as [[]|err]; [|by destruct H as [_ ->]; eexists _, _].
    destruct Hr as (service & Hs & _). case_decide; [|destruct H as [_ ->]; by eexists _, _].
    unfold initDockerClient in H. exec_hcall H as (r & tr5 & -> & [_ ->]).
    eexists _, _. split; [done|]. intros _. cbn. by rewrite Hs.
  - apply exec_bind in H as (tr1' & o1 & H1 & H). apply tryCandidates_exec in H1; [|done].
    destruct H1 as (c & found & -> & Hf). destruct H as (tr2 & -> & [_ ->]).
    eexists _, _. split; [done|]. intros Hr. destruct found; [|done].
    destruct Hf as (? & ? & ? & ? & ? & service & _ & _ & _ & _ & ->). by eexists.
Qed.

Lemma newPlugin_post a all infos :
  triple (newPlugin a all infos noClients) (λ _ o,
    match o with
    | Ret (c, m, server) => dp_devices m = deviceMap infos ∧ dp_allocAllDevices m = all ∧
        (dp_allocRdmaCM m = true → driver_Name (ag_driver a) = "default") ∧
        (ag_devicepluginPreStart a = true → is_Some (cl_criClient c)) ∧
        ∃ now, server = newServer now (ag_devicepluginPreStart a)
    | Err e => agent_error e
    | Panic _ => False
    end).
Proof.
  intros tr o H. unfold newPlugin in H. apply exec_bind in H as (tr0 & o0 & H0 & H).
  assert (∃ c r, o0 = Ret (c, r) ∧ (r = inl tt → ag_devicepluginPreStart a = true → is_Some (cl_criClient c)))
    as (c & cri & -> & Hcri).
  { destruct (ag_devicepluginPreStart a); [|destruct H0 as [_ ->]; by eexists _, _].
    apply initCriClient_set in H0 as (c & r & -> & Hr). eauto. }
  destruct H as (tr1 & -> & H). destruct cri as [[]|err].
  2: { destruct H as [-> ->]. eexists _, _. split; [done|]. do 4 right. by left. }
  exec_hcall H as (now & tr2 & -> & H). apply exec_bind in H as (tr3 & o3 & H3 & H).
  assert (∃ has, o3 = Ret has ∧ (has = true → driver_Name (ag_driver a) = "default")) as (has & -> & Hh).
  { destruct (bool_decide _) eqn:Hd in H3.
    - apply bool_decide_eq_true in Hd. destruct H3 as (rep & tr4 & -> & [_ ->]). eauto.
    - destruct H3 as [_ ->]. by exists false. }
  destruct H as (tr4 & -> & H). unfold NewERDMADevicePlugin in H.
  assert (o = Ret (c, mkPlugin (deviceMap infos) all (ag_devicepluginPreStart a)
      (bool_decide (driver_Name (ag_driver a) = "default") && has),
      newServer (now / 1000000000) (ag_devicepluginPreStart a))) as ->.
  { by destruct (ag_devicepluginPreStart a), H as [_ ->]. }
  cbn [dp_devices dp_allocAllDevices dp_allocRdmaCM]. split_and!; [done..| |auto|eauto].
  intros [_ Hhas]%andb_true_iff. auto.
Qed.

Lemma deviceMap_names infos name :
  is_Some (deviceMap infos !! name) ↔ name ∈ info_Name <$> infos.
Proof.
  unfold deviceMap. induction infos as [|d infos IH] using rev_ind.
  - cbn [fold_left]. rewrite lookup_empty, is_Some_alt, elem_of_nil. done.
  - rewrite fold_left_app. cbn [fold_left]. rewrite lookup_insert_is_Some, IH, fmap_app, elem_of_app.
    change (info_Name <$> [d]) with [info_Name d]. rewrite list_elem_of_singleton. destruct (decide (info_Name d = name)); naive_solver.
Qed.

#[local] Opaque eriInfos probeDevices configPnets newPlugin.

(** What an agent that serves has done *)
Record serving (a : Agent) (tr : trace Host) (clients : Clients) (plugin : ERDMADevicePlugin)
    (server : Server) (device : ERdmaDevice) (infos : list ERdmaDeviceInfo) : Prop := {
  srv_listed : ag_localERIDiscovery a = false →
    ∃ rest, Event (S:=Host) (ListERdmaDevices (ag_nodeName a)) (inl (device :: rest)) ∈ tr;
  srv_installed : ∃ tri, exec (Install (ag_driver a)) tri (Ret tt) ∧ ∃ tr1 tr2, tr = tr1 ++ tri ++ tr2;
  srv_probed : Forall2 (probed a) (spec_Devices (device_Spec device)) infos;
  srv_devices : dp_devices plugin = deviceMap infos;
  srv_all : dp_allocAllDevices plugin = ag_allocAllDevices a ||
    (ag_localERIDiscovery a && negb (exposesAll (ag_exposedLocalERIs a)));
  srv_cm : dp_allocRdmaCM plugin = true → driver_Name (ag_driver a) = "default";
  srv_client : ag_devicepluginPreStart a = true → is_Some (cl_criClient clients);
  srv_inv : inv server
}.

(** Why an agent that read the node's object can panic *)
Definition run_panics (a : Agent) (tr : trace Host) (f : fault) : Prop :=
  ag_localERIDiscovery a = false →
  (∃ msg, f = Fatal msg) ∨
  ∃ device rest d, Event (S:=Host) (ListERdmaDevices (ag_nodeName a)) (inl (device :: rest)) ∈ tr ∧
    d ∈ spec_Devices (device_Spec device) ∧ dev_MAC d = ε.

Lemma Run_post polls ticks a cache :
  triple (Run polls ticks a cache) (λ tr o,
    match o with
    | Ret (Some (clients, plugin, server)) =>
        ∃ device infos, serving a tr clients plugin server device infos
    | Ret None => ag_localERIDiscovery a = false ∧ length tr = polls
    | Err e => agent_error e
    | Panic f => run_panics a tr f
    end).
Proof.
  intros tr o H. unfold Run in H. apply exec_bind in H as (tr1 & o1 & H1 & H). apply eriInfos_post in H1.
  destruct o1 as [[[[c all] device]|]|e|f]; [| |by destruct H as [-> ->]|].
  3: { destruct H as [-> ->]. intros Hl. congruence. }
  2: { destruct H as (tr2 & -> & [-> ->]). by rewrite app_nil_r. }
  destruct H1 as [Hall Hdev]. destruct H as (tr2 & -> & H).
  apply exec_bind in H as (tr3 & o3 & H3 & H). destruct o3 as [[]|e|f].
  3: { exfalso. apply exec_bind in H3 as (tr5 & o5 & H5 & H3). apply exec_try in H5 as (o6 & H5 & ->).
       apply Install_panics in H5. destruct o6; [by destruct H3 as (? & _ & [_ ?])..|done]. }
  2: { destruct H as [-> ->]. apply orFail_error in H3 as [args ->]; [|by intros ??; apply try_no_error].
       eexists _, _. split; [done|]. do 2 right. by left. }
  assert (exec (Install (ag_driver a)) tr3 (Ret tt)) as Hi.
  { unfold orFail in H3. apply exec_bind in H3 as (tr4 & o4 & H4 & H3). apply exec_try in H4 as (o5 & H4 & ->).
    destruct o5 as [[]|e|f]; cbn in H3; [|by destruct H3 as (?&?&?&?)|by destruct H3].
    destruct H3 as (? & -> & [-> _]). by rewrite app_nil_r. }
  destruct H as (tr4 & -> & H). apply exec_bind in H as (tr5 & o5 & H5 & H).
  apply probeDevices_post in H5. destruct o5 as [[c' infos]|e|f]; [|by destruct H as [-> ->]|].
  2: { destruct H as [-> ->]. destruct H5 as (d & Hd & Hmac). intros Hl. right. destruct (Hdev Hl) as [rest Hin].
       exists device, rest, d. split_and!; [apply elem_of_app; by left|done..]. }
  destruct H as (tr6 & -> & H). apply exec_bind in H as (tr7 & o7 & H7 & H).
  apply configPnets_post in H7 as ->.
  destruct H as (tr8 & -> & H). apply exec_bind in H as (tr9 & o9 & H9 & H).
  apply newPlugin_post in H9. destruct o9 as [[[clients plugin] server0]|e|f]; [|by destruct H as [-> ->]|done].
  destruct H9 as (Hm & Ha & Hcm & Hcl & now & ->). destruct H as (tr10 & -> & H). apply exec_bind in H as (tr11 & o11 & H11 & H).
  apply (Serve_post ticks (newServer now (ag_devicepluginPreStart a)) eq_refl) in H11.
  destruct o11 as [server|e|f]; [|done|].
  2: { destruct H as [-> ->]. intros _. by left. }
  destruct H as (tr12 & -> & [-> ->]).
  exists device, infos. split; [| |done|done|by rewrite Ha|done|done|done].
  - intros Hl. destruct (Hdev Hl) as [rest Hin]. exists rest. apply elem_of_app. by left.
  - exists tr3. split; [done|]. by eexists tr1, _.
Qed.

(** C17: An agent that serves has installed its driver and probed every device of
    the node's object, in order; the plugin knows exactly the RDMA devices found,
    each with the driver's capabilities and at least one file, gives out the
    connection manager only with the default driver, and all devices only when
    told to or when the exposed devices are listed; a plugin with the hook has a
    client of the container runtime.  An agent that waits has seen
    no object; one that fails says which of the five stages failed, and setting
    up SMC-R is none of them.  An agent that reads the node's object panics only
    when its server fails fatally or a device of the object has no MAC address. *)
Theorem Run_serves polls ticks a cache tr o :
  exec (Run polls ticks a cache) tr o →
  match o with
  | Ret (Some (clients, plugin, server)) => ∃ device infos,
      (ag_localERIDiscovery a = false →
       ∃ rest, Event (S:=Host) (ListERdmaDevices (ag_nodeName a)) (inl (device :: rest)) ∈ tr) ∧
      (∃ tri, exec (Install (ag_driver a)) tri (Ret tt) ∧ ∃ tr1 tr2, tr = tr1 ++ tri ++ tr2) ∧
      Forall2 (probed a) (spec_Devices (device_Spec device)) infos ∧
      dp_devices plugin = deviceMap infos ∧
      (∀ name, is_Some (dp_devices plugin !! name) ↔ name ∈ info_Name <$> infos) ∧
      dp_allocAllDevices plugin = ag_allocAllDevices a ||
        (ag_localERIDiscovery a && negb (exposesAll (ag_exposedLocalERIs a))) ∧
      (dp_allocRdmaCM plugin = true → driver_Name (ag_driver a) = "default") ∧
      (ag_devicepluginPreStart a = true → is_Some (cl_criClient clients)) ∧
      inv server
  | Ret None => ag_localERIDiscovery a = false ∧ length tr = polls
  | Err e => agent_error e
  | Panic f => run_panics a tr f
  end.
Proof.
  intros H%Run_post. destruct o as [[[[clients plugin] server]|]|e|f]; [|done..].
  destruct H as (device & infos & []). exists device, infos. split_and!; [done..| |done|done|done|done].
  intros name. rewrite srv_devices0. apply deviceMap_names.
Qed.

#[local] Transparent eriInfos probeDevices configPnets newPlugin.
#[local] Transparent WaitEriInfo SelectLocalERIs ProbeDevice Install Serve ConfigSMCPnetForDevice.

End Served.

(** ** Starting the process *)

(** The driver is the preferred one; without a preference it is that of a node
    with a GPU exactly when the host has [nvidia-smi]. *)
Definition driver_chosen (f : AgentFlags) (driver : ERdmaDriver) (tr : trace Host) : Prop :=
  ∃ d, driver = SetERdmaInstallerVersion d (fl_erdmaInstallerVersion f) ∧
    if decide (fl_preferDriver f ≠ ε) then drivers !! fl_preferDriver f = Some d ∧ tr = []
    else ∃ r, exec (hostExec "which nvidia-smi") tr (Ret r) ∧
         driver_Name d = if succeeded r then "ofed" else "default".

Lemma GetDriver_chosen f order tr driver :
  exec (GetDriver drivers (fl_preferDriver f) (fl_erdmaInstallerVersion f) order) tr (Ret driver) →
  driver_chosen f driver tr.
Proof.
  unfold GetDriver, driver_chosen. intros H. destruct (decide (fl_preferDriver f ≠ ε)).
  - destruct (drivers !! fl_preferDriver f) as [d|]; [|by destruct H].
    destruct H as [-> [= ->]]. by exists d.
  - apply exec_bind in H as (tr1 & o1 & H1 & H). destruct o1 as [r|e|g]; [|by destruct H..].
    destruct H as (tr2 & -> & H). destruct r as [out|err]; destruct H as [-> [= ->]]; rewrite app_nil_r.
    + exists OFEDDriver. split; [done|]. by exists (inl out).
    + exists (DefaultDriver ε). split; [done|]. by exists (inr err).
Qed.

Lemma NewKubernetes_ret tr nodeName : exec NewKubernetes tr (Ret nodeName) →
  tr = [Event (S:=Host) GetRestConfig (inl tt); Event (S:=Host) NewK8sClient (inl tt);
        Event (S:=Host) (LookupEnv "NODE_NAME") (Some nodeName)] ∧ nodeName ≠ ε.
Proof.
  intros H. destruct H as ([[]|err] & tr2 & -> & H); [|by destruct H].
  destruct H as ([[]|err] & tr3 & -> & H); [|by destruct H]. destruct H as ([name|] & tr4 & -> & H); [|by destruct H].
  cbn [prog_mbind prog_bind default] in H. unfold id in H.
  destruct (decide (name = ε)) as [->|Hn]; [by destruct H|]. by destruct H as [-> [= ->]].
Qed.

(** A process that runs has a node's name and the driver its flags and its
    host call for, at the installer version of the flags, and runs that agent;
    a failure of either step is a panic, so the process never just stops with
    an error. *)
Lemma agentMain_starts `{Backoff : BackoffLib} polls ticks f order tr o :
  exec (agentMain polls ticks f order) tr o →
  match o with
  | Ret r => ∃ nodeName driver trd trr,
      let a := mkAgent nodeName driver (fl_allocAllDevices f) (fl_devicepluginPreStart f)
                 (fl_localERIDiscovery f) (Split "," (fl_exposedLocalERIs f)) (fl_jumboFrameMTU f) in
      tr = [Event (S:=Host) GetRestConfig (inl tt); Event (S:=Host) NewK8sClient (inl tt);
            Event (S:=Host) (LookupEnv "NODE_NAME") (Some nodeName)] ++ trd ++ trr ∧
      nodeName ≠ ε ∧ driver_chosen f driver trd ∧ exec (Run polls ticks a None) trr (Ret r)
  | Err _ => False
  | Panic _ => True
  end.
Proof.
  assert (∀ A (p : prog Host A) tr o, exec (orPanic p) tr o →
    match o with Ret a => exec p tr (Ret a) | Err _ => False | Panic _ => True end) as Hor.
  { intros A p tr' o' H. apply exec_bind in H as (tr1 & o1 & H1 & H). apply exec_try in H1 as (o2 & H1 & ->).
    destruct o2 as [a|e|g]; [|by destruct H as (tr2 & -> & [_ ->])|by destruct H as [_ ->]].
    destruct H as (tr2 & -> & [-> ->]). by rewrite app_nil_r. }
  intros H. apply exec_bind in H as (tr1 & o1 & H1 & H). apply Hor in H1.
  destruct o1 as [a|e|g]; [|done|by destruct H as [_ ->]]. destruct H as (trr & -> & H). apply Hor in H.
  destruct o as [r|e|g]; [|done..]. apply exec_bind in H1 as (trn & on & Hn & H1).
  destruct on as [nodeName|e|g]; [|by destruct H1..]. apply NewKubernetes_ret in Hn as [-> Hn].
  destruct H1 as (tr4 & -> & H1). apply exec_bind in H1 as (trd & od & Hd & H1).
  destruct od as [driver|e|g]; [|by destruct H1..]. destruct H1 as (tr5 & -> & [-> [= ->]]).
  exists nodeName, driver, trd, trr. rewrite app_nil_r.
  split_and!; [done..| |done]. by eapply GetDriver_chosen.
Qed.

(** ** An agent on a concrete node *)

Definition a_device : ERdmaDevice :=
  mkERdmaDevice (mkObjectMeta "node-1" ∅ [] [] None)
    (mkERdmaDeviceSpec [mkDeviceInfo "i-1" "00:16:3e:00:00:01" true "eni-p" 0 8] false)
    (mkERdmaDeviceStatus []).

(** The node of the drivers' example, for which the object exists; SMC-R fails. *)
Definition a_env : Env Host := λ h c,
  match c as c return host_reply c with
  | ListERdmaDevices _ => inl [a_device]
  | Exec args =>
      if decide (head args = Some "smc_pnet") then ("SMC module not loaded", Some (ApiError Other "exit status 1"))
      else i_env h (Exec args)
  | Now => 1700000000000000000
  | Stat path => if decide (path = dockerShimSocket) then inr (ApiError NotFound "no such file") else i_env h (Stat path)
  | ReadDir path => if decide (path = DevicePluginPath) then inl ["kubelet.sock"] else i_env h (ReadDir path)
  | c => i_env h c
  end.

Definition a_agent : Agent := mkAgent "node-1" (DefaultDriver ε) false true false [ε] 8500.

#[local] Existing Instance plainBackoff.

Definition a_run : prog Host (option (Clients * ERDMADevicePlugin * Server)) :=
  Run 1 2 a_agent None.

Definition a_plugin : ERDMADevicePlugin := mkPlugin (deviceMap [i_info]) false true true.

Definition a_clients : Clients :=
  mkClients (Some (mkService "/run/containerd/containerd.sock" criTimeout false)) false.

Lemma Run_serves_witness :
  (∃ server, (run a_env [] a_run).1 = Ret (Some (a_clients, a_plugin, server)) ∧ inv server) ∧
  (is_Some (dp_devices a_plugin !! "erdma_0")).
Proof.
  assert ((run a_env [] a_run).1 = Ret (Some (a_clients, a_plugin,
    mkServer "/var/lib/kubelet/device-plugins/1700000000-erdma.sock" true true true))) as E
    by (vm_compute; reflexivity).
  destruct (Run_serves 1 2 a_agent None _ _ (run_returns a_env _ _ E))
    as (device & infos & _ & _ & _ & _ & _ & _ & _ & _ & Hi).
  split; [|vm_compute; eexists; reflexivity].
  eexists. split; [exact E|exact Hi].
Defined.

(** The same node, started by the command line's defaults but for the hook *)
Definition a_flags : AgentFlags := mkAgentFlags ε false true false ε "1.5.9" 8500.

Definition m_env : Env Host := λ h c,
  match c as c return host_reply c with
  | LookupEnv name => if decide (name = "NODE_NAME") then Some "node-1" else None
  | Exec args =>
      if decide (last args = Some "which nvidia-smi") then (ε, Some (ApiError Other "exit status 1"))
      else a_env h (Exec args)
  | c => a_env h c
  end.

Lemma agentMain_starts_witness :
  ∃ server, (run m_env [] (agentMain 1 2 a_flags [])).1 = Ret (Some (a_clients, a_plugin, server)) ∧
  ∃ nodeName driver trd, nodeName ≠ ε ∧ driver_chosen a_flags driver trd.
Proof.
  assert (∃ server, (run m_env [] (agentMain 1 2 a_flags [])).1 = Ret (Some (a_clients, a_plugin, server)))
    as (server & E) by (eexists; vm_compute; reflexivity).
  exists server. split; [exact E|].
  destruct (agentMain_starts 1 2 a_flags [] _ _ (run_returns m_env _ _ E))
    as (nodeName & driver & trd & trr & _ & Hn & Hd & _).
  exists nodeName, driver, trd. split; [exact Hn|exact Hd].
Defined.
