(* ===== verification/System.v ===== *)
(** * System: the two reconcilers, the API server and the agents together

    The passes of [NodeReconcile] and [DeviceReconcile] run interleaved, call by
    call, any number of them, over one store of ERdmaDevices kept by the API
    server; a pass can be killed between two calls, and outsiders delete
    objects.  The invariants of every reachable state say where each object
    comes from, why each change of the cloud was made, and what an agent that
    serves a node's object therefore serves. *)

From S2P Require Import Prelude Effects GoStr Time Types CloudApi Scenario EriClient Provision NodeController.
From S2P Require Import DeviceController Host DevicePlugin PluginServer PodConfig Metadata Drivers Agent.
From stdpp Require Import relations.

#[local] Open Scope Z_scope.

(** ** The API server

    What the reconcilers rely on, as Kubernetes documents it: a create fails
    when the name is taken and leaves the status to its subresource; an update
    of the status carries the version that was read, so it fails unless the rest
    of the object is still what was read; a patch of the finalizers changes
    nothing else; an object that is being deleted goes away with its last
    finalizer.  A call that fails may have been carried out.  A read is answered
    from a cache: with what the store has held at some time. *)

Abbreviation Store := (gmap string ERdmaDevice).

Definition device_name (d : ERdmaDevice) : string := meta_Name (device_ObjectMeta d).

(** The object with other deletion bookkeeping *)
Definition marked (d : ERdmaDevice) (finalizers : list string) (deletion : option Z) : ERdmaDevice := {|
  device_ObjectMeta := {|
    meta_Name := meta_Name (device_ObjectMeta d);
    meta_Labels := meta_Labels (device_ObjectMeta d);
    meta_OwnerReferences := meta_OwnerReferences (device_ObjectMeta d);
    meta_Finalizers := finalizers;
    meta_DeletionTimestamp := deletion |};
  device_Spec := device_Spec d;
  device_Status := device_Status d
|}.

Definition gone (d : ERdmaDevice) : bool :=
  bool_decide (meta_Finalizers (device_ObjectMeta d) = []) &&
  bool_decide (meta_DeletionTimestamp (device_ObjectMeta d) ≠ None).

Definition put (name : string) (d : ERdmaDevice) (s : Store) : Store :=
  if gone d then delete name s else <[name := d]> s.

Definition api_create (d : ERdmaDevice) (s s' : Store) : Prop :=
  s !! device_name d = None ∧ s' = <[device_name d := withStatus d []]> s.

Definition api_patch (d : ERdmaDevice) (s s' : Store) : Prop :=
  ∃ cur, s !! device_name d = Some cur ∧
    s' = put (device_name d) (marked cur (meta_Finalizers (device_ObjectMeta d))
                                (meta_DeletionTimestamp (device_ObjectMeta cur))) s.

Definition api_delete (name : string) (s s' : Store) : Prop :=
  ∃ cur t, s !! name = Some cur ∧
    s' = put name (marked cur (meta_Finalizers (device_ObjectMeta cur)) (Some t)) s.

Definition api_status (d : ERdmaDevice) (s s' : Store) : Prop :=
  ∃ cur, s !! device_name d = Some cur ∧ d = withStatus cur (status_Devices (device_Status d)) ∧
    s' = <[device_name d := d]> s.

(** A write: carried out when it succeeds, perhaps carried out when it fails *)
Definition written (w : Store → Store → Prop) (s : Store) (r : result unit) (s' : Store) : Prop :=
  match r with inl _ => w s s' | inr _ => s' = s ∨ w s s' end.

(** The object was in the store under that name at some time. *)
Definition held (past : list Store) (name : string) (d : ERdmaDevice) : Prop :=
  ∃ s, s ∈ past ∧ s !! name = Some d.

(** A reply read from what the stores have held *)
Definition read_ok (past : list Store) (ev : event Ctl) : Prop :=
  match ev with
  | Event (GetNode name) (inl node) => node_Name node = name
  | Event (GetDevice name) (inl d) => held past name d
  | Event (ListDevices label value) (inl items) => ∀ d, d ∈ items →
      (∃ name, held past name d) ∧ meta_Labels (device_ObjectMeta d) !! label = Some value
  | _ => True
  end.

(** What a call does to the store *)
Definition write_ok (s : Store) (ev : event Ctl) (s' : Store) : Prop :=
  match ev with
  | Event (CreateDevice d) r => written (api_create d) s r s'
  | Event (CreateOrPatchDevice d) r => written (api_patch d) s r s'
  | Event (DeleteDevice name) r => written (api_delete name) s r s'
  | Event (UpdateDeviceStatus d) r => written (api_status d) s r s'
  | _ => s' = s
  end.

(** ** Passes and the world *)

Inductive Pass :=
  | NodePass (name : string) (taggedENIs : gset string)
  | DevicePass (name : string).

Section System.
Context `{WaitLib} (r : NodeReconciler).

Definition pass_prog (p : Pass) : prog Ctl unit :=
  match p with
  | NodePass name taggedENIs => _ ← NodeReconcile r name taggedENIs; mret tt
  | DevicePass name => _ ← DeviceReconcile (nr_EriClient r) name; mret tt
  end.

(** A running pass: the calls it has made and what is left of it *)
Record Running := mkRunning {
  run_pass : Pass;
  run_done : trace Ctl;
  run_rest : prog Ctl unit
}.

(** [w_past] holds every state of the store, the live one included; [w_log] is
    every call made, in order. *)
Record World := mkWorld {
  w_live : Store;
  w_past : list Store;
  w_log : trace Ctl;
  w_running : list Running
}.

Definition world0 : World := mkWorld ∅ [∅] [] [].

Definition stored (w : World) (s : Store) : World :=
  mkWorld s (s :: w_past w) (w_log w) (w_running w).

Inductive world_step (w : World) : World → Prop :=
  | world_begin p :
      world_step w (mkWorld (w_live w) (w_past w) (w_log w)
                      (mkRunning p [] (pass_prog p) :: w_running w))
  | world_call l1 p tr c k l2 rep s :
      w_running w = l1 ++ mkRunning p tr (Do c k) :: l2 →
      read_ok (w_past w) (Event (S:=Ctl) c rep) → write_ok (w_live w) (Event (S:=Ctl) c rep) s →
      world_step w (mkWorld s (s :: w_past w) (w_log w ++ [Event (S:=Ctl) c rep])
                      (l1 ++ mkRunning p (tr ++ [Event (S:=Ctl) c rep]) (k rep) :: l2))
  (* a pass has returned, or its process was killed *)
  | world_end l1 x l2 :
      w_running w = l1 ++ x :: l2 →
      world_step w (mkWorld (w_live w) (w_past w) (w_log w) (l1 ++ l2))
  (* a user or the garbage collector deletes an object, perhaps with finalizers *)
  | world_delete name cur finalizers t :
      w_live w !! name = Some cur →
      world_step w (stored w (put name (marked cur finalizers (Some t)) (w_live w))).

Definition reachable (w : World) : Prop := rtc world_step world0 w.

(** ** What is left of a program *)

(** [p] becomes [p'] by making the calls [tr]. *)
Inductive reaches (p : prog Ctl unit) : trace Ctl → prog Ctl unit → Prop :=
  | reaches_nil : reaches p [] p
  | reaches_call tr c k rep :
      reaches p tr (Do c k) → reaches p (tr ++ [Event (S:=Ctl) c rep]) (k rep).

Lemma reaches_exec p tr p' tr' o : reaches p tr p' → exec p' tr' o → exec p (tr ++ tr') o.
Proof.
  intros Hr. revert tr'. induction Hr as [|tr c k rep _ IH]; intros tr' Hx; [done|].
  rewrite <- (assoc_L (++)). apply IH. by exists rep, tr'.
Qed.

(** Every call a running pass makes is a call of an execution of the pass. *)
Lemma reaches_event p tr c k rep :
  reaches p tr (Do c k) → ∃ tr' o, exec p (tr ++ Event (S:=Ctl) c rep :: tr') o.
Proof.
  intros Hr. set (env := inventory_env (mkInventory [] [] [] None [] 0)).
  destruct (exec_total env (k rep)) as (tr' & o & Hx). exists tr', o.
  eapply reaches_exec; [exact Hr|]. by exists rep, tr'.
Qed.

Lemma pass_exec p tr o : exec (pass_prog p) tr o →
  match p with
  | NodePass name taggedENIs => ∃ o', exec (NodeReconcile r name taggedENIs) tr o'
  | DevicePass name => ∃ o', exec (DeviceReconcile (nr_EriClient r) name) tr o'
  end.
Proof.
  destruct p; intros (tr1 & o1 & H1 & H2)%exec_bind; exists o1;
    (destruct o1; [destruct H2 as (tr2 & -> & [-> _]); by rewrite app_nil_r|by destruct H2 as [-> _]..]).
Qed.

(** *** The calls of a pass *)

(** Only the ERdmaDevice reconciler attaches and converts interfaces and writes
    statuses; only the node reconciler creates objects. *)
Definition device_only (ev : event Ctl) : bool :=
  match ev with
  | Event (AttachNetworkInterface _) _ | Event (ModifyNetworkInterfaceAttribute _) _
  | Event (UpdateDeviceStatus _) _ => true
  | _ => false
  end.

Definition node_only (ev : event Ctl) : bool :=
  match ev with
  | Event (CreateNetworkInterface _) _ | Event (CreateDevice _) _ => true
  | _ => false
  end.

Lemma RemoveERdmaDevices_only (P : event Ctl → Prop) nodeName :
  (∀ rep, P (Event (S:=Ctl) (ListDevices labelNodename nodeName) rep)) →
  (∀ d rep, P (Event (S:=Ctl) (CreateOrPatchDevice d) rep)) →
  (∀ name rep, P (Event (S:=Ctl) (DeleteDevice name) rep)) →
  only P (RemoveERdmaDevices nodeName).
Proof. intros Hl Hp Hd. unfold RemoveERdmaDevices, call_each. only_with ltac:(by only_call). Qed.

Lemma NodeReconcile_calls name taggedENIs :
  only (λ ev, device_only ev = false) (NodeReconcile r name taggedENIs).
Proof.
  unfold NodeReconcile, serveNode, backfillEriTags, IsJumboFrameEnabled. only_with ltac:(first
    [ by only_call | by apply RemoveERdmaDevices_only
    | apply poll_only; only_with ltac:(by only_call)
    | eapply only_mono; [|apply InstanceIDFromNode_only]; intros [[] ?] [? ?]; done
    | eapply only_mono; [|apply SelectERIs_only]; intros [[] ?] [? Hp]; try done;
        destruct (Hp eq_refl) as [(?&?&?&?&?&_&?)|(?&?&_&?)]; done
    | eapply only_mono; [|apply EnsureEriTags_only]; intros [[] ?] [? Hp]; try done;
        destruct (Hp eq_refl) as [(?&?&?&?&?&_&?)|(?&?&_&?)]; done ]).
Qed.

Lemma DeviceReconcile_calls e name : only (λ ev, node_only ev = false) (DeviceReconcile e name).
Proof.
  unfold DeviceReconcile. only_with ltac:(first [ by only_call | by apply RemoveERdmaDevices_only | idtac ]).
  intros tr o Hx. apply EnsureEriForInstance_changes in Hx. eapply Forall_impl; [exact Hx|].
  intros [[] rep] [? Hc]; try done. destruct (Hc eq_refl) as (?&?&?&_&_&_&_&Hj). by inversion Hj.
Qed.

(** ** Where an object comes from *)

(** The object was written for a node after the reconciler had read the node,
    learnt its instance, selected the instance's ERIs and asked for its jumbo
    frames, all of it by calls of the log. *)
Record provenance (log : trace Ctl) (d : ERdmaDevice) (node : Node) (instanceID : string)
    (eris : list ERI) : Prop := {
  prov_node : Event (S:=Ctl) (GetNode (node_Name node)) (inl node) ∈ log;
  prov_instance : ∃ tr, tr `sublist_of` log ∧
    exec (InstanceIDFromNode (nr_EriClient r) node) tr (Ret instanceID);
  prov_eris : ∃ tr, tr `sublist_of` log ∧
    exec (SelectERIs (nr_EriClient r) instanceID) tr (Ret (Some eris));
  prov_name : meta_Name (device_ObjectMeta d) = node_Name node;
  prov_labels : meta_Labels (device_ObjectMeta d) =
    {[ labelInstanceID := instanceID; labelNodename := node_Name node ]};
  prov_owner : meta_OwnerReferences (device_ObjectMeta d) =
    [mkOwnerReference (node_APIVersion node) (node_Kind node) (node_Name node) (node_UID node)];
  prov_devices : spec_Devices (device_Spec d) = deviceOfEri <$> eris;
  prov_jumbo : ∃ attr, Event (S:=Ctl) (DescribeInstanceAttribute instanceID) attr ∈ log ∧
    spec_JumboFrame (device_Spec d) = jumbo_of attr
}.

(** The statuses are those of some of the devices, in order. *)
Definition statuses_ok (d : ERdmaDevice) : Prop :=
  (st_ID <$> status_Devices (device_Status d)) `sublist_of` (dev_ID <$> spec_Devices (device_Spec d)) ∧
  Forall (λ st, st_Status st ∈ [DeviceStatusReady; DeviceStatusPending; DeviceStatusFailed])
    (status_Devices (device_Status d)).

Definition object_ok (log : trace Ctl) (name : string) (d : ERdmaDevice) : Prop :=
  device_name d = name ∧ (∃ node instanceID eris, provenance log d node instanceID eris) ∧ statuses_ok d.

Definition store_ok (log : trace Ctl) (s : Store) : Prop :=
  ∀ name d, s !! name = Some d → object_ok log name d.

Lemma object_ok_log log log' name d :
  log `sublist_of` log' → object_ok log name d → object_ok log' name d.
Proof.
  intros Hs (Hn & (node & iid & eris & [? (tr1 & ? & ?) (tr2 & ? & ?) ? ? ? ? (attr & ? & ?)]) & Hst).
  split_and!; [done| |done]. exists node, iid, eris. split; try done.
  - by eapply sublist_subseteq.
  - exists tr1. split; [by etrans|done].
  - exists tr2. split; [by etrans|done].
  - exists attr. split; [by eapply sublist_subseteq|done].
Qed.

(** Only the name, the labels, the owner and the spec matter to where an object
    comes from. *)
Lemma object_ok_marked log name d finalizers t :
  object_ok log name d → object_ok log name (marked d finalizers t).
Proof.
  intros (Hn & (node & iid & eris & []) & Hst). split_and!; [done| |done]. by exists node, iid, eris.
Qed.

Lemma object_ok_status log name cur d sts :
  object_ok log name cur → d = withStatus cur sts → statuses_ok d → object_ok log name d.
Proof.
  intros (Hn & (node & iid & eris & []) & _) -> Hst. split_and!; [done| |done]. by exists node, iid, eris.
Qed.

Lemma store_ok_insert log s name d : store_ok log s → object_ok log name d → store_ok log (<[name := d]> s).
Proof. intros Hs Hd n d' [[<- <-]|[_ Hl]]%lookup_insert_Some; [done|by apply Hs]. Qed.

Lemma store_ok_put log s name d : store_ok log s → object_ok log name d → store_ok log (put name d s).
Proof.
  intros Hs Hd. unfold put. destruct (gone d); [|by apply store_ok_insert].
  intros n d' [_ Hl]%lookup_delete_Some. by apply Hs.
Qed.

Lemma written_ok log (w : Store → Store → Prop) s rep s' :
  store_ok log s → (w s s' → store_ok log s') → written w s rep s' → store_ok log s'.
Proof. intros Hs Hw. destruct rep; [done|]. intros [->|?]; auto. Qed.

(** A write keeps the store in order if an object it creates comes from where
    it should, and the statuses it writes are those of the object. *)
Lemma write_ok_store log s ev s' :
  store_ok log s → write_ok s ev s' →
  (∀ d rep, ev = Event (S:=Ctl) (CreateDevice d) rep → object_ok log (device_name d) (withStatus d [])) →
  (∀ d rep, ev = Event (S:=Ctl) (UpdateDeviceStatus d) rep → statuses_ok d) →
  store_ok log s'.
Proof.
  intros Hs Hw Hc Hu. destruct ev as [[] rep]; simpl in Hw; try by subst.
  - eapply written_ok; [done| |exact Hw]. intros [_ ->]. apply store_ok_insert; [done|exact (Hc d rep eq_refl)].
  - eapply written_ok; [done| |exact Hw]. intros (cur & Hl & ->).
    apply store_ok_put; [done|]. by apply object_ok_marked, Hs.
  - eapply written_ok; [done| |exact Hw]. intros (cur & t & Hl & ->).
    apply store_ok_put; [done|]. by apply object_ok_marked, Hs.
  - eapply written_ok; [done| |exact Hw]. intros (cur & Hl & Hd & ->).
    apply store_ok_insert; [done|]. eapply object_ok_status; [by apply Hs|exact Hd|exact (Hu d rep eq_refl)].
Qed.

(** ** What a pass writes *)

Lemma read_ok_past past past' ev : past ⊆ past' → read_ok past ev → read_ok past' ev.
Proof.
  intros Hp Hr. destruct ev as [[] rep]; simpl in *; try done; destruct rep as [x|?]; try done.
  - destruct Hr as (s & Hs & Hl). exists s. auto.
  - intros d Hd. destruct (Hr d Hd) as [(name & s & Hs & Hl) Hlab]. split; [|done].
    exists name, s. auto.
Qed.

(** A list read through the calls of a pass that lie in the log *)
Lemma sublist_middle {A} (l1 l l2 log : list A) :
  (l1 ++ l ++ l2) `sublist_of` log → l `sublist_of` log.
Proof. intros Hs. etrans; [|exact Hs]. apply sublist_inserts_l, sublist_inserts_r. done. Qed.

(** The object a running node pass creates *)
Lemma created_ok past log p tr d k (rep : result unit) :
  reaches (pass_prog p) tr (Do (S:=Ctl) (CreateDevice d) k) → tr `sublist_of` log → Forall (read_ok past) tr →
  object_ok log (device_name d) (withStatus d []).
Proof.
  intros Hr Hs Hok. destruct (reaches_event _ _ (CreateDevice d) _ rep Hr) as (tr' & o & Hx%pass_exec).
  assert (Event (S:=Ctl) (CreateDevice d) rep ∈ tr ++ Event (S:=Ctl) (CreateDevice d) rep :: tr') as Hin
    by set_solver.
  destruct p as [name tagged|name]; destruct Hx as [o' Hx].
  2: { apply DeviceReconcile_calls in Hx. rewrite Forall_forall in Hx. by apply Hx in Hin. }
  destruct (NodeReconcile_creation _ _ _ _ _ _ _ Hx Hin) as (before & gets & E & Hc).
  destruct (creation_quiet _ _ _ _ _ _ Hc) as [Hq1 Hq2].
  apply (split_unique (λ ev, k8s_mutates ev = true)) in E as (-> & _ & _); [|done|done|..].
  2, 3: eapply Forall_impl; [eassumption|]; intros ev Hf Ht; simpl in Hf; congruence.
  destruct Hc as (node & iid & attr & eris & pre & tr1 & trs & -> & Hsv & H1 & H2 & -> & _).
  destruct (servable_head _ _ _ _ Hsv) as [rest ->].
  split_and!; [done| |split; [apply sublist_nil_l|constructor]]. exists node, iid, eris.
  split; try done.
  - assert (node_Name node = name) as Hn by (by apply Forall_cons in Hok as [? _]).
    eapply sublist_subseteq; [exact Hs|]. rewrite Hn. by left.
  - exists tr1. split; [|done]. exact (sublist_middle _ _ _ _ Hs).
  - exists trs. split; [|done]. rewrite (assoc_L (++)), cons_middle, (assoc_L (++)) in Hs.
    exact (sublist_middle _ _ _ _ Hs).
  - exists attr. split; [|done]. eapply sublist_subseteq; [exact Hs|]. set_solver.
Qed.

(** What only the ERdmaDevice reconciler does, it does for the object it read:
    a change of the cloud is called for by one of its devices, and the statuses
    it writes are those of its devices. *)
Definition for_object (e : EriClient) (device : ERdmaDevice) (ev : event Ctl) : Prop :=
  (∃ d eni, d ∈ spec_Devices (device_Spec device) ∧
     eni_NetworkInterfaceId eni = Some (dev_ID d) ∧ justified e eni d ev) ∨
  (∃ sts rep, ev = Event (S:=Ctl) (UpdateDeviceStatus (withStatus device sts)) rep ∧
     statuses_ok (withStatus device sts)).

Lemma DeviceReconcile_object e name tr o ev :
  exec (DeviceReconcile e name) tr o → ev ∈ tr → device_only ev = true →
  ∃ device tr', tr = Event (S:=Ctl) (GetDevice name) (inl device) :: tr' ∧ for_object e device ev.
Proof.
  intros Hx Hin Hev. unfold DeviceReconcile in Hx. exec_call Hx as (res & tr1 & -> & Hx).
  apply elem_of_cons in Hin as [->|Hin]; [done|]. destruct res as [device|err].
  2: { destruct (IsNotFound err), Hx as [-> _]; by apply not_elem_of_nil in Hin. }
  exists device, tr1. split; [done|]. destruct (negb (time_IsZero _)).
  { apply (RemoveERdmaDevices_only (λ ev, device_only ev = false)) in Hx; [|done..].
    rewrite Forall_forall in Hx. apply Hx in Hin. congruence. }
  destruct (_ && _); [destruct Hx as [-> _]; by apply not_elem_of_nil in Hin|].
  apply exec_bind in Hx as (tr2 & o2 & H2 & Hx). pose proof (EnsureEriForInstance_changes _ _ _ _ H2) as Hc.
  rewrite Forall_forall in Hc.
  assert (ev ∈ tr2 → for_object e device ev) as H2ev.
  { intros Hi. destruct (Hc ev Hi) as [Hk Hm]. destruct (ecs_mutates ev) eqn:Hmut.
    - destruct (Hm eq_refl) as (resp & d & eni & _ & Hd & _ & Hid & Hj). left. eauto.
    - destruct ev as [[] rep]; done. }
  destruct o2 as [sts|err|f]; [|by destruct Hx as [-> _]; auto..].
  destruct Hx as (tr3 & -> & Hx). exec_call Hx as (res & tr4 & -> & Hx).
  apply elem_of_app in Hin as [Hin|[->|Hin]%elem_of_cons]; [auto| |].
  - right. exists sts, res. split; [done|]. by apply ensure_returned in H2 as (? & ? & _ & Hp%device_pass_statuses).
  - destruct res as [[]|err]; [destruct (existsb notReady sts)|]; destruct Hx as [-> _]; by apply not_elem_of_nil in Hin.
Qed.

(** The same of a running pass: the object was in the store. *)
Lemma running_object past p tr c k rep :
  reaches (pass_prog p) tr (Do c k) → Forall (read_ok past) tr →
  device_only (Event (S:=Ctl) c rep) = true →
  ∃ name device, held past name device ∧
    for_object (nr_EriClient r) device (Event (S:=Ctl) c rep).
Proof.
  intros Hr Hok Hev. destruct (reaches_event _ _ _ _ rep Hr) as (tr' & o & Hx%pass_exec).
  assert (Event (S:=Ctl) c rep ∈ tr ++ Event (S:=Ctl) c rep :: tr') as Hin by set_solver.
  destruct p as [name tagged|name]; destruct Hx as [o' Hx].
  { apply NodeReconcile_calls in Hx. rewrite Forall_forall in Hx. apply Hx in Hin. congruence. }
  destruct (DeviceReconcile_object _ _ _ _ _ Hx Hin Hev) as (device & rest & E & Hf).
  exists name, device. split; [|done]. destruct tr as [|ev0 tr].
  - assert (Event (S:=Ctl) c rep = Event (S:=Ctl) (GetDevice name) (inl device)) as E1
      by exact (f_equal (λ l, default (Event (S:=Ctl) c rep) (head l)) E).
    by rewrite E1 in Hev.
  - injection E as -> _. by apply Forall_cons in Hok as [? _].
Qed.

(** ** The invariant *)

Definition running_ok (past : list Store) (log : trace Ctl) (x : Running) : Prop :=
  reaches (pass_prog (run_pass x)) (run_done x) (run_rest x) ∧
  run_done x `sublist_of` log ∧ Forall (read_ok past) (run_done x).

(** A change of the cloud by the ERdmaDevice reconciler was called for by a
    device of an object; [log] is what had happened before. *)
Definition change_ok (log : trace Ctl) (ev : event Ctl) : Prop :=
  device_only ev = true →
  ∃ name device, object_ok log name device ∧ for_object (nr_EriClient r) device ev.

Record world_ok (w : World) : Prop := {
  ok_live : w_live w ∈ w_past w;
  ok_stores : ∀ s, s ∈ w_past w → store_ok (w_log w) s;
  ok_running : ∀ x, x ∈ w_running w → running_ok (w_past w) (w_log w) x;
  ok_log : ∀ l1 ev l2, w_log w = l1 ++ ev :: l2 → change_ok l1 ev
}.

Lemma running_ok_mono past past' log log' x :
  past ⊆ past' → log `sublist_of` log' → running_ok past log x → running_ok past' log' x.
Proof.
  intros Hp Hl (Hr & Hs & Hf). split_and!; [done|by etrans|].
  eapply Forall_impl; [exact Hf|]. intros ev. by apply read_ok_past.
Qed.

Lemma world0_ok : world_ok world0.
Proof.
  split; simpl; [set_solver| |set_solver|by intros []].
  by intros s ->%list_elem_of_singleton name d ?.
Qed.

Lemma world_call_ok w l1 p tr c k l2 rep s :
  world_ok w → w_running w = l1 ++ mkRunning p tr (Do c k) :: l2 →
  read_ok (w_past w) (Event (S:=Ctl) c rep) → write_ok (w_live w) (Event (S:=Ctl) c rep) s →
  world_ok (mkWorld s (s :: w_past w) (w_log w ++ [Event (S:=Ctl) c rep])
              (l1 ++ mkRunning p (tr ++ [Event (S:=Ctl) c rep]) (k rep) :: l2)).
Proof.
  intros [Hlive Hst Hrun Hlog] E Hread Hwrite.
  assert (running_ok (w_past w) (w_log w) (mkRunning p tr (Do c k))) as (Hr & Hs & Hok)
    by (apply Hrun; rewrite E; set_solver).
  set (ev := Event (S:=Ctl) c rep) in *.
  assert (w_past w ⊆ s :: w_past w) as Hpast by set_solver.
  assert (w_log w `sublist_of` w_log w ++ [ev]) as Hsub by by apply sublist_inserts_r.
  split; simpl; [by left| | |].
  - intros s' [->|Hs']%elem_of_cons.
    2: { intros name d Hd. eapply object_ok_log; [exact Hsub|by eapply Hst]. }
    apply (write_ok_store _ (w_live w) ev); [|done|..].
    + intros name d Hd. eapply object_ok_log; [exact Hsub|by eapply Hst].
    + intros d rep' Eev. eapply object_ok_log; [exact Hsub|].
      assert (c = CreateDevice d) as -> by exact (f_equal (λ e : event Ctl, match e with Event c _ => c end) Eev).
      by eapply created_ok.
    + intros d rep' Eev.
      assert (device_only ev = true) as Hev by (by rewrite Eev).
      destruct (running_object _ _ _ _ _ rep Hr Hok Hev) as (name & device & _ & [Hf|Hf]).
      * destruct Hf as (? & ? & _ & _ & Hj). fold ev in Hj. rewrite Eev in Hj. by inversion Hj.
      * destruct Hf as (sts & rep2 & Eev2 & Hsts). fold ev in Eev2. rewrite Eev in Eev2.
        injection Eev2 as Ed _. by rewrite Ed.
  - intros x Hx. assert (x ∈ w_running w ∨ x = mkRunning p (tr ++ [ev]) (k rep)) as [Hx'| ->] by (rewrite E; set_solver).
    + eapply running_ok_mono; [exact Hpast|exact Hsub|by apply Hrun].
    + split_and!; simpl; [by constructor|by apply sublist_app|].
      apply Forall_app. split; [|constructor; [|constructor]].
      * eapply Forall_impl; [exact Hok|]. intros e. by apply read_ok_past.
      * by eapply read_ok_past.
  - intros l1' ev' l2' E'. destruct l2' as [|ev2 l2' _] using rev_ind.
    + apply app_inj_tail in E' as [<- <-]. intros Hev.
      destruct (running_object _ _ _ _ _ rep Hr Hok Hev) as (name & device & (s0 & Hs0 & Hl) & Hf).
      exists name, device. split; [by eapply Hst|done].
    + rewrite app_comm_cons, (assoc_L (++)) in E'. apply app_inj_tail in E' as [E' _]. by eapply Hlog.
Qed.

Lemma world_step_ok w w' : world_step w w' → world_ok w → world_ok w'.
Proof.
  intros Hstep Hw. destruct Hstep as [p|l1 p tr c k l2 rep s E Hread Hwrite|l1 x l2 E|name cur fin t Hcur].
  - destruct Hw as [Hlive Hst Hrun Hlog]. split; simpl; try done.
    intros x [->|Hx]%elem_of_cons; [|by apply Hrun].
    split_and!; simpl; [constructor|apply sublist_nil_l|constructor].
  - by eapply world_call_ok.
  - destruct Hw as [Hlive Hst Hrun Hlog]. split; simpl; try done.
    intros y Hy. apply Hrun. rewrite E. set_solver.
  - destruct Hw as [Hlive Hst Hrun Hlog]. unfold stored. split; simpl; [by left| | |done].
    + intros s [->|Hs]%elem_of_cons; [|by apply Hst].
      apply store_ok_put; [by apply Hst|]. by apply object_ok_marked, (Hst (w_live w)).
    + intros x Hx. eapply running_ok_mono; [|done|by apply Hrun]. set_solver.
Qed.

Lemma reachable_ok w : reachable w → world_ok w.
Proof.
  revert w. apply rtc_ind_r; [apply world0_ok|]. intros w w' _ Hstep Hw. by eapply world_step_ok.
Qed.

(** ** Properties *)

(** C6: Whatever the interleaving, every object the store ever holds bears
    the name of a node, was written for it from the ERIs selected for the node's
    instance, with both labels and the node as its owner, and reports statuses
    only of its own devices, in order. *)
Theorem system_objects w s name d :
  reachable w → s ∈ w_past w → s !! name = Some d →
  statuses_ok d ∧ ∃ node instanceID eris,
    node_Name node = name ∧ provenance (w_log w) d node instanceID eris.
Proof.
  intros [_ Hst _ _]%reachable_ok Hs Hl.
  destruct (Hst s Hs name d Hl) as (Hn & (node & iid & eris & Hp) & Hsts).
  split; [done|]. exists node, iid, eris. split; [|done].
  rewrite <- Hn. unfold device_name. by rewrite (prov_name _ _ _ _ _ Hp).
Qed.

(** The request attaches, or converts, the selected interface. *)
Definition drives (eri : ERI) (ev : event Ctl) : Prop :=
  (eri_IsPrimaryENI eri = false ∧ ∃ rep, ev =
     Event (S:=Ctl) (AttachNetworkInterface (attach_request (nr_EriClient r) (deviceOfEri eri))) rep) ∨
  (eri_IsPrimaryENI eri = true ∧ ∃ rep, ev =
     Event (S:=Ctl) (ModifyNetworkInterfaceAttribute (convert_request (nr_EriClient r) (deviceOfEri eri))) rep).

Definition attaches (ev : event Ctl) : bool :=
  match ev with
  | Event (AttachNetworkInterface _) _ | Event (ModifyNetworkInterfaceAttribute _) _ => true
  | _ => false
  end.

(** C7: An interface is attached or converted by the two reconcilers
    together only after a selection for the instance of a node chose it: the
    request is for that interface, a secondary one to be attached and a primary
    one to be converted.  If the cloud answers a query by instance with that
    instance, the interface is attached to the instance of that node. *)
Theorem system_changes w l1 ev l2 :
  reachable w → w_log w = l1 ++ ev :: l2 → attaches ev = true →
  ∃ node instanceID eris eri tri trs,
    Event (S:=Ctl) (GetNode (node_Name node)) (inl node) ∈ l1 ∧
    tri `sublist_of` l1 ∧ exec (InstanceIDFromNode (nr_EriClient r) node) tri (Ret instanceID) ∧
    trs `sublist_of` l1 ∧ exec (SelectERIs (nr_EriClient r) instanceID) trs (Ret (Some eris)) ∧
    eri ∈ eris ∧ drives eri ev ∧ (Forall names_instance l1 → eri_InstanceID eri = instanceID).
Proof.
  intros [_ _ _ Hlog]%reachable_ok E Hev.
  destruct (Hlog l1 ev l2 E) as (name & d & (_ & (node & iid & eris & Hp) & _) & Hf); [by destruct ev as [[] ?]|].
  destruct (prov_eris _ _ _ _ _ Hp) as (trs & Hs & Hx). destruct (prov_instance _ _ _ _ _ Hp) as (tri & Hsi & Hxi).
  pose proof (prov_node _ _ _ _ _ Hp) as Hn.
  destruct Hf as [(dev & eni & Hd & _ & Hj)|(sts & rep & -> & _)]; [|done].
  rewrite (prov_devices _ _ _ _ _ Hp) in Hd. apply list_elem_of_fmap in Hd as (eri & -> & Hin).
  exists node, iid, eris, eri, tri, trs. split_and!; [done..| |].
  - unfold drives. destruct Hj as [rep Hpr _|rep Hpr _ _|rep _ _ _];
      [left|right|done]; split; [done|by eexists|done|by eexists].
  - intros Hsane. rewrite Forall_forall in Hsane. apply SelectERIs_instance in Hx.
    + rewrite Forall_forall in Hx. auto.
    + apply Forall_forall. intros x Hin'. apply Hsane. by apply (sublist_subseteq _ _ Hs).
Qed.

(** The list the agent of a node was given holds objects of the store that bear
    the node's label. *)
Definition listed_from (w : World) (nodeName : string) (ev : event Host) : Prop :=
  ∀ items d, ev = Event (S:=Host) (ListERdmaDevices nodeName) (inl items) → d ∈ items →
    (∃ name, held (w_past w) name d) ∧
    meta_Labels (device_ObjectMeta d) !! labelNodename = Some nodeName.

(** C8: What the agent of a node serves is what the controller selected: the
    plugin's devices were found, one by one, under the MAC addresses of the ERIs
    selected for the instance of the agent's own node. *)
Theorem agent_serves_selection `{BackoffLib} w polls ticks a cache tr clients plugin server :
  reachable w → ag_localERIDiscovery a = false →
  exec (Run polls ticks a cache) tr (Ret (Some (clients, plugin, server))) →
  Forall (listed_from w (ag_nodeName a)) tr →
  ∃ d node instanceID eris infos,
    provenance (w_log w) d node instanceID eris ∧ node_Name node = ag_nodeName a ∧
    Forall2 (λ eri info, info_MAC info = eri_MAC eri ∧ info_DevPaths info ≠ []) eris infos ∧
    dp_devices plugin = deviceMap infos ∧
    (∀ name info, dp_devices plugin !! name = Some info → ∃ eri, eri ∈ eris ∧ info_MAC info = eri_MAC eri).
Proof.
  intros [_ Hst _ _]%reachable_ok Hloc Hx Hlisted. apply Run_post in Hx as (d & infos & Hs).
  destruct (srv_listed _ _ _ _ _ _ _ Hs Hloc) as [rest Hin]. rewrite Forall_forall in Hlisted.
  destruct (Hlisted _ Hin _ d eq_refl ltac:(by left)) as [(name & s & Hpast & Hl) Hlab].
  destruct (Hst s Hpast name d Hl) as (_ & (node & iid & eris & Hp) & _).
  assert (Forall2 (λ eri info, info_MAC info = eri_MAC eri ∧ info_DevPaths info ≠ []) eris infos) as H2.
  { pose proof (srv_probed _ _ _ _ _ _ _ Hs) as Hpr. rewrite (prov_devices _ _ _ _ _ Hp) in Hpr.
    rewrite Forall2_fmap_l in Hpr. eapply Forall2_impl; [exact Hpr|]. by intros eri info (? & _ & ?). }
  exists d, node, iid, eris, infos. split_and!; [done| |done|by eapply srv_devices|].
  - rewrite (prov_labels _ _ _ _ _ Hp) in Hlab. rewrite lookup_insert_ne in Hlab by done.
    by apply lookup_singleton_Some in Hlab as [_ ?].
  - intros n info Hn. rewrite (srv_devices _ _ _ _ _ _ _ Hs) in Hn. apply deviceMap_elem in Hn.
    apply list_elem_of_lookup in Hn as [i Hi].
    destruct (Forall2_lookup_r _ _ _ _ _ H2 Hi) as (eri & He & Hm & _). exists eri.
    split; [by eapply list_elem_of_lookup_2|done].
Qed.

(** ** A world that can be run

    An API server that keeps its store in memory and always succeeds when it
    can, the passes running one after the other. *)

Definition memory_write (w : option Store) (live : Store) : result unit * Store :=
  match w with Some s => (inl tt, s) | None => (inr (ApiError Other "conflict"), live) end.

(** The reply to a call and the store after it; what is not the API server's is
    answered by [cloud]. *)
Definition memory_api (cloud : Env Ctl) (log : trace Ctl) (live : Store) (c : CtlCall) :
    ctl_reply c * Store :=
  match c as c return ctl_reply c * Store with
  | GetNode name =>
      (match cloud log (GetNode name) with
       | inl node => if decide (node_Name node = name) then inl node else inr (ApiError NotFound "not found")
       | inr err => inr err
       end, live)
  | GetDevice name =>
      (match live !! name with Some d => inl d | None => inr (ApiError NotFound "not found") end, live)
  | ListDevices label value =>
      (inl (filter (λ d, meta_Labels (device_ObjectMeta d) !! label = Some value) (map_to_list live).*2), live)
  | CreateDevice d =>
      memory_write (match live !! device_name d with
                    | None => Some (<[device_name d := withStatus d []]> live) | Some _ => None end) live
  | CreateOrPatchDevice d =>
      memory_write (cur ← live !! device_name d;
        Some (put (device_name d) (marked cur (meta_Finalizers (device_ObjectMeta d))
                                     (meta_DeletionTimestamp (device_ObjectMeta cur))) live)) live
  | DeleteDevice name =>
      memory_write (cur ← live !! name;
        Some (put name (marked cur (meta_Finalizers (device_ObjectMeta cur)) (Some 0%Z)) live)) live
  | UpdateDeviceStatus d =>
      memory_write (cur ← live !! device_name d;
        if decide (d = withStatus cur (status_Devices (device_Status d)))
        then Some (<[device_name d := d]> live) else None) live
  | c => (cloud log c, live)
  end.

Lemma memory_written w live (P : Store → Store → Prop) :
  (∀ s, w = Some s → P live s) → written P live (memory_write w live).1 (memory_write w live).2.
Proof. intros Hw. destruct w; simpl; [by apply Hw|by left]. Qed.

Lemma memory_api_ok cloud log live past c : live ∈ past →
  read_ok past (Event (S:=Ctl) c (memory_api cloud log live c).1) ∧
  write_ok live (Event (S:=Ctl) c (memory_api cloud log live c).1) (memory_api cloud log live c).2.
Proof.
  intros Hin. destruct c; split; try done.
  - simpl. destruct (cloud log (GetNode name)) as [node|]; [|done]. by destruct (decide _).
  - simpl. destruct (live !! name) as [d|] eqn:E; [|done]. by exists live.
  - simpl. intros d [Hl Hd]%list_elem_of_filter. split; [|done].
    apply list_elem_of_fmap in Hd as ([name d'] & -> & Hd%elem_of_map_to_list). by exists name, live.
  - apply memory_written. intros s. destruct (live !! device_name d) eqn:E; [done|]. by intros [= <-].
  - apply memory_written. intros s. destruct (live !! device_name d) as [cur|] eqn:E; [|done].
    intros [= <-]. by exists cur.
  - apply memory_written. intros s. destruct (live !! name) as [cur|] eqn:E; [|done].
    intros [= <-]. by exists cur, 0%Z.
  - apply memory_written. intros s. destruct (live !! device_name d) as [cur|] eqn:E; simpl; [|done].
    destruct (decide _) as [Ed|]; [|done]. intros [= <-]. by exists cur.
Qed.

(** A pass run to its end *)
Fixpoint drive (cloud : Env Ctl) (live : Store) (past : list Store) (log : trace Ctl)
    (p : prog Ctl unit) : Store * list Store * trace Ctl :=
  match p with
  | Done _ => (live, past, log)
  | Do c k =>
      let '(rep, s) := memory_api cloud log live c in
      drive cloud s (s :: past) (log ++ [Event (S:=Ctl) c rep]) (k rep)
  end.

Definition play (cloud : Env Ctl) (ps : list Pass) : World :=
  fold_left (λ w p, let '(live, past, log) := drive cloud (w_live w) (w_past w) (w_log w) (pass_prog p) in
                    mkWorld live past log []) ps world0.

Lemma drive_steps cloud p0 p live past log tr : live ∈ past →
  ∃ tr' o, let '(live', past', log') := drive cloud live past log p in
    live' ∈ past' ∧
    rtc world_step (mkWorld live past log [mkRunning p0 tr p])
                   (mkWorld live' past' log' [mkRunning p0 tr' (Done o)]).
Proof.
  revert live past log tr; induction p as [o|c k IH]; intros live past log tr Hin.
  - exists tr, o. by split; [|apply rtc_refl].
  - simpl. destruct (memory_api_ok cloud log live past c Hin) as [Hr Hw].
    destruct (memory_api cloud log live c) as [rep s] eqn:E. simpl in Hr, Hw.
    destruct (IH rep s (s :: past) (log ++ [Event (S:=Ctl) c rep]) (tr ++ [Event (S:=Ctl) c rep]))
      as (tr' & o & Hd); [by left|]. exists tr', o.
    destruct (drive _ _ _ _ _) as [[live' past'] log']. destruct Hd as [Hin' Hs]. split; [done|].
    eapply rtc_l; [|exact Hs]. by apply (world_call (mkWorld live past log [mkRunning p0 tr (Do c k)]) [] p0 tr c k [] rep s).
Qed.

Lemma play_reachable cloud ps : reachable (play cloud ps).
Proof.
  enough (w_live (play cloud ps) ∈ w_past (play cloud ps) ∧ w_running (play cloud ps) = [] ∧
          reachable (play cloud ps)) by tauto.
  induction ps as [|p ps IH] using rev_ind; [split_and!; [by left|done|apply rtc_refl]|].
  unfold play in *. rewrite fold_left_app. cbn [fold_left].
  destruct (fold_left _ ps world0) as [live past log running]. simpl in IH.
  destruct IH as (Hin & -> & Hr). simpl.
  destruct (drive_steps cloud p (pass_prog p) live past log [] Hin) as (tr' & o & Hd).
  destruct (drive _ _ _ _ _) as [[live' past'] log']. destruct Hd as [Hin' Hs]. simpl.
  split_and!; [done..|]. unfold reachable. etrans; [exact Hr|].
  eapply rtc_l; [apply (world_begin (mkWorld live past log []) p)|]. etrans; [exact Hs|].
  apply rtc_once. by apply (world_end (mkWorld live' past' log' [mkRunning p tr' (Done o)]) [] (mkRunning p tr' (Done o)) []).
Qed.

End System.

(** ** The properties at concrete inputs *)

(** A node whose instance has one network card and its ordinary primary ENI:
    the ENI is selected, the object written, the ENI converted. *)
Definition y_primary : ENI :=
  mkENI (Some "eni-p") (Some "Standard") None (Some "Primary") (Some "00:16:3e:00:00:01")
    (Some (mkAttachment None)) (Some "i-1") (Some "InUse") (Some []).

Definition y_type : InstanceType := mkInstanceType (Some "ecs.two-cards") (Some 1) None (Some 8) None.

Definition y_cloud : Env Ctl :=
  inventory_env (mkInventory [two_card_instance] [y_type] [y_primary] (Some (node1 "True" None)) [] 0).

Definition y_world : World :=
  play (H := intervalWait) n_reconciler y_cloud [NodePass "node-1" ∅; DevicePass "node-1"].

Definition y_device : ERdmaDevice := default (localDevice []) (w_live y_world !! "node-1").

Lemma y_reachable : reachable (H := intervalWait) n_reconciler y_world.
Proof. apply play_reachable. Defined.

Lemma y_stored : w_live y_world ∈ w_past y_world ∧ w_live y_world !! "node-1" = Some y_device.
Proof. split; [vm_compute; left|vm_compute; reflexivity]. Defined.

Lemma system_objects_witness :
  statuses_ok y_device ∧ length (status_Devices (device_Status y_device)) = 1%nat ∧
  ∃ node instanceID eris, node_Name node = "node-1" ∧
    provenance n_reconciler (w_log y_world) y_device node instanceID eris.
Proof.
  destruct y_stored as [Hin Hl].
  destruct (system_objects (H := intervalWait) _ _ _ _ _ y_reachable Hin Hl) as [H1 H2].
  split; [exact H1|]. split; [vm_compute; reflexivity|exact H2].
Defined.

Lemma system_changes_witness :
  ∃ l1 ev l2 instanceID eris eri trs, w_log y_world = l1 ++ ev :: l2 ∧
    exec (SelectERIs (nr_EriClient n_reconciler) instanceID) trs (Ret (Some eris)) ∧
    trs `sublist_of` l1 ∧ eri ∈ eris ∧ drives n_reconciler eri ev.
Proof.
  destruct (find_first attaches (w_log y_world)) as [ev|] eqn:E; [|vm_compute in E; discriminate E].
  apply find_first_Some in E as (l1 & l2 & E & Hev & _).
  destruct (system_changes (H := intervalWait) _ _ _ _ _ y_reachable E Hev)
    as (node & iid & eris & eri & tri & trs & _ & _ & _ & H1 & H2 & H3 & H4 & _).
  exists l1, ev, l2, iid, eris, eri, trs. split; [exact E|]. split; [exact H2|].
  split; [exact H1|]. split; [exact H3|exact H4].
Defined.

(** The agent of that node is given the object. *)
Definition y_host : Env Host := λ h c,
  match c as c return host_reply c with
  | ListERdmaDevices _ => inl [y_device]
  | c => a_env h c
  end.

#[local] Existing Instance plainBackoff.

Lemma y_listed : Forall (listed_from y_world "node-1") (run y_host [] a_run).2.
Proof.
  eapply Forall_impl; [apply run_replies|]. intros ev (h & c & ->) items d E Hd.
  assert (c = ListERdmaDevices "node-1") as -> by
    exact (f_equal (λ ev : event Host, match ev with Event c _ => c end) E).
  apply (Event_inj (S:=Host)) in E. injection E as <-. apply list_elem_of_singleton in Hd as ->.
  split; [|vm_compute; reflexivity]. exists "node-1", (w_live y_world). exact y_stored.
Defined.

Lemma agent_serves_selection_witness :
  ∃ node (eris : list ERI), node_Name node = "node-1" ∧
    ∃ eri, eri ∈ eris ∧ info_MAC i_info = eri_MAC eri.
Proof.
  assert ((run y_host [] a_run).1 = Ret (Some (a_clients, a_plugin,
    mkServer "/var/lib/kubelet/device-plugins/1700000000-erdma.sock" true true true))) as E
    by (vm_compute; reflexivity).
  destruct (agent_serves_selection (H := intervalWait) n_reconciler y_world 1 2 a_agent None _ _ _ _
    y_reachable eq_refl (run_returns y_host _ _ E) y_listed)
    as (d & node & iid & eris & infos & _ & Hn & _ & _ & Hdev).
  exists node, eris. split; [exact Hn|]. apply (Hdev "erdma_0"). vm_compute. reflexivity.
Defined.
